(** * GOON codec: a shallow embedding of the encoder, the decoder and
      their shared utilities, with the properties of the specification.

    Sources embedded here: [utils.ts] (limits, key safety, tabular
    detection, dictionary builder, quoting, primitive codec), [encode.ts]
    and [decode.ts] with their generators, and, of [cli.ts], the reading
    of the arguments and the detection of the mode.

    Conventions of the embedding.
    - A JavaScript string is a [string]: a sequence of code units below
      256 (Latin-1).  Its UTF-8 size counts one byte for a unit below 128
      and two bytes otherwise.
    - A JavaScript number is a [number]: NaN, an infinity, or a finite
      decimal [mantissa * 10^-scale].  On the doubles that are written
      without an exponent and with at most fifteen significant digits,
      [String] and [parseFloat] are exact decimal conversions, and that
      is what [number_to_string] and [parseFloat] are here.  Where the
      code computes with numbers (the footer of a table) the arithmetic
      is that of binary64 ([Double]), on the doubles nearest to the
      decimals.
    - The options of the encoder hold values of their declared types,
      but for [indent], the one option whose type the code checks: it is
      a string or a value that is not one.
    - An object is the list of its own enumerable properties in
      [Object.keys] order (keys are unique; the keys used are not
      canonical array indices, which JavaScript would enumerate first),
      together with its prototype.
    - [throw] is the [Throw] result, [Throws] in the decoder; the
      cursor of the decoder is threaded explicitly, and its loops are
      given fuel, which is shown to be enough
      ([decode_has_enough_fuel]). *)

From Stdlib Require Import String Ascii List ZArith NArith Lia Bool Arith.
From Stdlib Require Import DecimalString Decimal DecimalN Sorted Permutation.
From Stdlib Require Import SpecFloat.
From Stdlib Require OrderedTypeEx.
Import ListNotations.
Open Scope string_scope.
Open Scope nat_scope.


(** ** JavaScript strings *)

Module JS.

Definition TAB : ascii := "009"%char.
Definition LF : ascii := "010"%char.
Definition CR : ascii := "013"%char.
Definition QUOTE : ascii := "034"%char.
Definition BACKSLASH : ascii := "\"%char.

Definition code (c : ascii) : nat := nat_of_ascii c.

(** [\d] *)
Definition is_digit (c : ascii) : bool :=
  (48 <=? code c) && (code c <=? 57).

(** [\w] *)
Definition is_word (c : ascii) : bool :=
  is_digit c
  || ((65 <=? code c) && (code c <=? 90))
  || ((97 <=? code c) && (code c <=? 122))
  || Ascii.eqb c "_".

(** [[\w.]] *)
Definition is_key_char (c : ascii) : bool :=
  is_word c || Ascii.eqb c ".".

(** [\s], and what [trim] strips: white space and line terminators. *)
Definition is_space (c : ascii) : bool :=
  ((9 <=? code c) && (code c <=? 13)) || (code c =? 32) || (code c =? 160).

(** what [.] does not match *)
Definition is_line_terminator (c : ascii) : bool :=
  Ascii.eqb c LF || Ascii.eqb c CR.

Fixpoint all_chars (p : ascii -> bool) (s : string) : bool :=
  match s with
  | EmptyString => true
  | String c s' => p c && all_chars p s'
  end.

Fixpoint any_char (p : ascii -> bool) (s : string) : bool :=
  match s with
  | EmptyString => false
  | String c s' => p c || any_char p s'
  end.

Definition is_empty (s : string) : bool :=
  match s with EmptyString => true | _ => false end.

(** The longest prefix of characters satisfying [p], and the rest. *)
Fixpoint span (p : ascii -> bool) (s : string) : string * string :=
  match s with
  | EmptyString => (EmptyString, EmptyString)
  | String c s' =>
      if p c then let (a, b) := span p s' in (String c a, b)
      else (EmptyString, s)
  end.

Fixpoint drop_while (p : ascii -> bool) (s : string) : string :=
  match s with
  | EmptyString => EmptyString
  | String c s' => if p c then drop_while p s' else s
  end.

Fixpoint rev_onto (s acc : string) : string :=
  match s with
  | EmptyString => acc
  | String c s' => rev_onto s' (String c acc)
  end.

Definition rev (s : string) : string := rev_onto s EmptyString.

Definition trim_start (s : string) : string := drop_while is_space s.
Definition trim_end (s : string) : string := rev (drop_while is_space (rev s)).

(** [s.trim()] *)
Definition trim (s : string) : string := trim_end (trim_start s).

(** [s.startsWith(p)] *)
Fixpoint startsWith (s p : string) {struct p} : bool :=
  match p with
  | EmptyString => true
  | String c p' =>
      match s with
      | String x s' => Ascii.eqb x c && startsWith s' p'
      | EmptyString => false
      end
  end.

(** [s.endsWith(p)] *)
Definition endsWith (s p : string) : bool := startsWith (rev s) (rev p).

Fixpoint drop (n : nat) (s : string) : string :=
  match n, s with
  | O, _ => s
  | S n', String _ s' => drop n' s'
  | S _, EmptyString => EmptyString
  end.

Fixpoint take (n : nat) (s : string) : string :=
  match n, s with
  | S n', String c s' => String c (take n' s')
  | _, _ => EmptyString
  end.

(** [s.slice(1, -1)] *)
Definition slice_1_m1 (s : string) : string :=
  take (String.length s - 2) (drop 1 s).

(** [s.split(d)] for a one-character separator [d]. *)
Fixpoint split_go (d : ascii) (s : string) (cur : string) : list string :=
  match s with
  | EmptyString => [rev cur]
  | String c s' =>
      if Ascii.eqb c d then rev cur :: split_go d s' EmptyString
      else split_go d s' (String c cur)
  end.

Definition split (d : ascii) (s : string) : list string :=
  split_go d s EmptyString.

(** [l.join(sep)] *)
Definition join (sep : string) (l : list string) : string :=
  String.concat sep l.

(** [s.repeat(n)] *)
Fixpoint repeat_string (s : string) (n : nat) : string :=
  match n with
  | O => EmptyString
  | S n' => s ++ repeat_string s n'
  end.

(** [s.lastIndexOf(c)]: [None] stands for -1. *)
Fixpoint lastIndexOf_from (c : ascii) (s : string) (i : nat)
    (found : option nat) : option nat :=
  match s with
  | EmptyString => found
  | String x s' =>
      lastIndexOf_from c s' (S i) (if Ascii.eqb x c then Some i else found)
  end.

Definition lastIndexOf (c : ascii) (s : string) : option nat :=
  lastIndexOf_from c s 0 None.

(** Every occurrence of the character [c] replaced by [by_]:
    [s.replace(/c/g, by_)]. *)
Fixpoint replace_all (c : ascii) (by_ : string) (s : string) : string :=
  match s with
  | EmptyString => EmptyString
  | String x s' =>
      if Ascii.eqb x c then by_ ++ replace_all c by_ s'
      else String x (replace_all c by_ s')
  end.

(** [new TextEncoder().encode(s).length] *)
Fixpoint utf8_length (s : string) : Z :=
  match s with
  | EmptyString => 0
  | String c s' => (if code c <? 128 then 1 else 2) + utf8_length s'
  end.

(** The decimal numeral of a natural number, and back
    ([parseInt(s, 10)] on a string of digits). *)
Definition decimal_of_N (n : N) : string :=
  NilZero.string_of_uint (N.to_uint n).

Definition digit_value (c : ascii) : N := N.of_nat (code c - 48).

Fixpoint digits_value_from (acc : N) (s : string) : N :=
  match s with
  | EmptyString => acc
  | String c s' => digits_value_from (acc * 10 + digit_value c) s'
  end.

Definition digits_value (s : string) : N := digits_value_from 0 s.

(** [/^\d+$/.test(s)] *)
Definition all_digits (s : string) : bool :=
  negb (is_empty s) && all_chars is_digit s.

End JS.

Import JS.

(** ** Values ([types.ts]) *)

(** A JavaScript number.  [Finite m e] is [m * 10^-e]; when [e] is not 0
    the last digit of [m] is not 0, so that a number is written in one
    way only. *)
Inductive number : Type :=
  | NaN
  | Infinity (negative : bool)
  | Finite (mantissa : Z) (scale : nat).

(** [Number.isFinite] *)
Definition isFinite (n : number) : bool :=
  match n with Finite _ _ => true | _ => false end.

(** [a === b] on numbers: NaN is not equal to itself. *)
Definition number_eqb (a b : number) : bool :=
  match a, b with
  | Infinity x, Infinity y => Bool.eqb x y
  | Finite m e, Finite m' e' => Z.eqb m m' && Nat.eqb e e'
  | _, _ => false
  end.

Definition pad_zeros (width : nat) (s : string) : string :=
  repeat_string "0" (width - String.length s) ++ s.

(** [String(n)] *)
Definition number_to_string (n : number) : string :=
  match n with
  | NaN => "NaN"
  | Infinity false => "Infinity"
  | Infinity true => "-Infinity"
  | Finite m O =>
      (if (m <? 0)%Z then "-" else "") ++ decimal_of_N (Z.abs_N m)
  | Finite m e =>
      let a := Z.abs_N m in
      let p := (10 ^ N.of_nat e)%N in
      (if (m <? 0)%Z then "-" else "")
      ++ decimal_of_N (a / p) ++ "." ++ pad_zeros e (decimal_of_N (a mod p))
  end.

(** [parseFloat(s)] for [s] matching [/^-?\d+(\.\d+)?$/]. *)
Definition parseFloat (s : string) : number :=
  let '(neg, body) :=
    match s with
    | String "-" r => (true, r)
    | _ => (false, s)
    end in
  let '(ip, rest) := span is_digit body in
  let fp :=
    match rest with
    | String "." f => rev (drop_while (Ascii.eqb "0") (rev f))
    | _ => EmptyString
    end in
  let m := Z.of_N (digits_value (ip ++ fp)) in
  Finite (if neg then (- m)%Z else m) (String.length fp).

(** ** Doubles

    The arithmetic of the footer of a table is the arithmetic of IEEE
    754 binary64, round to nearest even, as [SpecFloat] defines it. *)
Module Double.

Definition double : Type := spec_float.

Definition prec : Z := 53.
Definition emax : Z := 1024.

Definition add : double -> double -> double := SFadd prec emax.
Definition mul : double -> double -> double := SFmul prec emax.
Definition div : double -> double -> double := SFdiv prec emax.

(** The double nearest to an integer. *)
Definition of_Z (z : Z) : double := binary_normalize prec emax z 0 false.

(** The double nearest to [m * 10^p]. *)
Definition of_decimal (m : Z) (p : Z) : double :=
  match m with
  | Z0 => S754_zero false
  | _ =>
      if (0 <=? p)%Z then of_Z (m * 10 ^ p)
      else div (S754_finite (m <? 0)%Z (Z.to_pos (Z.abs m)) 0)
               (S754_finite false (Z.to_pos (10 ^ (- p))) 0)
  end.

(** The double a number of the data is. *)
Definition of_number (n : number) : double :=
  match n with
  | NaN => S754_nan
  | Infinity negative => S754_infinity negative
  | Finite m e => of_decimal m (- Z.of_nat e)
  end.

(** [Math.round]: the integer nearest to [x], the greater one of two. *)
Definition round (x : double) : double :=
  match x with
  | S754_finite s m e =>
      if (0 <=? e)%Z then x
      else
        let v := if s then Z.neg m else Z.pos m in
        let half := (2 ^ (- e - 1))%Z in
        let n := ((v + half) / (2 * half))%Z in
        if (n =? 0)%Z then S754_zero s else of_Z n
  | _ => x
  end.

Definition eqb (x y : double) : bool :=
  match x, y with
  | S754_finite s m e, S754_finite s' m' e' =>
      Bool.eqb s s' && Pos.eqb m m' && Z.eqb e e'
  | _, _ => false
  end.

(** A positive double as a fraction. *)
Definition fraction (m : positive) (e : Z) : Z * Z :=
  if (0 <=? e)%Z then (Z.pos m * 2 ^ e, 1)%Z else (Z.pos m, 2 ^ (- e))%Z.

(** The [n] with [10^(n-1) <= num/den < 10^n]. *)
Fixpoint magnitude_up (fuel : nat) (num den : Z) (n : Z) : Z :=
  match fuel with
  | O => n
  | S fuel' =>
      if (num <? den * 10 ^ n)%Z then n
      else magnitude_up fuel' num den (n + 1)
  end.

Fixpoint magnitude_down (fuel : nat) (num den : Z) (n : Z) : Z :=
  match fuel with
  | O => n
  | S fuel' =>
      if (den <=? num * 10 ^ (1 - n))%Z then n
      else magnitude_down fuel' num den (n - 1)
  end.

Definition magnitude (num den : Z) : Z :=
  if (den <=? num)%Z then magnitude_up 400 num den 1
  else magnitude_down 400 num den 0.

(** [s * 10^(n-k)] for the [k] digits [s]: the candidates next to the
    fraction, below it and above it, and which of them is nearer. *)
Definition scaled (num den : Z) (p : Z) : Z * Z :=
  if (0 <=? p)%Z then (num * 10 ^ p, den)%Z else (num, den * 10 ^ (- p))%Z.

Definition shortest_at (x : double) (num den n : Z) (k : nat)
    : option (Z * Z) :=
  let '(snum, sden) := scaled num den (Z.of_nat k - n) in
  let lo := (snum / sden)%Z in
  let hi := (lo + 1)%Z in
  let back s := eqb (of_decimal s (n - Z.of_nat k)) x in
  let answer s :=
    if (s =? 10 ^ Z.of_nat k)%Z then Some (10 ^ (Z.of_nat k - 1), n + 1)%Z
    else Some (s, n) in
  match back lo, back hi with
  | true, true =>
      match (2 * snum ?= (2 * lo + 1) * sden)%Z with
      | Lt => answer lo
      | Gt => answer hi
      | Eq => if Z.even lo then answer lo else answer hi
      end
  | true, false => answer lo
  | false, true => answer hi
  | false, false => None
  end.

Fixpoint shortest_from (x : double) (num den n : Z) (k fuel : nat)
    : Z * Z * nat :=
  match fuel with
  | O => (0%Z, n, k)
  | S fuel' =>
      match shortest_at x num den n k with
      | Some (s, n') => (s, n', k)
      | None => shortest_from x num den n (S k) fuel'
      end
  end.

(** [Number::toString] of a positive double. *)
Definition positive_to_string (x : double) (m : positive) (e : Z) : string :=
  let '(num, den) := fraction m e in
  let '(s, n, k) := shortest_from x num den (magnitude num den) 1 17 in
  let digits := decimal_of_N (Z.to_N s) in
  let exponent (ex : Z) :=
    "e" ++ (if (ex <? 0)%Z then "-" else "+") ++ decimal_of_N (Z.abs_N ex) in
  if (Z.of_nat k <=? n)%Z && (n <=? 21)%Z then
    digits ++ repeat_string "0" (Z.to_nat n - k)
  else if (0 <? n)%Z && (n <=? 21)%Z then
    take (Z.to_nat n) digits ++ "." ++ drop (Z.to_nat n) digits
  else if (-6 <? n)%Z && (n <=? 0)%Z then
    "0." ++ repeat_string "0" (Z.to_nat (- n)) ++ digits
  else if k =? 1 then digits ++ exponent (n - 1)%Z
  else take 1 digits ++ "." ++ drop 1 digits ++ exponent (n - 1)%Z.

(** [String(x)] *)
Definition to_string (x : double) : string :=
  match x with
  | S754_nan => "NaN"
  | S754_zero _ => "0"
  | S754_infinity false => "Infinity"
  | S754_infinity true => "-Infinity"
  | S754_finite s m e =>
      (if s then "-" else "")
      ++ positive_to_string (S754_finite false m e) m e
  end.

End Double.

(** The prototype of an object: [Object.prototype] for an object
    literal or the result of [JSON.parse], none for
    [Object.create(null)]. *)
Inductive prototype : Type := ObjectPrototype | NullPrototype.

(** [GoonValue] *)
Unset Elimination Schemes.
Inductive GoonValue : Type :=
  | VNull
  | VBool (b : bool)
  | VNum (n : number)
  | VStr (s : string)
  | VArr (items : list GoonValue)
  | VObj (proto : prototype) (props : list (string * GoonValue)).
Set Elimination Schemes.

Section GoonValue_induction.
Variable P : GoonValue -> Prop.
Hypothesis HNull : P VNull.
Hypothesis HBool : forall b, P (VBool b).
Hypothesis HNum : forall n, P (VNum n).
Hypothesis HStr : forall s, P (VStr s).
Hypothesis HArr : forall items, Forall P items -> P (VArr items).
Hypothesis HObj :
  forall proto props, Forall (fun kv => P (snd kv)) props ->
                      P (VObj proto props).

Fixpoint GoonValue_ind' (v : GoonValue) : P v :=
  match v with
  | VNull => HNull
  | VBool b => HBool b
  | VNum n => HNum n
  | VStr s => HStr s
  | VArr items =>
      HArr items ((fix go (l : list GoonValue) : Forall P l :=
               match l with
               | [] => Forall_nil _
               | x :: l' => Forall_cons x (GoonValue_ind' x) (go l')
               end) items)
  | VObj proto props =>
      HObj proto props
        ((fix go (l : list (string * GoonValue))
            : Forall (fun kv => P (snd kv)) l :=
            match l with
            | [] => Forall_nil _
            | kv :: l' =>
                Forall_cons kv (GoonValue_ind' (snd kv)) (go l')
            end) props)
  end.
End GoonValue_induction.

(** What a call produces: a value, or the error it throws.  [TypeError]
    is the error of the engine for a call of what is not a function or a
    property of [undefined]; its message is the engine's. *)
Inductive error : Type :=
  | GoonEncodeError (message : string)
  | GoonDecodeError (message : string) (line : option nat)
  | Error (message : string)
  | TypeError.

Inductive result (A : Type) : Type :=
  | Ok (a : A)
  | Throw (e : error).
Arguments Ok {A} a.
Arguments Throw {A} e.

Definition bind {A B} (r : result A) (k : A -> result B) : result B :=
  match r with
  | Ok a => k a
  | Throw e => Throw e
  end.

Notation "'let*' x ':=' r 'in' k" := (bind r (fun x => k))
  (at level 10, x pattern, r at level 100, k at level 200).

(** The cell delimiter: [',' | '|' | '\t']. *)
Inductive Delimiter : Type := Comma | Pipe | Tab.

Definition delimiter_char (d : Delimiter) : ascii :=
  match d with Comma => ","%char | Pipe => "|"%char | Tab => TAB end.

Definition delimiter_string (d : Delimiter) : string :=
  String (delimiter_char d) "".

(** ** Sorting

    [Array.prototype.sort] is stable; an insertion sort on a
    total [leb] is too: an element goes before the first element it is
    not after. *)
Section Sort.
Context {A : Type} (leb : A -> A -> bool).

Fixpoint insert_sorted (x : A) (l : list A) : list A :=
  match l with
  | [] => [x]
  | y :: l' => if leb x y then x :: l else y :: insert_sorted x l'
  end.

Definition sort_by (l : list A) : list A :=
  fold_right insert_sorted [] l.
End Sort.

(** [l.sort()] on strings: by code units. *)
Definition sort_strings (l : list string) : list string :=
  sort_by String.leb l.

(** ** Utilities ([utils.ts]) *)

Module Utils.

Definition MAX_REPEAT_COUNT : Z := 10000.
Definition MAX_RECURSION_DEPTH : Z := 100.
Definition MAX_INPUT_SIZE : Z := 10 * 1024 * 1024.

Definition DANGEROUS_KEYS : list string :=
  [ "__proto__"; "constructor"; "prototype";
    "__defineGetter__"; "__defineSetter__";
    "__lookupGetter__"; "__lookupSetter__" ].

Definition isSafeKey (key : string) : bool :=
  negb (existsb (String.eqb key) DANGEROUS_KEYS).

(** The arrays and the objects of the data model are the only
    non-primitive values, and every such object answers
    [[object Object]]. *)
Definition isPlainObject (value : GoonValue) : bool :=
  match value with VObj _ _ => true | _ => false end.

Definition isArray (value : GoonValue) : bool :=
  match value with VArr _ => true | _ => false end.

Definition isPrimitive (value : GoonValue) : bool :=
  match value with
  | VNull | VStr _ | VNum _ | VBool _ => true
  | _ => false
  end.

(** [Object.keys(o)], [Object.values(o)], [Object.entries(o)] and [o[key]]
    ([None] is [undefined]). *)
Definition Object_entries (o : GoonValue) : list (string * GoonValue) :=
  match o with VObj _ props => props | _ => [] end.

Definition Object_keys (o : GoonValue) : list string :=
  map fst (Object_entries o).

Definition Object_values (o : GoonValue) : list GoonValue :=
  map snd (Object_entries o).

Fixpoint assoc {A} (key : string) (l : list (string * A)) : option A :=
  match l with
  | [] => None
  | (k, v) :: l' => if String.eqb k key then Some v else assoc key l'
  end.

Definition get_prop (o : GoonValue) (key : string) : option GoonValue :=
  assoc key (Object_entries o).

(** [obj[k] = v] on the properties of an object: the property is
    replaced where it is, or added last. *)
Fixpoint set_prop (props : list (string * GoonValue)) (k : string)
    (v : GoonValue) : list (string * GoonValue) :=
  match props with
  | [] => [(k, v)]
  | (k', v') :: rest =>
      if String.eqb k' k then (k', v) :: rest
      else (k', v') :: set_prop rest k v
  end.

(** [l.every((x, i) => f x i)] *)
Fixpoint every_from {A} (f : A -> nat -> bool) (i : nat) (l : list A)
    : bool :=
  match l with
  | [] => true
  | x :: l' => f x i && every_from f (S i) l'
  end.

Definition every_i {A} (f : A -> nat -> bool) (l : list A) : bool :=
  every_from f 0 l.

Definition isTabularArray (arr : list GoonValue) : bool :=
  match arr with
  | [] => false
  | first :: _ =>
      if negb (forallb isPlainObject arr) then false
      else
        let firstKeys := sort_strings (Object_keys first) in
        if length firstKeys =? 0 then false
        else
          forallb
            (fun item =>
               if negb (isPlainObject item) then false
               else
                 let keys := sort_strings (Object_keys item) in
                 if negb (length keys =? length firstKeys) then false
                 else
                   every_i
                     (fun key i =>
                        match nth_error firstKeys i with
                        | Some k =>
                            if negb (String.eqb key k) then false
                            else
                              match get_prop item key with
                              | Some value => isPrimitive value
                              | None => false
                              end
                        | None => false
                        end)
                     keys)
            arr
  end.

(** *** The dictionary builder *)

Record Dictionary : Type := {
  entries : list string;
  lookup : list (string * string)
}.

(** [counts.set(v, (counts.get(v) || 0) + 1)] on a [Map], which keeps
    its keys in the order of their first insertion. *)
Fixpoint counts_incr (s : string) (counts : list (string * Z))
    : list (string * Z) :=
  match counts with
  | [] => [(s, 1%Z)]
  | (k, n) :: rest =>
      if String.eqb k s then (k, (n + 1)%Z) :: rest
      else (k, n) :: counts_incr s rest
  end.

(** [scan], with the closure variable [depth] as an argument. *)
Fixpoint scan (minLength : Z) (depth : Z) (v : GoonValue)
    (counts : list (string * Z)) {struct v} : list (string * Z) :=
  if (depth >? MAX_RECURSION_DEPTH)%Z then counts
  else
    match v with
    | VStr s =>
        if (Z.of_nat (String.length s) >=? minLength)%Z
        then counts_incr s counts
        else counts
    | VArr items =>
        fold_left (fun c item => scan minLength (depth + 1) item c)
                  items counts
    | VObj _ props =>
        fold_left (fun c kv => scan minLength (depth + 1) (snd kv) c)
                  props counts
    | _ => counts
    end.

Record Candidate : Type := {
  str : string;
  count : Z;
  savings : Z
}.

Definition DICT_LINE_OVERHEAD_CHARS : Z := 10.

(** [l.map((x, i) => f x i)] *)
Fixpoint map_from {A B} (f : A -> nat -> B) (i : nat) (l : list A)
    : list B :=
  match l with
  | [] => []
  | x :: l' => f x i :: map_from f (S i) l'
  end.

Definition map_i {A B} (f : A -> nat -> B) (l : list A) : list B :=
  map_from f 0 l.

Definition strlen (s : string) : Z := Z.of_nat (String.length s).

Definition make_candidate (e : string * Z) (potentialIndex : nat)
    : Candidate :=
  let refLength : Z :=
    if potentialIndex <? 10 then 2%Z
    else if potentialIndex <? 100 then 3%Z else 4%Z in
  let dictCost := (strlen (fst e) + 1)%Z in
  {| str := fst e;
     count := snd e;
     savings := ((strlen (fst e) - refLength) * snd e - dictCost)%Z |}.

Definition candidates_of (counts : list (string * Z)) (minOccurrences : Z)
    : list Candidate :=
  sort_by (fun a b => (savings b - savings a <=? 0)%Z)
    (filter (fun c => (savings c >? DICT_LINE_OVERHEAD_CHARS)%Z)
       (map_i make_candidate
          (filter (fun e => (snd e >=? minOccurrences)%Z) counts))).

Definition counts_get (counts : list (string * Z)) (s : string) : Z :=
  match assoc s counts with Some n => n | None => 0%Z end.

(** The loop over the candidates; [break] ends it. *)
Fixpoint select (counts : list (string * Z)) (maxEntries : Z)
    (cands : list Candidate) (d : Dictionary) : Dictionary :=
  match cands with
  | [] => d
  | c :: rest =>
      if (maxEntries >? 0)%Z
         && (Z.of_nat (length (entries d)) >=? maxEntries)%Z
      then d
      else
        let index := length (entries d) in
        let count := counts_get counts (str c) in
        let dictCost := (strlen (str c) + 1)%Z in
        let refLength := 2%Z in
        let actualSavings :=
          ((strlen (str c) - refLength) * count - dictCost)%Z in
        if (actualSavings >? 0)%Z then
          select counts maxEntries rest
            {| entries := entries d ++ [str c];
               lookup := lookup d
                 ++ [(str c, "$" ++ decimal_of_N (N.of_nat index))] |}
        else select counts maxEntries rest d
  end.

Definition buildDictionary (value : GoonValue)
    (minLength minOccurrences maxEntries : Z) : Dictionary :=
  let counts := scan minLength 0 value [] in
  select counts maxEntries (candidates_of counts minOccurrences)
    {| entries := []; lookup := [] |}.

(** *** Quoting and escaping *)

(** [/^-?\d+(\.\d+)?$/.test(s)] *)
Definition looks_numeric (s : string) : bool :=
  let body := match s with String "-" r => r | _ => s end in
  let '(ip, rest) := span is_digit body in
  negb (is_empty ip)
  && match rest with
     | EmptyString => true
     | String "." f => all_digits f
     | _ => false
     end.

(** [/^\$\d+$/.test(s)] *)
Definition looks_reference (s : string) : bool :=
  match s with
  | String "$" ds => all_digits ds
  | _ => false
  end.

(** [/\*\d+$/.test(s)] *)
Definition looks_run_length (s : string) : bool :=
  let '(ds, before) := span is_digit (rev s) in
  negb (is_empty ds)
  && match before with String "*" _ => true | _ => false end.

Definition needsQuoting (s : string) : bool :=
  if String.eqb s "" then false
  else if String.length s =? 0 then true
  else if existsb (String.eqb s) ["T"; "F"; "_"; "~"; "^"] then true
  else if match s with
          | String c _ => Ascii.eqb c "$" || Ascii.eqb c "^"
          | EmptyString => false
          end then true
  else if any_char
            (fun c => Ascii.eqb c "|" || Ascii.eqb c LF
                      || Ascii.eqb c CR || Ascii.eqb c TAB) s then true
  else if looks_numeric s then true
  else if looks_reference s then true
  else if looks_run_length s then true
  else false.

Definition quoteString (s : string) : string :=
  if negb (needsQuoting s) then s
  else
    let escaped :=
      replace_all TAB "\t"
        (replace_all CR "\r"
           (replace_all LF "\n"
              (replace_all QUOTE (String BACKSLASH (String QUOTE ""))
                 (replace_all BACKSLASH "\\" s)))) in
    String QUOTE (escaped ++ String QUOTE "").

(** The loop of [unquoteString] over [inner]. *)
Fixpoint unescape (inner : string) : string :=
  match inner with
  | EmptyString => EmptyString
  | String c rest =>
      if Ascii.eqb c BACKSLASH then
        match rest with
        | String next rest' =>
            (if Ascii.eqb next BACKSLASH then String BACKSLASH ""
             else if Ascii.eqb next QUOTE then String QUOTE ""
             else if Ascii.eqb next "n" then String LF ""
             else if Ascii.eqb next "r" then String CR ""
             else if Ascii.eqb next "t" then String TAB ""
             else String BACKSLASH (String next ""))
            ++ unescape rest'
        | EmptyString => String c EmptyString
        end
      else String c (unescape rest)
  end.

Definition QUOTE_STR : string := String QUOTE "".

Definition unquoteString (s : string) : string :=
  if negb (startsWith s QUOTE_STR) || negb (endsWith s QUOTE_STR) then s
  else unescape (slice_1_m1 s).

(** *** The primitive codec *)

(** The type of [value] in the source leaves arrays and objects out;
    here they are given the empty text. *)
Definition encodePrimitive (value : GoonValue) (dictionary : Dictionary)
    (useDictionary : bool) : string :=
  match value with
  | VNull => "_"
  | VBool true => "T"
  | VBool false => "F"
  | VNum n => if negb (isFinite n) then "_" else number_to_string n
  | VStr s =>
      if String.eqb s "" then "~"
      else
        match (if useDictionary then assoc s (lookup dictionary) else None)
        with
        | Some dictRef => dictRef
        | None => quoteString s
        end
  | _ => ""
  end.

Definition parsePrimitive (s : string) (dictionary : list string)
    : GoonValue :=
  if String.eqb s "_" then VNull
  else if String.eqb s "T" then VBool true
  else if String.eqb s "F" then VBool false
  else if String.eqb s "~" then VStr ""
  else
    let as_reference :=
      if startsWith s "$" && (1 <? String.length s) then
        let indexStr := drop 1 s in
        if all_digits indexStr then
          let index := N.to_nat (digits_value indexStr) in
          match nth_error dictionary index with
          | Some entry => Some (VStr entry)
          | None => Some (VStr s)
          end
        else None
      else None in
    match as_reference with
    | Some v => v
    | None =>
        if startsWith s QUOTE_STR && endsWith s QUOTE_STR
           && (2 <=? String.length s)
        then VStr (unquoteString s)
        else
          let num := parseFloat s in
          if looks_numeric s && isFinite num then VNum num
          else VStr s
    end.

Record Cell : Type := { value : GoonValue; repeat : Z }.

Definition parseCell (cell : string) (dictionary : list string) : Cell :=
  let plain := {| value := parsePrimitive cell dictionary; repeat := 1 |} in
  if negb (startsWith cell QUOTE_STR) then
    match lastIndexOf "*" cell with
    | Some lastStarIndex =>
        if 0 <? lastStarIndex then
          let suffix := drop (lastStarIndex + 1) cell in
          if all_digits suffix then
            let valueStr := take lastStarIndex cell in
            let repeat0 :=
              Z.min (Z.of_N (digits_value suffix)) MAX_REPEAT_COUNT in
            {| value := parsePrimitive valueStr dictionary;
               repeat := if (repeat0 <? 1)%Z then 1 else repeat0 |}
          else plain
        else plain
    | None => plain
    end
  else plain.

(** [validateInputSize] *)
Definition validateInputSize (input : string) : result unit :=
  let bytes := utf8_length input in
  if (bytes >? MAX_INPUT_SIZE)%Z then
    Throw (Error ("Input size " ++ decimal_of_N (Z.to_N bytes)
                  ++ " bytes exceeds maximum allowed size of "
                  ++ decimal_of_N (Z.to_N MAX_INPUT_SIZE) ++ " bytes"))
  else Ok tt.

(** [Object.create(null)] *)
Definition createSafeObject : GoonValue := VObj NullPrototype [].

End Utils.

(** ** The encoder ([encode.ts]) *)

Module Encode.
Import Utils.

Inductive EncodeMode : Type := llm | compact | balanced.

(** The options, over what [indent] holds.  [InternalOptions] is the
    type the encoders are declared with: [indent] is a string.
    [SpreadOptions] is [opts] as the spread of the defaults, the preset
    and the caller's options leaves it: [indent] is a string or, [None],
    a value that is not one ([undefined], a number). *)
Record Options (Indent : Type) : Type := {
  dictionary : bool;
  columnRefs : bool;
  runLength : bool;
  minDictLength : Z;
  minDictOccurrences : Z;
  maxDictEntries : Z;
  indent : Indent;
  autoSort : bool;
  delimiter : Delimiter;
  maxColumnRefDepth : Z;
  maxDictDepth : Z;
  arrayLengths : bool;
  tabularArrays : bool;
  minimalIndent : bool;
  schemaDefaults : bool;
  footerSummaries : bool;
  rowNumbers : bool
}.
Arguments dictionary {Indent} o.
Arguments columnRefs {Indent} o.
Arguments runLength {Indent} o.
Arguments minDictLength {Indent} o.
Arguments minDictOccurrences {Indent} o.
Arguments maxDictEntries {Indent} o.
Arguments indent {Indent} o.
Arguments autoSort {Indent} o.
Arguments delimiter {Indent} o.
Arguments maxColumnRefDepth {Indent} o.
Arguments maxDictDepth {Indent} o.
Arguments arrayLengths {Indent} o.
Arguments tabularArrays {Indent} o.
Arguments minimalIndent {Indent} o.
Arguments schemaDefaults {Indent} o.
Arguments footerSummaries {Indent} o.
Arguments rowNumbers {Indent} o.

Definition InternalOptions : Type := Options string.
Definition SpreadOptions : Type := Options (option string).

(** The fields a caller or a preset may give: [None] is an absent
    field; [set_indent] is [Some None] for a field that is there and is
    not a string. *)
Record PartialOptions : Type := {
  set_dictionary : option bool;
  set_columnRefs : option bool;
  set_runLength : option bool;
  set_minDictLength : option Z;
  set_minDictOccurrences : option Z;
  set_maxDictEntries : option Z;
  set_indent : option (option string);
  set_autoSort : option bool;
  set_delimiter : option Delimiter;
  set_maxColumnRefDepth : option Z;
  set_maxDictDepth : option Z;
  set_arrayLengths : option bool;
  set_tabularArrays : option bool;
  set_minimalIndent : option bool;
  set_schemaDefaults : option bool;
  set_footerSummaries : option bool;
  set_rowNumbers : option bool
}.

Definition no_options : PartialOptions :=
  {| set_dictionary := None; set_columnRefs := None; set_runLength := None;
     set_minDictLength := None; set_minDictOccurrences := None;
     set_maxDictEntries := None; set_indent := None; set_autoSort := None;
     set_delimiter := None; set_maxColumnRefDepth := None;
     set_maxDictDepth := None; set_arrayLengths := None;
     set_tabularArrays := None; set_minimalIndent := None;
     set_schemaDefaults := None; set_footerSummaries := None;
     set_rowNumbers := None |}.

Definition BASE_DEFAULTS : SpreadOptions :=
  {| dictionary := true;
     columnRefs := true;
     runLength := true;
     minDictLength := 3;
     minDictOccurrences := 2;
     maxDictEntries := 5;
     indent := Some "  ";
     autoSort := false;
     delimiter := Comma;
     maxColumnRefDepth := 1;
     maxDictDepth := 2;
     arrayLengths := true;
     tabularArrays := true;
     minimalIndent := false;
     schemaDefaults := false;
     footerSummaries := false;
     rowNumbers := false |}.

Definition MODE_PRESETS (mode : EncodeMode) : PartialOptions :=
  match mode with
  | llm =>
      {| set_dictionary := Some false; set_columnRefs := Some false;
         set_runLength := None; set_minDictLength := None;
         set_minDictOccurrences := None; set_maxDictEntries := None;
         set_indent := None; set_autoSort := None; set_delimiter := None;
         set_maxColumnRefDepth := None; set_maxDictDepth := None;
         set_arrayLengths := None; set_tabularArrays := None;
         set_minimalIndent := Some true; set_schemaDefaults := Some false;
         set_footerSummaries := Some false; set_rowNumbers := Some false |}
  | compact =>
      {| set_dictionary := Some true; set_columnRefs := Some true;
         set_runLength := None; set_minDictLength := None;
         set_minDictOccurrences := None; set_maxDictEntries := Some 0%Z;
         set_indent := None; set_autoSort := Some true;
         set_delimiter := None; set_maxColumnRefDepth := Some (-1)%Z;
         set_maxDictDepth := Some (-1)%Z; set_arrayLengths := None;
         set_tabularArrays := None; set_minimalIndent := Some true;
         set_schemaDefaults := None; set_footerSummaries := None;
         set_rowNumbers := None |}
  | balanced => no_options
  end.

Definition or_else {A} (o : option A) (d : A) : A :=
  match o with Some a => a | None => d end.

(** [{ ...base, ...over }] *)
Definition spread (base : SpreadOptions) (over : PartialOptions)
    : SpreadOptions :=
  {| dictionary := or_else (set_dictionary over) (dictionary base);
     columnRefs := or_else (set_columnRefs over) (columnRefs base);
     runLength := or_else (set_runLength over) (runLength base);
     minDictLength := or_else (set_minDictLength over) (minDictLength base);
     minDictOccurrences :=
       or_else (set_minDictOccurrences over) (minDictOccurrences base);
     maxDictEntries :=
       or_else (set_maxDictEntries over) (maxDictEntries base);
     indent := or_else (set_indent over) (indent base);
     autoSort := or_else (set_autoSort over) (autoSort base);
     delimiter := or_else (set_delimiter over) (delimiter base);
     maxColumnRefDepth :=
       or_else (set_maxColumnRefDepth over) (maxColumnRefDepth base);
     maxDictDepth := or_else (set_maxDictDepth over) (maxDictDepth base);
     arrayLengths := or_else (set_arrayLengths over) (arrayLengths base);
     tabularArrays := or_else (set_tabularArrays over) (tabularArrays base);
     minimalIndent := or_else (set_minimalIndent over) (minimalIndent base);
     schemaDefaults :=
       or_else (set_schemaDefaults over) (schemaDefaults base);
     footerSummaries :=
       or_else (set_footerSummaries over) (footerSummaries base);
     rowNumbers := or_else (set_rowNumbers over) (rowNumbers base) |}.

(** [opts] where [typeof opts.indent === 'string']. *)
Definition typed (opts : SpreadOptions) : option InternalOptions :=
  match indent opts with
  | Some unit =>
      Some {| dictionary := dictionary opts;
              columnRefs := columnRefs opts;
              runLength := runLength opts;
              minDictLength := minDictLength opts;
              minDictOccurrences := minDictOccurrences opts;
              maxDictEntries := maxDictEntries opts;
              indent := unit;
              autoSort := autoSort opts;
              delimiter := delimiter opts;
              maxColumnRefDepth := maxColumnRefDepth opts;
              maxDictDepth := maxDictDepth opts;
              arrayLengths := arrayLengths opts;
              tabularArrays := tabularArrays opts;
              minimalIndent := minimalIndent opts;
              schemaDefaults := schemaDefaults opts;
              footerSummaries := footerSummaries opts;
              rowNumbers := rowNumbers opts |}
  | None => None
  end.

(** [EncodeOptions]: the replacer answers [None] for [undefined]. *)
Record EncodeOptions : Type := {
  mode : option EncodeMode;
  replacer : option (string -> GoonValue -> option GoonValue);
  fields : PartialOptions
}.

Definition default_options : EncodeOptions :=
  {| mode := None; replacer := None; fields := no_options |}.

(** [key === null ? text : key + text] is how every line starts. *)
Definition with_key (parentKey : option string) (text : string) : string :=
  match parentKey with
  | Some key => key ++ text
  | None => text
  end.

Definition nat_to_string (n : nat) : string := decimal_of_N (N.of_nat n).

(** [a === b] on primitives. *)
Definition strict_eq (a b : GoonValue) : bool :=
  match a, b with
  | VNull, VNull => true
  | VBool x, VBool y => Bool.eqb x y
  | VNum x, VNum y => number_eqb x y
  | VStr x, VStr y => String.eqb x y
  | _, _ => false
  end.

(** The key of a [Map] ([SameValueZero]): NaN is the same as NaN. *)
Definition same_value_zero (a b : GoonValue) : bool :=
  match a, b with
  | VNum NaN, VNum NaN => true
  | _, _ => strict_eq a b
  end.

(** [JSON.stringify(a) === JSON.stringify(b)] on primitives: a number
    that is not finite is written [null]. *)
Definition same_json (a b : GoonValue) : bool :=
  let norm v :=
    match v with
    | VNum n => if isFinite n then v else VNull
    | _ => v
    end in
  strict_eq (norm a) (norm b).

(** [obj[f]] in a row of a tabular array, where every row has every
    field. *)
Definition field_value (obj : GoonValue) (f : string) : GoonValue :=
  match get_prop obj f with Some v => v | None => VNull end.

(** [String(v ?? '')] on primitives. *)
Definition to_sort_string (v : GoonValue) : string :=
  match v with
  | VNull => ""
  | VBool true => "true"
  | VBool false => "false"
  | VNum n => number_to_string n
  | VStr s => s
  | _ => ""
  end.

(** [for (const x of l) { ... }] where the body pushes lines or throws. *)
Definition for_each {A} (body : A -> result (list string))
    : list A -> result (list string) :=
  fix go (l : list A) : result (list string) :=
    match l with
    | [] => Ok []
    | x :: l' =>
        let* pushed := body x in
        let* more := go l' in
        Ok (pushed ++ more)%list
    end.

(** A [Map] from values to counts, in insertion order. *)
Fixpoint bump (same : GoonValue -> GoonValue -> bool) (v : GoonValue)
    (counts : list (GoonValue * nat)) : list (GoonValue * nat) :=
  match counts with
  | [] => [(v, 1)]
  | (k, n) :: rest =>
      if same k v then (k, S n) :: rest else (k, n) :: bump same v rest
  end.

Definition value_counts (same : GoonValue -> GoonValue -> bool)
    (arr : list GoonValue) (field : string) : list (GoonValue * nat) :=
  fold_left (fun counts obj => bump same (field_value obj field) counts)
            arr [].

(** *** [autoSortForColumnRefs] *)

Definition maxRun (arr : list GoonValue) (field : string) : nat :=
  fold_left Nat.max (map snd (value_counts same_value_zero arr field)) 0.

Fixpoint compare_rows (sortFields : list string) (a b : GoonValue)
    : comparison :=
  match sortFields with
  | [] => Eq
  | field :: rest =>
      let aVal := to_sort_string (field_value a field) in
      let bVal := to_sort_string (field_value b field) in
      if String.ltb aVal bVal then Lt
      else if String.ltb bVal aVal then Gt
      else compare_rows rest a b
  end.

Definition autoSortForColumnRefs (arr : list GoonValue)
    (fields : list string) : list GoonValue :=
  let columnRepetitions :=
    sort_by (fun a b => snd b <=? snd a)
            (map (fun field => (field, maxRun arr field)) fields) in
  let sortFields := map fst (firstn 3 columnRepetitions) in
  sort_by
    (fun a b =>
       match compare_rows sortFields a b with Gt => false | _ => true end)
    arr.

(** *** [encodeTabularArray] *)

Definition most_common (counts : list (GoonValue * nat))
    : option (GoonValue * nat) :=
  fold_left
    (fun best entry =>
       match best with
       | None => Some entry
       | Some b => if snd b <? snd entry then Some entry else best
       end)
    counts None.

Definition compute_fieldDefaults (opts : InternalOptions)
    (arr : list GoonValue) (fields : list string)
    : list (string * GoonValue) :=
  if schemaDefaults opts then
    flat_map
      (fun field =>
         match most_common (value_counts same_json arr field) with
         | Some (v, n) =>
             if (length arr <? 2 * n) && (1 <? n) then [(field, v)] else []
         | None => []
         end)
      fields
  else [].

Definition is_null (v : GoonValue) : bool :=
  match v with VNull => true | _ => false end.

Section Rows.
Variables (opts : InternalOptions) (dict : Dictionary).
Variables (useColumnRefs useDictionary : bool).
Variable fieldDefaults : list (string * GoonValue).
Variable fields : list string.

(** One cell of a row: the body of the loop over [row]. *)
Definition encode_cell (prevRow : option (list GoonValue)) (field : string)
    (i : nat) : GoonValue -> string :=
  fun value =>
    let defaultVal := assoc field fieldDefaults in
    if useColumnRefs
       && match prevRow with
          | Some prev =>
              match nth_error prev i with
              | Some above => strict_eq value above
              | None => false
              end
          | None => false
          end
       && negb (is_null value)
    then "^"
    else if schemaDefaults opts
            && match defaultVal with
               | Some d => strict_eq value d
               | None => false
               end
    then ""
    else encodePrimitive value dict useDictionary.

Definition row_values (obj : GoonValue) : list GoonValue :=
  map (field_value obj) fields.

Definition row_cells (prevRow : option (list GoonValue))
    (obj : GoonValue) : list string :=
  map_i (fun field i => encode_cell prevRow field i (field_value obj field))
        fields.

Definition row_line (depth rowIdx : nat) (cells : list string) : string :=
  let rowIndent :=
    if minimalIndent opts then ""
    else repeat_string (indent opts) (depth + 1) in
  let rowPrefix :=
    if rowNumbers opts then nat_to_string (rowIdx + 1) ++ ". " else "" in
  rowIndent ++ rowPrefix ++ join (delimiter_string (delimiter opts)) cells.

(** The loop over [sortedArr]. *)
Fixpoint encode_rows (depth rowIdx : nat)
    (prevRow : option (list GoonValue)) (rows : list GoonValue)
    : list string :=
  match rows with
  | [] => []
  | obj :: rest =>
      row_line depth rowIdx (row_cells prevRow obj)
      :: encode_rows depth (S rowIdx) (Some (row_values obj)) rest
  end.
End Rows.

(** [numericSums]: a [Map] from the fields to the sum and the count of
    their finite numbers, in insertion order. *)
Fixpoint add_to_sums (sums : list (string * (Double.double * nat)))
    (field : string) (value : Double.double)
    : list (string * (Double.double * nat)) :=
  match sums with
  | [] => [(field, (Double.add (S754_zero false) value, 1))]
  | (f, (sum, count)) :: rest =>
      if String.eqb f field then (f, (Double.add sum value, S count)) :: rest
      else (f, (sum, count)) :: add_to_sums rest field value
  end.

(** What the loop over the cells of a row adds to the sums. *)
Definition track_row (fields : list string)
    (sums : list (string * (Double.double * nat))) (obj : GoonValue)
    : list (string * (Double.double * nat)) :=
  fold_left
    (fun sums field =>
       match field_value obj field with
       | VNum n =>
           if isFinite n then add_to_sums sums field (Double.of_number n)
           else sums
       | _ => sums
       end)
    fields sums.

Definition numericSums {Indent} (opts : Options Indent)
    (fields : list string) (sortedArr : list GoonValue)
    : list (string * (Double.double * nat)) :=
  if footerSummaries opts then fold_left (track_row fields) sortedArr []
  else [].

(** The footer summary, when it is enabled and a field has numbers. *)
Definition footer (opts : InternalOptions) (depth size : nat)
    (sums : list (string * (Double.double * nat))) : list string :=
  if footerSummaries opts && (0 <? length sums) then
    let summaryParts :=
      ("n=" ++ nat_to_string size)
      :: flat_map
           (fun entry =>
              let '(field, (sum, count)) := entry in
              if count =? size then
                let avg :=
                  Double.div
                    (Double.round
                       (Double.mul
                          (Double.div sum (Double.of_Z (Z.of_nat count)))
                          (Double.of_Z 100)))
                    (Double.of_Z 100) in
                [field ++ ":sum=" ++ Double.to_string sum;
                 field ++ ":avg=" ++ Double.to_string avg]
              else [])
           sums in
    let rowIndent :=
      if minimalIndent opts then "" else repeat_string (indent opts) depth in
    [rowIndent ++ "---[" ++ join "," summaryParts ++ "]"]
  else [].

Definition use_column_refs {Indent} (opts : Options Indent) (depth : nat)
    : bool :=
  columnRefs opts
  && ((maxColumnRefDepth opts =? -1)%Z
      || (Z.of_nat depth <? maxColumnRefDepth opts)%Z).

Definition use_dictionary {Indent} (opts : Options Indent) (depth : nat)
    : bool :=
  (maxDictDepth opts =? -1)%Z || (Z.of_nat depth <=? maxDictDepth opts)%Z.

Definition encodeTabularArray (arr : list GoonValue) (depth : nat)
    (opts : InternalOptions) (dict : Dictionary)
    (parentKey : option string) : list string :=
  let ind := repeat_string (indent opts) depth in
  let fields :=
    filter isSafeKey
      (match arr with first :: _ => Object_keys first | [] => [] end) in
  if length fields =? 0 then [ind ++ with_key parentKey "[]"]
  else
    let useColumnRefs := use_column_refs opts depth in
    let rowDepth := depth + 1 in
    let useDictionary := use_dictionary opts rowDepth in
    let sortedArr :=
      if autoSort opts && useColumnRefs && (1 <? length arr)
      then autoSortForColumnRefs arr fields
      else arr in
    let fieldDefaults := compute_fieldDefaults opts arr fields in
    let lengthPrefix :=
      if arrayLengths opts then "[" ++ nat_to_string (length arr) ++ "]"
      else "" in
    let fieldParts :=
      map (fun f =>
             match assoc f fieldDefaults with
             | Some defaultVal =>
                 if isPrimitive defaultVal
                 then f ++ "=" ++ encodePrimitive defaultVal dict false
                 else f
             | None => f
             end)
          fields in
    let header :=
      lengthPrefix ++ "{"
      ++ join (delimiter_string (delimiter opts)) fieldParts ++ "}:" in
    (ind ++ with_key parentKey header)
    :: (encode_rows opts dict useColumnRefs useDictionary fieldDefaults
          fields depth 0 None sortedArr
        ++ footer opts depth (length arr)
             (numericSums opts fields sortedArr))%list.

(** *** [encodeValue], [encodeArray], [encodeObject]

    The three functions call one another on the elements and the
    properties of their argument; their bodies are written once, over
    the functions they call, and tied together below.  Each returns the
    lines it pushes. *)

Definition depth_error : error :=
  GoonEncodeError
    ("Maximum recursion depth ("
     ++ decimal_of_N (Z.to_N MAX_RECURSION_DEPTH) ++ ") exceeded").

(** [for (const x of l.filter(keep))] *)
Definition for_each_where {A} (keep : A -> bool)
    (body : A -> result (list string)) : list A -> result (list string) :=
  fix go (l : list A) : result (list string) :=
    match l with
    | [] => Ok []
    | x :: l' =>
        if keep x then
          let* pushed := body x in
          let* more := go l' in
          Ok (pushed ++ more)%list
        else go l'
    end.

Definition encoder : Type :=
  GoonValue -> nat -> option string -> Z -> result (list string).

Section Bodies.
Variables (opts : InternalOptions) (dict : Dictionary).
Variables (encodeValue_ encodeArray_ encodeObject_ : encoder).

Definition encodeArray_body (arr : list GoonValue) (depth : nat)
    (parentKey : option string) (recursionDepth : Z)
    : result (list string) :=
  let ind := repeat_string (indent opts) depth in
  let useDictionary := use_dictionary opts depth in
  let lengthSuffix :=
    if arrayLengths opts then "[" ++ nat_to_string (length arr) ++ "]"
    else "[]" in
  if length arr =? 0 then Ok [ind ++ with_key parentKey "[]"]
  else if tabularArrays opts && isTabularArray arr then
    Ok (encodeTabularArray arr depth opts dict parentKey)
  else if forallb isPrimitive arr && (length arr <=? 10) then
    let values :=
      map (fun v => encodePrimitive v dict useDictionary) arr in
    Ok [ind ++ with_key parentKey
                 ("[]:" ++ join (delimiter_string (delimiter opts)) values)]
  else
    let item_indent := repeat_string (indent opts) (depth + 1) in
    let* items :=
      for_each
        (fun item =>
           if isPrimitive item then
             Ok [item_indent ++ "- "
                 ++ encodePrimitive item dict useDictionary]
           else if isArray item then
             let* nested :=
               encodeValue_ item (depth + 2) None (recursionDepth + 1)%Z in
             Ok ((item_indent ++ "-") :: nested)
           else if isPlainObject item then
             let* nested :=
               encodeObject_ item (depth + 2) None (recursionDepth + 1)%Z in
             Ok ((item_indent ++ "-") :: nested)
           else Ok [])
        arr in
    Ok ((ind ++ with_key parentKey (lengthSuffix ++ ":")) :: items).

Definition encodeObject_body (props : list (string * GoonValue))
    (depth : nat) (parentKey : option string) (recursionDepth : Z)
    : result (list string) :=
  if (recursionDepth >=? MAX_RECURSION_DEPTH)%Z then Throw depth_error
  else
    let ind := repeat_string (indent opts) depth in
    let safe := fun kv : string * GoonValue => isSafeKey (fst kv) in
    let entries := filter safe props in
    if length entries =? 0 then Ok [ind ++ with_key parentKey "{}"]
    else
      let head :=
        match parentKey with
        | Some key => [ind ++ key ++ ":"]
        | None => []
        end in
      let childIndent :=
        match parentKey with Some _ => depth + 1 | None => depth end in
      let useDictionary := use_dictionary opts childIndent in
      let* body :=
        for_each_where safe
          (fun kv =>
             let '(key, value) := kv in
             if isPrimitive value then
               Ok [repeat_string (indent opts) childIndent ++ key ++ ": "
                   ++ encodePrimitive value dict useDictionary]
             else if isArray value then
               encodeArray_ value childIndent (Some key)
                            (recursionDepth + 1)%Z
             else if isPlainObject value then
               encodeObject_ value childIndent (Some key)
                             (recursionDepth + 1)%Z
             else Ok [])
          props in
      Ok (head ++ body)%list.
End Bodies.

Fixpoint encodeValue (opts : InternalOptions) (dict : Dictionary)
    (value : GoonValue) (depth : nat) (parentKey : option string)
    (recursionDepth : Z) {struct value} : result (list string) :=
  if (recursionDepth >=? MAX_RECURSION_DEPTH)%Z then Throw depth_error
  else
    match value with
    | VArr arr =>
        encodeArray_body opts dict (encodeValue opts dict)
          (encodeObject_of opts dict) arr depth parentKey
          (recursionDepth + 1)%Z
    | VObj _ props =>
        encodeObject_body opts dict (encodeArray_of opts dict)
          (encodeObject_of opts dict) props depth parentKey
          (recursionDepth + 1)%Z
    | _ =>
        let ind := repeat_string (indent opts) depth in
        let useDictionary := use_dictionary opts depth in
        let encoded := encodePrimitive value dict useDictionary in
        match parentKey with
        | Some key => Ok [ind ++ key ++ ": " ++ encoded]
        | None => Ok [ind ++ encoded]
        end
    end

with encodeArray_of (opts : InternalOptions) (dict : Dictionary)
    (value : GoonValue) (depth : nat) (parentKey : option string)
    (recursionDepth : Z) {struct value} : result (list string) :=
  match value with
  | VArr arr =>
      encodeArray_body opts dict (encodeValue opts dict)
        (encodeObject_of opts dict) arr depth parentKey recursionDepth
  | _ => Ok []
  end

with encodeObject_of (opts : InternalOptions) (dict : Dictionary)
    (value : GoonValue) (depth : nat) (parentKey : option string)
    (recursionDepth : Z) {struct value} : result (list string) :=
  match value with
  | VObj _ props =>
      encodeObject_body opts dict (encodeArray_of opts dict)
        (encodeObject_of opts dict) props depth parentKey recursionDepth
  | _ => Ok []
  end.

Definition encodeArray (arr : list GoonValue) (depth : nat)
    (opts : InternalOptions) (dict : Dictionary)
    (parentKey : option string) (recursionDepth : Z)
    : result (list string) :=
  encodeArray_of opts dict (VArr arr) depth parentKey recursionDepth.

Definition encodeObject (obj : list (string * GoonValue)) (depth : nat)
    (opts : InternalOptions) (dict : Dictionary)
    (parentKey : option string) (recursionDepth : Z)
    : result (list string) :=
  encodeObject_of opts dict (VObj ObjectPrototype obj) depth parentKey
                  recursionDepth.

(** *** [applyReplacer]

    [remaining] is [MAX_RECURSION_DEPTH - depth]; the answer [None] is
    [OMIT_VALUE]. *)
Fixpoint applyReplacer_at (remaining : nat) (value : GoonValue)
    (replacer : string -> GoonValue -> option GoonValue) (key : string)
    : result (option GoonValue) :=
  match remaining with
  | O => Throw depth_error
  | S remaining' =>
      match replacer key value with
      | None => Ok None
      | Some (VArr items) =>
          let* replaced :=
            (fix go (l : list GoonValue) (i : nat)
               : result (list GoonValue) :=
               match l with
               | [] => Ok []
               | item :: l' =>
                   let* r := applyReplacer_at remaining' item replacer
                                              (nat_to_string i) in
                   let* rest := go l' (S i) in
                   Ok (match r with
                       | Some v => v :: rest
                       | None => rest
                       end)
               end) items 0 in
          Ok (Some (VArr replaced))
      | Some (VObj _ props) =>
          let* obj :=
            (fix go (l : list (string * GoonValue))
                    (obj : list (string * GoonValue))
               : result (list (string * GoonValue)) :=
               match l with
               | [] => Ok obj
               | (k, v) :: l' =>
                   if negb (isSafeKey k) then go l' obj
                   else
                     let* r := applyReplacer_at remaining' v replacer k in
                     go l' (match r with
                            | Some v' => set_prop obj k v'
                            | None => obj
                            end)
               end) props [] in
          Ok (Some (VObj ObjectPrototype obj))
      | Some result => Ok (Some result)
      end
  end.

Definition applyReplacer (value : GoonValue)
    (replacer : string -> GoonValue -> option GoonValue) (key : string)
    (depth : Z) : result (option GoonValue) :=
  applyReplacer_at (Z.to_nat (MAX_RECURSION_DEPTH - depth)) value replacer
                   key.

(** *** [encode] *)

Definition resolve_options (options : EncodeOptions) : SpreadOptions :=
  let mode := or_else (mode options) llm in
  spread (spread BASE_DEFAULTS (MODE_PRESETS mode)) (fields options).

Definition LF_STR : string := String LF "".

(** The dictionary [encode] builds for a value. *)
Definition dictionary_for {Indent} (opts : Options Indent)
    (value : GoonValue) : Dictionary :=
  if dictionary opts then
    buildDictionary value (minDictLength opts) (minDictOccurrences opts)
                    (maxDictEntries opts)
  else {| entries := []; lookup := [] |}.

Definition indent_error : error :=
  GoonEncodeError "indent option must be a string".

Definition encode (value : GoonValue) (options : EncodeOptions)
    : result string :=
  match typed (resolve_options options) with
  | None => Throw indent_error
  | Some opts =>
      let* replaced :=
        match replacer options with
        | Some r => applyReplacer value r "" 0
        | None => Ok (Some value)
        end in
      match replaced with
      | None => Ok ""
      | Some value =>
          let dict := dictionary_for opts value in
          let dictLine :=
            if 0 <? length (entries dict) then
              ["$:" ++ join ","
                         (map_i (fun val i =>
                                   "$" ++ nat_to_string i ++ "="
                                   ++ quoteString val)
                                (entries dict))]
            else [] in
          let* lines := encodeValue opts dict value 0 None 0 in
          Ok (join LF_STR (dictLine ++ lines)%list)
      end
  end.

End Encode.

(** ** The decoder ([decode.ts]) *)

Module Decode.
Import Utils.

Record ParseContext : Type := {
  lines : list string;
  index : nat;
  dictionary : list string;
  indent : string;
  depth : Z
}.

(** [ctx.index++], [ctx.depth++], [ctx.depth--] *)
Definition advance (ctx : ParseContext) : ParseContext :=
  {| lines := lines ctx; index := S (index ctx);
     dictionary := dictionary ctx; indent := indent ctx;
     depth := depth ctx |}.

Definition deeper (ctx : ParseContext) : ParseContext :=
  {| lines := lines ctx; index := index ctx;
     dictionary := dictionary ctx; indent := indent ctx;
     depth := (depth ctx + 1)%Z |}.

Definition shallower (ctx : ParseContext) : ParseContext :=
  {| lines := lines ctx; index := index ctx;
     dictionary := dictionary ctx; indent := indent ctx;
     depth := (depth ctx - 1)%Z |}.

Record DecodeOptions : Type := {
  reviver : option (string -> GoonValue -> GoonValue)
}.

(** What a call of the decoder does: it returns, it throws, or the
    fuel given to the embedding of its loops ran out. *)
Inductive outcome (A : Type) : Type :=
  | Returns (a : A)
  | Throws (e : error)
  | OutOfFuel.
Arguments Returns {A} a.
Arguments Throws {A} e.
Arguments OutOfFuel {A}.

(** *** The shapes of a line

    Each regular expression of the decoder is a function that answers
    its capture groups. *)

(** [^([\w.]+)]: the key is the longest prefix of key characters, since
    what follows it in every pattern is not one. *)
Definition match_key (s : string) : option (string * string) :=
  let '(key, rest) := span is_key_char s in
  if is_empty key then None else Some (key, rest).

(** [(?:\[\d*\])?] *)
Definition skip_count (s : string) : string :=
  match s with
  | String "[" r =>
      match snd (span is_digit r) with
      | String "]" r' => r'
      | _ => s
      end
  | _ => s
  end.

(** [\{([^}]+)\}:?$] *)
Definition match_fields (s : string) : option string :=
  match s with
  | String "{" r =>
      let '(body, r') := span (fun c => negb (Ascii.eqb c "}")) r in
      if is_empty body then None
      else if String.eqb r' "}" || String.eqb r' "}:" then Some body
      else None
  | _ => None
  end.

(** [(.+)$] *)
Definition match_rest (s : string) : option string :=
  if is_empty s || any_char is_line_terminator s then None else Some s.

Fixpoint last_char (s : string) : option ascii :=
  match s with
  | EmptyString => None
  | String c EmptyString => Some c
  | String _ s' => last_char s'
  end.

(** [\s*(.+)$]: the white space is skipped; when nothing else is left
    the last character of it is the capture. *)
Definition match_value (s : string) : option string :=
  let body := drop_while is_space s in
  if negb (is_empty body) then match_rest body
  else
    match last_char s with
    | Some c => if is_line_terminator c then None else Some (String c "")
    | None => None
    end.

(** [/^([\w.]+):\s*(.+)$/] *)
Definition keyValueMatch (trimmed : string) : option (string * string) :=
  match match_key trimmed with
  | Some (key, String ":" r) =>
      match match_value r with
      | Some v => Some (key, v)
      | None => None
      end
  | _ => None
  end.

(** [/^([\w.]+)\{\}$/] *)
Definition emptyObjMatch (trimmed : string) : option string :=
  match match_key trimmed with
  | Some (key, rest) => if String.eqb rest "{}" then Some key else None
  | None => None
  end.

(** [/^([\w.]+)\[\]$/] *)
Definition emptyArrMatch (trimmed : string) : option string :=
  match match_key trimmed with
  | Some (key, rest) => if String.eqb rest "[]" then Some key else None
  | None => None
  end.

(** [/^([\w.]+)(?:\[\d*\])?\{([^}]+)\}:?$/] *)
Definition tabularMatch (trimmed : string) : option (string * string) :=
  match match_key trimmed with
  | Some (key, rest) =>
      match match_fields (skip_count rest) with
      | Some fieldsStr => Some (key, fieldsStr)
      | None => None
      end
  | None => None
  end.

(** [/^(?:\[\d*\])?\{([^}]+)\}:?$/] *)
Definition standaloneTabularMatch (line : string) : option string :=
  match_fields (skip_count line).

(** [/^([\w.]+)\[\]:(.+)$/] *)
Definition simpleArrMatch (trimmed : string) : option (string * string) :=
  match match_key trimmed with
  | Some (key, String "[" (String "]" (String ":" r))) =>
      match match_rest r with
      | Some v => Some (key, v)
      | None => None
      end
  | _ => None
  end.

(** [/^\[\]:(.+)$/] *)
Definition standaloneSimpleArrMatch (line : string) : option string :=
  match line with
  | String "[" (String "]" (String ":" r)) => match_rest r
  | _ => None
  end.

(** [/^([\w.]+):?$/] *)
Definition nestedKeyMatch (trimmed : string) : option string :=
  match match_key trimmed with
  | Some (key, rest) =>
      if String.eqb rest "" || String.eqb rest ":" then Some key else None
  | None => None
  end.

(** [/^[\w.]+[:\[{]/.test(s)] *)
Definition starts_like_key (s : string) : bool :=
  match match_key s with
  | Some (_, String c _) =>
      Ascii.eqb c ":" || Ascii.eqb c "[" || Ascii.eqb c "{"
  | _ => false
  end.

(** [/^[\w.]+$/.test(s)] *)
Definition is_bare_key (s : string) : bool :=
  match match_key s with
  | Some (_, EmptyString) => true
  | _ => false
  end.

(** *** Indentation *)

Fixpoint detectIndent (lines : list string) : string :=
  match lines with
  | [] => "  "
  | line :: rest =>
      match fst (span is_space line) with
      | EmptyString => detectIndent rest
      | String firstChar _ as leading =>
          if Ascii.eqb firstChar TAB then String TAB ""
          else
            let count :=
              String.length (fst (span (Ascii.eqb " ") leading)) in
            repeat_string " " (Nat.min count 8)
      end
  end.

(** The [while] loop of [getIndentLevel] removes a non-empty prefix at
    every turn, so it turns at most [length line] times. *)
Fixpoint indent_level (turns : nat) (remaining indent : string) : nat :=
  match turns with
  | O => 0
  | S turns' =>
      if startsWith remaining indent
      then S (indent_level turns' (drop (String.length indent) remaining)
                           indent)
      else 0
  end.

Definition getIndentLevel (line indent : string) : nat :=
  if String.length indent =? 0 then 0
  else indent_level (String.length line) line indent.

(** *** The dictionary line and the rows *)

Definition push_char (current : string) (c : ascii) : string :=
  current ++ String c "".

(** The [for] loop of [parseDictionary] and what follows it. *)
Fixpoint parseDictionary_from (s : string) (current : string)
    (inQuote escaped : bool) (entries : list string) : list string :=
  match s with
  | EmptyString =>
      let trimmed := trim current in
      if negb (is_empty trimmed)
      then (entries ++ [unquoteString trimmed])%list
      else entries
  | String char s' =>
      if escaped then
        parseDictionary_from s' (push_char current char) inQuote false entries
      else if Ascii.eqb char BACKSLASH && inQuote then
        parseDictionary_from s' (push_char current char) inQuote true entries
      else if Ascii.eqb char QUOTE then
        parseDictionary_from s' (push_char current char) (negb inQuote)
                             false entries
      else if Ascii.eqb char "," && negb inQuote then
        let trimmed := trim current in
        parseDictionary_from s' "" inQuote false
          (if negb (is_empty trimmed)
           then (entries ++ [unquoteString trimmed])%list
           else entries)
      else
        parseDictionary_from s' (push_char current char) inQuote false entries
  end.

Definition parseDictionary (dictLine : string) : list string :=
  parseDictionary_from dictLine "" false false [].

Fixpoint count_delimiters (s : string) (inQuote : bool)
    (commas pipes tabs : nat) : nat * nat * nat :=
  match s with
  | EmptyString => (commas, pipes, tabs)
  | String char s' =>
      let inQuote := if Ascii.eqb char QUOTE then negb inQuote else inQuote in
      if negb inQuote then
        count_delimiters s' inQuote
          (if Ascii.eqb char "," then S commas else commas)
          (if Ascii.eqb char "|" then S pipes else pipes)
          (if Ascii.eqb char TAB then S tabs else tabs)
      else count_delimiters s' inQuote commas pipes tabs
  end.

Definition detectDelimiter (fieldsStr : string) : Delimiter :=
  let '(commas, pipes, tabs) := count_delimiters fieldsStr false 0 0 0 in
  if (pipes <? tabs) && (commas <? tabs) then Tab
  else if commas <? pipes then Pipe
  else Comma.

(** [for (let r = 0; r < repeat; r++) cells.push(value)] *)
Definition push_cell (cells : list GoonValue) (c : Cell) : list GoonValue :=
  (cells ++ List.repeat (value c) (Z.to_nat (repeat c)))%list.

Fixpoint parseRow_from (s : string) (dictionary : list string)
    (delimiter : Delimiter) (current : string) (inQuote escaped : bool)
    (cells : list GoonValue) : list GoonValue :=
  match s with
  | EmptyString =>
      let trimmed := trim current in
      if negb (is_empty trimmed)
      then push_cell cells (parseCell trimmed dictionary)
      else cells
  | String char s' =>
      if escaped then
        parseRow_from s' dictionary delimiter (push_char current char)
                      inQuote false cells
      else if Ascii.eqb char BACKSLASH && inQuote then
        parseRow_from s' dictionary delimiter (push_char current char)
                      inQuote true cells
      else if Ascii.eqb char QUOTE then
        parseRow_from s' dictionary delimiter (push_char current char)
                      (negb inQuote) false cells
      else if Ascii.eqb char (delimiter_char delimiter) && negb inQuote then
        parseRow_from s' dictionary delimiter "" inQuote false
                      (push_cell cells (parseCell (trim current) dictionary))
      else
        parseRow_from s' dictionary delimiter (push_char current char)
                      inQuote false cells
  end.

Definition parseRow (rowStr : string) (dictionary : list string)
    (delimiter : Delimiter) : list GoonValue :=
  parseRow_from rowStr dictionary delimiter "" false false [].

(** *** [parseTabularArray] *)

Definition decode_depth_error (ctx : ParseContext) : error :=
  GoonDecodeError
    ("Maximum recursion depth ("
     ++ decimal_of_N (Z.to_N MAX_RECURSION_DEPTH) ++ ") exceeded")
    (Some (index ctx + 1)).

Definition is_marker (v : GoonValue) : bool :=
  match v with VStr s => String.eqb s "^" | _ => false end.

(** The values of a row: a cell that is the marker takes the value
    above it when there is one; a missing cell is [null]. *)
Definition resolve_row (fields : list string) (cells prevRowValues
    : list GoonValue) : list GoonValue :=
  map_i (fun (_ : string) i =>
           match nth_error cells i, nth_error prevRowValues i with
           | Some cell, Some above => if is_marker cell then above else cell
           | Some cell, None => cell
           | None, _ => VNull
           end)
        fields.

(** [for (i ...) obj[fields[i]] = rowValues[i]] on a fresh safe object *)
Fixpoint build_row (fields : list string) (rowValues : list GoonValue)
    (obj : list (string * GoonValue)) : list (string * GoonValue) :=
  match fields, rowValues with
  | f :: fields', v :: rowValues' =>
      build_row fields' rowValues' (set_prop obj f v)
  | _, _ => obj
  end.

(** The [while] loop of [parseTabularArray]: [remaining] is the lines
    from [ctx.index] on; every turn takes one of them or ends. *)
Fixpoint tabular_rows (remaining : list string) (ctx : ParseContext)
    (baseIndent : Z) (delimiter : Delimiter) (fields : list string)
    (rows prevRowValues : list GoonValue)
    : list GoonValue * ParseContext :=
  match remaining with
  | [] => (rows, ctx)
  | line :: remaining' =>
      let currentIndent := Z.of_nat (getIndentLevel line (indent ctx)) in
      let trimmed := trim line in
      if (currentIndent <? baseIndent)%Z then (rows, ctx)
      else if is_empty trimmed then
        tabular_rows remaining' (advance ctx) baseIndent delimiter fields
                     rows prevRowValues
      else if starts_like_key trimmed || startsWith trimmed "$:" then
        (rows, ctx)
      else
        let cells := parseRow trimmed (dictionary ctx) delimiter in
        let rowValues := resolve_row fields cells prevRowValues in
        let obj := VObj NullPrototype (build_row fields rowValues []) in
        tabular_rows remaining' (advance ctx) baseIndent delimiter fields
                     (rows ++ [obj])%list rowValues
  end.

Definition parseTabularArray (ctx : ParseContext) (baseIndent : Z)
    (fieldsStr : string) : outcome (GoonValue * ParseContext) :=
  let ctx := deeper ctx in
  if (depth ctx >? MAX_RECURSION_DEPTH)%Z then Throws (decode_depth_error ctx)
  else
    let delimiter := detectDelimiter fieldsStr in
    let fields :=
      filter isSafeKey (split (delimiter_char delimiter) fieldsStr) in
    let ctx := advance ctx in
    let '(rows, ctx) :=
      tabular_rows (skipn (index ctx) (lines ctx)) ctx baseIndent delimiter
                   fields [] [] in
    Returns (VArr rows, shallower ctx).

(** [/^([\w.]+)?(?:\[\d*\])?\{([^}]+)\}:?$/] *)
Definition nestedTabularMatch (trimmed : string)
    : option (option string * string) :=
  let '(key, rest) := span is_key_char trimmed in
  match match_fields (skip_count rest) with
  | Some fieldsStr =>
      Some (if is_empty key then None else Some key, fieldsStr)
  | None => None
  end.

(** [obj[key] = v] when the key is safe *)
Definition set_safe (obj : list (string * GoonValue)) (key : string)
    (v : GoonValue) : list (string * GoonValue) :=
  if isSafeKey key then set_prop obj key v else obj.

Definition line_at (ctx : ParseContext) : option string :=
  nth_error (lines ctx) (index ctx).

(** *** [parseObject], [parseListArray], [parseNestedValue]

    The three functions call one another and loop over the lines.  The
    body of each and a turn of each loop are written once, over the
    functions they call; below they are tied together, one unit of fuel
    being spent at every call and at every turn of a loop. *)

Definition parser (A : Type) : Type :=
  ParseContext -> Z -> outcome (A * ParseContext).

(** What follows the key of a nested value: the indentation of the next
    line when it is deeper. *)
Definition deeper_indent (ctx : ParseContext) (currentIndent : Z)
    : option Z :=
  match line_at ctx with
  | Some next =>
      let nextIndent := Z.of_nat (getIndentLevel next (indent ctx)) in
      if (nextIndent >? currentIndent)%Z then Some nextIndent else None
  | None => None
  end.

Section Bodies.
Variable parseObject_ : parser GoonValue.
Variable parseListArray_ : parser GoonValue.
Variable parseNestedValue_ : parser GoonValue.

(** [parseObject], over its loop. *)
Definition parseObject_body
    (loop : ParseContext -> Z -> list (string * GoonValue)
            -> outcome (list (string * GoonValue) * ParseContext))
    (ctx : ParseContext) (baseIndent : Z)
    : outcome (GoonValue * ParseContext) :=
  let ctx := deeper ctx in
  if (depth ctx >? MAX_RECURSION_DEPTH)%Z then Throws (decode_depth_error ctx)
  else
    match loop ctx baseIndent [] with
    | Returns (obj, ctx') => Returns (VObj NullPrototype obj, shallower ctx')
    | Throws e => Throws e
    | OutOfFuel => OutOfFuel
    end.

(** One turn of the loop of [parseObject]; [continue_] is the rest of
    the loop. *)
Definition parseObject_turn
    (continue_ : ParseContext -> list (string * GoonValue)
                 -> outcome (list (string * GoonValue) * ParseContext))
    (ctx : ParseContext) (baseIndent : Z) (obj : list (string * GoonValue))
    : outcome (list (string * GoonValue) * ParseContext) :=
  match line_at ctx with
  | None => Returns (obj, ctx)
  | Some line =>
      let currentIndent := Z.of_nat (getIndentLevel line (indent ctx)) in
      let trimmed := trim line in
      if (currentIndent <? baseIndent)%Z then Returns (obj, ctx)
      else if (currentIndent >? baseIndent)%Z then continue_ (advance ctx) obj
      else
        match keyValueMatch trimmed with
        | Some (key, v) =>
            continue_ (advance ctx)
              (set_safe obj key (parsePrimitive (trim v) (dictionary ctx)))
        | None =>
        match emptyObjMatch trimmed with
        | Some key =>
            continue_ (advance ctx) (set_safe obj key createSafeObject)
        | None =>
        match emptyArrMatch trimmed with
        | Some key => continue_ (advance ctx) (set_safe obj key (VArr []))
        | None =>
        match tabularMatch trimmed with
        | Some (key, fieldsStr) =>
            if isSafeKey key then
              match parseTabularArray ctx currentIndent fieldsStr with
              | Returns (arr, ctx') => continue_ ctx' (set_prop obj key arr)
              | Throws e => Throws e
              | OutOfFuel => OutOfFuel
              end
            else continue_ (advance ctx) obj
        | None =>
        match simpleArrMatch trimmed with
        | Some (key, valuesStr) =>
            let delimiter := detectDelimiter valuesStr in
            continue_ (advance ctx)
              (set_safe obj key
                 (VArr (parseRow valuesStr (dictionary ctx) delimiter)))
        | None =>
        match emptyArrMatch trimmed with
        | Some key =>
            if isSafeKey key then
              match parseListArray_ ctx currentIndent with
              | Returns (arr, ctx') => continue_ ctx' (set_prop obj key arr)
              | Throws e => Throws e
              | OutOfFuel => OutOfFuel
              end
            else continue_ (advance ctx) obj
        | None =>
        match nestedKeyMatch trimmed with
        | Some key =>
            let ctx := advance ctx in
            match (if isSafeKey key then deeper_indent ctx currentIndent
                   else None) with
            | Some nextIndent =>
                match parseObject_ ctx nextIndent with
                | Returns (v, ctx') => continue_ ctx' (set_prop obj key v)
                | Throws e => Throws e
                | OutOfFuel => OutOfFuel
                end
            | None => continue_ ctx (set_safe obj key VNull)
            end
        | None => continue_ (advance ctx) obj
        end end end end end end end
  end.

(** [parseListArray], over its loop. *)
Definition parseListArray_body
    (loop : ParseContext -> Z -> list GoonValue
            -> outcome (list GoonValue * ParseContext))
    (ctx : ParseContext) (baseIndent : Z)
    : outcome (GoonValue * ParseContext) :=
  let ctx := deeper ctx in
  if (depth ctx >? MAX_RECURSION_DEPTH)%Z then Throws (decode_depth_error ctx)
  else
    match loop (advance ctx) baseIndent [] with
    | Returns (items, ctx') => Returns (VArr items, shallower ctx')
    | Throws e => Throws e
    | OutOfFuel => OutOfFuel
    end.

(** One turn of the loop of [parseListArray]. *)
Definition parseListArray_turn
    (continue_ : ParseContext -> list GoonValue
                 -> outcome (list GoonValue * ParseContext))
    (ctx : ParseContext) (baseIndent : Z) (items : list GoonValue)
    : outcome (list GoonValue * ParseContext) :=
  match line_at ctx with
  | None => Returns (items, ctx)
  | Some line =>
      let currentIndent := Z.of_nat (getIndentLevel line (indent ctx)) in
      let trimmed := trim line in
      if (currentIndent <=? baseIndent)%Z then Returns (items, ctx)
      else if startsWith trimmed "- " then
        continue_ (advance ctx)
          (items ++ [parsePrimitive (drop 2 trimmed) (dictionary ctx)])%list
      else if String.eqb trimmed "-" then
        let ctx := advance ctx in
        match deeper_indent ctx currentIndent with
        | Some nextIndent =>
            match parseNestedValue_ ctx nextIndent with
            | Returns (v, ctx') => continue_ ctx' (items ++ [v])%list
            | Throws e => Throws e
            | OutOfFuel => OutOfFuel
            end
        | None => continue_ ctx (items ++ [VNull])%list
        end
      else continue_ (advance ctx) items
  end.

Definition parseNestedValue_body (ctx : ParseContext) (minIndent : Z)
    : outcome (GoonValue * ParseContext) :=
  match line_at ctx with
  | None => Returns (VNull, ctx)
  | Some line =>
      let trimmed := trim line in
      if String.eqb trimmed "{}" then Returns (createSafeObject, advance ctx)
      else if String.eqb trimmed "[]" then Returns (VArr [], advance ctx)
      else
        match nestedTabularMatch trimmed with
        | Some (Some _, _) => parseObject_ ctx minIndent
        | Some (None, fieldsStr) =>
            parseTabularArray ctx (minIndent - 1) fieldsStr
        | None =>
            if String.eqb trimmed "[]"
               || match emptyArrMatch trimmed with
                  | Some _ => true
                  | None => false
                  end
            then parseObject_ ctx minIndent
            else if starts_like_key trimmed || is_bare_key trimmed
            then parseObject_ ctx minIndent
            else
              Returns (parsePrimitive trimmed (dictionary ctx), advance ctx)
        end
  end.
End Bodies.

Fixpoint parseObject (fuel : nat) (ctx : ParseContext) (baseIndent : Z)
    : outcome (GoonValue * ParseContext) :=
  match fuel with
  | O => OutOfFuel
  | S fuel' => parseObject_body (parseObject_loop fuel') ctx baseIndent
  end

with parseObject_loop (fuel : nat) (ctx : ParseContext) (baseIndent : Z)
    (obj : list (string * GoonValue))
    : outcome (list (string * GoonValue) * ParseContext) :=
  match fuel with
  | O => OutOfFuel
  | S fuel' =>
      parseObject_turn (parseObject fuel') (parseListArray fuel')
        (fun ctx obj => parseObject_loop fuel' ctx baseIndent obj)
        ctx baseIndent obj
  end

with parseListArray (fuel : nat) (ctx : ParseContext) (baseIndent : Z)
    : outcome (GoonValue * ParseContext) :=
  match fuel with
  | O => OutOfFuel
  | S fuel' => parseListArray_body (parseListArray_loop fuel') ctx baseIndent
  end

with parseListArray_loop (fuel : nat) (ctx : ParseContext) (baseIndent : Z)
    (items : list GoonValue) : outcome (list GoonValue * ParseContext) :=
  match fuel with
  | O => OutOfFuel
  | S fuel' =>
      parseListArray_turn (parseNestedValue fuel')
        (fun ctx items => parseListArray_loop fuel' ctx baseIndent items)
        ctx baseIndent items
  end

with parseNestedValue (fuel : nat) (ctx : ParseContext) (minIndent : Z)
    : outcome (GoonValue * ParseContext) :=
  match fuel with
  | O => OutOfFuel
  | S fuel' => parseNestedValue_body (parseObject fuel') ctx minIndent
  end.

(** *** [parseRoot] *)

Definition parseRoot (fuel : nat) (ctx : ParseContext)
    : outcome (GoonValue * ParseContext) :=
  match line_at ctx with
  | None => Returns (VNull, ctx)
  | Some line =>
      let firstLine := trim line in
      if String.eqb firstLine "{}" then Returns (createSafeObject, advance ctx)
      else if String.eqb firstLine "[]" then Returns (VArr [], advance ctx)
      else
        match standaloneTabularMatch firstLine with
        | Some fieldsStr => parseTabularArray ctx (-1) fieldsStr
        | None =>
        match standaloneSimpleArrMatch firstLine with
        | Some valuesStr =>
            let delimiter := detectDelimiter valuesStr in
            Returns (VArr (parseRow valuesStr (dictionary ctx) delimiter),
                     advance ctx)
        | None =>
            if String.eqb firstLine "[]" then parseListArray fuel ctx (-1)
            else if starts_like_key firstLine || is_bare_key firstLine
            then parseObject fuel ctx 0
            else
              Returns (parsePrimitive firstLine (dictionary ctx), advance ctx)
        end end
  end.

(** *** [applyReviver] *)

Definition reviver_depth_error : error :=
  GoonDecodeError
    ("Maximum recursion depth ("
     ++ decimal_of_N (Z.to_N MAX_RECURSION_DEPTH) ++ ") exceeded in reviver")
    None.

Fixpoint applyReviver (value : GoonValue)
    (reviver : string -> GoonValue -> GoonValue) (key : string) (depth : Z)
    {struct value} : result GoonValue :=
  if (depth >? MAX_RECURSION_DEPTH)%Z then Throw reviver_depth_error
  else
    match value with
    | VArr items =>
        let* arr :=
          (fix go (l : list GoonValue) (i : nat) : result (list GoonValue) :=
             match l with
             | [] => Ok []
             | item :: l' =>
                 let* r := applyReviver item reviver (Encode.nat_to_string i)
                                        (depth + 1)%Z in
                 let* rest := go l' (S i) in
                 Ok (r :: rest)
             end) items 0 in
        Ok (reviver key (VArr arr))
    | VObj _ props =>
        let* obj :=
          (fix go (l : list (string * GoonValue))
                  (obj : list (string * GoonValue))
             : result (list (string * GoonValue)) :=
             match l with
             | [] => Ok obj
             | (k, v) :: l' =>
                 if isSafeKey k then
                   let* r := applyReviver v reviver k (depth + 1)%Z in
                   go l' (set_prop obj k r)
                 else go l' obj
             end) props [] in
        Ok (reviver key (VObj NullPrototype obj))
    | _ => Ok (reviver key value)
    end.

(** *** [decode] *)

Definition input_lines (input : string) : list string :=
  filter (fun line => negb (String.eqb (trim line) "")) (split LF input).

(** Fuel for the loops: every turn and every call takes a line or comes
    right after one was taken. *)
Definition fuel_for (lines : list string) : nat := 2 * length lines + 2.

Definition decode (input : string) (options : DecodeOptions)
    : outcome GoonValue :=
  match validateInputSize input with
  | Throw e => Throws e
  | Ok _ =>
      let lines := input_lines input in
      if length lines =? 0 then Returns VNull
      else
        let indent := detectIndent lines in
        let '(dictionary, startIndex) :=
          match lines with
          | first :: _ =>
              if startsWith first "$:"
              then (parseDictionary (drop 2 first), 1)
              else ([], 0)
          | [] => ([], 0)
          end in
        if length lines <=? startIndex then Returns VNull
        else
          let ctx :=
            {| lines := lines; index := startIndex;
               dictionary := dictionary; indent := indent; depth := 0 |} in
          match parseRoot (fuel_for lines) ctx with
          | Returns (result, _) =>
              match reviver options with
              | Some r =>
                  match applyReviver result r "" 0 with
                  | Ok v => Returns v
                  | Throw e => Throws e
                  end
              | None => Returns result
              end
          | Throws e => Throws e
          | OutOfFuel => OutOfFuel
          end
  end.

End Decode.

(** ** Notions used by the statements *)

Import Utils Encode Decode.

(** Equality of data: the prototypes of the objects aside. *)
Fixpoint plain (v : GoonValue) : GoonValue :=
  match v with
  | VArr items => VArr (map plain items)
  | VObj _ props =>
      VObj ObjectPrototype (map (fun kv => (fst kv, plain (snd kv))) props)
  | _ => v
  end.

Definition equal_data (a b : GoonValue) : Prop := plain a = plain b.

(** An object without its dangerous properties. *)
Definition strip (v : GoonValue) : GoonValue :=
  match v with
  | VObj proto props =>
      VObj proto (filter (fun kv => isSafeKey (fst kv)) props)
  | _ => v
  end.

(** No object of the value has a dangerous key or a prototype. *)
Fixpoint decoded_safe (v : GoonValue) : bool :=
  match v with
  | VArr items => forallb decoded_safe items
  | VObj proto props =>
      match proto with NullPrototype => true | ObjectPrototype => false end
      && forallb (fun kv => isSafeKey (fst kv) && decoded_safe (snd kv)) props
  | _ => true
  end.

(** Tabular detection as the specification words it: a non-empty array
    of objects with one sorted key set and primitive values. *)
Definition spec_is_tabular (arr : list GoonValue) : Prop :=
  arr <> []
  /\ (forall item, In item arr -> isPlainObject item = true)
  /\ (forall a b, In a arr -> In b arr ->
       sort_strings (Object_keys a) = sort_strings (Object_keys b))
  /\ (forall item key, In item arr -> In key (Object_keys item) ->
       exists v, get_prop item key = Some v /\ isPrimitive v = true).

(** The number of times [scan] meets the string [s] in a value: the
    occurrences no deeper than the recursion limit. *)
Fixpoint occurrences (s : string) (depth : Z) (v : GoonValue) {struct v}
    : Z :=
  if (depth >? MAX_RECURSION_DEPTH)%Z then 0%Z
  else
    match v with
    | VStr s' => if String.eqb s' s then 1%Z else 0%Z
    | VArr items =>
        fold_left (fun n item => (n + occurrences s (depth + 1) item)%Z)
                  items 0%Z
    | VObj _ props =>
        fold_left (fun n kv => (n + occurrences s (depth + 1) (snd kv))%Z)
                  props 0%Z
    | _ => 0%Z
    end.

(** The cost model of the dictionary builder: a reference takes two
    characters, an entry its string and a separator. *)
Definition reference_cost (c : Candidate) : Z :=
  (2 * count c + (strlen (str c) + 1))%Z.

Definition verbatim_cost (c : Candidate) : Z := (strlen (str c) * count c)%Z.

(** The candidates before they are sorted: in the order in which [scan]
    first met them. *)
Definition candidates_in_scan_order (counts : list (string * Z))
    (minOccurrences : Z) : list Candidate :=
  filter (fun c => (savings c >? DICT_LINE_OVERHEAD_CHARS)%Z)
    (map_i make_candidate
       (filter (fun e => (snd e >=? minOccurrences)%Z) counts)).

(** The order the specification words: by savings, largest first,
    a tie broken by the order of the strings. *)
Definition spec_before (a b : Candidate) : Prop :=
  (savings a > savings b)%Z
  \/ (savings a = savings b /\ String.ltb (str a) (str b) = true).

(** [maxEntries] as a truncation: 0 keeps everything. *)
Definition truncate {A} (maxEntries : Z) (l : list A) : list A :=
  if (maxEntries >? 0)%Z then firstn (Z.to_nat maxEntries) l else l.

(** A value a column reference can stand for: [value === value] and
    [value !== null]. *)
Definition markable (v : GoonValue) : bool :=
  negb (is_null v) && strict_eq v v.

(** The cells of a row equal to the row above it, from the values and
    the cells of that row: the marker where the value can be referred
    to, the cell above elsewhere. *)
Definition referred (values : list GoonValue) (cells : list string)
    : list string :=
  map (fun vc => if markable (fst vc) then "^" else snd vc)
      (combine values cells).

(** The references of a dictionary all start with [$]. *)
Definition reference_tokens (dict : Dictionary) : Prop :=
  Forall (fun kv => startsWith (snd kv) "$" = true) (lookup dict).

(** A row of [m] column references. *)
Definition marker_row (d : Delimiter) (m : nat) : string :=
  join (delimiter_string d) (List.repeat "^" m).

(** Options and inputs of the scenarios. *)
Definition preset (m : EncodeMode) : EncodeOptions :=
  {| mode := Some m; replacer := None; fields := no_options |}.

Definition balanced_without_dictionary : EncodeOptions :=
  {| mode := Some balanced; replacer := None;
     fields :=
       {| set_dictionary := Some false; set_columnRefs := None;
          set_runLength := None; set_minDictLength := None;
          set_minDictOccurrences := None; set_maxDictEntries := None;
          set_indent := None; set_autoSort := None; set_delimiter := None;
          set_maxColumnRefDepth := None; set_maxDictDepth := None;
          set_arrayLengths := None; set_tabularArrays := None;
          set_minimalIndent := None; set_schemaDefaults := None;
          set_footerSummaries := None; set_rowNumbers := None |} |}.

Definition no_reviver : DecodeOptions := {| reviver := None |}.

Definition object (props : list (string * GoonValue)) : GoonValue :=
  VObj ObjectPrototype props.

Definition integer (z : Z) : GoonValue := VNum (Finite z 0).

Definition text_of (lines : list string) : string := join LF_STR lines.

(** [{"a":1,"b":"hello","c":true}] *)
Definition simple_object : GoonValue :=
  object [("a", integer 1); ("b", VStr "hello"); ("c", VBool true)].

(** [{"orders":[{"date":"2024-01","c":"Acme"},{"date":"2024-01","c":"Acme"}]}] *)
Definition order_row : GoonValue :=
  object [("date", VStr "2024-01"); ("c", VStr "Acme")].

Definition orders : GoonValue :=
  object [("orders", VArr [order_row; order_row])].

(** [{"t":[{"a":null},{"a":null}]}] *)
Definition null_rows : GoonValue :=
  object [("t", VArr [object [("a", VNull)]; object [("a", VNull)]])].

(** [{"tags":["x,y"]}] *)
Definition tagged : GoonValue := object [("tags", VArr [VStr "x,y"])].

(** Three strings that each occur three times, with the same savings. *)
Definition tie_value : GoonValue :=
  VArr [VStr "bbbbbbbbbb"; VStr "aaaaaaaaaa"; VStr "bbbbbbbbbb";
        VStr "aaaaaaaaaa"; VStr "bbbbbbbbbb"; VStr "aaaaaaaaaa"].

(** An object nested in [wrappers] objects: [wrappers + 1] levels. *)
Fixpoint nested_object (wrappers : nat) : GoonValue :=
  match wrappers with
  | O => object [("value", integer 1)]
  | S n => object [("nested", nested_object n)]
  end.

(** The text of such an object: one line per level. *)
Definition nested_document (wrappers : nat) : string :=
  text_of
    (List.app
       (map (fun i => repeat_string "  " i ++ "nested:") (seq 0 wrappers))
       [repeat_string "  " wrappers ++ "value: 1"]).

(** A document of [size] characters [c]. *)
Definition document_of (size : N) (c : ascii) : string :=
  N.iter size (String c) "".

(** The test [isTabularArray] makes of the key at position [i] of an
    element, and what it establishes. *)
Definition key_check (item : GoonValue) (firstKeys : list string)
    (key : string) (i : nat) : bool :=
  match nth_error firstKeys i with
  | Some k =>
      if negb (String.eqb key k) then false
      else
        match get_prop item key with
        | Some value => isPrimitive value
        | None => false
        end
  | None => false
  end.

Definition primitive_at (item : GoonValue) (key : string) : Prop :=
  exists v, get_prop item key = Some v /\ isPrimitive v = true.


(** What [scan] keeps true of its counts: a string is counted once, at
    least once, and is long enough. *)
Definition counts_ok (minLength : Z) (counts : list (string * Z)) : Prop :=
  NoDup (map fst counts)
  /\ Forall (fun e => (1 <= snd e)%Z /\ (minLength <= strlen (fst e))%Z)
            counts.


(** What [scan] does to the counts it is given. *)
Definition scan_spec (minLength : Z) (v : GoonValue) : Prop :=
  forall depth counts,
    counts_ok minLength counts ->
    counts_ok minLength (scan minLength depth v counts)
    /\ forall s,
         counts_get (scan minLength depth v counts) s
         = (counts_get counts s
            + if (minLength <=? strlen s)%Z then occurrences s depth v
              else 0)%Z.

(** Lists of values and of properties without a dangerous key or a
    prototype. *)
Definition safe_items (items : list GoonValue) : Prop :=
  Forall (fun v => decoded_safe v = true) items.

Definition safe_props (props : list (string * GoonValue)) : Prop :=
  Forall (fun kv => isSafeKey (fst kv) = true /\ decoded_safe (snd kv) = true)
         props.

(** A parser that returns only such values. *)
Definition safe_parser (p : parser GoonValue) : Prop :=
  forall ctx baseIndent v ctx',
    p ctx baseIndent = Returns (v, ctx') -> decoded_safe v = true.

(** The lines a cursor has not passed, and a cursor that moved forward
    over the same lines. *)
Definition remaining_lines (ctx : ParseContext) : nat :=
  length (lines ctx) - index ctx.

Definition moved_forward (ctx ctx' : ParseContext) : Prop :=
  lines ctx' = lines ctx /\ index ctx <= index ctx'.

(** ** The generators ([encodeLines], [decodeFromLines]) *)

(** *** [encodeLines]

    What a generator does when it is run to its end: the values it
    yields, and the error it throws after them, if it throws.  The
    generator does not check [indent]: where it is not a string,
    [opts.indent.repeat(depth)], which [encodeValue] evaluates right
    after its check of the depth, is the call that throws. *)
Record run (A : Type) : Type := {
  yielded : list A;
  thrown : option error
}.
Arguments yielded {A} r.
Arguments thrown {A} r.

Definition encodeLines (value : GoonValue) (options : EncodeOptions)
    : run string :=
  let opts := resolve_options options in
  match (match replacer options with
         | Some r => applyReplacer value r "" 0
         | None => Ok (Some value)
         end) with
  | Throw e => {| yielded := []; thrown := Some e |}
  | Ok None => {| yielded := []; thrown := None |}
  | Ok (Some value) =>
      let dict := dictionary_for opts value in
      let dictLine :=
        if 0 <? length (entries dict) then
          ["$:" ++ join ","
                     (map_i (fun val i =>
                               "$" ++ nat_to_string i ++ "="
                               ++ quoteString val)
                            (entries dict))]
        else [] in
      match typed opts with
      | Some opts =>
          match encodeValue opts dict value 0 None 0 with
          | Ok lines =>
              {| yielded := (dictLine ++ lines)%list; thrown := None |}
          | Throw e => {| yielded := dictLine; thrown := Some e |}
          end
      | None => {| yielded := dictLine; thrown := Some TypeError |}
      end
  end.

(** *** [decodeFromLines]

    The generator run to its end: it calls [decode] before it yields
    anything, so that it throws what [decode] throws or yields the
    items of the result. *)
Definition yield_result (result : GoonValue) : list GoonValue :=
  match result with
  | VArr items => items
  | _ => [result]
  end.

Definition decodeFromLines (lines : list string) (options : DecodeOptions)
    : outcome (list GoonValue) :=
  let allLines :=
    filter (fun line => negb (String.eqb (trim line) "")) lines in
  if length allLines =? 0 then Returns []
  else
    match decode (join LF_STR allLines) options with
    | Returns result => Returns (yield_result result)
    | Throws e => Throws e
    | OutOfFuel => OutOfFuel
    end.

(** ** The command line ([cli.ts]) *)

Module Cli.

(** The optional flags are [true] or absent: [false] stands for
    [undefined]. *)
Record Options : Type := {
  inputs : list string;
  output : option string;
  encode : bool;
  decode : bool;
  dictionary : bool;
  columnRefs : bool;
  stats : bool;
  compare : bool;
  validate : bool;
  batch : bool;
  help : bool
}.

Definition is_one_of (arg : string) (names : list string) : bool :=
  existsb (String.eqb arg) names.

(** The loop of [parseArgs] from the argument at hand on; [-o] takes
    the argument after it, [undefined] when there is none. *)
Fixpoint parseArgs_from (args : list string) (opts : Options) : Options :=
  match args with
  | [] => opts
  | arg :: rest =>
      if is_one_of arg ["-h"; "--help"] then
        parseArgs_from rest
          {| inputs := inputs opts; output := output opts;
             encode := encode opts; decode := decode opts;
             dictionary := dictionary opts; columnRefs := columnRefs opts;
             stats := stats opts; compare := compare opts;
             validate := validate opts; batch := batch opts; help := true |}
      else if is_one_of arg ["-o"; "--output"] then
        match rest with
        | next :: rest' =>
            parseArgs_from rest'
              {| inputs := inputs opts; output := Some next;
                 encode := encode opts; decode := decode opts;
                 dictionary := dictionary opts;
                 columnRefs := columnRefs opts;
                 stats := stats opts; compare := compare opts;
                 validate := validate opts; batch := batch opts;
                 help := help opts |}
        | [] =>
            {| inputs := inputs opts; output := None;
               encode := encode opts; decode := decode opts;
               dictionary := dictionary opts; columnRefs := columnRefs opts;
               stats := stats opts; compare := compare opts;
               validate := validate opts; batch := batch opts;
               help := help opts |}
        end
      else if is_one_of arg ["-e"; "--encode"] then
        parseArgs_from rest
          {| inputs := inputs opts; output := output opts;
             encode := true; decode := decode opts;
             dictionary := dictionary opts; columnRefs := columnRefs opts;
             stats := stats opts; compare := compare opts;
             validate := validate opts; batch := batch opts;
             help := help opts |}
      else if is_one_of arg ["-d"; "--decode"] then
        parseArgs_from rest
          {| inputs := inputs opts; output := output opts;
             encode := encode opts; decode := true;
             dictionary := dictionary opts; columnRefs := columnRefs opts;
             stats := stats opts; compare := compare opts;
             validate := validate opts; batch := batch opts;
             help := help opts |}
      else if String.eqb arg "--no-dict" then
        parseArgs_from rest
          {| inputs := inputs opts; output := output opts;
             encode := encode opts; decode := decode opts;
             dictionary := false; columnRefs := columnRefs opts;
             stats := stats opts; compare := compare opts;
             validate := validate opts; batch := batch opts;
             help := help opts |}
      else if String.eqb arg "--no-refs" then
        parseArgs_from rest
          {| inputs := inputs opts; output := output opts;
             encode := encode opts; decode := decode opts;
             dictionary := dictionary opts; columnRefs := false;
             stats := stats opts; compare := compare opts;
             validate := validate opts; batch := batch opts;
             help := help opts |}
      else if String.eqb arg "--stats" then
        parseArgs_from rest
          {| inputs := inputs opts; output := output opts;
             encode := encode opts; decode := decode opts;
             dictionary := dictionary opts; columnRefs := columnRefs opts;
             stats := true; compare := compare opts;
             validate := validate opts; batch := batch opts;
             help := help opts |}
      else if String.eqb arg "--compare" then
        parseArgs_from rest
          {| inputs := inputs opts; output := output opts;
             encode := encode opts; decode := decode opts;
             dictionary := dictionary opts; columnRefs := columnRefs opts;
             stats := stats opts; compare := true;
             validate := validate opts; batch := batch opts;
             help := help opts |}
      else if String.eqb arg "--validate" then
        parseArgs_from rest
          {| inputs := inputs opts; output := output opts;
             encode := encode opts; decode := decode opts;
             dictionary := dictionary opts; columnRefs := columnRefs opts;
             stats := stats opts; compare := compare opts;
             validate := true; batch := batch opts; help := help opts |}
      else if String.eqb arg "--batch" then
        parseArgs_from rest
          {| inputs := inputs opts; output := output opts;
             encode := encode opts; decode := decode opts;
             dictionary := dictionary opts; columnRefs := columnRefs opts;
             stats := stats opts; compare := compare opts;
             validate := validate opts; batch := true; help := help opts |}
      else if negb (startsWith arg "-") then
        parseArgs_from rest
          {| inputs := (inputs opts ++ [arg])%list; output := output opts;
             encode := encode opts; decode := decode opts;
             dictionary := dictionary opts; columnRefs := columnRefs opts;
             stats := stats opts; compare := compare opts;
             validate := validate opts; batch := batch opts;
             help := help opts |}
      else parseArgs_from rest opts
  end.

Definition parseArgs (args : list string) : Options :=
  parseArgs_from args
    {| inputs := []; output := None; encode := false; decode := false;
       dictionary := true; columnRefs := true; stats := false;
       compare := false; validate := false; batch := false; help := false |}.

Inductive Mode : Type := ModeEncode | ModeDecode.

(** [/^\w*\{[^}]+\}/.test(trimmed)] *)
Definition has_fields_header (trimmed : string) : bool :=
  match snd (span is_word trimmed) with
  | String "{" r =>
      let '(body, r') := span (fun c => negb (Ascii.eqb c "}")) r in
      negb (is_empty body) && startsWith r' "}"
  | _ => false
  end.

Definition detectMode (input : string) (inputPath : option string) : Mode :=
  let byPath :=
    match inputPath with
    | Some path =>
        if is_empty path then None
        else if endsWith path ".json" then Some ModeEncode
        else if endsWith path ".goon" then Some ModeDecode
        else None
    | None => None
    end in
  match byPath with
  | Some mode => mode
  | None =>
      let trimmed := trim input in
      if startsWith trimmed "{" || startsWith trimmed "[" then ModeEncode
      else if startsWith trimmed "$:" then ModeDecode
      else if has_fields_header trimmed then ModeDecode
      else ModeEncode
  end.

End Cli.

(** ** Notions used by the further statements *)

(** The escaped form of a character inside a quoted string. *)
Definition escape_char (c : ascii) : string :=
  if Ascii.eqb c BACKSLASH then "\\"
  else if Ascii.eqb c QUOTE then String BACKSLASH (String QUOTE "")
  else if Ascii.eqb c LF then "\n"
  else if Ascii.eqb c CR then "\r"
  else if Ascii.eqb c TAB then "\t"
  else String c "".

Fixpoint escape (s : string) : string :=
  match s with
  | EmptyString => EmptyString
  | String c s' => escape_char c ++ escape s'
  end.

(** A string between quotes, escaped. *)
Definition quoted (s : string) : string :=
  String QUOTE (escape s ++ QUOTE_STR).

(** A string that starts and ends with a quote: what the decoder takes
    for a quoted string. *)
Definition looks_quoted (s : string) : bool :=
  startsWith s QUOTE_STR && endsWith s QUOTE_STR && (2 <=? String.length s).

(** The numbers on which the embedding of [String] and [parseFloat] is
    exact: at most fifteen significant digits, written without an
    exponent, the last digit after the point not 0. *)
Definition plainly_written (n : number) : bool :=
  match n with
  | Finite m e =>
      (Z.abs m <? 10 ^ 15)%Z
      && ((e =? 0)
          || (negb (m mod 10 =? 0)%Z
              && (10 ^ Z.of_nat e <=? Z.abs m * 10 ^ 6)%Z))
  | _ => false
  end.

(** The primitives the primitive codec reads back: every one but the
    numbers that are not finite and the strings that are written without
    quotes although they start and end with one. *)
Definition reads_back (v : GoonValue) : bool :=
  match v with
  | VNull | VBool _ => true
  | VNum n => plainly_written n
  | VStr s => needsQuoting s || negb (looks_quoted s)
  | _ => false
  end.

(** The digits after the point that [parseFloat] keeps: the zeros at the
    end do not count. *)
Definition strip_zeros (f : string) : string :=
  rev (drop_while (Ascii.eqb "0") (rev f)).

(** The characters of a number written without an exponent. *)
Definition number_char (c : ascii) : bool :=
  is_digit c || Ascii.eqb c "-" || Ascii.eqb c ".".

(** The references a dictionary hands out are the positions of its
    entries. *)
Definition aligned (d : Dictionary) : Prop :=
  lookup d
  = map_i (fun s i => (s, "$" ++ decimal_of_N (N.of_nat i))) (entries d).

(** What a cell of a row, an item of an inline array or an entry of the
    dictionary line can hold for the line to be read back: a primitive
    that reads back; when it is a string written without quotes, it has
    no delimiter and no quote in it and no white space around it. *)
Definition bare_text (d : Delimiter) (s : string) : bool :=
  negb (any_char (fun c => Ascii.eqb c (delimiter_char d)
                           || Ascii.eqb c QUOTE) s)
  && String.eqb (trim s) s.

Definition fits_cell (d : Delimiter) (v : GoonValue) : bool :=
  match v with
  | VStr s => needsQuoting s || bare_text d s
  | _ => reads_back v
  end.

(** The text of a cell as the scanners of the decoder need it: quoted,
    or without a quote or a delimiter in it. *)
Definition cell_text (d : Delimiter) (text : string) : Prop :=
  (exists s, text = quoted s)
  \/ any_char (fun c => Ascii.eqb c (delimiter_char d) || Ascii.eqb c QUOTE)
              text = false.

(** The number of times a character occurs in a string. *)
Fixpoint count_char (c : ascii) (s : string) : nat :=
  match s with
  | EmptyString => 0
  | String x s' => (if Ascii.eqb x c then 1 else 0) + count_char c s'
  end.

(** The characters [detectDelimiter] counts or sets aside. *)
Definition is_separator (c : ascii) : bool :=
  Ascii.eqb c "," || Ascii.eqb c "|" || Ascii.eqb c TAB || Ascii.eqb c QUOTE.

(** The counts of [detectDelimiter] after [k] more delimiters [d]. *)
Definition bump_count (d : Delimiter) (k : nat) (counts : nat * nat * nat)
    : nat * nat * nat :=
  let '(commas, pipes, tabs) := counts in
  match d with
  | Comma => (commas + k, pipes, tabs)
  | Pipe => (commas, pipes + k, tabs)
  | Tab => (commas, pipes, tabs + k)
  end.

(** The number of containers nested in one another in a value. *)
Fixpoint height (v : GoonValue) : nat :=
  match v with
  | VArr items => S (fold_right (fun x n => Nat.max (height x) n) 0 items)
  | VObj _ props =>
      S (fold_right (fun kv n => Nat.max (height (snd kv)) n) 0 props)
  | _ => 0
  end.

(** No object of the value has a dangerous key. *)
Fixpoint keys_safe (v : GoonValue) : bool :=
  match v with
  | VArr items => forallb keys_safe items
  | VObj _ props =>
      forallb (fun kv => isSafeKey (fst kv) && keys_safe (snd kv)) props
  | _ => true
  end.

(** Strings that differ from one another. *)
Fixpoint distinct (l : list string) : bool :=
  match l with
  | [] => true
  | k :: l' => negb (existsb (String.eqb k) l') && distinct l'
  end.

(** The keys of every object of the value are safe and differ from one
    another. *)
Fixpoint well_keyed (v : GoonValue) : bool :=
  match v with
  | VArr items => forallb well_keyed items
  | VObj _ props =>
      distinct (map fst props)
      && forallb (fun kv => isSafeKey (fst kv) && well_keyed (snd kv)) props
  | _ => true
  end.

(** A call that throws nothing but the error [e0]. *)
Definition throws_only {A} (e0 : error) (r : result A) : Prop :=
  forall e, r = Throw e -> e = e0.

(** The replacer that keeps everything. *)
Definition keep_all (key : string) (value : GoonValue) : option GoonValue :=
  Some value.

(** A call that returns. *)
Definition returns {A} (r : result A) : Prop := exists a, r = Ok a.

(** A context that differs from another by its cursor only, which has
    not moved back. *)
Definition same_frame (ctx ctx' : ParseContext) : Prop :=
  lines ctx' = lines ctx /\ dictionary ctx' = dictionary ctx
  /\ indent ctx' = indent ctx /\ depth ctx' = depth ctx
  /\ index ctx <= index ctx'.

(** A parser that leaves the frame of the context as it found it. *)
Definition keeps_frame {A} (p : parser A) : Prop :=
  forall ctx baseIndent v ctx',
    p ctx baseIndent = Returns (v, ctx') -> same_frame ctx ctx'.

(** The error of the recursion limit of the decoder, at some line. *)
Definition is_depth_error (e : error) : Prop :=
  exists line,
    e = GoonDecodeError "Maximum recursion depth (100) exceeded" (Some line).

(** A parser that throws nothing else. *)
Definition throws_depth_error {A} (p : parser A) : Prop :=
  forall ctx baseIndent e, p ctx baseIndent = Throws e -> is_depth_error e.

(** No line of the context is indented by more than [limit] units. *)
Definition indented_at_most (limit : nat) (ctx : ParseContext) : Prop :=
  Forall (fun line => getIndentLevel line (indent ctx) <= limit) (lines ctx).

(** A value that a line [key: value] gives back: a primitive that reads
    back and, when it is a string written without quotes, has no white
    space around it. *)
Definition fits_line (v : GoonValue) : bool :=
  match v with
  | VStr s => needsQuoting s || (negb (looks_quoted s) && String.eqb (trim s) s)
  | _ => reads_back v
  end.

(** A key that the decoder reads as a key: made of letters, digits,
    underscores and points, not of digits only, and not dangerous. *)
Definition record_key (k : string) : bool :=
  negb (is_empty k) && all_chars is_key_char k
  && negb (all_chars is_digit k) && isSafeKey k.

(** The properties of an object of such keys, different from one
    another, and such values. *)
Definition flat_record (props : list (string * GoonValue)) : bool :=
  distinct (map fst props)
  && forallb (fun kv => record_key (fst kv) && fits_line (snd kv)) props.

(** The line of a property. *)
Definition property_line (dict : Dictionary) (kv : string * GoonValue)
    : string :=
  fst kv ++ ": " ++ encodePrimitive (snd kv) dict false.

Definition no_dictionary : Dictionary := {| entries := []; lookup := [] |}.

(** The options whose [indent], after the spread, is a string. *)
Definition indent_is_string (options : EncodeOptions) : bool :=
  match Encode.indent (resolve_options options) with
  | Some _ => true
  | None => false
  end.

(** The options under which a table is a header and one line of cells
    for each row: no dictionary, no column reference, no default, no
    footer and no row number, rows in the first column, the length in
    the header, the comma between the cells.  The default mode has
    them. *)
Definition plain_tables {Indent} (opts : Options Indent) : bool :=
  negb (Encode.dictionary opts) && negb (columnRefs opts)
  && negb (schemaDefaults opts) && negb (footerSummaries opts)
  && negb (rowNumbers opts)
  && minimalIndent opts && arrayLengths opts && tabularArrays opts
  && match delimiter opts with Comma => true | _ => false end.

(** The line of a row. *)
Definition row_text (fields : list string) (row : GoonValue) : string :=
  join ","
    (map (fun f => encodePrimitive (field_value row f) no_dictionary false)
         fields).

(** The header of a table of [n] rows. *)
Definition table_header (n : nat) (fields : list string) : string :=
  "[" ++ nat_to_string n ++ "]" ++ "{" ++ join "," fields ++ "}:".

(** A field name that the header gives back: not empty, without a
    delimiter, a quote, a closing brace or a line feed in it, not made
    of digits only, and not dangerous. *)
Definition table_field (f : string) : bool :=
  negb (is_empty f)
  && negb (any_char (fun c => is_separator c || Ascii.eqb c "}"
                              || Ascii.eqb c LF) f)
  && negb (all_chars is_digit f) && isSafeKey f.

Fixpoint same_strings (a b : list string) : bool :=
  match a, b with
  | [], [] => true
  | x :: a', y :: b' => String.eqb x y && same_strings a' b'
  | _, _ => false
  end.

(** A row that its line gives back: an object that lists the fields in
    the order of the header, with values that fit in a cell and are not
    the string of the column reference, and whose line does not start
    like a key. *)
Definition table_row (fields : list string) (row : GoonValue) : bool :=
  same_strings (Object_keys row) fields
  && forallb (fun v => fits_cell Comma v && negb (is_marker v))
             (Object_values row)
  && negb (starts_like_key (row_text fields row)).

(** An object as the decoder makes it: without a prototype. *)
Definition without_prototype (v : GoonValue) : GoonValue :=
  match v with
  | VObj _ props => VObj NullPrototype props
  | _ => v
  end.

(** A value as the reviver rebuilds it: every object without a
    prototype. *)
Fixpoint rebuilt (v : GoonValue) : GoonValue :=
  match v with
  | VArr items => VArr (map rebuilt items)
  | VObj _ props =>
      VObj NullPrototype (map (fun kv => (fst kv, rebuilt (snd kv))) props)
  | _ => v
  end.

(** The reviver that keeps every value. *)
Definition keep_value (key : string) (value : GoonValue) : GoonValue := value.

(** ** Notions of the limits, of the column references and of the sort *)

(** The compact preset with a maximum number of dictionary entries. *)
Definition compact_with_entries (maxEntries : Z) : EncodeOptions :=
  {| mode := Some compact; replacer := None;
     fields :=
       {| set_dictionary := None; set_columnRefs := None;
          set_runLength := None; set_minDictLength := None;
          set_minDictOccurrences := None;
          set_maxDictEntries := Some maxEntries;
          set_indent := None; set_autoSort := None; set_delimiter := None;
          set_maxColumnRefDepth := None; set_maxDictDepth := None;
          set_arrayLengths := None; set_tabularArrays := None;
          set_minimalIndent := None; set_schemaDefaults := None;
          set_footerSummaries := None; set_rowNumbers := None |} |}.

(** The string [abc] fifteen times and ten strings of twenty characters
    twice each. *)
Definition eleven_strings : GoonValue :=
  VArr (List.repeat (VStr "abc") 15
        ++ flat_map (fun c => [VStr (String c "0123456789012345678");
                               VStr (String c "0123456789012345678")])
             ["a"; "b"; "c"; "d"; "e"; "f"; "g"; "h"; "i"; "j"]%char)%list.

(** The greatest value the recursion counter of the encoder has at a
    check of the limit while [v] is written, counted from the counter of
    the call that writes [v]: for an array, which [encodeArray] writes
    without a check, from the counter of the caller of [encodeArray].  An
    array written on one line or as a table is not descended into. *)
Fixpoint deepest (tabular : bool) (v : GoonValue) : nat :=
  match v with
  | VArr arr =>
      if (length arr =? 0) || (tabular && isTabularArray arr)
         || (forallb isPrimitive arr && (length arr <=? 10))
      then 0
      else
        fold_right
          (fun item n =>
             Nat.max (if isPrimitive item then 0 else deepest tabular item + 2)
                     n)
          0 arr
  | VObj _ props =>
      fold_right
        (fun kv n =>
           Nat.max
             (if isSafeKey (fst kv) then
                if isPrimitive (snd kv) then 0
                else if isArray (snd kv) then deepest tabular (snd kv)
                else S (deepest tabular (snd kv))
              else 0)
             n)
        0 props
  | _ => 0
  end.

(** The same for [encodeValue], which checks the limit and then, for an
    object, calls [encodeObject], which checks it again one level
    deeper. *)
Definition checked_depth (tabular : bool) (v : GoonValue) : nat :=
  if isPlainObject v then S (deepest tabular v) else deepest tabular v.

(** The text of [wrappers] nested objects around the lines [inner]. *)
Definition wrapped_document (wrappers : nat) (inner : list string) : string :=
  text_of
    (List.app
       (map (fun i => repeat_string "  " i ++ "nested:") (seq 0 wrappers))
       (map (fun line => repeat_string "  " wrappers ++ line) inner)).

(** What the decoder makes of [wrappers] nested objects around [v]. *)
Fixpoint wrapped_value (wrappers : nat) (v : GoonValue) : GoonValue :=
  match wrappers with
  | O => v
  | S n => VObj NullPrototype [("nested", wrapped_value n v)]
  end.

(** A table of one row inside [wrappers] nested objects. *)
Definition nested_table_document (wrappers : nat) : string :=
  wrapped_document wrappers ["t{a}:"; "1"].

Definition wrapped_lines (n : nat) (first : string) (rest : list string)
    : list string :=
  List.app
    (map (fun i => repeat_string "  " i ++ "nested:") (seq 0 n))
    (map (fun line => repeat_string "  " n ++ line) (first :: rest)).

(** The context of the decoder at line [i] of such lines, [i] calls
    deep, and at their end. *)
Definition ctx_at (n : nat) (first : string) (rest : list string) (i : nat)
    : ParseContext :=
  {| lines := wrapped_lines n first rest; index := i; dictionary := [];
     Decode.indent := "  "; depth := Z.of_nat i |}.

Definition ctx_end (n : nat) (first : string) (rest : list string)
    (i : nat) : ParseContext :=
  {| lines := wrapped_lines n first rest;
     index := length (wrapped_lines n first rest); dictionary := [];
     Decode.indent := "  "; depth := Z.of_nat i |}.

(** [v] inside [wrappers] nested objects. *)
Fixpoint nested_in (wrappers : nat) (v : GoonValue) : GoonValue :=
  match wrappers with
  | O => v
  | S n => object [("nested", nested_in n v)]
  end.

(** A table of two rows inside 99 nested objects: 101 levels. *)
Definition deep_table : GoonValue :=
  nested_in 98 (object [("t", VArr [object [("a", integer 1)];
                                    object [("a", integer 2)]])]).

(** The options under which a root table of rows equal to one another
    is a header, the line of the first row and one line of references
    for each later row: column references in use at the root, no
    default, no footer and no row number, the length in the header, the
    comma between the cells. *)
Definition reference_tables {Indent} (opts : Options Indent) : bool :=
  use_column_refs opts 0
  && negb (schemaDefaults opts) && negb (footerSummaries opts)
  && negb (rowNumbers opts)
  && arrayLengths opts && tabularArrays opts
  && match delimiter opts with Comma => true | _ => false end.

(** What is written in front of a row of a root table. *)
Definition row_indent (opts : InternalOptions) : string :=
  if minimalIndent opts then "" else repeat_string (Encode.indent opts) 1.

(** The rows of a root table start in the first column or behind white
    space without a line feed: [indent] is a string of such white space,
    or [minimalIndent] is on. *)
Definition rows_behind_spaces (options : EncodeOptions) : bool :=
  match typed (resolve_options options) with
  | Some opts =>
      all_chars (fun c => is_space c && negb (Ascii.eqb c LF))
                (row_indent opts)
  | None => false
  end.

(** The same, from the options [encode] is given. *)
Definition root_row_indent (options : EncodeOptions) : string :=
  match typed (resolve_options options) with
  | Some opts => row_indent opts
  | None => ""
  end.

(** The line of a row equal to the row above it. *)
Definition reference_text (fields : list string) (row : GoonValue) : string :=
  join ","
    (referred (row_values fields row)
       (map (fun f => encodePrimitive (field_value row f) no_dictionary false)
            fields)).

(** What the decoder reads in a cell of such a line. *)
Definition reference_value (v : GoonValue) : GoonValue :=
  if markable v then VStr "^" else v.

(** The context [k] lines further. *)
Definition further (k : nat) (ctx : ParseContext) : ParseContext :=
  {| lines := lines ctx; index := index ctx + k;
     dictionary := dictionary ctx; Decode.indent := Decode.indent ctx;
     depth := depth ctx |}.

(** The lines of a table of [n + 2] rows equal to [row], written with
    column references behind [pad], at the root or under a key of the
    root. *)
Definition repeated_table (key : option string) (pad : string)
    (fields : list string) (row : GoonValue) (n : nat) : list string :=
  with_key key (table_header (S (S n)) fields)
  :: (pad ++ row_text fields row)
  :: List.repeat (pad ++ reference_text fields row) (S n).

(** [{"t":[{"a":"x,y"},{"a":"x,y"}]}] *)
Definition comma_rows : GoonValue :=
  object [("t", VArr [object [("a", VStr "x,y")];
                      object [("a", VStr "x,y")]])].

(** [{"a":{"t":[{"x":1},{"x":1}]}}] *)
Definition inner_rows : GoonValue :=
  object [("a", object [("t", VArr [object [("x", integer 1)];
                                    object [("x", integer 1)]])])].

(** The fields [autoSortForColumnRefs] sorts the rows on: the first
    three of the fields in the order of their longest runs, the longest
    first. *)
Definition sort_fields (arr : list GoonValue) (fields : list string)
    : list string :=
  map fst
    (firstn 3
       (sort_by (fun a b : string * nat => snd b <=? snd a)
                (map (fun field => (field, maxRun arr field)) fields))).

(** * Properties *)

(** ** Strings *)

Lemma append_empty_r (s : string) : s ++ "" = s.
Proof. induction s as [|c s IH]; simpl; [reflexivity | now rewrite IH]. Qed.

Lemma append_assoc (a b c : string) : (a ++ b) ++ c = a ++ (b ++ c).
Proof. induction a as [|x a IH]; simpl; [reflexivity | now rewrite IH]. Qed.

Lemma length_append (a b : string) :
  String.length (a ++ b) = String.length a + String.length b.
Proof. induction a as [|x a IH]; simpl; [reflexivity | now rewrite IH]. Qed.

Lemma take_append (a b : string) : take (String.length a) (a ++ b) = a.
Proof. induction a as [|x a IH]; simpl; [now destruct b | now rewrite IH]. Qed.

Lemma drop_append (a b : string) : drop (String.length a) (a ++ b) = b.
Proof. induction a as [|x a IH]; simpl; [reflexivity | exact IH]. Qed.

Lemma lastIndexOf_from_append (c : ascii) (a b : string) :
  forall i found,
    lastIndexOf_from c (a ++ String c b) i found
    = lastIndexOf_from c b (S (i + String.length a))
                       (Some (i + String.length a)).
Proof.
  induction a as [|x a IH]; intros i found; simpl.
  - rewrite Ascii.eqb_refl, Nat.add_0_r. reflexivity.
  - rewrite IH. now replace (S i + String.length a) with (i + S (String.length a)) by lia.
Qed.

Lemma startsWith_one_append (a b : string) (c : ascii) :
  is_empty a = false ->
  startsWith (a ++ b) (String c "") = startsWith a (String c "").
Proof. destruct a; [discriminate | reflexivity]. Qed.

(** ** C6 *)

(** C6: a token [$N] made of digits resolves to the entry [N] of the
    dictionary when there is one, and is kept as the string of the token
    itself when [N] is out of range; [parsePrimitive] returns a value in
    both cases. *)
Theorem C6_dictionary_reference :
  forall (digits : string) (dictionary : list string),
    all_digits digits = true ->
    let token := String "$" digits in
    let N := N.to_nat (digits_value digits) in
    (forall entry, nth_error dictionary N = Some entry ->
                   parsePrimitive token dictionary = VStr entry)
    /\ (length dictionary <= N ->
        parsePrimitive token dictionary = VStr token).
Proof.
  intros digits dict Hd token N.
  assert (Hlen : (1 <? String.length token) = true).
  { unfold token. destruct digits; [discriminate | reflexivity]. }
  unfold parsePrimitive.
  change (String.eqb token "_") with false.
  change (String.eqb token "T") with false.
  change (String.eqb token "F") with false.
  change (String.eqb token "~") with false.
  cbv iota.
  change (startsWith token "$") with true.
  rewrite Hlen. cbv [andb].
  change (drop 1 token) with digits. rewrite Hd. fold N.
  split.
  - intros entry He. now rewrite He.
  - intros Hle. apply nth_error_None in Hle. now rewrite Hle.
Qed.

Lemma C6_witness :
  all_digits "1" = true
  /\ parsePrimitive "$1" ["alpha"; "beta"] = VStr "beta"
  /\ parsePrimitive "$7" ["alpha"; "beta"] = VStr "$7".
Proof.
  split; [reflexivity|]. split.
  - apply (C6_dictionary_reference "1" ["alpha"; "beta"]); reflexivity.
  - apply (C6_dictionary_reference "7" ["alpha"; "beta"]);
      [reflexivity | vm_compute; lia].
Defined.

(** ** C10 *)

Lemma parseCell_repeat_bounds (cell : string) (dictionary : list string) :
  (1 <= repeat (parseCell cell dictionary) <= MAX_REPEAT_COUNT)%Z.
Proof.
  unfold parseCell, MAX_REPEAT_COUNT.
  destruct (negb (startsWith cell QUOTE_STR)); [|simpl; lia].
  destruct (lastIndexOf "*" cell) as [i|]; [|simpl; lia].
  destruct (0 <? i); [|simpl; lia].
  destruct (all_digits (drop (i + 1) cell)); [|simpl; lia].
  cbn [repeat].
  destruct (Z.ltb_spec (Z.min (Z.of_N (digits_value (drop (i + 1) cell))) 10000) 1); lia.
Qed.

(** C10: an unquoted cell [value*0] is the value once: the repeat count
    0 becomes 1, and no cell has a repeat count below 1 (or above the
    maximum). *)
Theorem C10_zero_repeat_is_one :
  forall (v : string) (dictionary : list string),
    is_empty v = false ->
    startsWith v QUOTE_STR = false ->
    parseCell (v ++ "*0") dictionary
    = {| value := parsePrimitive v dictionary; repeat := 1 |}
    /\ push_cell [] (parseCell (v ++ "*0") dictionary)
       = [parsePrimitive v dictionary]
    /\ (forall cell,
          (1 <= repeat (parseCell cell dictionary) <= MAX_REPEAT_COUNT)%Z).
Proof.
  intros v dict Hne Hq.
  assert (Hcell : parseCell (v ++ "*0") dict
                  = {| value := parsePrimitive v dict; repeat := 1 |}).
  { unfold parseCell.
    unfold QUOTE_STR in *. rewrite startsWith_one_append by assumption.
    rewrite Hq. cbn [negb].
    unfold lastIndexOf. rewrite lastIndexOf_from_append. cbn [lastIndexOf_from].
    change (Ascii.eqb "0" "*") with false. cbv iota. cbn [Nat.add].
    assert (Hpos : (0 <? String.length v) = true).
    { destruct v; [discriminate | reflexivity]. }
    rewrite Hpos.
    replace (String.length v + 1) with (String.length (v ++ "*")) by (rewrite length_append; reflexivity).
    replace (v ++ "*0") with ((v ++ "*") ++ "0") by (rewrite append_assoc; reflexivity).
    rewrite drop_append.
    rewrite append_assoc. rewrite take_append.
    reflexivity. }
  split; [exact Hcell|]. split.
  - rewrite Hcell. reflexivity.
  - intros cell. apply parseCell_repeat_bounds.
Qed.

Lemma C10_witness :
  is_empty "x" = false
  /\ startsWith "x" QUOTE_STR = false
  /\ parseCell "x*0" [] = {| value := VStr "x"; repeat := 1 |}.
Proof.
  split; [reflexivity|]. split; [reflexivity|].
  apply (C10_zero_repeat_is_one "x" []); reflexivity.
Defined.

(** ** Documents of one repeated character *)

Lemma document_of_succ (n : N) (c : ascii) :
  document_of (N.succ n) c = String c (document_of n c).
Proof. unfold document_of. now rewrite N.iter_succ. Qed.

Lemma utf8_length_document (n : N) (c : ascii) :
  utf8_length (document_of n c)
  = (Z.of_N n * (if (code c <? 128)%nat then 1 else 2))%Z.
Proof.
  induction n as [|n IH] using N.peano_ind; [reflexivity|].
  rewrite document_of_succ. cbn [utf8_length]. rewrite IH. lia.
Qed.

Lemma all_chars_document (p : ascii -> bool) (n : N) (c : ascii) :
  p c = true -> all_chars p (document_of n c) = true.
Proof.
  intros Hp. induction n as [|n IH] using N.peano_ind; [reflexivity|].
  rewrite document_of_succ. cbn [all_chars]. now rewrite Hp, IH.
Qed.

Lemma any_char_document (p : ascii -> bool) (n : N) (c : ascii) :
  p c = false -> any_char p (document_of n c) = false.
Proof.
  intros Hp. induction n as [|n IH] using N.peano_ind; [reflexivity|].
  rewrite document_of_succ. cbn [any_char]. now rewrite Hp, IH.
Qed.

Lemma drop_while_all (p : ascii -> bool) (s : string) :
  all_chars p s = true -> drop_while p s = "".
Proof.
  induction s as [|c s IH]; [reflexivity|]. cbn.
  destruct (p c); [exact IH | discriminate].
Qed.

Lemma trim_blank (s : string) : all_chars is_space s = true -> trim s = "".
Proof.
  intros H. unfold trim, trim_start. now rewrite drop_while_all.
Qed.

Lemma rev_onto_append (a b c : string) :
  rev_onto a b ++ c = rev_onto a (b ++ c).
Proof.
  revert b. induction a as [|x a IH]; intros b; [reflexivity|].
  cbn. now rewrite IH.
Qed.

Lemma split_go_no_separator (d : ascii) (s cur : string) :
  any_char (fun c => Ascii.eqb c d) s = false ->
  split_go d s cur = [rev cur ++ s].
Proof.
  revert cur. induction s as [|c s IH]; intros cur H.
  - cbn. now rewrite append_empty_r.
  - cbn [any_char] in H. apply orb_false_iff in H as [Hc Hs].
    cbn [split_go]. rewrite Hc, IH by assumption. unfold rev. cbn [rev_onto].
    rewrite !rev_onto_append. reflexivity.
Qed.

Lemma split_no_separator (d : ascii) (s : string) :
  any_char (fun c => Ascii.eqb c d) s = false -> split d s = [s].
Proof. intros H. unfold split. now rewrite split_go_no_separator. Qed.

(** ** The size limit of [decode] *)

Lemma decode_rejects_large (input : string) (options : DecodeOptions) :
  (MAX_INPUT_SIZE < utf8_length input)%Z ->
  decode input options
  = Throws (Error ("Input size " ++ decimal_of_N (Z.to_N (utf8_length input))
                   ++ " bytes exceeds maximum allowed size of "
                   ++ decimal_of_N (Z.to_N MAX_INPUT_SIZE) ++ " bytes")).
Proof.
  intros H. unfold decode, validateInputSize.
  destruct (Z.gtb_spec (utf8_length input) MAX_INPUT_SIZE); [reflexivity | lia].
Qed.

Lemma decode_accepts_small (input : string) (options : DecodeOptions) :
  (utf8_length input <= MAX_INPUT_SIZE)%Z ->
  validateInputSize input = Ok tt.
Proof.
  intros H. unfold validateInputSize.
  destruct (Z.gtb_spec (utf8_length input) MAX_INPUT_SIZE); [lia | reflexivity].
Qed.

(** ** C8 *)

(** C8: in balanced mode without the dictionary the object
    [{"a":1,"b":"hello","c":true}] is encoded as the three lines [a: 1],
    [b: hello], [c: T], and that text decodes to the data of the
    object. *)
Theorem C8_simple_object_scenario :
  encode simple_object balanced_without_dictionary
  = Ok (text_of ["a: 1"; "b: hello"; "c: T"])
  /\ exists decoded,
       decode (text_of ["a: 1"; "b: hello"; "c: T"]) no_reviver
       = Returns decoded
       /\ equal_data decoded simple_object.
Proof.
  split; [vm_compute; reflexivity|].
  eexists. split; vm_compute; reflexivity.
Qed.

(** ** C1 *)

(** C1 (fails on the code): in every preset [{"tags":["x,y"]}] is encoded
    as [tags[]:x,y], the comma of the string unquoted, and that text
    decodes to the two strings [x] and [y]. *)
Theorem C1_round_trip_broken_by_unquoted_comma :
  forall m : EncodeMode,
    encode tagged (preset m) = Ok "tags[]:x,y"
    /\ decode "tags[]:x,y" no_reviver
       = Returns (VObj NullPrototype [("tags", VArr [VStr "x"; VStr "y"])])
    /\ ~ equal_data
         (VObj NullPrototype [("tags", VArr [VStr "x"; VStr "y"])]) tagged.
Proof.
  intros m. split; [destruct m; vm_compute; reflexivity|].
  split; [vm_compute; reflexivity|].
  unfold equal_data. vm_compute. discriminate.
Qed.

(** ** Nested objects *)

Lemma encodeObject_of_unfold opts dict proto props depth parentKey rd :
  encodeObject_of opts dict (VObj proto props) depth parentKey rd
  = encodeObject_body opts dict (encodeArray_of opts dict)
      (encodeObject_of opts dict) props depth parentKey rd.
Proof. reflexivity. Qed.

Lemma nested_object_is_object (n : nat) :
  isPrimitive (nested_object n) = false
  /\ isArray (nested_object n) = false
  /\ isPlainObject (nested_object n) = true.
Proof. destruct n; repeat split. Qed.

(** An object nested in [n] objects is refused from the recursion depth
    [100 - n] on. *)
Lemma encode_nested_object_throws opts dict (n : nat) :
  forall depth parentKey rd,
    (MAX_RECURSION_DEPTH <= rd + Z.of_nat n)%Z ->
    encodeObject_of opts dict (nested_object n) depth parentKey rd
    = Throw depth_error.
Proof.
  induction n as [|n IH]; intros depth parentKey rd Hrd.
  - cbn [nested_object]. unfold object. rewrite encodeObject_of_unfold.
    unfold encodeObject_body.
    destruct (Z.geb_spec rd MAX_RECURSION_DEPTH); [reflexivity | lia].
  - cbn [nested_object]. unfold object. rewrite encodeObject_of_unfold.
    unfold encodeObject_body.
    destruct (Z.geb_spec rd MAX_RECURSION_DEPTH); [reflexivity|].
    cbn [filter fst]. change (isSafeKey "nested") with true. cbv iota.
    cbn [length Nat.eqb for_each_where].
    destruct (nested_object_is_object n) as (Hp & Ha & Ho).
    rewrite Hp, Ha, Ho. rewrite IH by lia. reflexivity.
Qed.

(** ** C9 *)

(** C9 as it is stated fails on a blank input above the size limit: a
    document of 10 MiB and one byte of spaces has no line that is not
    blank, and [decode] throws. *)
Lemma C9_counterexample :
  Forall (fun line => trim line = "")
         (split LF (document_of (10 * 1024 * 1024 + 1) " "))
  /\ decode (document_of (10 * 1024 * 1024 + 1) " ") no_reviver
     <> Returns VNull.
Proof.
  split.
  - rewrite split_no_separator by (apply any_char_document; reflexivity).
    constructor; [|constructor].
    apply trim_blank, all_chars_document. reflexivity.
  - rewrite decode_rejects_large by (rewrite utf8_length_document; reflexivity).
    discriminate.
Qed.

Lemma filter_blank_lines (l : list string) :
  Forall (fun line => trim line = "") l ->
  filter (fun line => negb (String.eqb (trim line) "")) l = [].
Proof.
  induction 1 as [|line l Hline _ IH]; [reflexivity|].
  cbn [filter]. now rewrite Hline, IH.
Qed.

(** C9 (amended): an input within the size limit that is empty or has
    only blank lines, or whose only line that is not blank is a
    dictionary line starting with [$:], decodes to [null], whatever the
    options. *)
Theorem C9_blank_input_decodes_to_null :
  forall (input : string) (options : DecodeOptions),
    (utf8_length input <= MAX_INPUT_SIZE)%Z ->
    (Forall (fun line => trim line = "") (split LF input)
     \/ exists dictLine,
          input_lines input = [dictLine]
          /\ startsWith dictLine "$:" = true) ->
    decode input options = Returns VNull.
Proof.
  intros input options Hsize Hshape. unfold decode.
  rewrite decode_accepts_small by assumption.
  destruct Hshape as [Hblank | (dictLine & Hlines & Hstart)].
  - unfold input_lines. now rewrite filter_blank_lines.
  - rewrite Hlines. cbn [length Nat.eqb]. rewrite Hstart. reflexivity.
Qed.

Lemma C9_witness :
  (utf8_length "  " <= MAX_INPUT_SIZE)%Z
  /\ decode "  " no_reviver = Returns VNull
  /\ decode "$:alpha,beta" no_reviver = Returns VNull.
Proof.
  split; [vm_compute; discriminate|]. split.
  - apply C9_blank_input_decodes_to_null; [vm_compute; discriminate|].
    left. vm_compute. repeat constructor.
  - apply C9_blank_input_decodes_to_null; [vm_compute; discriminate|].
    right. exists "$:alpha,beta". split; reflexivity.
Defined.

(** ** Sorting *)

Section SortFacts.
Context {A : Type} (leb : A -> A -> bool).

Lemma insert_sorted_in (x y : A) (l : list A) :
  In y (insert_sorted leb x l) <-> y = x \/ In y l.
Proof.
  induction l as [|z l IH]; cbn.
  - intuition.
  - destruct (leb x z); cbn; [intuition | rewrite IH; intuition].
Qed.

Lemma sort_by_cons (x : A) (l : list A) :
  sort_by leb (x :: l) = insert_sorted leb x (sort_by leb l).
Proof. reflexivity. Qed.

Lemma sort_by_in (y : A) (l : list A) : In y (sort_by leb l) <-> In y l.
Proof.
  induction l as [|x l IH]; [reflexivity|].
  rewrite sort_by_cons, insert_sorted_in, IH. cbn. intuition.
Qed.

Lemma insert_sorted_length (x : A) (l : list A) :
  length (insert_sorted leb x l) = S (length l).
Proof.
  induction l as [|z l IH]; cbn; [reflexivity|].
  destruct (leb x z); cbn; [reflexivity | now rewrite IH].
Qed.

Lemma sort_by_length (l : list A) : length (sort_by leb l) = length l.
Proof.
  induction l as [|x l IH]; [reflexivity|].
  rewrite sort_by_cons, insert_sorted_length, IH. reflexivity.
Qed.
End SortFacts.

(** ** C4 *)

(** C4 as it is stated fails on an array of objects without keys: the
    array [[{}]] is not empty, its element is an object, the key sets
    are the same and no value is a container, and [isTabularArray]
    answers false. *)
Lemma C4_counterexample :
  spec_is_tabular [object []] /\ isTabularArray [object []] = false.
Proof.
  split; [|reflexivity].
  unfold spec_is_tabular. split; [discriminate|]. split; [|split].
  - intros item [<-|[]]. reflexivity.
  - intros a b [<-|[]] [<-|[]]. reflexivity.
  - intros item key [<-|[]] [].
Qed.

Lemma every_from_key_check (item : GoonValue) (keys : list string) :
  forall (firstKeys before : list string),
    every_from (key_check item (before ++ firstKeys)) (length before) keys
    = true
    <-> (exists rest, firstKeys = keys ++ rest)%list
        /\ Forall (primitive_at item) keys.
Proof.
  induction keys as [|key keys IH]; intros firstKeys before; cbn [every_from].
  - split; [intros _; split; [exists firstKeys; reflexivity | constructor] | intros _; reflexivity].
  - rewrite andb_true_iff. unfold key_check at 1.
    rewrite nth_error_app2 by lia. rewrite Nat.sub_diag.
    destruct firstKeys as [|k firstKeys]; cbn [nth_error].
    + split; [intros [? _]; discriminate | intros [[rest ?] _]; discriminate].
    + replace (before ++ k :: firstKeys)%list
        with ((before ++ [k]) ++ firstKeys)%list
        by (rewrite <- app_assoc; reflexivity).
      replace (S (length before)) with (length (before ++ [k])%list)
        by (rewrite length_app; cbn; lia).
      rewrite IH.
      destruct (String.eqb_spec key k) as [->|Hne]; cbn [negb].
      * split.
        -- intros (Hv & (rest & ->) & Hall). split; [now exists rest|].
           constructor; [|assumption].
           destruct (get_prop item k) as [v|] eqn:Hget; [|discriminate].
           exists v. split; assumption.
        -- intros ((rest & Heq) & Hall). inversion Heq; subst.
           inversion Hall as [|? ? (v & Hget & Hprim) Hall']; subst.
           rewrite Hget. split; [assumption|]. split; [now exists rest | assumption].
      * split; [intros [? _]; discriminate|].
        intros ((rest & Heq) & _). inversion Heq; congruence.
Qed.

Lemma every_key_check (item : GoonValue) (keys firstKeys : list string) :
  length keys = length firstKeys ->
  every_i (key_check item firstKeys) keys = true
  <-> keys = firstKeys /\ Forall (primitive_at item) keys.
Proof.
  intros Hlen. unfold every_i.
  rewrite (every_from_key_check item keys firstKeys []).
  split; intros [H Hall]; split; try assumption.
  - destruct H as [rest ->]. rewrite length_app in Hlen.
    destruct rest; [now rewrite app_nil_r | cbn in Hlen; lia].
  - exists []. now rewrite app_nil_r.
Qed.

Lemma item_is_tabular (item : GoonValue) (firstKeys : list string) :
  (if negb (isPlainObject item) then false
   else
     let keys := sort_strings (Object_keys item) in
     if negb (length keys =? length firstKeys) then false
     else every_i (key_check item firstKeys) keys) = true
  <-> isPlainObject item = true
      /\ sort_strings (Object_keys item) = firstKeys
      /\ (forall key, In key (Object_keys item) -> primitive_at item key).
Proof.
  assert (Hin : Forall (primitive_at item) (sort_strings (Object_keys item))
                <-> forall key, In key (Object_keys item) ->
                                primitive_at item key).
  { rewrite Forall_forall. unfold sort_strings.
    split; intros H key Hk; apply H; [now apply sort_by_in | now apply sort_by_in in Hk]. }
  destruct (isPlainObject item); cbn [negb];
    [|split; [discriminate | intros [? _]; discriminate]].
  cbv zeta.
  destruct (Nat.eqb_spec (length (sort_strings (Object_keys item)))
                         (length firstKeys)) as [Hlen|Hlen]; cbn [negb].
  - rewrite every_key_check by assumption. rewrite Hin. tauto.
  - split; [discriminate|]. intros (_ & Heq & _). now rewrite Heq in Hlen.
Qed.

Lemma isTabularArray_cons (first : GoonValue) (rest : list GoonValue) :
  isTabularArray (first :: rest)
  = if negb (forallb isPlainObject (first :: rest)) then false
    else if length (sort_strings (Object_keys first)) =? 0 then false
    else
      forallb
        (fun item =>
           if negb (isPlainObject item) then false
           else
             let keys := sort_strings (Object_keys item) in
             if negb (length keys
                      =? length (sort_strings (Object_keys first)))
             then false
             else every_i
                    (key_check item (sort_strings (Object_keys first))) keys)
        (first :: rest).
Proof. reflexivity. Qed.

(** C4 (amended): [isTabularArray] answers true exactly for the arrays
    that are not empty, whose elements are objects with one sorted key
    set and only primitive values, and whose first element has a key. *)
Theorem C4_tabular_detection_is_exact :
  forall arr : list GoonValue,
    isTabularArray arr = true
    <-> spec_is_tabular arr
        /\ exists first rest, arr = first :: rest /\ Object_keys first <> [].
Proof.
  intros arr. unfold spec_is_tabular.
  destruct arr as [|first rest].
  { split; [discriminate | intros [[H _] _]; congruence]. }
  rewrite isTabularArray_cons.
  set (arr := first :: rest).
  set (firstKeys := sort_strings (Object_keys first)).
  assert (Hkeys : (length firstKeys =? 0) = false <-> Object_keys first <> []).
  { unfold firstKeys, sort_strings. rewrite sort_by_length, Nat.eqb_neq.
    destruct (Object_keys first); cbn; split; congruence || lia. }
  split.
  - destruct (forallb isPlainObject arr) eqn:Hplain; cbn [negb]; [|discriminate].
    destruct (length firstKeys =? 0) eqn:Hlen; [discriminate|].
    rewrite forallb_forall. intros Hall.
    assert (Hitem : forall item, In item arr ->
              isPlainObject item = true
              /\ sort_strings (Object_keys item) = firstKeys
              /\ (forall key, In key (Object_keys item) ->
                              primitive_at item key)).
    { intros item Hi. apply item_is_tabular, Hall, Hi. }
    split; [|exists first, rest; split; [reflexivity | now apply Hkeys]].
    split; [discriminate|]. split; [|split].
    + intros item Hi. apply (Hitem item Hi).
    + intros a b Ha Hb.
      destruct (Hitem a Ha) as (_ & -> & _).
      destruct (Hitem b Hb) as (_ & -> & _). reflexivity.
    + intros item key Hi Hk. apply (Hitem item Hi). exact Hk.
  - intros ((_ & Hplain & Hsame & Hprim) & first' & rest' & Heq & Hne).
    inversion Heq; subst first' rest'.
    assert (Hp : forallb isPlainObject arr = true).
    { apply forallb_forall. exact Hplain. }
    rewrite Hp. cbn [negb].
    apply Hkeys in Hne. rewrite Hne.
    apply forallb_forall. intros item Hi. apply item_is_tabular.
    split; [now apply Hplain|]. split.
    + apply Hsame; [assumption | now left].
    + intros key Hk. now apply Hprim.
Qed.

(** ** The stable sort *)

Section StableSort.
Context {A : Type} (leb : A -> A -> bool).
Hypothesis leb_total : forall a b, leb a b = false -> leb b a = true.
Hypothesis leb_trans :
  forall a b c, leb a b = true -> leb b c = true -> leb a c = true.

Let before (a b : A) : Prop := leb a b = true.

Lemma insert_sorted_sorted (x : A) (l : list A) :
  StronglySorted before l -> StronglySorted before (insert_sorted leb x l).
Proof.
  induction 1 as [|y l Hs IH Hy]; cbn [insert_sorted].
  - repeat constructor.
  - destruct (leb x y) eqn:Hxy.
    + constructor; [now constructor|].
      constructor; [exact Hxy|].
      rewrite Forall_forall in *. intros z Hz.
      apply (leb_trans x y z Hxy (Hy z Hz)).
    + constructor; [exact IH|].
      rewrite Forall_forall in *. intros z Hz.
      apply insert_sorted_in in Hz as [->|Hz]; [now apply leb_total | now apply Hy].
Qed.

Lemma sort_by_sorted (l : list A) : StronglySorted before (sort_by leb l).
Proof.
  induction l as [|x l IH]; [constructor|].
  rewrite sort_by_cons. now apply insert_sorted_sorted.
Qed.

(** Elements that the order does not tell apart stay in the order of
    the input. *)
Lemma insert_sorted_filter (p : A -> bool) (x : A) (l : list A) :
  (forall a b, p a = true -> p b = true -> leb a b = true) ->
  filter p (insert_sorted leb x l) = filter p (x :: l).
Proof.
  intros Hp. induction l as [|y l IH]; [reflexivity|].
  cbn [insert_sorted]. destruct (leb x y) eqn:Hxy; [reflexivity|].
  cbn [filter] in *. rewrite IH.
  destruct (p x) eqn:Hx, (p y) eqn:Hy; try reflexivity.
  rewrite (Hp x y Hx Hy) in Hxy. discriminate.
Qed.

Lemma sort_by_stable (p : A -> bool) (l : list A) :
  (forall a b, p a = true -> p b = true -> leb a b = true) ->
  filter p (sort_by leb l) = filter p l.
Proof.
  intros Hp. induction l as [|x l IH]; [reflexivity|].
  rewrite sort_by_cons, insert_sorted_filter by assumption.
  cbn [filter]. now rewrite IH.
Qed.
End StableSort.

(** ** The dictionary builder *)

Lemma assoc_in_nodup {A} (l : list (string * A)) (k : string) (v : A) :
  NoDup (map fst l) -> In (k, v) l -> assoc k l = Some v.
Proof.
  induction l as [|[k' v'] l IH]; intros Hnd Hin; [contradiction|].
  cbn [map fst] in Hnd. inversion Hnd as [|? ? Hnotin Hnd']; subst.
  cbn [assoc]. destruct Hin as [Heq|Hin].
  - inversion Heq; subst. now rewrite String.eqb_refl.
  - destruct (String.eqb_spec k' k) as [->|_]; [|now apply IH].
    exfalso. apply Hnotin. apply in_map_iff. now exists (k, v).
Qed.

Lemma counts_incr_keys (s : string) (counts : list (string * Z)) :
  forall k, In k (map fst (counts_incr s counts))
            <-> k = s \/ In k (map fst counts).
Proof.
  induction counts as [|[k' n] counts IH]; intros k; cbn.
  - intuition.
  - destruct (String.eqb_spec k' s) as [->|Hne]; cbn; [intuition|].
    rewrite IH. intuition.
Qed.

Lemma counts_incr_ok (minLength : Z) (s : string)
    (counts : list (string * Z)) :
  (minLength <= strlen s)%Z ->
  counts_ok minLength counts -> counts_ok minLength (counts_incr s counts).
Proof.
  intros Hlen [Hnd Hall].
  induction counts as [|[k n] counts IH].
  - split; cbn.
    + constructor; [intros [] | constructor].
    + constructor; [cbn [fst snd]; split; [lia | exact Hlen] | constructor].
  - cbn [map fst] in Hnd. inversion Hnd as [|? ? Hnotin Hnd']; subst.
    inversion Hall as [|? ? [Hn Hk] Hall']; subst. cbn [fst snd] in *.
    cbn [counts_incr]. destruct (String.eqb_spec k s) as [->|Hne].
    + split; [exact Hnd|]. constructor; [cbn; split; lia | exact Hall'].
    + destruct (IH Hnd' Hall') as [Hnd'' Hall''].
      split.
      * cbn [map fst]. constructor; [|exact Hnd''].
        rewrite counts_incr_keys. intros [->|Hin]; [congruence | contradiction].
      * constructor; [cbn; split; assumption | exact Hall''].
Qed.

Lemma counts_get_incr (s k : string) (counts : list (string * Z)) :
  Forall (fun e => (1 <= snd e)%Z) counts ->
  counts_get (counts_incr s counts) k
  = (counts_get counts k + if String.eqb s k then 1 else 0)%Z.
Proof.
  unfold counts_get.
  induction 1 as [|[k' n] counts Hn _ IH]; cbn [counts_incr assoc].
  - rewrite String.eqb_sym. destruct (String.eqb k s); reflexivity.
  - destruct (String.eqb_spec k' s) as [->|Hne]; cbn [assoc].
    + destruct (String.eqb_spec s k); lia.
    + destruct (String.eqb_spec k' k) as [->|Hne'].
      * destruct (String.eqb_spec s k); [congruence | lia].
      * exact IH.
Qed.

Lemma fold_left_add {A} (f : A -> Z) (l : list A) (acc : Z) :
  fold_left (fun n x => (n + f x)%Z) l acc
  = (acc + fold_left (fun n x => (n + f x)%Z) l 0)%Z.
Proof.
  revert acc. induction l as [|x l IH]; intros acc; cbn [fold_left]; [lia|].
  rewrite IH, (IH (0 + f x)%Z). lia.
Qed.

Lemma scan_array minLength depth items counts :
  scan minLength depth (VArr items) counts
  = if (depth >? MAX_RECURSION_DEPTH)%Z then counts
    else fold_left (fun c item => scan minLength (depth + 1) item c)
                   items counts.
Proof. reflexivity. Qed.

Lemma scan_object minLength depth proto props counts :
  scan minLength depth (VObj proto props) counts
  = if (depth >? MAX_RECURSION_DEPTH)%Z then counts
    else fold_left (fun c kv => scan minLength (depth + 1) (snd kv) c)
                   props counts.
Proof. reflexivity. Qed.

Lemma occurrences_array s depth items :
  occurrences s depth (VArr items)
  = if (depth >? MAX_RECURSION_DEPTH)%Z then 0%Z
    else fold_left (fun n item => (n + occurrences s (depth + 1) item)%Z)
                   items 0%Z.
Proof. reflexivity. Qed.

Lemma occurrences_object s depth proto props :
  occurrences s depth (VObj proto props)
  = if (depth >? MAX_RECURSION_DEPTH)%Z then 0%Z
    else fold_left (fun n kv => (n + occurrences s (depth + 1) (snd kv))%Z)
                   props 0%Z.
Proof. reflexivity. Qed.

Lemma scan_fold {A} (minLength : Z) (get : A -> GoonValue) (l : list A) :
  Forall (fun x => scan_spec minLength (get x)) l ->
  forall depth counts,
    counts_ok minLength counts ->
    counts_ok minLength
      (fold_left (fun c x => scan minLength depth (get x) c) l counts)
    /\ forall s,
         counts_get
           (fold_left (fun c x => scan minLength depth (get x) c) l counts) s
         = (counts_get counts s
            + if (minLength <=? strlen s)%Z
              then fold_left (fun n x => (n + occurrences s depth (get x))%Z)
                             l 0%Z
              else 0)%Z.
Proof.
  induction 1 as [|x l Hx _ IH]; intros depth counts Hok; cbn [fold_left].
  - split; [exact Hok|]. intros s. destruct (minLength <=? strlen s)%Z; lia.
  - destruct (Hx depth counts Hok) as [Hok' Hget].
    destruct (IH depth _ Hok') as [Hok'' Hget'].
    split; [exact Hok''|]. intros s. rewrite Hget', Hget.
    rewrite (fold_left_add _ l (0 + _)%Z).
    destruct (minLength <=? strlen s)%Z; lia.
Qed.

Lemma scan_meets_spec (minLength : Z) (v : GoonValue) :
  scan_spec minLength v.
Proof.
  induction v as [| b | n | s' | items IH | proto props IH]
    using GoonValue_ind'; intros depth counts Hok.
  1-3: (cbn [scan occurrences];
        destruct (depth >? MAX_RECURSION_DEPTH)%Z;
        (split; [exact Hok | intros s; destruct (minLength <=? strlen s)%Z; lia])).
  - cbn [scan occurrences].
    destruct (depth >? MAX_RECURSION_DEPTH)%Z.
    { split; [exact Hok | intros s; destruct (minLength <=? strlen s)%Z; lia]. }
    fold (strlen s').
    destruct (Z.geb_spec (strlen s') minLength) as [Hlen|Hlen].
    + split; [apply counts_incr_ok; [lia | exact Hok]|].
      intros s. rewrite counts_get_incr.
      * destruct (String.eqb_spec s' s) as [->|_];
          [|destruct (minLength <=? strlen s)%Z; lia].
        destruct (Z.leb_spec minLength (strlen s)); lia.
      * destruct Hok as [_ Hall]. eapply Forall_impl; [|exact Hall].
        cbn. intros e [He _]. exact He.
    + split; [exact Hok|]. intros s.
      destruct (String.eqb_spec s' s) as [->|_];
        [|destruct (minLength <=? strlen s)%Z; lia].
      destruct (Z.leb_spec minLength (strlen s)); lia.
  - rewrite scan_array.
    destruct (depth >? MAX_RECURSION_DEPTH)%Z eqn:Hd.
    { split; [exact Hok|]. intros s. rewrite occurrences_array, Hd.
      destruct (minLength <=? strlen s)%Z; lia. }
    destruct (scan_fold minLength (fun x => x) items IH (depth + 1)%Z counts Hok)
      as [Hok' Hget].
    split; [exact Hok'|]. intros s. rewrite occurrences_array, Hd. apply Hget.
  - rewrite scan_object.
    destruct (depth >? MAX_RECURSION_DEPTH)%Z eqn:Hd.
    { split; [exact Hok|]. intros s. rewrite occurrences_object, Hd.
      destruct (minLength <=? strlen s)%Z; lia. }
    destruct (scan_fold minLength snd props IH (depth + 1)%Z counts Hok)
      as [Hok' Hget].
    split; [exact Hok'|]. intros s. rewrite occurrences_object, Hd. apply Hget.
Qed.

Lemma in_map_from {A B} (f : A -> nat -> B) (l : list A) :
  forall i b, In b (map_from f i l) -> exists a j, In a l /\ b = f a j.
Proof.
  induction l as [|a l IH]; intros i b Hin; [contradiction|].
  destruct Hin as [<-|Hin].
  - exists a, i. split; [now left | reflexivity].
  - destruct (IH _ _ Hin) as (a' & j & Ha & ->).
    exists a', j. split; [now right | reflexivity].
Qed.

(** What holds of every candidate. *)
Lemma candidate_facts (minLength minOccurrences : Z)
    (counts : list (string * Z)) (c : Candidate) :
  counts_ok minLength counts ->
  In c (candidates_in_scan_order counts minOccurrences) ->
  (minLength <= strlen (str c))%Z
  /\ counts_get counts (str c) = count c
  /\ (minOccurrences <= count c)%Z
  /\ (DICT_LINE_OVERHEAD_CHARS < savings c)%Z
  /\ (reference_cost c < verbatim_cost c)%Z.
Proof.
  intros [Hnd Hall] Hin. unfold candidates_in_scan_order in Hin.
  apply filter_In in Hin as [Hin Hsav].
  apply in_map_from in Hin as ([s n] & i & He & ->).
  apply filter_In in He as [He Hocc]. cbn [snd] in Hocc.
  rewrite Forall_forall in Hall. destruct (Hall _ He) as [Hn Hlen].
  cbn [fst snd] in Hn, Hlen.
  unfold make_candidate, reference_cost, verbatim_cost,
    DICT_LINE_OVERHEAD_CHARS in *.
  cbn [str count savings fst snd] in *.
  split; [exact Hlen|]. split.
  { unfold counts_get. now rewrite (assoc_in_nodup counts s n Hnd He). }
  split; [lia|].
  destruct (i <? 10); [|destruct (i <? 100)]; split; nia.
Qed.

Lemma select_entries (counts : list (string * Z)) (maxEntries : Z)
    (cands : list Candidate) :
  Forall (fun c => (0 < (strlen (str c) - 2) * counts_get counts (str c)
                        - (strlen (str c) + 1))%Z) cands ->
  forall d,
    entries (select counts maxEntries cands d)
    = (entries d
       ++ map str
            (if (maxEntries >? 0)%Z
             then firstn (Z.to_nat maxEntries - length (entries d)) cands
             else cands))%list.
Proof.
  induction 1 as [|c cands Hc _ IH]; intros d; cbn [select].
  - destruct (maxEntries >? 0)%Z; [rewrite firstn_nil|]; cbn; now rewrite app_nil_r.
  - destruct (Z.gtb_spec maxEntries 0) as [Hmax|Hmax]; cbn [andb].
    + destruct (Z.geb_spec (Z.of_nat (length (entries d))) maxEntries)
        as [Hfull|Hroom].
      * replace (Z.to_nat maxEntries - length (entries d)) with 0 by lia.
        cbn. now rewrite app_nil_r.
      * destruct (Z.gtb_spec
                    ((strlen (str c) - 2) * counts_get counts (str c)
                     - (strlen (str c) + 1)) 0); [|lia].
        rewrite IH. cbn [entries]. rewrite length_app. cbn [length].
        replace (Z.to_nat maxEntries - length (entries d))
          with (S (Z.to_nat maxEntries - (length (entries d) + 1))) by lia.
        cbn [firstn map]. now rewrite <- app_assoc.
    + destruct (Z.gtb_spec
                  ((strlen (str c) - 2) * counts_get counts (str c)
                   - (strlen (str c) + 1)) 0); [|lia].
      rewrite IH. cbn [entries map]. now rewrite <- app_assoc.
Qed.

Lemma StronglySorted_weaken {A} (R S : A -> A -> Prop) (l : list A) :
  (forall a b, R a b -> S a b) -> StronglySorted R l -> StronglySorted S l.
Proof.
  intros HRS. induction 1 as [|a l _ IH Ha]; constructor; [exact IH|].
  eapply Forall_impl; [|exact Ha]. intros b. apply HRS.
Qed.

Lemma select_reference_tokens (counts : list (string * Z)) (maxEntries : Z)
    (cands : list Candidate) :
  forall d, reference_tokens d ->
            reference_tokens (select counts maxEntries cands d).
Proof.
  induction cands as [|c cands IH]; intros d Hd; cbn [select]; [exact Hd|].
  destruct (_ && _); [exact Hd|].
  destruct (_ >? 0)%Z; [|now apply IH].
  apply IH. unfold reference_tokens in *. cbn [lookup].
  apply Forall_app. split; [exact Hd|]. repeat constructor.
Qed.

Lemma dictionary_for_reference_tokens {Indent} (opts : Options Indent)
    value :
  reference_tokens (dictionary_for opts value).
Proof.
  unfold dictionary_for, buildDictionary.
  destruct (Encode.dictionary opts); [|constructor].
  apply select_reference_tokens. constructor.
Qed.

(** ** C5 *)



(** ** Cells that are not the marker *)

Lemma decimal_of_N_first (n : N) :
  exists c rest, decimal_of_N n = String c rest /\ is_digit c = true.
Proof.
  unfold decimal_of_N, NilZero.string_of_uint.
  destruct (N.to_uint n); cbn; eexists; eexists; split; reflexivity.
Qed.

Lemma number_to_string_not_marker (n : number) : number_to_string n <> "^".
Proof.
  destruct n as [| [|] | m e]; try discriminate.
  unfold number_to_string.
  destruct e as [|e].
  - destruct (decimal_of_N_first (Z.abs_N m)) as (c & rest & -> & Hc).
    destruct (m <? 0)%Z; cbn; [discriminate|].
    intros H. inversion H; subst. discriminate.
  - cbv zeta.
    destruct (decimal_of_N_first
                (Z.abs_N m / 10 ^ N.of_nat (S e))) as (c & rest & -> & Hc).
    destruct (m <? 0)%Z; cbn; [discriminate|].
    intros H. inversion H; subst. discriminate.
Qed.

Lemma quoteString_not_marker (s : string) : quoteString s <> "^".
Proof.
  unfold quoteString. destruct (needsQuoting s) eqn:Hq; cbn [negb].
  - discriminate.
  - intros ->. discriminate.
Qed.

Lemma assoc_in {A} (k : string) (l : list (string * A)) (v : A) :
  assoc k l = Some v -> In v (map snd l).
Proof.
  induction l as [|[k' v'] l IH]; cbn [assoc]; [discriminate|].
  destruct (String.eqb k' k).
  - intros H. inversion H; subst. now left.
  - intros H. right. now apply IH.
Qed.

Lemma encodePrimitive_not_marker (v : GoonValue) (dict : Dictionary)
    (useDictionary : bool) :
  reference_tokens dict -> encodePrimitive v dict useDictionary <> "^".
Proof.
  intros Hdict. destruct v as [| [|] | n | s | items | proto props];
    cbn [encodePrimitive]; try discriminate.
  - destruct (negb (isFinite n)); [discriminate|].
    apply number_to_string_not_marker.
  - destruct (String.eqb s ""); [discriminate|].
    destruct (if useDictionary then assoc s (lookup dict) else None)
      as [dictRef|] eqn:Hlookup; [|apply quoteString_not_marker].
    destruct useDictionary; [|discriminate].
    apply assoc_in in Hlookup. apply in_map_iff in Hlookup as (kv & <- & Hin).
    unfold reference_tokens in Hdict. rewrite Forall_forall in Hdict.
    specialize (Hdict kv Hin). intros Heq. rewrite Heq in Hdict. discriminate.
Qed.

Lemma forall_map_from {A B} (P : B -> Prop) (f : A -> nat -> B) (l : list A) :
  (forall a i, P (f a i)) -> forall i, Forall P (map_from f i l).
Proof.
  intros Hf. induction l as [|a l IH]; intros i; cbn; constructor;
    [apply Hf | apply IH].
Qed.

(** No cell of a row without a row above it is the marker. *)
Lemma first_row_cells_not_marker opts dict useColumnRefs useDictionary
    fieldDefaults fields obj :
  reference_tokens dict ->
  Forall (fun cell => cell <> "^")
         (row_cells opts dict useColumnRefs useDictionary fieldDefaults
                    fields None obj).
Proof.
  intros Hdict. unfold row_cells, map_i. apply forall_map_from.
  intros field i. unfold encode_cell.
  rewrite andb_false_r. cbn [andb].
  destruct (schemaDefaults opts && _); [discriminate|].
  now apply encodePrimitive_not_marker.
Qed.

(** ** Rows that repeat the row above them *)

Lemma row_cells_referred_from opts dict useDictionary fieldDefaults obj
    (fields : list string) :
  forall before,
    map_from
      (fun field i =>
         encode_cell opts dict true useDictionary fieldDefaults
           (Some (map (field_value obj) (before ++ fields)%list))
           field i (field_value obj field))
      (length before) fields
    = referred (map (field_value obj) fields)
        (map_from
           (fun field i =>
              encode_cell opts dict true useDictionary fieldDefaults None
                field i (field_value obj field))
           (length before) fields).
Proof.
  induction fields as [|f fields IH]; intros before; [reflexivity|].
  cbn [map_from map]. unfold referred. cbn [combine map fst snd].
  f_equal.
  - unfold encode_cell at 1 2.
    rewrite nth_error_map, nth_error_app2 by lia.
    rewrite Nat.sub_diag. cbn [nth_error option_map andb].
    unfold markable. rewrite (andb_comm (negb _)). reflexivity.
  - replace (before ++ f :: fields)%list with ((before ++ [f]) ++ fields)%list
      by (rewrite <- app_assoc; reflexivity).
    replace (S (length before)) with (length (before ++ [f])%list)
      by (rewrite length_app; cbn; lia).
    apply IH.
Qed.

(** The cells of a row that repeats the row above it: the marker where
    the value can be referred to, the cell of the row above where it
    cannot. *)
Lemma row_cells_referred opts dict useDictionary fieldDefaults fields obj :
  row_cells opts dict true useDictionary fieldDefaults fields
            (Some (row_values fields obj)) obj
  = referred (row_values fields obj)
      (row_cells opts dict true useDictionary fieldDefaults fields None obj).
Proof.
  unfold row_cells, map_i, row_values.
  apply (row_cells_referred_from opts dict useDictionary fieldDefaults obj
           fields []).
Qed.

Lemma encode_rows_repeated opts dict useDictionary fieldDefaults fields obj
    depth (n : nat) :
  forall rowIdx,
    encode_rows opts dict true useDictionary fieldDefaults fields depth
                rowIdx (Some (row_values fields obj)) (List.repeat obj n)
    = map (fun j =>
             row_line opts depth j
               (referred (row_values fields obj)
                  (row_cells opts dict true useDictionary fieldDefaults
                             fields None obj)))
          (seq rowIdx n).
Proof.
  induction n as [|n IH]; intros rowIdx; [reflexivity|].
  cbn [List.repeat encode_rows seq map].
  now rewrite row_cells_referred, IH.
Qed.

Lemma referred_markable (values : list GoonValue) (cells : list string) :
  length cells = length values ->
  forallb markable values = true ->
  referred values cells = List.repeat "^" (length values).
Proof.
  revert cells. induction values as [|v values IH]; intros cells Hlen Hall;
    [reflexivity|].
  destruct cells as [|cell cells]; [discriminate|].
  cbn [forallb] in Hall. apply andb_true_iff in Hall as [Hv Hrest].
  unfold referred in *. cbn [combine map fst snd length List.repeat].
  rewrite Hv. f_equal. apply IH; [|exact Hrest].
  cbn [length] in Hlen. lia.
Qed.

Lemma insert_sorted_repeat {A} (leb : A -> A -> bool) (x : A) (n : nat) :
  leb x x = true ->
  insert_sorted leb x (List.repeat x n) = x :: List.repeat x n.
Proof. intros H. destruct n; cbn; [reflexivity | now rewrite H]. Qed.

Lemma sort_by_repeat {A} (leb : A -> A -> bool) (x : A) (n : nat) :
  leb x x = true -> sort_by leb (List.repeat x n) = List.repeat x n.
Proof.
  intros H. induction n as [|n IH]; [reflexivity|].
  cbn [List.repeat]. rewrite sort_by_cons, IH.
  now apply insert_sorted_repeat.
Qed.

Lemma ltb_irrefl (s : string) : String.ltb s s = false.
Proof.
  unfold String.ltb. pose proof (String.compare_antisym s s) as H.
  destruct (String.compare s s); [reflexivity | discriminate | reflexivity].
Qed.

Lemma compare_rows_refl (sortFields : list string) (a : GoonValue) :
  compare_rows sortFields a a = Eq.
Proof.
  induction sortFields as [|f l IH]; [reflexivity|].
  cbn [compare_rows]. now rewrite ltb_irrefl.
Qed.

Lemma autoSort_repeat (obj : GoonValue) (n : nat) (fields : list string) :
  autoSortForColumnRefs (List.repeat obj n) fields = List.repeat obj n.
Proof.
  unfold autoSortForColumnRefs. apply sort_by_repeat.
  now rewrite compare_rows_refl.
Qed.

Lemma encodeTabularArray_first_row opts dict depth parentKey first rest :
  reference_tokens dict ->
  (length (filter isSafeKey (Object_keys first)) =? 0) = false ->
  exists header cells lines,
    encodeTabularArray (first :: rest) depth opts dict parentKey
    = header :: row_line opts depth 0 cells :: lines
    /\ Forall (fun cell => cell <> "^") cells.
Proof.
  intros Hdict Hfields. unfold encodeTabularArray. rewrite Hfields.
  cbv zeta.
  set (fields := filter isSafeKey (Object_keys first)).
  set (sortedArr := if _ && _ && _ then _ else first :: rest).
  assert (Hsorted : exists obj others, sortedArr = obj :: others).
  { assert (Hlen : length sortedArr = S (length rest)).
    { unfold sortedArr. destruct (_ && _ && _); [|reflexivity].
      unfold autoSortForColumnRefs. now rewrite sort_by_length. }
    destruct sortedArr as [|obj others]; [discriminate|].
    now exists obj, others. }
  destruct Hsorted as (obj & others & ->).
  cbn [encode_rows]. eexists. eexists. eexists.
  split; [reflexivity|].
  now apply first_row_cells_not_marker.
Qed.

Lemma map_from_length {A B} (f : A -> nat -> B) (l : list A) :
  forall i, length (map_from f i l) = length l.
Proof.
  induction l as [|a l IH]; intros i; [reflexivity|].
  cbn [map_from length]. now rewrite IH.
Qed.

Lemma footer_off (opts : InternalOptions) (depth size : nat)
    (fields : list string) (rows : list GoonValue) :
  footerSummaries opts = false ->
  footer opts depth size (numericSums opts fields rows) = [].
Proof. intros H. unfold footer. now rewrite H. Qed.

Lemma encodeTabularArray_identical_rows opts dict depth parentKey obj
    (n : nat) :
  let fields := filter isSafeKey (Object_keys obj) in
  reference_tokens dict ->
  (length fields =? 0) = false ->
  use_column_refs opts depth = true ->
  exists header cells footerLines,
    encodeTabularArray (List.repeat obj (S (S n))) depth opts dict parentKey
    = (header :: row_line opts depth 0 cells
       :: map (fun j => row_line opts depth j
                                 (referred (row_values fields obj) cells))
              (seq 1 (S n))
       ++ footerLines)%list
    /\ Forall (fun cell => cell <> "^") cells
    /\ length cells = length fields
    /\ (footerSummaries opts = false -> footerLines = [])
    /\ footerLines
       = footer opts depth (S (S n))
           (numericSums opts fields (List.repeat obj (S (S n)))).
Proof.
  intros fields Hdict Hfields Hrefs.
  unfold encodeTabularArray.
  change (match List.repeat obj (S (S n)) with
          | first :: _ => Object_keys first
          | [] => []
          end) with (Object_keys obj).
  fold fields. rewrite Hfields, Hrefs. cbv zeta.
  rewrite autoSort_repeat.
  replace (if autoSort opts && true
              && (1 <? length (List.repeat obj (S (S n))))
           then List.repeat obj (S (S n)) else List.repeat obj (S (S n)))
    with (obj :: List.repeat obj (S n))
    by (destruct (_ && _ && _); reflexivity).
  cbn [encode_rows]. rewrite encode_rows_repeated.
  eexists. eexists. eexists. split; [reflexivity|].
  split; [now apply first_row_cells_not_marker|].
  split; [unfold row_cells, map_i; apply map_from_length|].
  split; [intros Hfooter; now apply footer_off|].
  now rewrite repeat_length.
Qed.

(** ** Decoding rows of markers *)

Lemma marker_row_step (d : Delimiter) (k : nat) :
  marker_row d (S (S k))
  = String "^" (String (delimiter_char d) (marker_row d (S k))).
Proof. reflexivity. Qed.

Lemma marker_row_head (d : Delimiter) (k : nat) :
  exists rest, marker_row d (S k) = String "^" rest.
Proof. destruct k; eexists; reflexivity. Qed.

Lemma parseRow_from_markers (d : Delimiter) (dict : list string) (k : nat) :
  forall cells,
    parseRow_from (marker_row d (S k)) dict d "" false false cells
    = (cells ++ List.repeat (VStr "^") (S k))%list.
Proof.
  induction k as [|k IH]; intros cells.
  - destruct d; reflexivity.
  - rewrite marker_row_step.
    assert (Hstep : parseRow_from
                      (String "^" (String (delimiter_char d)
                                          (marker_row d (S k))))
                      dict d "" false false cells
                    = parseRow_from (marker_row d (S k)) dict d "" false false
                                    (cells ++ [VStr "^"])%list).
    { destruct d; reflexivity. }
    rewrite Hstep, IH, <- app_assoc. reflexivity.
Qed.

Lemma parseRow_markers (d : Delimiter) (dict : list string) (k : nat) :
  parseRow (marker_row d (S k)) dict d = List.repeat (VStr "^") (S k).
Proof. unfold parseRow. now rewrite parseRow_from_markers. Qed.

Lemma nth_error_repeat_in {A} (x : A) (n i : nat) :
  i < n -> nth_error (List.repeat x n) i = Some x.
Proof.
  revert i. induction n as [|n IH]; intros i Hi; [lia|].
  destruct i; [reflexivity|]. cbn. apply IH. lia.
Qed.

Lemma resolve_row_markers_from (fields : list string) :
  forall (above before : list GoonValue) (m : nat),
    length above = length fields ->
    length before + length fields <= m ->
    map_from
      (fun (_ : string) i =>
         match nth_error (List.repeat (VStr "^") m) i,
               nth_error (before ++ above)%list i with
         | Some cell, Some up => if is_marker cell then up else cell
         | Some cell, None => cell
         | None, _ => VNull
         end)
      (length before) fields
    = above.
Proof.
  induction fields as [|f fields IH]; intros above before m Hlen Hm.
  - destruct above; [reflexivity | discriminate].
  - destruct above as [|v above]; [discriminate|].
    cbn [length] in *. cbn [map_from]. f_equal.
    + rewrite nth_error_repeat_in by lia.
      rewrite nth_error_app2, Nat.sub_diag by lia. reflexivity.
    + replace (before ++ v :: above)%list with ((before ++ [v]) ++ above)%list
        by (rewrite <- app_assoc; reflexivity).
      replace (S (length before)) with (length (before ++ [v])%list)
        by (rewrite length_app; cbn; lia).
      apply IH; [lia|]. rewrite length_app. cbn. lia.
Qed.

Lemma resolve_row_markers (fields : list string) (above : list GoonValue) :
  length above = length fields ->
  resolve_row fields (List.repeat (VStr "^") (length fields)) above = above.
Proof.
  intros H. unfold resolve_row, map_i.
  apply (resolve_row_markers_from fields above [] (length fields) H).
  cbn. lia.
Qed.

Lemma resolve_row_length (fields : list string)
    (cells above : list GoonValue) :
  length (resolve_row fields cells above) = length fields.
Proof.
  unfold resolve_row, map_i. generalize 0.
  induction fields as [|f fields IH]; intros i; [reflexivity|].
  cbn [map_from length]. now rewrite IH.
Qed.

Lemma marker_row_shape (d : Delimiter) (k : nat) :
  is_empty (marker_row d (S k)) = false
  /\ starts_like_key (marker_row d (S k)) = false
  /\ startsWith (marker_row d (S k)) "$:" = false.
Proof.
  destruct (marker_row_head d k) as [tail ->]. repeat split.
Qed.

(** Lines of markers after a row: each is decoded to the object of the
    row above it. *)
Lemma tabular_rows_markers (ind : string) (dict : list string)
    (baseIndent : Z) (delimiter : Delimiter) (fields : list string)
    (line : string) (above : list GoonValue) :
  (length fields =? 0) = false ->
  length above = length fields ->
  (baseIndent <= Z.of_nat (getIndentLevel line ind))%Z ->
  trim line = marker_row delimiter (length fields) ->
  forall (n : nat) (ctx : ParseContext) (rows : list GoonValue),
    indent ctx = ind ->
    dictionary ctx = dict ->
    fst (tabular_rows (List.repeat line n) ctx baseIndent delimiter fields
                      rows above)
    = (rows
       ++ List.repeat (VObj NullPrototype (build_row fields above [])) n)%list.
Proof.
  intros Hfields Habove Hindent Htrim.
  destruct fields as [|f fields'] eqn:Hf; [discriminate|]. rewrite <- Hf in *.
  assert (Hm : length fields = S (length fields')) by now rewrite Hf.
  induction n as [|n IH]; intros ctx rows Hind Hdict.
  - cbn. now rewrite app_nil_r.
  - cbn [List.repeat tabular_rows]. rewrite Hind, Hdict.
    destruct (Z.ltb_spec (Z.of_nat (getIndentLevel line ind)) baseIndent);
      [lia|].
    rewrite Htrim, Hm.
    destruct (marker_row_shape delimiter (length fields'))
      as (-> & -> & ->).
    cbn [orb]. rewrite parseRow_markers, <- Hm.
    rewrite resolve_row_markers by assumption.
    rewrite IH by assumption.
    rewrite <- app_assoc. reflexivity.
Qed.

Lemma tabular_rows_first_then_markers (ctx : ParseContext) (baseIndent : Z)
    (delimiter : Delimiter) (fields : list string) (first line : string)
    (n : nat) :
  (length fields =? 0) = false ->
  (baseIndent <= Z.of_nat (getIndentLevel first (indent ctx)))%Z ->
  is_empty (trim first) = false ->
  starts_like_key (trim first) || startsWith (trim first) "$:" = false ->
  (baseIndent <= Z.of_nat (getIndentLevel line (indent ctx)))%Z ->
  trim line = marker_row delimiter (length fields) ->
  fst (tabular_rows (first :: List.repeat line n) ctx baseIndent delimiter
                    fields [] [])
  = List.repeat
      (VObj NullPrototype
         (build_row fields
            (resolve_row fields
               (parseRow (trim first) (dictionary ctx) delimiter) [])
            []))
      (S n).
Proof.
  intros Hfields Hfirst Hnonempty Hrow Hline Htrim.
  cbn [tabular_rows].
  destruct (Z.ltb_spec (Z.of_nat (getIndentLevel first (indent ctx)))
                       baseIndent); [lia|].
  rewrite Hnonempty, Hrow.
  rewrite (tabular_rows_markers (indent ctx) (dictionary ctx) baseIndent
             delimiter fields line _ Hfields
             (resolve_row_length _ _ _) Hline Htrim n (advance ctx));
    reflexivity.
Qed.

(** ** Dangerous keys on the way out *)

Lemma for_each_where_filter {A} (keep : A -> bool)
    (body : A -> result (list string)) (l : list A) :
  for_each_where keep body (filter keep l) = for_each_where keep body l.
Proof.
  induction l as [|x l IH]; [reflexivity|].
  cbn [filter for_each_where]. destruct (keep x) eqn:Hx; [|exact IH].
  cbn [for_each_where]. now rewrite Hx, IH.
Qed.

Lemma filter_idempotent {A} (keep : A -> bool) (l : list A) :
  filter keep (filter keep l) = filter keep l.
Proof.
  induction l as [|x l IH]; [reflexivity|].
  cbn [filter]. destruct (keep x) eqn:Hx; [|exact IH].
  cbn [filter]. now rewrite Hx, IH.
Qed.

(** The lines of an object are those of the object without its
    dangerous properties. *)
Lemma encodeObject_ignores_dangerous (obj : list (string * GoonValue))
    depth opts dict parentKey recursionDepth :
  encodeObject obj depth opts dict parentKey recursionDepth
  = encodeObject (filter (fun kv => isSafeKey (fst kv)) obj) depth opts dict
                 parentKey recursionDepth.
Proof.
  unfold encodeObject. rewrite !encodeObject_of_unfold.
  unfold encodeObject_body.
  now rewrite filter_idempotent, for_each_where_filter.
Qed.

Lemma safe_keys_strip (v : GoonValue) :
  filter isSafeKey (Object_keys (strip v)) = filter isSafeKey (Object_keys v).
Proof.
  destruct v as [| | | | |proto props]; try reflexivity.
  unfold Object_keys. cbn [strip Object_entries].
  induction props as [|[k x] props IH]; [reflexivity|].
  cbn [filter fst map].
  destruct (isSafeKey k) eqn:Hk; cbn [map fst filter]; rewrite ?Hk, IH;
    reflexivity.
Qed.

Lemma field_value_strip (obj : GoonValue) (f : string) :
  isSafeKey f = true -> field_value (strip obj) f = field_value obj f.
Proof.
  intros Hf. destruct obj as [| | | | |proto props]; try reflexivity.
  unfold field_value, get_prop. cbn [strip Object_entries].
  induction props as [|[k x] props IH]; [reflexivity|].
  cbn [filter fst assoc].
  destruct (isSafeKey k) eqn:Hk; cbn [assoc].
  - destruct (String.eqb k f); [reflexivity | exact IH].
  - destruct (String.eqb_spec k f) as [->|_]; [congruence | exact IH].
Qed.

Lemma value_counts_strip same (arr : list GoonValue) (f : string) :
  isSafeKey f = true ->
  value_counts same (map strip arr) f = value_counts same arr f.
Proof.
  intros Hf. unfold value_counts. generalize (@nil (GoonValue * nat)).
  induction arr as [|obj arr IH]; intros counts; [reflexivity|].
  cbn [map fold_left]. now rewrite field_value_strip, IH.
Qed.

Lemma compare_rows_strip (sortFields : list string) (a b : GoonValue) :
  Forall (fun f => isSafeKey f = true) sortFields ->
  compare_rows sortFields (strip a) (strip b) = compare_rows sortFields a b.
Proof.
  induction 1 as [|f l Hf _ IH]; [reflexivity|].
  cbn [compare_rows]. now rewrite !field_value_strip, IH.
Qed.

Lemma insert_sorted_map {A B} (g : A -> B) (leb : A -> A -> bool)
    (leb' : B -> B -> bool) (x : A) (l : list A) :
  (forall a b, leb' (g a) (g b) = leb a b) ->
  insert_sorted leb' (g x) (map g l) = map g (insert_sorted leb x l).
Proof.
  intros H. induction l as [|y l IH]; [reflexivity|].
  cbn [map insert_sorted]. rewrite H.
  destruct (leb x y); [reflexivity|]. cbn [map]. now rewrite IH.
Qed.

Lemma sort_by_map {A B} (g : A -> B) (leb : A -> A -> bool)
    (leb' : B -> B -> bool) (l : list A) :
  (forall a b, leb' (g a) (g b) = leb a b) ->
  sort_by leb' (map g l) = map g (sort_by leb l).
Proof.
  intros H. induction l as [|x l IH]; [reflexivity|].
  cbn [map]. rewrite !sort_by_cons, IH. now apply insert_sorted_map.
Qed.

Lemma forall_sort_by {A} (P : A -> Prop) (leb : A -> A -> bool)
    (l : list A) :
  Forall P l -> Forall P (sort_by leb l).
Proof.
  rewrite !Forall_forall. intros H x Hx. apply H.
  now apply sort_by_in in Hx.
Qed.

Lemma forall_firstn {A} (P : A -> Prop) (n : nat) (l : list A) :
  Forall P l -> Forall P (firstn n l).
Proof.
  rewrite !Forall_forall. intros H x Hx. apply H.
  rewrite <- (firstn_skipn n l). apply in_or_app. now left.
Qed.

Lemma autoSort_strip (arr : list GoonValue) (fields : list string) :
  Forall (fun f => isSafeKey f = true) fields ->
  autoSortForColumnRefs (map strip arr) fields
  = map strip (autoSortForColumnRefs arr fields).
Proof.
  intros Hsafe. unfold autoSortForColumnRefs.
  assert (Hruns : map (fun field => (field, maxRun (map strip arr) field))
                      fields
                  = map (fun field => (field, maxRun arr field)) fields).
  { apply map_ext_in. intros f Hf. unfold maxRun.
    rewrite Forall_forall in Hsafe. now rewrite value_counts_strip by auto. }
  rewrite Hruns. apply sort_by_map. intros a b.
  rewrite compare_rows_strip; [reflexivity|].
  apply Forall_map. apply forall_firstn, forall_sort_by.
  apply Forall_map. exact Hsafe.
Qed.

Lemma fieldDefaults_strip opts (arr : list GoonValue)
    (fields : list string) :
  Forall (fun f => isSafeKey f = true) fields ->
  compute_fieldDefaults opts (map strip arr) fields
  = compute_fieldDefaults opts arr fields.
Proof.
  intros Hsafe. unfold compute_fieldDefaults.
  destruct (schemaDefaults opts); [|reflexivity].
  rewrite length_map.
  induction Hsafe as [|f fields Hf _ IH]; [reflexivity|].
  cbn [flat_map]. now rewrite value_counts_strip, IH.
Qed.

Lemma map_from_ext_in {A B} (f g : A -> nat -> B) (l : list A) :
  (forall a i, In a l -> f a i = g a i) ->
  forall i, map_from f i l = map_from g i l.
Proof.
  induction l as [|a l IH]; intros H i; [reflexivity|].
  cbn [map_from]. rewrite H by now left.
  f_equal. apply IH. intros b j Hb. apply H. now right.
Qed.

Lemma encode_rows_strip opts dict useColumnRefs useDictionary fieldDefaults
    (fields : list string) depth (rows : list GoonValue) :
  Forall (fun f => isSafeKey f = true) fields ->
  forall rowIdx prevRow,
    encode_rows opts dict useColumnRefs useDictionary fieldDefaults fields
                depth rowIdx prevRow (map strip rows)
    = encode_rows opts dict useColumnRefs useDictionary fieldDefaults fields
                  depth rowIdx prevRow rows.
Proof.
  intros Hsafe. rewrite Forall_forall in Hsafe.
  induction rows as [|obj rows IH]; intros rowIdx prevRow; [reflexivity|].
  cbn [map encode_rows].
  assert (Hcells : row_cells opts dict useColumnRefs useDictionary
                     fieldDefaults fields prevRow (strip obj)
                   = row_cells opts dict useColumnRefs useDictionary
                       fieldDefaults fields prevRow obj).
  { unfold row_cells, map_i. apply map_from_ext_in.
    intros f i Hf. now rewrite field_value_strip by auto. }
  assert (Hvalues : row_values fields (strip obj) = row_values fields obj).
  { unfold row_values. apply map_ext_in.
    intros f Hf. now rewrite field_value_strip by auto. }
  now rewrite Hcells, Hvalues, IH.
Qed.

Lemma forall_filter_true {A} (p : A -> bool) (l : list A) :
  Forall (fun x => p x = true) (filter p l).
Proof.
  apply Forall_forall. intros x Hx. now apply filter_In in Hx.
Qed.

Lemma track_row_strip (fields : list string) (obj : GoonValue) :
  Forall (fun f => isSafeKey f = true) fields ->
  forall sums, track_row fields sums (strip obj) = track_row fields sums obj.
Proof.
  unfold track_row.
  induction 1 as [|f fields Hf _ IH]; intros sums; [reflexivity|].
  cbn [fold_left]. now rewrite field_value_strip, IH by exact Hf.
Qed.

Lemma numericSums_strip {Indent} (opts : Options Indent)
    (fields : list string) (rows : list GoonValue) :
  Forall (fun f => isSafeKey f = true) fields ->
  numericSums opts fields (map strip rows) = numericSums opts fields rows.
Proof.
  intros Hsafe. unfold numericSums.
  destruct (footerSummaries opts); [|reflexivity].
  generalize (@nil (string * (Double.double * nat))).
  induction rows as [|obj rows IH]; intros sums; [reflexivity|].
  cbn [map fold_left]. now rewrite track_row_strip, IH.
Qed.

(** The lines of a table are those of the table of the rows without
    their dangerous properties. *)
Lemma encodeTabularArray_ignores_dangerous (arr : list GoonValue) depth opts
    dict parentKey :
  encodeTabularArray (map strip arr) depth opts dict parentKey
  = encodeTabularArray arr depth opts dict parentKey.
Proof.
  unfold encodeTabularArray.
  assert (Hfields :
            filter isSafeKey
              (match map strip arr with
               | first :: _ => Object_keys first
               | [] => []
               end)
            = filter isSafeKey
                (match arr with
                 | first :: _ => Object_keys first
                 | [] => []
                 end)).
  { destruct arr as [|first rest]; [reflexivity|]. apply safe_keys_strip. }
  rewrite Hfields.
  set (fields := filter isSafeKey _).
  assert (Hsafe : Forall (fun f => isSafeKey f = true) fields)
    by apply forall_filter_true.
  destruct (length fields =? 0); [reflexivity|]. cbv zeta.
  rewrite length_map, fieldDefaults_strip, autoSort_strip by assumption.
  f_equal.
  destruct (autoSort opts && use_column_refs opts depth && (1 <? length arr));
    now rewrite encode_rows_strip, numericSums_strip.
Qed.

(** ** Dangerous keys on the way in *)

Lemma decoded_safe_array (items : list GoonValue) :
  decoded_safe (VArr items) = true <-> safe_items items.
Proof.
  unfold safe_items. rewrite Forall_forall. cbn [decoded_safe].
  apply forallb_forall.
Qed.

Lemma decoded_safe_object (props : list (string * GoonValue)) :
  decoded_safe (VObj NullPrototype props) = true <-> safe_props props.
Proof.
  unfold safe_props. rewrite Forall_forall. cbn [decoded_safe andb].
  rewrite forallb_forall.
  split; intros H kv Hkv; specialize (H kv Hkv);
    [now apply andb_true_iff in H | now apply andb_true_iff].
Qed.

Lemma parsePrimitive_safe (s : string) (dict : list string) :
  decoded_safe (parsePrimitive s dict) = true.
Proof.
  unfold parsePrimitive.
  repeat match goal with
         | |- context [if ?c then _ else _] => destruct c
         | |- context [match nth_error ?l ?i with _ => _ end] =>
             destruct (nth_error l i)
         end; reflexivity.
Qed.

Lemma parseCell_safe (cell : string) (dict : list string) :
  decoded_safe (value (parseCell cell dict)) = true.
Proof.
  unfold parseCell.
  repeat match goal with
         | |- context [if ?c then _ else _] => destruct c
         | |- context [match lastIndexOf ?c ?s with _ => _ end] =>
             destruct (lastIndexOf c s)
         end; cbn [value]; apply parsePrimitive_safe.
Qed.

Lemma push_cell_safe (cells : list GoonValue) (c : Cell) :
  safe_items cells -> decoded_safe (value c) = true ->
  safe_items (push_cell cells c).
Proof.
  intros Hcells Hc. unfold push_cell, safe_items. apply Forall_app.
  split; [exact Hcells|]. apply Forall_forall.
  intros v Hv. apply repeat_spec in Hv. now subst.
Qed.

Lemma parseRow_from_safe (s : string) (dict : list string) (d : Delimiter) :
  forall current inQuote escaped cells,
    safe_items cells ->
    safe_items (parseRow_from s dict d current inQuote escaped cells).
Proof.
  induction s as [|c s IH]; intros current inQuote escaped cells Hcells;
    cbn [parseRow_from].
  - destruct (negb _); [|exact Hcells].
    apply push_cell_safe; [exact Hcells | apply parseCell_safe].
  - repeat match goal with
           | |- context [if ?c then _ else _] => destruct c
           end; apply IH; try exact Hcells;
      apply push_cell_safe; [exact Hcells | apply parseCell_safe].
Qed.

Lemma parseRow_safe (s : string) (dict : list string) (d : Delimiter) :
  safe_items (parseRow s dict d).
Proof. apply parseRow_from_safe. constructor. Qed.

Lemma set_prop_safe (obj : list (string * GoonValue)) (k : string)
    (v : GoonValue) :
  isSafeKey k = true -> decoded_safe v = true -> safe_props obj ->
  safe_props (set_prop obj k v).
Proof.
  intros Hk Hv. unfold safe_props.
  induction 1 as [|[k' v'] obj [Hk' Hv'] Hobj IH]; cbn [set_prop].
  - repeat constructor; assumption.
  - cbn [fst snd] in *.
    destruct (String.eqb k' k); constructor; cbn [fst snd];
      try assumption; split; assumption.
Qed.

Lemma set_safe_safe (obj : list (string * GoonValue)) (k : string)
    (v : GoonValue) :
  decoded_safe v = true -> safe_props obj -> safe_props (set_safe obj k v).
Proof.
  intros Hv Hobj. unfold set_safe.
  destruct (isSafeKey k) eqn:Hk; [now apply set_prop_safe | exact Hobj].
Qed.

Lemma build_row_safe (fields : list string) :
  Forall (fun f => isSafeKey f = true) fields ->
  forall rowValues obj,
    safe_items rowValues -> safe_props obj ->
    safe_props (build_row fields rowValues obj).
Proof.
  induction 1 as [|f fields Hf _ IH]; intros rowValues obj Hvalues Hobj;
    [exact Hobj|].
  cbn [build_row]. destruct rowValues as [|v rowValues]; [exact Hobj|].
  inversion Hvalues; subst.
  apply IH; [assumption|]. now apply set_prop_safe.
Qed.

Lemma nth_error_safe (items : list GoonValue) (i : nat) (v : GoonValue) :
  safe_items items -> nth_error items i = Some v -> decoded_safe v = true.
Proof.
  unfold safe_items. rewrite Forall_forall.
  intros H Hv. apply H. eapply nth_error_In. exact Hv.
Qed.

Lemma resolve_row_safe (fields : list string)
    (cells prevRowValues : list GoonValue) :
  safe_items cells -> safe_items prevRowValues ->
  safe_items (resolve_row fields cells prevRowValues).
Proof.
  intros Hcells Hprev. unfold resolve_row, map_i, safe_items.
  apply forall_map_from. intros _ i.
  destruct (nth_error cells i) as [cell|] eqn:Hcell; [|reflexivity].
  pose proof (nth_error_safe cells i cell Hcells Hcell).
  destruct (nth_error prevRowValues i) as [up|] eqn:Hup; [|assumption].
  destruct (is_marker cell); [|assumption].
  exact (nth_error_safe prevRowValues i up Hprev Hup).
Qed.

Lemma tabular_rows_safe (baseIndent : Z) (d : Delimiter)
    (fields : list string) :
  Forall (fun f => isSafeKey f = true) fields ->
  forall remaining ctx rows prevRowValues,
    safe_items rows -> safe_items prevRowValues ->
    safe_items (fst (tabular_rows remaining ctx baseIndent d fields rows
                                  prevRowValues)).
Proof.
  intros Hfields.
  induction remaining as [|line remaining IH];
    intros ctx rows prev Hrows Hprev; cbn [tabular_rows]; [exact Hrows|].
  repeat match goal with
         | |- context [if ?c then _ else _] => destruct c
         end; try exact Hrows; [now apply IH|].
  assert (Hrow : safe_items
                   (resolve_row fields
                      (parseRow (trim line) (dictionary ctx) d) prev)).
  { apply resolve_row_safe; [apply parseRow_safe | exact Hprev]. }
  apply IH; [|exact Hrow].
  apply Forall_app. split; [exact Hrows|]. constructor; [|constructor].
  apply decoded_safe_object. apply build_row_safe;
    [exact Hfields | exact Hrow | constructor].
Qed.

Lemma parseTabularArray_safe (fieldsStr : string) :
  forall ctx baseIndent v ctx',
    parseTabularArray ctx baseIndent fieldsStr = Returns (v, ctx') ->
    decoded_safe v = true.
Proof.
  intros ctx baseIndent v ctx'. unfold parseTabularArray. cbv zeta.
  destruct (_ >? _)%Z; [discriminate|].
  destruct (tabular_rows _ _ _ _ _ _ _) as [rows ctx''] eqn:Hrows.
  intros H. inversion H; subst. apply decoded_safe_array.
  change rows with (fst (rows, ctx'')). rewrite <- Hrows.
  apply tabular_rows_safe; [apply forall_filter_true | constructor ..].
Qed.

Create HintDb goon_safe.
#[local] Hint Resolve parsePrimitive_safe parseRow_safe set_safe_safe
  set_prop_safe : goon_safe.
#[local] Hint Extern 1 (decoded_safe (VArr _) = true) =>
  apply decoded_safe_array : goon_safe.
#[local] Hint Extern 1 (decoded_safe createSafeObject = true) =>
  reflexivity : goon_safe.
#[local] Hint Extern 1 (decoded_safe VNull = true) =>
  reflexivity : goon_safe.
#[local] Hint Extern 1 (safe_items []) => constructor : goon_safe.
#[local] Hint Extern 1 (safe_props []) => constructor : goon_safe.

Ltac split_matches :=
  repeat match goal with
         | |- context [match ?x with _ => _ end] => destruct x eqn:?
         end.

Ltac returned H :=
  first
    [ discriminate H
    | inversion H; subst; clear H; eauto with goon_safe ].

Lemma parseObject_turn_safe (parseObject_ parseListArray_ : parser GoonValue)
    (continue_ : ParseContext -> list (string * GoonValue)
                 -> outcome (list (string * GoonValue) * ParseContext)) :
  safe_parser parseObject_ ->
  safe_parser parseListArray_ ->
  (forall ctx obj obj' ctx',
      safe_props obj -> continue_ ctx obj = Returns (obj', ctx') ->
      safe_props obj') ->
  forall ctx baseIndent obj obj' ctx',
    safe_props obj ->
    parseObject_turn parseObject_ parseListArray_ continue_ ctx baseIndent obj
    = Returns (obj', ctx') ->
    safe_props obj'.
Proof.
  intros HpO HpL Hcont ctx baseIndent obj obj' ctx' Hobj.
  unfold parseObject_turn. cbv zeta.
  split_matches; intros H;
    try (eapply Hcont; [|exact H]); try returned H;
    repeat match goal with
           | E : (if ?c then _ else None) = Some _ |- _ =>
               destruct c eqn:?; [|discriminate E]
           end;
    eauto 6 using parseTabularArray_safe with goon_safe.
Qed.

Lemma parseListArray_turn_safe (parseNestedValue_ : parser GoonValue)
    (continue_ : ParseContext -> list GoonValue
                 -> outcome (list GoonValue * ParseContext)) :
  safe_parser parseNestedValue_ ->
  (forall ctx items items' ctx',
      safe_items items -> continue_ ctx items = Returns (items', ctx') ->
      safe_items items') ->
  forall ctx baseIndent items items' ctx',
    safe_items items ->
    parseListArray_turn parseNestedValue_ continue_ ctx baseIndent items
    = Returns (items', ctx') ->
    safe_items items'.
Proof.
  intros HpN Hcont ctx baseIndent items items' ctx' Hitems.
  unfold parseListArray_turn. cbv zeta.
  split_matches; intros H;
    try (eapply Hcont; [|exact H]); try returned H;
    try (apply Forall_app; split; [exact Hitems|];
         constructor; [|constructor]);
    eauto with goon_safe.
Qed.

Lemma parseNestedValue_body_safe (parseObject_ : parser GoonValue) :
  safe_parser parseObject_ ->
  safe_parser (parseNestedValue_body parseObject_).
Proof.
  intros HpO ctx minIndent v ctx'. unfold parseNestedValue_body. cbv zeta.
  split_matches; intros H; try returned H;
    eauto using parseTabularArray_safe with goon_safe.
Qed.

Lemma parseObject_body_safe
    (loop : ParseContext -> Z -> list (string * GoonValue)
            -> outcome (list (string * GoonValue) * ParseContext)) :
  (forall ctx baseIndent obj obj' ctx',
      safe_props obj -> loop ctx baseIndent obj = Returns (obj', ctx') ->
      safe_props obj') ->
  safe_parser (parseObject_body loop).
Proof.
  intros Hloop ctx baseIndent v ctx'. unfold parseObject_body. cbv zeta.
  split_matches; intros H; try discriminate H.
  inversion H; subst. apply decoded_safe_object.
  eapply Hloop; [|eassumption]. constructor.
Qed.

Lemma parseListArray_body_safe
    (loop : ParseContext -> Z -> list GoonValue
            -> outcome (list GoonValue * ParseContext)) :
  (forall ctx baseIndent items items' ctx',
      safe_items items -> loop ctx baseIndent items = Returns (items', ctx') ->
      safe_items items') ->
  safe_parser (parseListArray_body loop).
Proof.
  intros Hloop ctx baseIndent v ctx'. unfold parseListArray_body. cbv zeta.
  split_matches; intros H; try discriminate H.
  inversion H; subst. apply decoded_safe_array.
  eapply Hloop; [|eassumption]. constructor.
Qed.

(** Whatever the fuel, what the parsers return has no dangerous key and
    no prototype. *)
Lemma parsers_safe (fuel : nat) :
  safe_parser (parseObject fuel)
  /\ (forall ctx baseIndent obj obj' ctx',
        safe_props obj ->
        parseObject_loop fuel ctx baseIndent obj = Returns (obj', ctx') ->
        safe_props obj')
  /\ safe_parser (parseListArray fuel)
  /\ (forall ctx baseIndent items items' ctx',
        safe_items items ->
        parseListArray_loop fuel ctx baseIndent items
        = Returns (items', ctx') ->
        safe_items items')
  /\ safe_parser (parseNestedValue fuel).
Proof.
  induction fuel as [|fuel (HpO & HloopO & HpL & HloopL & HpN)].
  { repeat split; unfold safe_parser; intros; discriminate. }
  split; [|split; [|split; [|split]]].
  - change (parseObject (S fuel))
      with (parseObject_body (parseObject_loop fuel)).
    now apply parseObject_body_safe.
  - intros ctx baseIndent.
    change (parseObject_loop (S fuel) ctx baseIndent)
      with (parseObject_turn (parseObject fuel) (parseListArray fuel)
              (fun ctx obj => parseObject_loop fuel ctx baseIndent obj)
              ctx baseIndent).
    apply parseObject_turn_safe; try assumption.
    intros c o o' c'. apply HloopO.
  - change (parseListArray (S fuel))
      with (parseListArray_body (parseListArray_loop fuel)).
    now apply parseListArray_body_safe.
  - intros ctx baseIndent.
    change (parseListArray_loop (S fuel) ctx baseIndent)
      with (parseListArray_turn (parseNestedValue fuel)
              (fun ctx items => parseListArray_loop fuel ctx baseIndent items)
              ctx baseIndent).
    apply parseListArray_turn_safe; try assumption.
    intros c i i' c'. apply HloopL.
  - change (parseNestedValue (S fuel))
      with (parseNestedValue_body (parseObject fuel)).
    now apply parseNestedValue_body_safe.
Qed.

Lemma parseRoot_safe (fuel : nat) (ctx : ParseContext) (v : GoonValue)
    (ctx' : ParseContext) :
  parseRoot fuel ctx = Returns (v, ctx') -> decoded_safe v = true.
Proof.
  destruct (parsers_safe fuel) as (HpO & _ & HpL & _ & _).
  unfold parseRoot. cbv zeta.
  split_matches; intros H; try returned H;
    eauto using parseTabularArray_safe with goon_safe.
Qed.

Lemma decode_safe (input : string) :
  match decode input no_reviver with
  | Returns v => decoded_safe v = true
  | _ => True
  end.
Proof.
  unfold decode. cbn [reviver no_reviver].
  destruct (validateInputSize input); [|exact I].
  cbv zeta.
  destruct (length (input_lines input) =? 0); [reflexivity|].
  destruct (match input_lines input with
            | [] => _
            | first :: _ => _
            end) as [dictionary startIndex].
  destruct (length (input_lines input) <=? startIndex); [reflexivity|].
  destruct (parseRoot _ _) as [[v ctx']| |] eqn:Hroot; try exact I.
  eapply parseRoot_safe. exact Hroot.
Qed.

(** ** The fuel of the decoder is enough *)

Lemma moved_forward_refl (ctx : ParseContext) : moved_forward ctx ctx.
Proof. split; [reflexivity | lia]. Qed.

Lemma moved_forward_trans (a b c : ParseContext) :
  moved_forward a b -> moved_forward b c -> moved_forward a c.
Proof. intros [H1 H2] [H3 H4]. split; [congruence | lia]. Qed.

Lemma moved_forward_advance (ctx : ParseContext) :
  moved_forward ctx (advance ctx).
Proof. split; [reflexivity | cbn; lia]. Qed.

Lemma remaining_after (ctx ctx' : ParseContext) :
  line_at ctx <> None ->
  moved_forward (advance ctx) ctx' ->
  lines ctx' = lines ctx /\ remaining_lines ctx' < remaining_lines ctx.
Proof.
  intros Hline [Hlines Hindex]. cbn in Hlines, Hindex.
  split; [exact Hlines|]. unfold remaining_lines, line_at in *.
  rewrite Hlines. apply nth_error_Some in Hline. lia.
Qed.

Lemma tabular_rows_moved (baseIndent : Z) (d : Delimiter)
    (fields : list string) :
  forall remaining ctx rows above,
    moved_forward ctx
      (snd (tabular_rows remaining ctx baseIndent d fields rows above)).
Proof.
  induction remaining as [|line remaining IH]; intros ctx rows above;
    cbn [tabular_rows]; [apply moved_forward_refl|].
  repeat match goal with
         | |- context [if ?c then _ else _] => destruct c
         end; try apply moved_forward_refl;
    (eapply moved_forward_trans; [apply moved_forward_advance | apply IH]).
Qed.

Lemma parseTabularArray_fuel (ctx : ParseContext) (baseIndent : Z)
    (fieldsStr : string) :
  parseTabularArray ctx baseIndent fieldsStr <> OutOfFuel.
Proof.
  unfold parseTabularArray. cbv zeta.
  destruct (_ >? _)%Z; [discriminate|].
  destruct (tabular_rows _ _ _ _ _ _ _). discriminate.
Qed.

Lemma parseTabularArray_moved (ctx : ParseContext) (baseIndent : Z)
    (fieldsStr : string) (v : GoonValue) (ctx' : ParseContext) :
  parseTabularArray ctx baseIndent fieldsStr = Returns (v, ctx') ->
  moved_forward (advance ctx) ctx'.
Proof.
  unfold parseTabularArray. cbv zeta.
  destruct (_ >? _)%Z; [discriminate|].
  destruct (tabular_rows _ _ _ _ _ _ _) as [rows ctx''] eqn:Hrows.
  intros H. inversion H; subst.
  pose proof (tabular_rows_moved baseIndent (detectDelimiter fieldsStr)
                (filter isSafeKey
                   (split (delimiter_char (detectDelimiter fieldsStr))
                          fieldsStr))
                (skipn (index (advance (deeper ctx)))
                       (lines (advance (deeper ctx))))
                (advance (deeper ctx)) [] []) as Hmoved.
  rewrite Hrows in Hmoved. destruct Hmoved as [Hl Hi]. cbn in Hl, Hi.
  split; cbn; [exact Hl | exact Hi].
Qed.

Lemma dead_list_branch (trimmed key : string) :
  emptyArrMatch trimmed = None -> emptyArrMatch trimmed = Some key -> False.
Proof. congruence. Qed.

Section TurnOfParseObject.
Variables parseObject_ parseListArray_ : parser GoonValue.
Variable continue_ :
  ParseContext -> list (string * GoonValue)
  -> outcome (list (string * GoonValue) * ParseContext).
Hypothesis parseObject_moves :
  forall c b v c', parseObject_ c b = Returns (v, c') -> moved_forward c c'.
Hypothesis continue_moves :
  forall c o o' c', continue_ c o = Returns (o', c') -> moved_forward c c'.

Lemma parseObject_turn_moved ctx baseIndent obj obj' ctx' :
  parseObject_turn parseObject_ parseListArray_ continue_ ctx baseIndent obj
  = Returns (obj', ctx') ->
  moved_forward ctx ctx'.
Proof.
  unfold parseObject_turn. cbv zeta.
  split_matches; intros H;
    try (exfalso; eapply dead_list_branch; eassumption);
    try discriminate H;
    try (inversion H; subst; apply moved_forward_refl);
    apply continue_moves in H;
    (eapply moved_forward_trans; [apply moved_forward_advance|]);
    try exact H;
    (eapply moved_forward_trans; [|exact H]);
    match goal with
    | E : parseTabularArray _ _ _ = Returns _ |- _ =>
        exact (parseTabularArray_moved _ _ _ _ _ E)
    | E : parseObject_ _ _ = Returns _ |- _ =>
        exact (parseObject_moves _ _ _ _ E)
    end.
Qed.

Lemma parseObject_turn_fuel ctx baseIndent obj :
  (forall c b,
      lines c = lines ctx -> remaining_lines c < remaining_lines ctx ->
      parseObject_ c b <> OutOfFuel) ->
  (forall c o,
      lines c = lines ctx -> remaining_lines c < remaining_lines ctx ->
      continue_ c o <> OutOfFuel) ->
  parseObject_turn parseObject_ parseListArray_ continue_ ctx baseIndent obj
  <> OutOfFuel.
Proof.
  intros HpO Hcont. unfold parseObject_turn. cbv zeta.
  destruct (line_at ctx) as [line|] eqn:Hline; [|discriminate].
  assert (Hsome : line_at ctx <> None) by congruence.
  assert (Hnext : forall c, moved_forward (advance ctx) c ->
                            forall o, continue_ c o <> OutOfFuel).
  { intros c Hc o. destruct (remaining_after ctx c Hsome Hc).
    now apply Hcont. }
  pose proof (Hnext _ (moved_forward_refl _)) as Hadvance.
  assert (Hnested : forall b, parseObject_ (advance ctx) b <> OutOfFuel).
  { intros b.
    destruct (remaining_after ctx (advance ctx) Hsome (moved_forward_refl _)).
    now apply HpO. }
  split_matches;
    try (exfalso; eapply dead_list_branch; eassumption);
    try discriminate; try apply Hadvance;
    match goal with
    | E : parseTabularArray _ _ _ = OutOfFuel |- _ =>
        intros _; exact (parseTabularArray_fuel _ _ _ E)
    | E : parseTabularArray _ _ _ = Returns _ |- _ =>
        apply Hnext; exact (parseTabularArray_moved _ _ _ _ _ E)
    | E : parseObject_ _ _ = Returns _ |- _ =>
        apply Hnext; exact (parseObject_moves _ _ _ _ E)
    | E : parseObject_ _ _ = OutOfFuel |- _ =>
        intros _; exact (Hnested _ E)
    end.
Qed.
End TurnOfParseObject.

(** With two units of fuel for every line that is left, and two more,
    [parseObject] does not run out. *)
Lemma parseObject_has_fuel (fuel : nat) :
  (forall ctx b, 2 * remaining_lines ctx + 2 <= fuel ->
                 parseObject fuel ctx b <> OutOfFuel)
  /\ (forall ctx b v ctx',
        parseObject fuel ctx b = Returns (v, ctx') -> moved_forward ctx ctx')
  /\ (forall ctx b obj, 2 * remaining_lines ctx + 1 <= fuel ->
                        parseObject_loop fuel ctx b obj <> OutOfFuel)
  /\ (forall ctx b obj obj' ctx',
        parseObject_loop fuel ctx b obj = Returns (obj', ctx') ->
        moved_forward ctx ctx').
Proof.
  induction fuel as [|fuel (HO & HOm & HL & HLm)].
  { repeat split; intros; try lia; discriminate. }
  assert (HOm' : forall ctx b v ctx',
             parseObject (S fuel) ctx b = Returns (v, ctx') ->
             moved_forward ctx ctx').
  { intros ctx b v ctx'.
    change (parseObject (S fuel) ctx b)
      with (parseObject_body (parseObject_loop fuel) ctx b).
    unfold parseObject_body. cbv zeta.
    destruct (_ >? _)%Z; [discriminate|].
    destruct (parseObject_loop fuel (deeper ctx) b [])
      as [[obj c]| |] eqn:Hloop; try discriminate.
    intros H. inversion H; subst.
    destruct (HLm _ _ _ _ _ Hloop) as [Hl Hi]. split; cbn; assumption. }
  split; [|split; [exact HOm'|split]].
  - intros ctx b Hfuel.
    change (parseObject (S fuel) ctx b)
      with (parseObject_body (parseObject_loop fuel) ctx b).
    unfold parseObject_body. cbv zeta.
    destruct (_ >? _)%Z; [discriminate|].
    destruct (parseObject_loop fuel (deeper ctx) b [])
      as [[obj c]| |] eqn:Hloop; try discriminate.
    exfalso. revert Hloop. apply HL.
    unfold remaining_lines in *. cbn. lia.
  - intros ctx b obj Hfuel.
    change (parseObject_loop (S fuel) ctx b obj)
      with (parseObject_turn (parseObject fuel) (parseListArray fuel)
              (fun ctx obj => parseObject_loop fuel ctx b obj) ctx b obj).
    apply parseObject_turn_fuel.
    + exact HOm.
    + intros c b' Hlines Hless. apply HO. lia.
    + intros c o Hlines Hless. apply HL. lia.
  - intros ctx b obj obj' ctx'.
    change (parseObject_loop (S fuel) ctx b obj)
      with (parseObject_turn (parseObject fuel) (parseListArray fuel)
              (fun ctx obj => parseObject_loop fuel ctx b obj) ctx b obj).
    apply parseObject_turn_moved.
    + exact HOm.
    + intros c o o' c'. apply HLm.
Qed.

(** [decode] never stops for want of fuel: it returns or it throws. *)
Lemma decode_has_enough_fuel (input : string) (options : DecodeOptions) :
  decode input options <> OutOfFuel.
Proof.
  unfold decode.
  destruct (validateInputSize input); [|discriminate]. cbv zeta.
  destruct (length (input_lines input) =? 0); [discriminate|].
  destruct (match input_lines input with
            | [] => _
            | first :: _ => _
            end) as [dictionary startIndex].
  destruct (length (input_lines input) <=? startIndex); [discriminate|].
  set (ctx := {| lines := input_lines input; index := startIndex;
                 dictionary := dictionary;
                 indent := detectIndent (input_lines input);
                 depth := 0 |}).
  assert (Hroot : parseRoot (fuel_for (input_lines input)) ctx <> OutOfFuel).
  { unfold parseRoot. cbv zeta.
    destruct (line_at ctx); [|discriminate].
    destruct (String.eqb (trim s) "{}"); [discriminate|].
    destruct (String.eqb (trim s) "[]"); [discriminate|].
    destruct (standaloneTabularMatch (trim s));
      [apply parseTabularArray_fuel|].
    destruct (standaloneSimpleArrMatch (trim s)); [discriminate|].
    destruct (_ || _); [|discriminate].
    apply parseObject_has_fuel. unfold fuel_for, remaining_lines. cbn. lia. }
  destruct (parseRoot _ ctx) as [[v c]| |]; [|discriminate|congruence].
  destruct (reviver options); [|discriminate].
  destruct (applyReviver _ _ _ _); discriminate.
Qed.

(** ** C3 *)

(** C3: a dangerous key is never written and never read.  The lines
    [encodeObject] pushes for an object are those of the object without
    its dangerous properties, and the lines [encodeTabularArray] pushes
    for a table are those of the rows without theirs, so such a key and
    what is under it leave no trace in the text; an object with a
    [__proto__] property is encoded without it.  Whatever text [decode]
    is given, it returns or it throws; no object of the value it returns
    has a dangerous key, and every object of it was made without a
    prototype; the assignments to [__proto__] and [constructor] of a
    document are dropped. *)
Theorem C3_dangerous_keys_are_dropped :
  (forall obj depth opts dict parentKey recursionDepth,
      encodeObject obj depth opts dict parentKey recursionDepth
      = encodeObject (filter (fun kv => isSafeKey (fst kv)) obj) depth opts
                     dict parentKey recursionDepth)
  /\ (forall arr depth opts dict parentKey,
        encodeTabularArray (map strip arr) depth opts dict parentKey
        = encodeTabularArray arr depth opts dict parentKey)
  /\ (forall m,
        encode (object [("normal", integer 1);
                        ("__proto__", object [("evil", VBool true)])])
               (preset m)
        = Ok "normal: 1")
  /\ (forall input,
        (exists v, decode input no_reviver = Returns v
                   /\ decoded_safe v = true)
        \/ (exists e, decode input no_reviver = Throws e))
  /\ decode (text_of ["__proto__: evil"; "constructor: bad"; "normal: good"])
            no_reviver
     = Returns (VObj NullPrototype [("normal", VStr "good")]).
Proof.
  split; [|split; [|split; [|split]]].
  - intros. apply encodeObject_ignores_dangerous.
  - intros. apply encodeTabularArray_ignores_dangerous.
  - intros [| |]; vm_compute; reflexivity.
  - intros input. pose proof (decode_safe input) as Hsafe.
    pose proof (decode_has_enough_fuel input no_reviver) as Hfuel.
    destruct (decode input no_reviver) as [v|e|];
      [left; now exists v | right; now exists e | congruence].
  - vm_compute. reflexivity.
Qed.

(** * Further properties *)

(** ** Escaping *)

Lemma replace_all_append (c : ascii) (by_ a b : string) :
  replace_all c by_ (a ++ b) = replace_all c by_ a ++ replace_all c by_ b.
Proof.
  induction a as [|x a IH]; [reflexivity|]. cbn.
  destruct (Ascii.eqb x c); rewrite IH; [now rewrite append_assoc | reflexivity].
Qed.

Lemma escaped_is_escape (s : string) :
  replace_all TAB "\t"
    (replace_all CR "\r"
       (replace_all LF "\n"
          (replace_all QUOTE (String BACKSLASH (String QUOTE ""))
             (replace_all BACKSLASH "\\" s))))
  = escape s.
Proof.
  induction s as [|c s IH]; [reflexivity|].
  cbn [replace_all escape]. unfold escape_char.
  destruct (Ascii.eqb_spec c BACKSLASH) as [->|Hb].
  { rewrite !replace_all_append, IH. reflexivity. }
  cbn [replace_all].
  destruct (Ascii.eqb_spec c QUOTE) as [->|Hq].
  { rewrite !replace_all_append, IH. reflexivity. }
  cbn [replace_all].
  destruct (Ascii.eqb_spec c LF) as [->|Hl].
  { rewrite !replace_all_append, IH. reflexivity. }
  cbn [replace_all].
  destruct (Ascii.eqb_spec c CR) as [->|Hc].
  { rewrite !replace_all_append, IH. reflexivity. }
  cbn [replace_all].
  destruct (Ascii.eqb_spec c TAB) as [->|Ht].
  { rewrite IH. reflexivity. }
  rewrite IH. reflexivity.
Qed.

Lemma quoteString_quoted (s : string) :
  needsQuoting s = true -> quoteString s = quoted s.
Proof.
  intros H. unfold quoteString, quoted. rewrite H. cbn [negb].
  now rewrite escaped_is_escape.
Qed.

Lemma quoteString_plain (s : string) :
  needsQuoting s = false -> quoteString s = s.
Proof. intros H. unfold quoteString. now rewrite H. Qed.

Lemma unescape_escape_append (s rest : string) :
  (forall c r, rest = String c r -> c = QUOTE) ->
  unescape (escape s ++ rest) = s ++ unescape rest.
Proof.
  intros Hrest. induction s as [|c s IH]; [reflexivity|].
  cbn [escape]. unfold escape_char.
  destruct (Ascii.eqb_spec c BACKSLASH) as [->|Hb].
  { cbn. now rewrite IH. }
  destruct (Ascii.eqb_spec c QUOTE) as [->|Hq].
  { cbn. now rewrite IH. }
  destruct (Ascii.eqb_spec c LF) as [->|Hl].
  { cbn. now rewrite IH. }
  destruct (Ascii.eqb_spec c CR) as [->|Hc].
  { cbn. now rewrite IH. }
  destruct (Ascii.eqb_spec c TAB) as [->|Ht].
  { cbn. now rewrite IH. }
  cbn [append unescape].
  destruct (Ascii.eqb_spec c BACKSLASH); [contradiction|].
  now rewrite IH.
Qed.

Lemma unescape_escape (s : string) : unescape (escape s) = s.
Proof.
  rewrite <- (append_empty_r (escape s)).
  rewrite unescape_escape_append; [apply append_empty_r | discriminate].
Qed.

Lemma rev_onto_spec (a b : string) : rev_onto a b = rev a ++ b.
Proof. unfold rev. now rewrite rev_onto_append. Qed.

Lemma rev_append (a b : string) : rev (a ++ b) = rev b ++ rev a.
Proof.
  induction a as [|x a IH].
  - cbn. now rewrite append_empty_r.
  - cbn [append]. unfold rev at 1 3. cbn [rev_onto].
    rewrite !(rev_onto_spec _ (String x "")), IH. now rewrite append_assoc.
Qed.

Lemma rev_involutive (s : string) : rev (rev s) = s.
Proof.
  induction s as [|x s IH]; [reflexivity|].
  unfold rev at 2. cbn [rev_onto]. rewrite rev_onto_spec, rev_append, IH.
  reflexivity.
Qed.

Lemma length_rev (s : string) : String.length (rev s) = String.length s.
Proof.
  induction s as [|x s IH]; [reflexivity|].
  unfold rev. cbn [rev_onto]. rewrite rev_onto_spec, length_append, IH.
  cbn. lia.
Qed.

Lemma slice_quoted (inner : string) :
  slice_1_m1 (String QUOTE (inner ++ QUOTE_STR)) = inner.
Proof.
  unfold slice_1_m1. cbn [String.length drop].
  rewrite length_append. cbn [String.length QUOTE_STR].
  replace (S (String.length inner + 1) - 2) with (String.length inner) by lia.
  apply take_append.
Qed.

Lemma endsWith_quoted (inner : string) :
  endsWith (String QUOTE (inner ++ QUOTE_STR)) QUOTE_STR = true.
Proof.
  unfold endsWith.
  change (String QUOTE (inner ++ QUOTE_STR))
    with ((String QUOTE inner) ++ QUOTE_STR).
  rewrite rev_append. reflexivity.
Qed.

Lemma unquoteString_quoted (s : string) : unquoteString (quoted s) = s.
Proof.
  unfold unquoteString, quoted.
  rewrite endsWith_quoted. cbn [startsWith QUOTE_STR].
  rewrite Ascii.eqb_refl. cbn [andb negb orb].
  rewrite slice_quoted. apply unescape_escape.
Qed.

(** ** Decimal numerals *)

Lemma digits_value_from_acc (d : Decimal.uint) (acc : positive) :
  digits_value_from (N.pos acc) (NilEmpty.string_of_uint d)
  = N.pos (Pos.of_uint_acc d acc).
Proof.
  revert acc. induction d as [|d IH|d IH|d IH|d IH|d IH|d IH|d IH|d IH|d IH|d IH];
    intros acc; cbn [NilEmpty.string_of_uint digits_value_from Pos.of_uint_acc];
    [reflexivity| | | | | | | | | |];
    rewrite <- IH; f_equal;
    match goal with
    | |- context [digit_value ?c] =>
        let v := eval vm_compute in (digit_value c) in
        change (digit_value c) with v
    end; lia.
Qed.

Lemma digits_value_from_zero (d : Decimal.uint) :
  digits_value_from 0 (NilEmpty.string_of_uint d) = Pos.of_uint d.
Proof.
  induction d as [|d IH|d IH|d IH|d IH|d IH|d IH|d IH|d IH|d IH|d IH];
    cbn [NilEmpty.string_of_uint digits_value_from Pos.of_uint];
    [reflexivity | exact IH | | | | | | | | |];
    rewrite <- digits_value_from_acc; reflexivity.
Qed.

Lemma digits_value_decimal (n : N) : digits_value (decimal_of_N n) = n.
Proof.
  unfold digits_value, decimal_of_N, NilZero.string_of_uint.
  rewrite <- (DecimalN.Unsigned.of_to n) at 2.
  destruct (N.to_uint n) eqn:E; try apply digits_value_from_zero.
  reflexivity.
Qed.

Lemma all_digits_uint (d : Decimal.uint) :
  all_chars is_digit (NilEmpty.string_of_uint d) = true.
Proof.
  induction d; cbn [NilEmpty.string_of_uint all_chars]; try reflexivity;
    rewrite IHd; reflexivity.
Qed.

Lemma all_chars_decimal (n : N) : all_chars is_digit (decimal_of_N n) = true.
Proof.
  unfold decimal_of_N, NilZero.string_of_uint.
  destruct (N.to_uint n); try apply all_digits_uint. reflexivity.
Qed.

Lemma decimal_not_empty (n : N) : is_empty (decimal_of_N n) = false.
Proof.
  destruct (decimal_of_N_first n) as (c & rest & -> & _). reflexivity.
Qed.

Lemma all_digits_decimal (n : N) : all_digits (decimal_of_N n) = true.
Proof.
  unfold all_digits. now rewrite decimal_not_empty, all_chars_decimal.
Qed.

(** ** The primitive codec *)

Lemma span_all (p : ascii -> bool) (s rest : string) :
  all_chars p s = true ->
  (forall c r, rest = String c r -> p c = false) ->
  span p (s ++ rest) = (s, rest).
Proof.
  intros Hs Hrest. induction s as [|c s IH].
  - cbn. destruct rest as [|c r]; [reflexivity|].
    cbn. now rewrite (Hrest c r eq_refl).
  - cbn [all_chars] in Hs. apply andb_true_iff in Hs as [Hc Hs].
    cbn. rewrite Hc, (IH Hs). reflexivity.
Qed.

Lemma span_all_end (p : ascii -> bool) (s : string) :
  all_chars p s = true -> span p s = (s, "").
Proof.
  intros H. rewrite <- (append_empty_r s) at 1.
  apply span_all; [exact H | discriminate].
Qed.

Lemma digit_cases (c : ascii) :
  is_digit c = true ->
  c = "0"%char \/ c = "1"%char \/ c = "2"%char \/ c = "3"%char
  \/ c = "4"%char \/ c = "5"%char \/ c = "6"%char \/ c = "7"%char
  \/ c = "8"%char \/ c = "9"%char.
Proof.
  destruct c as [[|] [|] [|] [|] [|] [|] [|] [|]]; intros H;
    try discriminate H; tauto.
Qed.

Ltac digit_case c H :=
  destruct (digit_cases c H)
    as [->|[->|[->|[->|[->|[->|[->|[->|[->| ->]]]]]]]]].

Lemma looks_numeric_digits (d : string) :
  all_digits d = true -> looks_numeric d = true.
Proof.
  unfold all_digits. intros H. apply andb_true_iff in H as [Hne Hd].
  destruct d as [|c d]; [discriminate|].
  assert (Hc : is_digit c = true).
  { cbn [all_chars] in Hd. now apply andb_true_iff in Hd as [Hc _]. }
  assert (Hspan := span_all_end is_digit (String c d) Hd).
  unfold looks_numeric.
  digit_case c Hc; cbv iota beta; rewrite Hspan; reflexivity.
Qed.

Lemma looks_numeric_minus (d : string) :
  all_digits d = true -> looks_numeric (String "-" d) = true.
Proof.
  unfold all_digits. intros H. apply andb_true_iff in H as [Hne Hd].
  unfold looks_numeric. cbv iota beta.
  rewrite (span_all_end is_digit d Hd). now rewrite Hne.
Qed.

Lemma parseFloat_digits (d : string) :
  all_digits d = true ->
  parseFloat d = Finite (Z.of_N (digits_value d)) 0.
Proof.
  unfold all_digits. intros H. apply andb_true_iff in H as [Hne Hd].
  destruct d as [|c d]; [discriminate|].
  assert (Hc : is_digit c = true).
  { cbn [all_chars] in Hd. now apply andb_true_iff in Hd as [Hc _]. }
  assert (Hspan := span_all_end is_digit (String c d) Hd).
  unfold parseFloat.
  digit_case c Hc; cbv iota beta; rewrite Hspan; cbv iota beta;
    rewrite append_empty_r; reflexivity.
Qed.

Lemma parseFloat_minus (d : string) :
  all_digits d = true ->
  parseFloat (String "-" d) = Finite (- Z.of_N (digits_value d)) 0.
Proof.
  unfold all_digits. intros H. apply andb_true_iff in H as [Hne Hd].
  unfold parseFloat. cbv iota beta.
  rewrite (span_all_end is_digit d Hd). cbv iota beta.
  rewrite append_empty_r. reflexivity.
Qed.

Lemma parsePrimitive_other (s : string) (dict : list string) :
  existsb (String.eqb s) ["_"; "T"; "F"; "~"] = false ->
  startsWith s "$" = false ->
  startsWith s QUOTE_STR = false ->
  parsePrimitive s dict
  = if looks_numeric s && isFinite (parseFloat s) then VNum (parseFloat s)
    else VStr s.
Proof.
  intros Hres Hdollar Hquote. cbn [existsb] in Hres.
  repeat (apply orb_false_iff in Hres as [? Hres]).
  unfold parsePrimitive.
  repeat match goal with H : String.eqb _ _ = false |- _ => rewrite H; clear H end.
  rewrite Hdollar, Hquote. reflexivity.
Qed.

Lemma parsePrimitive_digits (d : string) (dict : list string) :
  all_digits d = true ->
  parsePrimitive d dict = VNum (Finite (Z.of_N (digits_value d)) 0).
Proof.
  intros H.
  assert (Hc : exists c r, d = String c r /\ is_digit c = true).
  { unfold all_digits in H. apply andb_true_iff in H as [Hne Hd].
    destruct d as [|c r]; [discriminate|]. exists c, r. split; [reflexivity|].
    cbn [all_chars] in Hd. now apply andb_true_iff in Hd as [Hc _]. }
  destruct Hc as (c & r & E & Hc).
  rewrite parsePrimitive_other.
  - now rewrite looks_numeric_digits, parseFloat_digits.
  - subst d. digit_case c Hc; reflexivity.
  - subst d. digit_case c Hc; reflexivity.
  - subst d. digit_case c Hc; reflexivity.
Qed.

Lemma parsePrimitive_minus_digits (d : string) (dict : list string) :
  all_digits d = true ->
  parsePrimitive (String "-" d) dict
  = VNum (Finite (- Z.of_N (digits_value d)) 0).
Proof.
  intros H. rewrite parsePrimitive_other; try reflexivity.
  now rewrite looks_numeric_minus, parseFloat_minus.
Qed.

Lemma parsePrimitive_integer (m : Z) (dict : list string) :
  parsePrimitive (number_to_string (Finite m 0)) dict = VNum (Finite m 0).
Proof.
  unfold number_to_string.
  destruct (Z.ltb_spec m 0).
  - cbn [append].
    rewrite parsePrimitive_minus_digits by apply all_digits_decimal.
    rewrite digits_value_decimal. do 2 f_equal. lia.
  - cbn [append].
    rewrite parsePrimitive_digits by apply all_digits_decimal.
    rewrite digits_value_decimal. do 2 f_equal. lia.
Qed.

Lemma parsePrimitive_quoted (s : string) (dict : list string) :
  parsePrimitive (quoted s) dict = VStr s.
Proof.
  unfold parsePrimitive.
  change (String.eqb (quoted s) "_") with false.
  change (String.eqb (quoted s) "T") with false.
  change (String.eqb (quoted s) "F") with false.
  change (String.eqb (quoted s) "~") with false.
  change (startsWith (quoted s) "$") with false.
  change (startsWith (quoted s) QUOTE_STR) with true.
  cbv iota beta. cbn [andb].
  unfold quoted at 1. rewrite endsWith_quoted.
  unfold quoted at 1. cbn [String.length]. cbn [andb Nat.leb].
  rewrite length_append. cbn [String.length QUOTE_STR].
  replace (String.length (escape s) + 1) with (S (String.length (escape s)))
    by lia.
  cbn [Nat.leb]. now rewrite unquoteString_quoted.
Qed.

(** What [needsQuoting] has excluded when it answers no. *)
Lemma needsQuoting_false (s : string) :
  needsQuoting s = false ->
  s = ""
  \/ (existsb (String.eqb s) ["T"; "F"; "_"; "~"; "^"] = false
      /\ startsWith s "$" = false
      /\ startsWith s "^" = false
      /\ any_char (fun c => Ascii.eqb c "|" || Ascii.eqb c LF
                            || Ascii.eqb c CR || Ascii.eqb c TAB) s = false
      /\ looks_numeric s = false
      /\ looks_reference s = false
      /\ looks_run_length s = false).
Proof.
  unfold needsQuoting.
  destruct (String.eqb_spec s "") as [->|Hne]; [now left|].
  destruct (String.length s =? 0); [discriminate|].
  destruct (existsb _ _) eqn:E1; [discriminate|].
  destruct s as [|c s]; [contradiction|].
  destruct (Ascii.eqb c "$" || Ascii.eqb c "^") eqn:E2; [discriminate|].
  destruct (any_char _ _) eqn:E3; [discriminate|].
  destruct (looks_numeric _) eqn:E4; [discriminate|].
  destruct (looks_reference _) eqn:E5; [discriminate|].
  destruct (looks_run_length _) eqn:E6; [discriminate|].
  intros _. right. apply orb_false_iff in E2 as [Ea Eb].
  cbn [startsWith]. rewrite Ea, Eb. repeat split; reflexivity.
Qed.

Lemma parsePrimitive_unquoted (s : string) (dict : list string) :
  needsQuoting s = false ->
  is_empty s = false ->
  startsWith s QUOTE_STR && endsWith s QUOTE_STR && (2 <=? String.length s)
  = false ->
  parsePrimitive s dict = VStr s.
Proof.
  intros Hq Hne Hlooks.
  destruct (needsQuoting_false s Hq) as [->|H]; [discriminate|].
  destruct H as (Hres & Hd & _ & _ & Hnum & _ & _).
  cbn [existsb] in Hres.
  repeat (apply orb_false_iff in Hres as [? Hres]).
  unfold parsePrimitive.
  repeat match goal with H : String.eqb _ _ = false |- _ => rewrite H; clear H end.
  rewrite Hd, Hlooks, Hnum. reflexivity.
Qed.

(** ** Decimal fractions *)

Lemma digits_value_from_scale (s : string) (acc : N) :
  digits_value_from acc s
  = (acc * 10 ^ N.of_nat (String.length s) + digits_value s)%N.
Proof.
  revert acc. induction s as [|c s IH]; intros acc.
  - cbn. lia.
  - unfold digits_value. cbn [digits_value_from String.length].
    rewrite (IH (acc * 10 + digit_value c)%N), (IH (0 * 10 + digit_value c)%N).
    rewrite Nat2N.inj_succ, N.pow_succ_r'. lia.
Qed.

Lemma digits_value_from_append (a b : string) (acc : N) :
  digits_value_from acc (a ++ b)
  = digits_value_from (digits_value_from acc a) b.
Proof.
  revert acc. induction a as [|c a IH]; intros acc; [reflexivity|].
  cbn. apply IH.
Qed.

Lemma digits_value_append (a b : string) :
  digits_value (a ++ b)
  = (digits_value a * 10 ^ N.of_nat (String.length b) + digits_value b)%N.
Proof.
  unfold digits_value at 1. rewrite digits_value_from_append.
  apply digits_value_from_scale.
Qed.

Lemma digits_value_zeros (k : nat) (s : string) :
  digits_value (repeat_string "0" k ++ s) = digits_value s.
Proof.
  induction k as [|k IH]; [reflexivity|].
  cbn [repeat_string]. rewrite append_assoc.
  cbn [append]. unfold digits_value in *. cbn [digits_value_from].
  exact IH.
Qed.

Lemma length_repeat_string (s : string) (k : nat) :
  String.length (repeat_string s k) = k * String.length s.
Proof.
  induction k as [|k IH]; [reflexivity|].
  cbn [repeat_string]. rewrite length_append, IH. lia.
Qed.

Lemma all_chars_append (p : ascii -> bool) (a b : string) :
  all_chars p (a ++ b) = all_chars p a && all_chars p b.
Proof.
  induction a as [|c a IH]; [reflexivity|].
  cbn. now rewrite IH, andb_assoc.
Qed.

Lemma all_chars_zeros (k : nat) :
  all_chars is_digit (repeat_string "0" k) = true.
Proof. induction k as [|k IH]; [reflexivity | exact IH]. Qed.

Lemma nzhead_head (d d' : Decimal.uint) : Decimal.nzhead d <> Decimal.D0 d'.
Proof. induction d; cbn; try discriminate. exact IHd. Qed.

(** A numeral has no leading zero, unless it is [0]. *)
Lemma decimal_shape (n : N) :
  decimal_of_N n = "0"
  \/ exists c r, decimal_of_N n = String c r /\ (1 <= digit_value c)%N.
Proof.
  unfold decimal_of_N.
  assert (E : N.to_uint n = Decimal.unorm (N.to_uint n)).
  { rewrite <- DecimalN.Unsigned.to_of. now rewrite DecimalN.Unsigned.of_to. }
  unfold Decimal.unorm in E.
  destruct (Decimal.nzhead (N.to_uint n)) eqn:Hz;
    try (rewrite E; right; eexists; eexists; split;
         [reflexivity | vm_compute; discriminate]).
  - rewrite E. now left.
  - now apply nzhead_head in Hz.
Qed.

Lemma decimal_length_bound (n : N) (e : nat) :
  (n < 10 ^ N.of_nat e)%N -> 1 <= e ->
  String.length (decimal_of_N n) <= e.
Proof.
  intros Hn He.
  destruct (decimal_shape n) as [E|(c & r & E & Hc)].
  - rewrite E. exact He.
  - rewrite E. cbn [String.length].
    assert (Hv : digits_value (String c r) = n).
    { rewrite <- E. apply digits_value_decimal. }
    unfold digits_value in Hv. cbn [digits_value_from] in Hv.
    rewrite digits_value_from_scale in Hv.
    assert (Hlt : (10 ^ N.of_nat (String.length r) < 10 ^ N.of_nat e)%N) by nia.
    apply N.pow_lt_mono_r_iff in Hlt; lia.
Qed.

Lemma pad_zeros_length (e : nat) (s : string) :
  String.length s <= e -> String.length (pad_zeros e s) = e.
Proof.
  intros H. unfold pad_zeros.
  rewrite length_append, length_repeat_string. cbn. lia.
Qed.

(** The last character of a non-empty string. *)
Lemma last_split (s : string) :
  is_empty s = false -> exists x c, s = x ++ String c "".
Proof.
  induction s as [|c s IH]; [discriminate|]. intros _.
  destruct s as [|c' s'].
  - exists "", c. reflexivity.
  - destruct (IH eq_refl) as (x & l & E). exists (String c x), l.
    cbn [append]. now rewrite <- E.
Qed.

Lemma strip_zeros_none (x : string) (c : ascii) :
  Ascii.eqb "0" c = false ->
  rev (drop_while (Ascii.eqb "0") (rev (x ++ String c ""))) = x ++ String c "".
Proof.
  intros H. rewrite rev_append.
  change (rev (String c "")) with (String c "").
  cbn [append drop_while]. rewrite H.
  change (String c (rev x)) with (rev (String c "") ++ rev x).
  rewrite <- rev_append. apply rev_involutive.
Qed.

Lemma first_digit (d : string) :
  all_digits d = true -> exists c r, d = String c r /\ is_digit c = true.
Proof.
  unfold all_digits. intros H. apply andb_true_iff in H as [Hne Hd].
  destruct d as [|c r]; [discriminate|]. exists c, r. split; [reflexivity|].
  cbn [all_chars] in Hd. now apply andb_true_iff in Hd as [Hc _].
Qed.

Lemma span_digits_point (i f : string) :
  all_digits i = true -> span is_digit (i ++ String "." f) = (i, String "." f).
Proof.
  intros H. apply span_all.
  - unfold all_digits in H. now apply andb_true_iff in H as [_ H].
  - intros c r E. inversion E. reflexivity.
Qed.

Lemma looks_numeric_fraction (i f : string) :
  all_digits i = true -> all_digits f = true ->
  looks_numeric (i ++ String "." f) = true
  /\ looks_numeric (String "-" (i ++ String "." f)) = true.
Proof.
  intros Hi Hf. assert (Hspan := span_digits_point i f Hi).
  assert (Hne : is_empty i = false).
  { unfold all_digits in Hi. apply andb_true_iff in Hi as [Hne _].
    now destruct i. }
  split.
  - destruct (first_digit i Hi) as (c & r & -> & Hc).
    unfold looks_numeric. cbn [append] in *.
    digit_case c Hc; cbv iota beta; rewrite Hspan; cbn [is_empty negb andb];
      exact Hf.
  - unfold looks_numeric. cbv iota beta. rewrite Hspan, Hne. exact Hf.
Qed.

Lemma parseFloat_fraction (i f : string) :
  all_digits i = true ->
  parseFloat (i ++ String "." f)
  = Finite (Z.of_N (digits_value (i ++ strip_zeros f)))
           (String.length (strip_zeros f))
  /\ parseFloat (String "-" (i ++ String "." f))
     = Finite (- Z.of_N (digits_value (i ++ strip_zeros f)))
              (String.length (strip_zeros f)).
Proof.
  intros Hi. assert (Hspan := span_digits_point i f Hi).
  split.
  - destruct (first_digit i Hi) as (c & r & -> & Hc).
    unfold parseFloat. cbn [append] in *.
    digit_case c Hc; cbv iota beta; rewrite Hspan; reflexivity.
  - unfold parseFloat. cbv iota beta. rewrite Hspan. reflexivity.
Qed.

Lemma parsePrimitive_fraction (i f : string) (dict : list string) :
  all_digits i = true -> all_digits f = true ->
  parsePrimitive (i ++ String "." f) dict
  = VNum (Finite (Z.of_N (digits_value (i ++ strip_zeros f)))
                 (String.length (strip_zeros f)))
  /\ parsePrimitive (String "-" (i ++ String "." f)) dict
     = VNum (Finite (- Z.of_N (digits_value (i ++ strip_zeros f)))
                    (String.length (strip_zeros f))).
Proof.
  intros Hi Hf.
  destruct (looks_numeric_fraction i f Hi Hf) as [L1 L2].
  destruct (parseFloat_fraction i f Hi) as [P1 P2].
  split.
  - rewrite parsePrimitive_other.
    + now rewrite L1, P1.
    + destruct (first_digit i Hi) as (c & r & -> & Hc).
      digit_case c Hc; reflexivity.
    + destruct (first_digit i Hi) as (c & r & -> & Hc).
      digit_case c Hc; reflexivity.
    + destruct (first_digit i Hi) as (c & r & -> & Hc).
      digit_case c Hc; reflexivity.
  - rewrite parsePrimitive_other; try reflexivity.
    now rewrite L2, P2.
Qed.

Lemma all_digits_pad (e : nat) (n : N) :
  all_digits (pad_zeros e (decimal_of_N n)) = true.
Proof.
  unfold all_digits, pad_zeros.
  rewrite all_chars_append, all_chars_zeros, all_chars_decimal.
  destruct (decimal_of_N_first n) as (c & r & -> & _).
  now destruct (repeat_string "0" _).
Qed.

(** The digits after the point end with the last digit of the number. *)
Lemma pad_last_digit (e : nat) (n : N) :
  (n mod 10 <> 0)%N ->
  strip_zeros (pad_zeros e (decimal_of_N n)) = pad_zeros e (decimal_of_N n).
Proof.
  intros Hn. unfold pad_zeros.
  destruct (last_split (decimal_of_N n) (decimal_not_empty n)) as (x & c & E).
  rewrite E, <- append_assoc. unfold strip_zeros. apply strip_zeros_none.
  destruct (Ascii.eqb_spec "0" c) as [<-|]; [|reflexivity].
  exfalso. apply Hn.
  rewrite <- (digits_value_decimal n), E, digits_value_append.
  cbn [String.length]. change (digits_value "0") with 0%N.
  change (10 ^ N.of_nat 1)%N with 10%N.
  rewrite N.add_0_r. apply N.Div0.mod_mul.
Qed.

Lemma parsePrimitive_decimal (m : Z) (e : nat) (dict : list string) :
  e <> 0 -> (m mod 10 <> 0)%Z ->
  parsePrimitive (number_to_string (Finite m e)) dict = VNum (Finite m e).
Proof.
  intros He Hm. destruct e as [|e']; [contradiction|].
  unfold number_to_string. cbv beta iota zeta.
  set (e := S e') in *.
  set (a := Z.abs_N m). set (p := (10 ^ N.of_nat e)%N).
  assert (Hp : (p <> 0)%N) by (unfold p; apply N.pow_nonzero; lia).
  assert (Hr : (a mod p < p)%N) by (apply N.mod_lt; exact Hp).
  assert (Ha10 : ((a mod p) mod 10 <> 0)%N).
  { assert (E10 : (p = 10 * 10 ^ N.of_nat e')%N).
    { unfold p, e. now rewrite Nat2N.inj_succ, N.pow_succ_r'. }
    rewrite E10, N.Div0.mod_mul_r, N.mul_comm, N.Div0.mod_add, N.Div0.mod_mod.
    unfold a. intros H. apply Hm.
    assert (Hz : (Z.of_N (Z.abs_N m mod 10) = 0)%Z) by now rewrite H.
    rewrite N2Z.inj_mod, N2Z.inj_abs_N in Hz. change (Z.of_N 10) with 10%Z in Hz.
    destruct (Z.abs_spec m) as [[_ E]|[_ E]]; rewrite E in Hz; [exact Hz|].
    apply Z.mod_divide in Hz; [|lia]. apply Z.mod_divide; [lia|].
    destruct Hz as [k Hk]. exists (- k)%Z. lia. }
  assert (Hi : all_digits (decimal_of_N (a / p)) = true)
    by apply all_digits_decimal.
  assert (Hf : all_digits (pad_zeros e (decimal_of_N (a mod p))) = true)
    by apply all_digits_pad.
  destruct (parsePrimitive_fraction _ _ dict Hi Hf) as [P1 P2].
  assert (Hlen : String.length (pad_zeros e (decimal_of_N (a mod p))) = e).
  { apply pad_zeros_length. apply decimal_length_bound; [exact Hr|]. unfold e. lia. }
  assert (Hval : digits_value (decimal_of_N (a / p)
                               ++ pad_zeros e (decimal_of_N (a mod p))) = a).
  { rewrite digits_value_append, Hlen. unfold pad_zeros at 1.
    rewrite digits_value_zeros, !digits_value_decimal. fold p.
    rewrite (N.div_mod a p Hp) at 3. lia. }
  rewrite (pad_last_digit e _ Ha10) in P1, P2. rewrite Hlen, Hval in P1, P2.
  destruct (Z.ltb_spec m 0).
  - cbn [append]. rewrite P2. do 2 f_equal. unfold a. lia.
  - cbn [append]. rewrite P1. do 2 f_equal. unfold a. lia.
Qed.

(** ** Cells that are not runs *)

Lemma lastIndexOf_from_spec (c : ascii) (s : string) :
  forall i found j,
    lastIndexOf_from c s i found = Some j ->
    found = Some j
    \/ exists a b, s = a ++ String c b /\ j = i + String.length a.
Proof.
  induction s as [|x s IH]; intros i found j H; [now left|].
  cbn [lastIndexOf_from] in H. apply IH in H as [H|(a & b & -> & ->)].
  - destruct (Ascii.eqb_spec x c) as [->|_]; [|now left].
    right. exists "", s. inversion H; subst. split; [reflexivity|]. cbn. lia.
  - right. exists (String x a), b. split; [reflexivity|]. cbn. lia.
Qed.

Lemma all_chars_rev (p : ascii -> bool) (s : string) :
  all_chars p (rev s) = all_chars p s.
Proof.
  induction s as [|c s IH]; [reflexivity|].
  change (String c s) with (String c "" ++ s).
  rewrite rev_append, !all_chars_append, IH.
  change (rev (String c "")) with (String c ""). apply andb_comm.
Qed.

Lemma is_empty_rev (s : string) : is_empty (rev s) = is_empty s.
Proof.
  destruct s as [|c s]; [reflexivity|].
  change (String c s) with (String c "" ++ s). rewrite rev_append.
  change (rev (String c "")) with (String c "").
  now destruct (rev s).
Qed.

Lemma looks_run_length_suffix (a b : string) :
  all_digits b = true -> looks_run_length (a ++ String "*" b) = true.
Proof.
  unfold all_digits. intros H. apply andb_true_iff in H as [Hne Hd].
  unfold looks_run_length.
  rewrite rev_append.
  change (String "*" b) with (String "*" "" ++ b).
  rewrite rev_append. change (rev (String "*" "")) with (String "*" "").
  rewrite append_assoc. cbn [append].
  rewrite span_all.
  - rewrite is_empty_rev. now rewrite Hne.
  - now rewrite all_chars_rev.
  - intros c r E. inversion E. reflexivity.
Qed.

Lemma drop_append_more (a b : string) (n : nat) :
  drop (String.length a + n) (a ++ b) = drop n b.
Proof. induction a as [|x a IH]; [reflexivity | exact IH]. Qed.

(** A cell is read as one value unless a star, not the first character
    of the cell, is followed by digits up to the end. *)
Lemma parseCell_plain (cell : string) (dict : list string) :
  (forall a b, cell = a ++ String "*" b -> all_digits b = false) ->
  parseCell cell dict = {| value := parsePrimitive cell dict; repeat := 1 |}.
Proof.
  intros H. unfold parseCell.
  destruct (negb (startsWith cell QUOTE_STR)); [|reflexivity].
  destruct (lastIndexOf "*" cell) as [j|] eqn:E; [|reflexivity].
  destruct (0 <? j); [|reflexivity].
  apply lastIndexOf_from_spec in E as [E|(a & b & E & Ej)]; [discriminate|].
  cbn in Ej. subst j. rewrite E at 1.
  rewrite drop_append_more. cbn [drop]. now rewrite (H a b E).
Qed.

Lemma parseCell_quoted (s : string) (dict : list string) :
  parseCell (quoted s) dict = {| value := VStr s; repeat := 1 |}.
Proof.
  unfold parseCell. change (startsWith (quoted s) QUOTE_STR) with true.
  cbn [negb]. now rewrite parsePrimitive_quoted.
Qed.

Lemma all_chars_weaken (p q : ascii -> bool) (s : string) :
  (forall c, p c = true -> q c = true) ->
  all_chars p s = true -> all_chars q s = true.
Proof.
  intros Hpq. induction s as [|c s IH]; [reflexivity|].
  cbn. intros H. apply andb_true_iff in H as [Hc Hs].
  now rewrite (Hpq c Hc), IH.
Qed.

Lemma number_chars_decimal (n : N) :
  all_chars number_char (decimal_of_N n) = true.
Proof.
  apply (all_chars_weaken is_digit); [|apply all_chars_decimal].
  intros c H. unfold number_char. now rewrite H.
Qed.

Lemma number_to_string_chars (m : Z) (e : nat) :
  all_chars number_char (number_to_string (Finite m e)) = true.
Proof.
  unfold number_to_string. destruct e as [|e'].
  - rewrite all_chars_append, number_chars_decimal.
    now destruct (m <? 0)%Z.
  - cbv zeta. rewrite !all_chars_append, number_chars_decimal.
    unfold pad_zeros. rewrite all_chars_append, number_chars_decimal.
    rewrite (all_chars_weaken is_digit number_char _
               (fun c H => ltac:(unfold number_char; now rewrite H))
               (all_chars_zeros _)).
    now destruct (m <? 0)%Z.
Qed.

Lemma parseCell_number (m : Z) (e : nat) (dict : list string) :
  parseCell (number_to_string (Finite m e)) dict
  = {| value := parsePrimitive (number_to_string (Finite m e)) dict;
       repeat := 1 |}.
Proof.
  apply parseCell_plain. intros a b E.
  assert (H := number_to_string_chars m e). rewrite E in H.
  rewrite all_chars_append in H. cbn in H.
  rewrite andb_false_r in H. discriminate.
Qed.

Lemma parseCell_unquoted (s : string) (dict : list string) :
  needsQuoting s = false -> is_empty s = false ->
  parseCell s dict = {| value := parsePrimitive s dict; repeat := 1 |}.
Proof.
  intros Hq Hne. apply parseCell_plain. intros a b E.
  destruct (needsQuoting_false s Hq) as [->|H]; [discriminate|].
  destruct H as (_ & _ & _ & _ & _ & _ & Hrun).
  destruct (all_digits b) eqn:Hb; [|reflexivity].
  rewrite E, looks_run_length_suffix in Hrun by exact Hb. discriminate.
Qed.

Lemma plainly_written_reads_back (n : number) (dict : list string) :
  plainly_written n = true ->
  parsePrimitive (number_to_string n) dict = VNum n.
Proof.
  destruct n as [| |m e]; try discriminate. cbn [plainly_written].
  intros H. apply andb_true_iff in H as [_ H].
  apply orb_true_iff in H as [H|H].
  - apply Nat.eqb_eq in H. subst e. apply parsePrimitive_integer.
  - apply andb_true_iff in H as [H _].
    destruct e as [|e']; [apply parsePrimitive_integer|].
    apply parsePrimitive_decimal; [discriminate|].
    apply negb_true_iff, Z.eqb_neq in H. exact H.
Qed.

(** ** Quoting and reading back *)

(** X1: [unquoteString] undoes [quoteString] on every string that
    [quoteString] quotes, and on every string that does not start with a
    quote. *)
Theorem quoteString_round_trip (s : string) :
  needsQuoting s = true \/ startsWith s QUOTE_STR = false ->
  unquoteString (quoteString s) = s.
Proof.
  intros H. destruct (needsQuoting s) eqn:Hq.
  - rewrite quoteString_quoted by exact Hq. apply unquoteString_quoted.
  - rewrite quoteString_plain by exact Hq.
    destruct H as [H|H]; [discriminate|].
    unfold unquoteString. now rewrite H.
Qed.

Lemma quoteString_round_trip_witness :
  needsQuoting "a|\b" = true
  /\ unquoteString (quoteString "a|\b") = "a|\b".
Proof.
  split; [reflexivity|].
  apply (quoteString_round_trip "a|\b"). left. reflexivity.
Defined.

(** X2: a primitive written by [encodePrimitive] without the dictionary
    is read back by [parsePrimitive], whatever the entries of the
    dictionary, and [parseCell] reads it as one value, never as a run:
    for null, the booleans, the numbers written without an exponent and
    the strings that either need quotes or do not look quoted. *)
Theorem primitive_round_trip (v : GoonValue) (dict : Dictionary)
    (entries : list string) :
  reads_back v = true ->
  parsePrimitive (encodePrimitive v dict false) entries = v
  /\ parseCell (encodePrimitive v dict false) entries
     = {| value := v; repeat := 1 |}.
Proof.
  destruct v as [|[|]|n|s| |]; try discriminate; intros H;
    try (split; reflexivity).
  - cbn [reads_back] in H.
    assert (Hp := plainly_written_reads_back n entries H).
    destruct n as [| |m e]; try discriminate.
    cbn [encodePrimitive isFinite negb].
    split; [exact Hp|]. now rewrite parseCell_number, Hp.
  - cbn [reads_back] in H. cbn [encodePrimitive].
    destruct (String.eqb_spec s "") as [->|Hne]; [split; reflexivity|].
    assert (Hne' : is_empty s = false) by now destruct s.
    destruct (needsQuoting s) eqn:Hq.
    + rewrite quoteString_quoted by exact Hq.
      split; [apply parsePrimitive_quoted | apply parseCell_quoted].
    + cbn [orb] in H. apply negb_true_iff in H.
      rewrite quoteString_plain by exact Hq.
      assert (Hp := parsePrimitive_unquoted s entries Hq Hne' H).
      split; [exact Hp|]. now rewrite parseCell_unquoted, Hp.
Qed.

Lemma primitive_round_trip_witness :
  reads_back (VStr "007") = true
  /\ parsePrimitive
       (encodePrimitive (VStr "007") {| entries := []; lookup := [] |} false)
       ["x"]
     = VStr "007".
Proof.
  split; [reflexivity|].
  apply (primitive_round_trip (VStr "007") {| entries := []; lookup := [] |}
                              ["x"]).
  reflexivity.
Defined.

(** ** Sorting rearranges *)

Lemma insert_sorted_perm {A} (leb : A -> A -> bool) (x : A) (l : list A) :
  Permutation (insert_sorted leb x l) (x :: l).
Proof.
  induction l as [|y l IH]; [reflexivity|].
  cbn [insert_sorted]. destruct (leb x y); [reflexivity|].
  rewrite IH. apply perm_swap.
Qed.

Lemma sort_by_perm {A} (leb : A -> A -> bool) (l : list A) :
  Permutation (sort_by leb l) l.
Proof.
  induction l as [|x l IH]; [reflexivity|].
  rewrite sort_by_cons, insert_sorted_perm. now constructor.
Qed.

(** ** References of the dictionary *)

Lemma map_from_app {A B} (f : A -> nat -> B) (l : list A) (x : A) :
  forall i, map_from f i (l ++ [x])%list
            = (map_from f i l ++ [f x (i + length l)])%list.
Proof.
  induction l as [|a l IH]; intros i; cbn.
  - now rewrite Nat.add_0_r.
  - rewrite IH. now replace (S i + length l) with (i + S (length l)) by lia.
Qed.

Lemma map_map_from {A B C} (g : B -> C) (f : A -> nat -> B) (l : list A) :
  forall i, map g (map_from f i l) = map_from (fun a j => g (f a j)) i l.
Proof. induction l as [|a l IH]; intros i; cbn; [|rewrite IH]; reflexivity. Qed.

Lemma map_from_const {A B} (g : A -> B) (l : list A) :
  forall i, map_from (fun a _ => g a) i l = map g l.
Proof. induction l as [|a l IH]; intros i; cbn; [|rewrite IH]; reflexivity. Qed.

Lemma nodup_map_filter {A B} (g : A -> B) (p : A -> bool) (l : list A) :
  NoDup (map g l) -> NoDup (map g (filter p l)).
Proof.
  induction l as [|a l IH]; intros H; [constructor|].
  cbn [map] in H. inversion H as [|? ? Hnotin Hnd]; subst.
  cbn [filter]. destruct (p a); [|now apply IH].
  cbn [map]. constructor; [|now apply IH].
  intros Hin. apply Hnotin. apply in_map_iff in Hin as (b & Hb & Hin).
  apply filter_In in Hin as [Hin _]. apply in_map_iff. now exists b.
Qed.

Lemma candidate_strings (l : list (string * Z)) :
  forall i, map str (map_from make_candidate i l) = map fst l.
Proof. induction l as [|a l IH]; intros i; cbn; [|rewrite IH]; reflexivity. Qed.

Lemma candidates_distinct (counts : list (string * Z)) (minOccurrences : Z) :
  NoDup (map fst counts) ->
  NoDup (map str (candidates_of counts minOccurrences)).
Proof.
  intros Hnd. unfold candidates_of.
  eapply Permutation_NoDup.
  { apply Permutation_map. symmetry. apply sort_by_perm. }
  apply nodup_map_filter. unfold map_i.
  rewrite candidate_strings. now apply nodup_map_filter.
Qed.

Lemma select_aligned (counts : list (string * Z)) (maxEntries : Z)
    (cands : list Candidate) :
  forall d, aligned d -> aligned (select counts maxEntries cands d).
Proof.
  induction cands as [|c cands IH]; intros d Hd; cbn [select]; [exact Hd|].
  destruct (_ && _); [exact Hd|].
  destruct (_ >? 0)%Z; [|now apply IH].
  apply IH. unfold aligned, map_i in *. cbn [lookup entries].
  rewrite map_from_app, Hd. reflexivity.
Qed.

Lemma select_subset (counts : list (string * Z)) (maxEntries : Z)
    (cands : list Candidate) :
  forall d s, In s (entries (select counts maxEntries cands d)) ->
              In s (entries d) \/ In s (map str cands).
Proof.
  induction cands as [|c cands IH]; intros d s H; cbn [select] in H;
    [now left|].
  destruct (_ && _); [now left|].
  destruct (_ >? 0)%Z.
  - apply IH in H as [H|H]; [|right; now right].
    cbn [entries] in H. apply in_app_or in H as [H|[<-|[]]];
      [now left | right; now left].
  - apply IH in H as [H|H]; [now left | right; now right].
Qed.

Lemma select_distinct (counts : list (string * Z)) (maxEntries : Z)
    (cands : list Candidate) :
  forall d,
    NoDup (entries d ++ map str cands) ->
    NoDup (entries (select counts maxEntries cands d)).
Proof.
  induction cands as [|c cands IH]; intros d H; cbn [select].
  - cbn in H. now rewrite app_nil_r in H.
  - cbn [map] in H.
    assert (Hd : NoDup (entries d)) by now apply NoDup_app_remove_r in H.
    destruct (_ && _); [exact Hd|].
    destruct (_ >? 0)%Z.
    + apply IH. cbn [entries]. now rewrite <- app_assoc.
    + apply IH. apply NoDup_remove_1 in H. exact H.
Qed.

Lemma assoc_map_from {B} (f : nat -> B) (l : list string) (s : string) :
  forall i j,
    NoDup l -> nth_error l j = Some s ->
    assoc s (map_from (fun x k => (x, f k)) i l) = Some (f (i + j)).
Proof.
  induction l as [|x l IH]; intros i j Hnd Hj; [now destruct j|].
  inversion Hnd as [|? ? Hnotin Hnd']; subst.
  cbn [map_from assoc]. destruct j as [|j].
  - inversion Hj; subst. rewrite String.eqb_refl. now rewrite Nat.add_0_r.
  - cbn [nth_error] in Hj. destruct (String.eqb_spec x s) as [->|_].
    + exfalso. apply Hnotin. eapply nth_error_In. exact Hj.
    + rewrite (IH (S i) j Hnd' Hj). f_equal. f_equal. lia.
Qed.

Lemma counts_get_nonneg (minLength : Z) (counts : list (string * Z))
    (s : string) :
  counts_ok minLength counts -> (0 <= counts_get counts s)%Z.
Proof.
  intros [_ Hall]. unfold counts_get.
  induction Hall as [|[k n] counts [Hn _] _ IH]; cbn [assoc]; [lia|].
  cbn [snd] in Hn. destruct (String.eqb k s); [lia | exact IH].
Qed.

Lemma parsePrimitive_reference (entries : list string) (i : nat)
    (s : string) :
  nth_error entries i = Some s ->
  parsePrimitive ("$" ++ decimal_of_N (N.of_nat i)) entries = VStr s.
Proof.
  intros H. unfold parsePrimitive. cbn [append].
  change (String.eqb (String "$" ?x) "_") with false.
  destruct (decimal_of_N_first (N.of_nat i)) as (c & r & E & Hc).
  assert (Hd := all_digits_decimal (N.of_nat i)).
  assert (Hv := digits_value_decimal (N.of_nat i)).
  rewrite E in *.
  cbn [String.eqb Ascii.eqb Bool.eqb startsWith andb String.length drop
       Nat.ltb Nat.leb].
  rewrite Hd, Hv, Nat2N.id, H. reflexivity.
Qed.

Lemma buildDictionary_aligned (value : GoonValue)
    (minLength minOccurrences maxEntries : Z) :
  aligned (buildDictionary value minLength minOccurrences maxEntries).
Proof. unfold buildDictionary. apply select_aligned. reflexivity. Qed.

Lemma scan_counts_ok (minLength : Z) (value : GoonValue) :
  counts_ok minLength (scan minLength 0 value []).
Proof.
  destruct (scan_meets_spec minLength value 0%Z []) as [H _];
    [split; constructor | exact H].
Qed.

Lemma buildDictionary_distinct (value : GoonValue)
    (minLength minOccurrences maxEntries : Z) :
  NoDup (entries (buildDictionary value minLength minOccurrences maxEntries)).
Proof.
  unfold buildDictionary. apply select_distinct. cbn [entries app].
  apply candidates_distinct. apply (scan_counts_ok minLength value).
Qed.

Lemma buildDictionary_entry_not_empty (value : GoonValue)
    (minLength minOccurrences maxEntries : Z) (s : string) :
  In s (entries (buildDictionary value minLength minOccurrences maxEntries)) ->
  is_empty s = false.
Proof.
  unfold buildDictionary. intros H.
  apply select_subset in H as [[]|H].
  apply in_map_iff in H as (c & <- & Hc).
  unfold candidates_of in Hc. apply sort_by_in in Hc.
  assert (Hok := scan_counts_ok minLength value).
  destruct (candidate_facts minLength minOccurrences _ c Hok Hc)
    as (_ & Hcount & _ & _ & Hcost).
  assert (Hn := counts_get_nonneg minLength _ (str c) Hok).
  rewrite Hcount in Hn.
  unfold reference_cost, verbatim_cost, strlen in Hcost.
  remember (str c) as t eqn:Et. clear Et.
  destruct t; [|reflexivity].
  change (Z.of_nat (String.length "")) with 0%Z in Hcost. lia.
Qed.

(** X3: every entry of the dictionary built for a value is written as
    the reference [$i] of its position [i], and that reference is read
    back, by [parsePrimitive] and by [parseCell] against the entries, as
    the entry. *)
Theorem dictionary_references_resolve
    (value : GoonValue) (minLength minOccurrences maxEntries : Z)
    (i : nat) (s : string) :
  let d := buildDictionary value minLength minOccurrences maxEntries in
  nth_error (entries d) i = Some s ->
  encodePrimitive (VStr s) d true = "$" ++ decimal_of_N (N.of_nat i)
  /\ parsePrimitive (encodePrimitive (VStr s) d true) (entries d) = VStr s
  /\ parseCell (encodePrimitive (VStr s) d true) (entries d)
     = {| value := VStr s; repeat := 1 |}.
Proof.
  intros d Hi.
  assert (Hal : aligned d) by apply buildDictionary_aligned.
  assert (Hnd : NoDup (entries d)) by apply buildDictionary_distinct.
  assert (Hne : is_empty s = false).
  { eapply buildDictionary_entry_not_empty. eapply nth_error_In. exact Hi. }
  assert (Henc : encodePrimitive (VStr s) d true
                 = "$" ++ decimal_of_N (N.of_nat i)).
  { cbn [encodePrimitive].
    destruct (String.eqb_spec s "") as [->|_]; [discriminate|].
    rewrite Hal. unfold map_i.
    rewrite (assoc_map_from (fun k => "$" ++ decimal_of_N (N.of_nat k))
               _ s 0 i Hnd Hi).
    reflexivity. }
  assert (Hp := parsePrimitive_reference (entries d) i s Hi).
  rewrite Henc. split; [reflexivity|]. split; [exact Hp|].
  rewrite parseCell_plain; [now rewrite Hp|].
  intros a b E. exfalso.
  assert (H : all_chars (fun c => is_digit c || Ascii.eqb c "$")
                        ("$" ++ decimal_of_N (N.of_nat i)) = true).
  { cbn [append all_chars]. cbn [orb andb Ascii.eqb].
    apply (all_chars_weaken is_digit); [|apply all_chars_decimal].
    intros c H. now rewrite H. }
  rewrite E, all_chars_append in H. cbn in H.
  rewrite andb_false_r in H. discriminate.
Qed.

Lemma dictionary_references_resolve_witness :
  nth_error (entries (buildDictionary tie_value 3 2 5)) 1 = Some "aaaaaaaaaa"
  /\ encodePrimitive (VStr "aaaaaaaaaa") (buildDictionary tie_value 3 2 5) true
     = "$1"
  /\ parsePrimitive
       (encodePrimitive (VStr "aaaaaaaaaa") (buildDictionary tie_value 3 2 5)
                        true)
       (entries (buildDictionary tie_value 3 2 5))
     = VStr "aaaaaaaaaa".
Proof.
  split; [reflexivity|].
  destruct (dictionary_references_resolve tie_value 3 2 5 1 "aaaaaaaaaa")
    as (H1 & H2 & _); [reflexivity|].
  split; [exact H1 | exact H2].
Defined.

(** ** Rows *)

Lemma drop_while_head (p : ascii -> bool) (s : string) :
  (forall c r, s = String c r -> p c = false) -> drop_while p s = s.
Proof.
  destruct s as [|c r]; intros H; [reflexivity|].
  cbn. now rewrite (H c r eq_refl).
Qed.

Lemma trim_clean (s : string) :
  (forall c r, s = String c r -> is_space c = false) ->
  (forall c r, rev s = String c r -> is_space c = false) ->
  trim s = s.
Proof.
  intros Hfirst Hlast. unfold trim, trim_start, trim_end.
  rewrite (drop_while_head _ s Hfirst), (drop_while_head _ (rev s) Hlast).
  apply rev_involutive.
Qed.

Lemma any_char_append (p : ascii -> bool) (a b : string) :
  any_char p (a ++ b) = any_char p a || any_char p b.
Proof.
  induction a as [|c a IH]; [reflexivity|].
  cbn. now rewrite IH, orb_assoc.
Qed.

Lemma any_char_rev (p : ascii -> bool) (s : string) :
  any_char p (rev s) = any_char p s.
Proof.
  induction s as [|c s IH]; [reflexivity|].
  change (String c s) with (String c "" ++ s).
  rewrite rev_append, !any_char_append, IH.
  change (rev (String c "")) with (String c ""). apply orb_comm.
Qed.

Lemma trim_no_space (s : string) : any_char is_space s = false -> trim s = s.
Proof.
  intros H. apply trim_clean.
  - intros c r ->. cbn in H. now apply orb_false_iff in H as [H _].
  - intros c r E. rewrite <- any_char_rev, E in H. cbn in H.
    now apply orb_false_iff in H as [H _].
Qed.

Lemma rev_quoted (s : string) :
  rev (quoted s) = String QUOTE (rev (escape s) ++ QUOTE_STR).
Proof.
  unfold quoted.
  change (String QUOTE (escape s ++ QUOTE_STR))
    with (QUOTE_STR ++ (escape s ++ QUOTE_STR)).
  now rewrite !rev_append.
Qed.

Lemma trim_quoted (s : string) : trim (quoted s) = quoted s.
Proof.
  apply trim_clean.
  - intros c r E. inversion E. reflexivity.
  - intros c r E. rewrite rev_quoted in E. inversion E. reflexivity.
Qed.

Lemma push_char_append (current : string) (c : ascii) (rest : string) :
  push_char current c ++ rest = current ++ String c rest.
Proof. unfold push_char. now rewrite append_assoc. Qed.

(** The scanner of [parseRow] goes over a text without a quote or a
    delimiter, and over an escaped text inside quotes, adding it to the
    current cell. *)
Lemma parseRow_from_bare (d : Delimiter) (dict : list string)
    (text rest current : string) (cells : list GoonValue) :
  any_char (fun c => Ascii.eqb c (delimiter_char d) || Ascii.eqb c QUOTE)
           text = false ->
  parseRow_from (text ++ rest) dict d current false false cells
  = parseRow_from rest dict d (current ++ text) false false cells.
Proof.
  revert current. induction text as [|c text IH]; intros current H.
  - now rewrite append_empty_r.
  - cbn [any_char] in H. apply orb_false_iff in H as [Hc Ht].
    apply orb_false_iff in Hc as [Hd Hq].
    cbn [append parseRow_from]. rewrite Hd, Hq, andb_false_r. cbn [andb].
    rewrite (IH _ Ht). now rewrite push_char_append.
Qed.

Lemma parseRow_from_escaped (d : Delimiter) (dict : list string)
    (s rest current : string) (cells : list GoonValue) :
  parseRow_from (escape s ++ rest) dict d current true false cells
  = parseRow_from rest dict d (current ++ escape s) true false cells.
Proof.
  revert current. induction s as [|c s IH]; intros current.
  - now rewrite append_empty_r.
  - cbn [escape]. rewrite !append_assoc. unfold escape_char.
    destruct (Ascii.eqb_spec c BACKSLASH) as [->|Hb];
      [|destruct (Ascii.eqb_spec c QUOTE) as [->|Hq];
        [|destruct (Ascii.eqb_spec c LF) as [->|Hl];
          [|destruct (Ascii.eqb_spec c CR) as [->|Hc];
            [|destruct (Ascii.eqb_spec c TAB) as [->|Ht]]]]].
    1-5: (cbn [append parseRow_from]; rewrite Ascii.eqb_refl; cbn [andb];
          rewrite IH; unfold push_char; now rewrite !append_assoc).
    cbn [append parseRow_from].
    apply Ascii.eqb_neq in Hb, Hq. rewrite Hb, Hq, andb_false_r. cbn [andb].
    rewrite IH. now rewrite push_char_append.
Qed.

Lemma parseRow_from_cell (d : Delimiter) (dict : list string)
    (text rest : string) (cells : list GoonValue) :
  cell_text d text ->
  parseRow_from (text ++ rest) dict d "" false false cells
  = parseRow_from rest dict d text false false cells.
Proof.
  intros [[s ->]|H].
  - unfold quoted. cbn [append parseRow_from]. rewrite Ascii.eqb_refl.
    change (Ascii.eqb QUOTE BACKSLASH) with false. cbn [andb negb].
    rewrite append_assoc, parseRow_from_escaped.
    cbn [append QUOTE_STR parseRow_from]. rewrite Ascii.eqb_refl.
    change (Ascii.eqb QUOTE BACKSLASH) with false. cbn [andb negb].
    unfold push_char. cbn [append]. reflexivity.
  - now rewrite parseRow_from_bare.
Qed.

(** A row of cells that are each read as one value. *)
Lemma parseRow_from_cells (d : Delimiter) (dict : list string)
    (texts : list string) (values cells : list GoonValue) :
  Forall2 (fun text v =>
             cell_text d text /\ trim text = text /\ is_empty text = false
             /\ parseCell text dict = {| value := v; repeat := 1 |})
          texts values ->
  parseRow_from (join (delimiter_string d) texts) dict d "" false false cells
  = (cells ++ values)%list.
Proof.
  intros H. revert cells.
  induction H as [|text v texts values (Hcell & Htrim & Hne & Hparse) Hrest IH];
    intros cells.
  - cbn. now rewrite app_nil_r.
  - unfold join in *. cbn [String.concat].
    destruct texts as [|text' texts].
    + inversion Hrest; subst.
      rewrite <- (append_empty_r text) at 1.
      rewrite parseRow_from_cell by exact Hcell.
      cbn [parseRow_from]. rewrite Htrim, Hne. cbn [negb].
      rewrite Hparse. reflexivity.
    + rewrite parseRow_from_cell by exact Hcell.
      unfold delimiter_string at 1. cbn [append parseRow_from].
      assert (Hd : Ascii.eqb (delimiter_char d) BACKSLASH = false)
        by now destruct d.
      assert (Hq : Ascii.eqb (delimiter_char d) QUOTE = false)
        by now destruct d.
      rewrite Hd, Hq, Ascii.eqb_refl. cbn [andb negb].
      rewrite Htrim, Hparse, IH. unfold push_cell. cbn [value repeat].
      change (Z.to_nat 1) with 1. cbn [List.repeat].
      now rewrite <- app_assoc.
Qed.

Lemma any_char_none (p q : ascii -> bool) (s : string) :
  (forall c, p c = true -> q c = false) ->
  all_chars p s = true -> any_char q s = false.
Proof.
  intros Hpq. induction s as [|c s IH]; [reflexivity|].
  cbn. intros H. apply andb_true_iff in H as [Hc Hs].
  now rewrite (Hpq c Hc), IH.
Qed.

Lemma number_char_cases (c : ascii) :
  number_char c = true ->
  is_digit c = true \/ c = "-"%char \/ c = "."%char.
Proof.
  unfold number_char. intros H.
  apply orb_true_iff in H as [H|H]; [apply orb_true_iff in H as [H|H]|].
  - now left.
  - right. left. now apply Ascii.eqb_eq.
  - right. right. now apply Ascii.eqb_eq.
Qed.

Lemma number_char_plain (d : Delimiter) (c : ascii) :
  number_char c = true ->
  Ascii.eqb c (delimiter_char d) || Ascii.eqb c QUOTE = false.
Proof.
  intros H. destruct (number_char_cases c H) as [Hc|[->| ->]].
  - digit_case c Hc; now destruct d.
  - now destruct d.
  - now destruct d.
Qed.

Lemma number_char_not_space (c : ascii) :
  number_char c = true -> is_space c = false.
Proof.
  intros H. destruct (number_char_cases c H) as [Hc|[->| ->]];
    [digit_case c Hc| |]; reflexivity.
Qed.

Lemma number_to_string_not_empty (m : Z) (e : nat) :
  is_empty (number_to_string (Finite m e)) = false.
Proof.
  unfold number_to_string. destruct e as [|e']; cbv zeta;
    match goal with
    | |- context [decimal_of_N ?n ++ _] =>
        destruct (decimal_of_N_first n) as (c & r & -> & _)
    | |- context [decimal_of_N ?n] =>
        destruct (decimal_of_N_first n) as (c & r & -> & _)
    end; now destruct (m <? 0)%Z.
Qed.

Lemma bare_not_quoted (d : Delimiter) (s : string) :
  any_char (fun c => Ascii.eqb c (delimiter_char d) || Ascii.eqb c QUOTE) s
  = false ->
  looks_quoted s = false.
Proof.
  intros H. unfold looks_quoted. destruct s as [|c s]; [reflexivity|].
  cbn [any_char] in H. apply orb_false_iff in H as [H _].
  apply orb_false_iff in H as [_ H]. cbn [startsWith QUOTE_STR].
  now rewrite H.
Qed.

(** What [encodePrimitive] writes for a value that fits in a cell. *)
Lemma fits_cell_text (d : Delimiter) (dict : Dictionary)
    (entries : list string) (v : GoonValue) :
  fits_cell d v = true ->
  let text := encodePrimitive v dict false in
  cell_text d text /\ trim text = text /\ is_empty text = false
  /\ parseCell text entries = {| value := v; repeat := 1 |}.
Proof.
  destruct v as [|[|]|n|s| |]; try discriminate; intros H; cbv zeta.
  1-3: (cbn [encodePrimitive]; split; [right; now destruct d|];
        repeat split; reflexivity).
  - cbn [fits_cell reads_back] in H.
    assert (Hp := plainly_written_reads_back n entries H).
    destruct n as [| |m e]; try discriminate.
    cbn [encodePrimitive isFinite negb].
    assert (Hchars := number_to_string_chars m e).
    split; [right; apply (any_char_none number_char);
            [apply number_char_plain | exact Hchars]|].
    split; [apply trim_no_space, (any_char_none number_char);
            [apply number_char_not_space | exact Hchars]|].
    split; [apply number_to_string_not_empty|].
    now rewrite parseCell_number, Hp.
  - cbn [fits_cell] in H. cbn [encodePrimitive].
    destruct (String.eqb_spec s "") as [->|Hne].
    { split; [right; now destruct d|]. repeat split; reflexivity. }
    assert (Hne' : is_empty s = false) by now destruct s.
    destruct (needsQuoting s) eqn:Hq.
    + rewrite quoteString_quoted by exact Hq.
      split; [left; now exists s|]. split; [apply trim_quoted|].
      split; [reflexivity | apply parseCell_quoted].
    + cbn [orb] in H. unfold bare_text in H.
      apply andb_true_iff in H as [Hbare Htrim].
      apply negb_true_iff in Hbare. apply String.eqb_eq in Htrim.
      rewrite quoteString_plain by exact Hq.
      split; [right; exact Hbare|]. split; [exact Htrim|].
      split; [exact Hne'|].
      rewrite parseCell_unquoted by assumption.
      rewrite parsePrimitive_unquoted; try assumption; [reflexivity|].
      apply (bare_not_quoted d s Hbare).
Qed.

Lemma fits_cell_texts (d : Delimiter) (dict : Dictionary)
    (entries : list string) (values : list GoonValue) :
  forallb (fits_cell d) values = true ->
  Forall2 (fun text v =>
             cell_text d text /\ trim text = text /\ is_empty text = false
             /\ parseCell text entries = {| value := v; repeat := 1 |})
          (map (fun v => encodePrimitive v dict false) values) values.
Proof.
  induction values as [|v values IH]; intros H; [constructor|].
  cbn [forallb] in H. apply andb_true_iff in H as [Hv Hrest].
  cbn [map]. constructor; [|now apply IH].
  apply (fits_cell_text d dict entries v Hv).
Qed.

(** X4: a line of cells written by [encodePrimitive] and joined by the
    delimiter is split by [parseRow] into the values it was written
    from, when each value fits in a cell: a primitive that reads back,
    and, when it is a string written without quotes, one without the
    delimiter or a quote in it and without white space around it. *)
Theorem row_round_trip (d : Delimiter) (dict : Dictionary)
    (entries : list string) (values : list GoonValue) :
  forallb (fits_cell d) values = true ->
  parseRow (join (delimiter_string d)
                 (map (fun v => encodePrimitive v dict false) values))
           entries d
  = values.
Proof.
  intros H. unfold parseRow.
  now rewrite (parseRow_from_cells d entries _ values []
                 (fits_cell_texts d dict entries values H)).
Qed.

Lemma row_round_trip_witness :
  forallb (fits_cell Comma)
          [VStr "a|b"; VNull; VNum (Finite (-125) 2); VStr "x y"; VBool true]
  = true
  /\ parseRow
       (join ","
          (map (fun v => encodePrimitive v {| entries := []; lookup := [] |}
                                         false)
               [VStr "a|b"; VNull; VNum (Finite (-125) 2); VStr "x y";
                VBool true]))
       [] Comma
     = [VStr "a|b"; VNull; VNum (Finite (-125) 2); VStr "x y"; VBool true].
Proof.
  split; [reflexivity|].
  apply (row_round_trip Comma {| entries := []; lookup := [] |} []
           [VStr "a|b"; VNull; VNum (Finite (-125) 2); VStr "x y";
            VBool true]).
  reflexivity.
Defined.

(** ** The length of a row *)

Lemma push_cell_length (cells : list GoonValue) (cell : string)
    (dict : list string) :
  (Z.of_nat (length (push_cell cells (parseCell cell dict)))
   <= Z.of_nat (length cells) + MAX_REPEAT_COUNT)%Z.
Proof.
  unfold push_cell. rewrite length_app, repeat_length.
  assert (H := parseCell_repeat_bounds cell dict). lia.
Qed.

Lemma parseRow_from_length (d : Delimiter) (dict : list string) (s : string) :
  forall current inQuote escaped cells,
    (Z.of_nat (length (parseRow_from s dict d current inQuote escaped cells))
     <= Z.of_nat (length cells)
        + MAX_REPEAT_COUNT
          * (Z.of_nat (count_char (delimiter_char d) s) + 1))%Z.
Proof.
  assert (Hmax : (0 < MAX_REPEAT_COUNT)%Z) by reflexivity.
  induction s as [|c s IH]; intros current inQuote escaped cells.
  - cbn [parseRow_from count_char].
    destruct (negb (is_empty (trim current))).
    + assert (H := push_cell_length cells (trim current) dict). lia.
    + lia.
  - cbn [parseRow_from count_char].
    destruct escaped; [|destruct (Ascii.eqb c BACKSLASH && inQuote);
                         [|destruct (Ascii.eqb c QUOTE)]].
    1-3: (etransitivity; [apply IH|];
          destruct (Ascii.eqb c (delimiter_char d)); lia).
    destruct (Ascii.eqb c (delimiter_char d)) eqn:Hd; cbn [andb].
    + destruct (negb inQuote).
      * etransitivity; [apply IH|].
        assert (H := push_cell_length cells (trim current) dict). lia.
      * etransitivity; [apply IH|]. lia.
    + etransitivity; [apply IH|]. lia.
Qed.

(** X5: [parseRow] returns at most [MAX_REPEAT_COUNT] values for each
    cell of the line, whatever repeat counts the line carries: at most
    10,000 times the number of delimiters plus one. *)
Theorem parseRow_length_bound (rowStr : string) (dict : list string)
    (d : Delimiter) :
  (Z.of_nat (length (parseRow rowStr dict d))
   <= MAX_REPEAT_COUNT
      * (Z.of_nat (count_char (delimiter_char d) rowStr) + 1))%Z.
Proof.
  unfold parseRow.
  assert (H := parseRow_from_length d dict rowStr "" false false []).
  cbn [length] in H. lia.
Qed.

(** ** Headers *)

Lemma is_separator_cases (c : ascii) :
  is_separator c = false ->
  Ascii.eqb c "," = false /\ Ascii.eqb c "|" = false
  /\ Ascii.eqb c TAB = false /\ Ascii.eqb c QUOTE = false.
Proof.
  unfold is_separator. intros H.
  apply orb_false_iff in H as [H H4]. apply orb_false_iff in H as [H H3].
  apply orb_false_iff in H as [H1 H2]. tauto.
Qed.

Lemma count_delimiters_clean (f rest : string) (commas pipes tabs : nat) :
  any_char is_separator f = false ->
  count_delimiters (f ++ rest) false commas pipes tabs
  = count_delimiters rest false commas pipes tabs.
Proof.
  induction f as [|c f IH]; intros H; [reflexivity|].
  cbn [any_char] in H. apply orb_false_iff in H as [Hc Hf].
  destruct (is_separator_cases c Hc) as (H1 & H2 & H3 & H4).
  cbn [append count_delimiters]. rewrite H4. cbn [negb].
  rewrite H1, H2, H3. now apply IH.
Qed.

Lemma count_delimiters_join (d : Delimiter) (fields : list string) :
  Forall (fun f => any_char is_separator f = false) fields ->
  forall commas pipes tabs,
    count_delimiters (join (delimiter_string d) fields) false
                     commas pipes tabs
    = bump_count d (length fields - 1) (commas, pipes, tabs).
Proof.
  induction 1 as [|f fields Hf Hrest IH]; intros commas pipes tabs.
  - cbn. destruct d; cbn; now rewrite Nat.add_0_r.
  - unfold join in *. cbn [String.concat].
    destruct fields as [|f' fields].
    + rewrite <- (append_empty_r f), count_delimiters_clean by exact Hf.
      cbn. destruct d; cbn; now rewrite Nat.add_0_r.
    + rewrite count_delimiters_clean by exact Hf.
      unfold delimiter_string at 1. cbn [append count_delimiters].
      destruct d; cbn [delimiter_char].
      all: change (Ascii.eqb "," QUOTE) with false;
        change (Ascii.eqb "|" QUOTE) with false;
        change (Ascii.eqb TAB QUOTE) with false; cbn [negb];
        rewrite ?Ascii.eqb_refl;
        change (Ascii.eqb "," "|") with false;
        change (Ascii.eqb "," TAB) with false;
        change (Ascii.eqb "|" ",") with false;
        change (Ascii.eqb "|" TAB) with false;
        change (Ascii.eqb TAB ",") with false;
        change (Ascii.eqb TAB "|") with false;
        rewrite IH; cbn [bump_count length Nat.sub]; rewrite Nat.sub_0_r.
      all: repeat match goal with
                  | |- (_, _) = (_, _) => apply f_equal2
                  end; lia.
Qed.

Lemma split_go_field (c : ascii) (f rest cur : string) :
  any_char (fun x => Ascii.eqb x c) f = false ->
  split_go c (f ++ rest) cur = split_go c rest (rev_onto f cur).
Proof.
  revert cur. induction f as [|x f IH]; intros cur H; [reflexivity|].
  cbn [any_char] in H. apply orb_false_iff in H as [Hx Hf].
  cbn [append split_go rev_onto]. rewrite Hx. now apply IH.
Qed.

Lemma split_join (c : ascii) (fields : list string) :
  fields <> [] ->
  Forall (fun f => any_char (fun x => Ascii.eqb x c) f = false) fields ->
  split c (join (String c "") fields) = fields.
Proof.
  intros Hne H. unfold split.
  induction H as [|f fields Hf Hrest IH]; [contradiction|].
  unfold join in *. cbn [String.concat].
  destruct fields as [|f' fields].
  - rewrite <- (append_empty_r f) at 1. rewrite split_go_field by exact Hf.
    cbn [split_go]. fold (rev f). now rewrite rev_involutive.
  - rewrite split_go_field by exact Hf.
    cbn [append split_go]. rewrite Ascii.eqb_refl.
    fold (rev f). rewrite rev_involutive. f_equal. apply IH. discriminate.
Qed.

Lemma separator_covers (d : Delimiter) (f : string) :
  any_char is_separator f = false ->
  any_char (fun x => Ascii.eqb x (delimiter_char d)) f = false.
Proof.
  induction f as [|c f IH]; [reflexivity|].
  cbn [any_char]. intros H. apply orb_false_iff in H as [Hc Hf].
  destruct (is_separator_cases c Hc) as (H1 & H2 & H3 & _).
  rewrite (IH Hf). now destruct d; cbn [delimiter_char]; rewrite ?H1, ?H2, ?H3.
Qed.

(** X6: the delimiter of a table is found again in its header: for
    field names without a comma, a pipe, a tab or a quote, joined by the
    delimiter, [detectDelimiter] answers the delimiter (when there are
    two fields or more, or the delimiter is the comma, which is also the
    answer when no delimiter is seen), and splitting the header at it
    gives the field names. *)
Theorem header_round_trip (d : Delimiter) (fields : list string) :
  forallb (fun f => negb (any_char is_separator f)) fields = true ->
  match d with Comma => 1 | _ => 2 end <= length fields ->
  detectDelimiter (join (delimiter_string d) fields) = d
  /\ split (delimiter_char (detectDelimiter (join (delimiter_string d) fields)))
           (join (delimiter_string d) fields)
     = fields.
Proof.
  intros Hclean Hlen.
  assert (Hall : Forall (fun f => any_char is_separator f = false) fields).
  { apply Forall_forall. intros f Hf.
    rewrite forallb_forall in Hclean. now apply negb_true_iff, Hclean. }
  assert (Hd : detectDelimiter (join (delimiter_string d) fields) = d).
  { unfold detectDelimiter. rewrite (count_delimiters_join d fields Hall).
    destruct d; cbn [bump_count Nat.add]; try reflexivity.
    - replace (0 <? 0) with false by reflexivity. cbn [andb].
      destruct (Nat.ltb_spec 0 (length fields - 1)); [reflexivity | lia].
    - destruct (Nat.ltb_spec 0 (length fields - 1)); [reflexivity | lia]. }
  split; [exact Hd|]. rewrite Hd. apply split_join.
  - destruct fields; [destruct d; cbn in Hlen; lia | discriminate].
  - eapply Forall_impl; [|exact Hall]. intros f. apply separator_covers.
Qed.

Lemma header_round_trip_witness :
  forallb (fun f => negb (any_char is_separator f)) ["id"; "name"] = true
  /\ 2 <= length ["id"; "name"]
  /\ detectDelimiter "id|name" = Pipe
  /\ split "|" "id|name" = ["id"; "name"].
Proof.
  split; [reflexivity|]. split; [cbn; lia|].
  destruct (header_round_trip Pipe ["id"; "name"]) as [H1 H2];
    [reflexivity | cbn; lia |].
  split; [exact H1|]. rewrite H1 in H2. exact H2.
Defined.

(** ** Indentation *)

Lemma startsWith_append (p rest : string) : startsWith (p ++ rest) p = true.
Proof.
  induction p as [|c p IH]; [reflexivity|].
  cbn. now rewrite Ascii.eqb_refl, IH.
Qed.

Lemma indent_level_repeat (ind rest : string) :
  is_empty ind = false -> startsWith rest ind = false ->
  forall n turns,
    n <= turns ->
    indent_level turns (repeat_string ind n ++ rest) ind = n.
Proof.
  intros Hind Hrest. induction n as [|n IH]; intros turns Hle.
  - destruct turns; [reflexivity|]. cbn [repeat_string append indent_level].
    now rewrite Hrest.
  - destruct turns as [|turns]; [lia|].
    cbn [repeat_string indent_level]. rewrite append_assoc.
    rewrite startsWith_append, drop_append. f_equal. apply IH. lia.
Qed.

(** X7: [getIndentLevel] counts the copies of the indentation unit in
    front of a line: a line made of [n] copies of a non-empty unit and
    then a rest that does not start with the unit is at level [n]. *)
Theorem getIndentLevel_counts (ind rest : string) (n : nat) :
  is_empty ind = false -> startsWith rest ind = false ->
  getIndentLevel (repeat_string ind n ++ rest) ind = n.
Proof.
  intros Hind Hrest. unfold getIndentLevel.
  destruct ind as [|c ind']; [discriminate|].
  cbn [String.length Nat.eqb].
  apply indent_level_repeat; [reflexivity | exact Hrest|].
  rewrite length_append, length_repeat_string. cbn [String.length]. nia.
Qed.

Lemma getIndentLevel_counts_witness :
  is_empty "  " = false
  /\ startsWith "port: 8080" "  " = false
  /\ getIndentLevel (repeat_string "  " 2 ++ "port: 8080") "  " = 2.
Proof.
  split; [reflexivity|]. split; [reflexivity|].
  apply (getIndentLevel_counts "  " "port: 8080" 2); reflexivity.
Defined.

(** ** The dictionary line *)

Lemma parseDictionary_from_bare (text rest current : string)
    (entries : list string) :
  any_char (fun c => Ascii.eqb c (delimiter_char Comma) || Ascii.eqb c QUOTE)
           text = false ->
  parseDictionary_from (text ++ rest) current false false entries
  = parseDictionary_from rest (current ++ text) false false entries.
Proof.
  revert current. induction text as [|c text IH]; intros current H.
  - now rewrite append_empty_r.
  - cbn [any_char] in H. apply orb_false_iff in H as [Hc Ht].
    apply orb_false_iff in Hc as [Hd Hq]. cbn [delimiter_char] in Hd.
    cbn [append parseDictionary_from]. rewrite Hd, Hq, andb_false_r.
    cbn [andb]. rewrite (IH _ Ht). now rewrite push_char_append.
Qed.

Lemma parseDictionary_from_escaped (s rest current : string)
    (entries : list string) :
  parseDictionary_from (escape s ++ rest) current true false entries
  = parseDictionary_from rest (current ++ escape s) true false entries.
Proof.
  revert current. induction s as [|c s IH]; intros current.
  - now rewrite append_empty_r.
  - cbn [escape]. rewrite !append_assoc. unfold escape_char.
    destruct (Ascii.eqb_spec c BACKSLASH) as [->|Hb];
      [|destruct (Ascii.eqb_spec c QUOTE) as [->|Hq];
        [|destruct (Ascii.eqb_spec c LF) as [->|Hl];
          [|destruct (Ascii.eqb_spec c CR) as [->|Hc];
            [|destruct (Ascii.eqb_spec c TAB) as [->|Ht]]]]].
    1-5: (cbn [append parseDictionary_from]; rewrite Ascii.eqb_refl;
          cbn [andb]; rewrite IH; unfold push_char;
          now rewrite !append_assoc).
    cbn [append parseDictionary_from].
    apply Ascii.eqb_neq in Hb, Hq. rewrite Hb, Hq, andb_false_r. cbn [andb].
    rewrite IH. now rewrite push_char_append.
Qed.

Lemma parseDictionary_from_cell (text rest : string) (entries : list string) :
  cell_text Comma text ->
  parseDictionary_from (text ++ rest) "" false false entries
  = parseDictionary_from rest text false false entries.
Proof.
  intros [[s ->]|H].
  - unfold quoted. cbn [append parseDictionary_from]. rewrite Ascii.eqb_refl.
    change (Ascii.eqb QUOTE BACKSLASH) with false. cbn [andb negb].
    rewrite append_assoc, parseDictionary_from_escaped.
    cbn [append QUOTE_STR parseDictionary_from]. rewrite Ascii.eqb_refl.
    change (Ascii.eqb QUOTE BACKSLASH) with false. cbn [andb negb].
    unfold push_char. cbn [append]. reflexivity.
  - now rewrite parseDictionary_from_bare.
Qed.

Lemma parseDictionary_from_texts (texts es entries : list string) :
  Forall2 (fun text e =>
             cell_text Comma text /\ trim text = text
             /\ is_empty text = false /\ unquoteString text = e)
          texts es ->
  parseDictionary_from (join "," texts) "" false false entries
  = (entries ++ es)%list.
Proof.
  intros H. revert entries.
  induction H as [|text e texts es (Hcell & Htrim & Hne & Hun) Hrest IH];
    intros entries.
  - cbn. now rewrite app_nil_r.
  - unfold join in *. cbn [String.concat].
    destruct texts as [|text' texts].
    + inversion Hrest; subst.
      rewrite <- (append_empty_r text) at 1.
      rewrite parseDictionary_from_cell by exact Hcell.
      cbn [parseDictionary_from]. rewrite Htrim, Hne. reflexivity.
    + rewrite parseDictionary_from_cell by exact Hcell.
      cbn [append parseDictionary_from].
      change (Ascii.eqb "," BACKSLASH) with false.
      change (Ascii.eqb "," QUOTE) with false.
      rewrite Ascii.eqb_refl. cbn [andb negb].
      rewrite Htrim, Hne. cbn [negb]. rewrite IH, Hun.
      now rewrite <- app_assoc.
Qed.

(** X8: [parseDictionary] reads back a line of entries written with
    [quoteString] and joined by commas, when every entry is not empty
    and, if it is written without quotes, has no comma and no quote in
    it and no white space around it. *)
Theorem dictionary_line_round_trip (es : list string) :
  forallb (fun e => negb (is_empty e)
                    && (needsQuoting e || bare_text Comma e)) es = true ->
  parseDictionary (join "," (map quoteString es)) = es.
Proof.
  intros H. unfold parseDictionary.
  rewrite (parseDictionary_from_texts _ es []); [reflexivity|].
  induction es as [|e es IH]; [constructor|].
  cbn [forallb] in H. apply andb_true_iff in H as [He Hrest].
  apply andb_true_iff in He as [Hne He]. apply negb_true_iff in Hne.
  cbn [map]. constructor; [|now apply IH].
  destruct (needsQuoting e) eqn:Hq.
  - rewrite quoteString_quoted by exact Hq.
    split; [left; now exists e|]. split; [apply trim_quoted|].
    split; [reflexivity | apply unquoteString_quoted].
  - cbn [orb] in He. unfold bare_text in He.
    apply andb_true_iff in He as [Hbare Htrim].
    apply negb_true_iff in Hbare. apply String.eqb_eq in Htrim.
    rewrite quoteString_plain by exact Hq.
    split; [right; exact Hbare|]. split; [exact Htrim|]. split; [exact Hne|].
    assert (Hl := bare_not_quoted Comma e Hbare).
    unfold unquoteString. destruct e as [|c e]; [reflexivity|].
    cbn [any_char] in Hbare. apply orb_false_iff in Hbare as [Hc _].
    apply orb_false_iff in Hc as [_ Hc].
    cbn [startsWith QUOTE_STR]. now rewrite Hc.
Qed.

Lemma dictionary_line_round_trip_witness :
  forallb (fun e => negb (is_empty e)
                    && (needsQuoting e || bare_text Comma e))
          ["admin"; "a|b"; "two words"] = true
  /\ parseDictionary (join "," (map quoteString ["admin"; "a|b"; "two words"]))
     = ["admin"; "a|b"; "two words"].
Proof.
  split; [reflexivity|].
  apply (dictionary_line_round_trip ["admin"; "a|b"; "two words"]).
  reflexivity.
Defined.

(** ** What [encode] throws *)

Lemma throws_only_ok {A} (e0 : error) (a : A) : throws_only e0 (Ok a).
Proof. intros e H. discriminate. Qed.

Lemma throws_only_throw {A} (e0 : error) : throws_only e0 (@Throw A e0).
Proof. intros e H. now inversion H. Qed.

Lemma throws_only_bind {A B} (e0 : error) (r : result A)
    (k : A -> result B) :
  throws_only e0 r -> (forall a, r = Ok a -> throws_only e0 (k a)) ->
  throws_only e0 (bind r k).
Proof.
  intros Hr Hk e. destruct r as [a|e']; cbn [bind].
  - now apply Hk.
  - intros H. inversion H; subst. now apply Hr.
Qed.

Lemma throws_only_for_each {A} (e0 : error)
    (body : A -> result (list string)) (l : list A) :
  Forall (fun x => throws_only e0 (body x)) l ->
  throws_only e0 (for_each body l).
Proof.
  induction 1 as [|x l Hx _ IH]; cbn [for_each]; [apply throws_only_ok|].
  apply throws_only_bind; [exact Hx|]. intros pushed _.
  apply throws_only_bind; [exact IH|]. intros more _. apply throws_only_ok.
Qed.

Lemma throws_only_for_each_where {A} (e0 : error) (keep : A -> bool)
    (body : A -> result (list string)) (l : list A) :
  Forall (fun x => throws_only e0 (body x)) l ->
  throws_only e0 (for_each_where keep body l).
Proof.
  induction 1 as [|x l Hx _ IH]; cbn [for_each_where];
    [apply throws_only_ok|].
  destruct (keep x); [|exact IH].
  apply throws_only_bind; [exact Hx|]. intros pushed _.
  apply throws_only_bind; [exact IH|]. intros more _. apply throws_only_ok.
Qed.

Lemma encodeArray_of_unfold opts dict arr depth parentKey rd :
  encodeArray_of opts dict (VArr arr) depth parentKey rd
  = encodeArray_body opts dict (encodeValue opts dict)
      (encodeObject_of opts dict) arr depth parentKey rd.
Proof. reflexivity. Qed.

Lemma encodeValue_unfold opts dict value depth parentKey rd :
  encodeValue opts dict value depth parentKey rd
  = if (rd >=? MAX_RECURSION_DEPTH)%Z then Throw depth_error
    else
      match value with
      | VArr arr =>
          encodeArray_of opts dict value depth parentKey (rd + 1)%Z
      | VObj _ props =>
          encodeObject_of opts dict value depth parentKey (rd + 1)%Z
      | _ =>
          let encoded :=
            encodePrimitive value dict (use_dictionary opts depth) in
          match parentKey with
          | Some key =>
              Ok [repeat_string (Encode.indent opts) depth
                  ++ key ++ ": " ++ encoded]
          | None => Ok [repeat_string (Encode.indent opts) depth ++ encoded]
          end
      end.
Proof.
  destruct value; cbn [encodeValue encodeArray_of encodeObject_of];
    destruct (rd >=? MAX_RECURSION_DEPTH)%Z; reflexivity.
Qed.

(** The three encoders throw nothing but the depth error. *)
Lemma encoders_throw_depth_error opts dict (v : GoonValue) :
  forall depth parentKey rd,
    throws_only depth_error (encodeValue opts dict v depth parentKey rd)
    /\ throws_only depth_error
         (encodeArray_of opts dict v depth parentKey rd)
    /\ throws_only depth_error
         (encodeObject_of opts dict v depth parentKey rd).
Proof.
  induction v as [| b | n | s | items IH | proto props IH]
    using GoonValue_ind'; intros depth parentKey rd.
  1-4: (split; [|split; apply throws_only_ok];
        rewrite encodeValue_unfold;
        destruct (rd >=? MAX_RECURSION_DEPTH)%Z;
        [apply throws_only_throw
        | cbv zeta; destruct parentKey; apply throws_only_ok]).
  - assert (Harr : forall depth parentKey rd,
               throws_only depth_error
                 (encodeArray_of opts dict (VArr items) depth parentKey rd)).
    { clear depth parentKey rd. intros depth parentKey rd.
      rewrite encodeArray_of_unfold. unfold encodeArray_body.
      destruct (length items =? 0); [apply throws_only_ok|].
      destruct (_ && _); [apply throws_only_ok|].
      destruct (_ && _); [apply throws_only_ok|].
      apply throws_only_bind; [|intros; apply throws_only_ok].
      apply throws_only_for_each.
      eapply Forall_impl; [|exact IH]. intros item Hitem. cbv beta.
      destruct (isPrimitive item); [apply throws_only_ok|].
      destruct (isArray item).
      { apply throws_only_bind; [apply Hitem | intros; apply throws_only_ok]. }
      destruct (isPlainObject item); [|apply throws_only_ok].
      apply throws_only_bind; [apply Hitem | intros; apply throws_only_ok]. }
    split; [|split; [apply Harr | apply throws_only_ok]].
    rewrite encodeValue_unfold.
    destruct (rd >=? MAX_RECURSION_DEPTH)%Z;
      [apply throws_only_throw | apply Harr].
  - assert (Hobj : forall depth parentKey rd,
               throws_only depth_error
                 (encodeObject_of opts dict (VObj proto props) depth
                                  parentKey rd)).
    { clear depth parentKey rd. intros depth parentKey rd.
      rewrite encodeObject_of_unfold. unfold encodeObject_body.
      destruct (rd >=? MAX_RECURSION_DEPTH)%Z; [apply throws_only_throw|].
      destruct (length _ =? 0); [apply throws_only_ok|].
      apply throws_only_bind; [|intros; apply throws_only_ok].
      apply throws_only_for_each_where.
      eapply Forall_impl; [|exact IH]. intros [key value] Hkv.
      cbn [snd] in Hkv. cbv beta iota.
      destruct (isPrimitive value); [apply throws_only_ok|].
      destruct (isArray value); [apply Hkv|].
      destruct (isPlainObject value); [apply Hkv | apply throws_only_ok]. }
    split; [|split; [apply throws_only_ok | apply Hobj]].
    rewrite encodeValue_unfold.
    destruct (rd >=? MAX_RECURSION_DEPTH)%Z;
      [apply throws_only_throw | apply Hobj].
Qed.

Lemma applyReplacer_at_throws (replacer : string -> GoonValue -> option GoonValue)
    (remaining : nat) :
  forall value key,
    throws_only depth_error (applyReplacer_at remaining value replacer key).
Proof.
  induction remaining as [|remaining IH]; intros value key;
    cbn [applyReplacer_at]; [apply throws_only_throw|].
  destruct (replacer key value) as [[| | | |items|proto props]|];
    try apply throws_only_ok.
  - apply throws_only_bind; [|intros; apply throws_only_ok].
    generalize 0 as i. induction items as [|item items IHl]; intros i;
      [apply throws_only_ok|].
    apply throws_only_bind; [apply IH|]. intros r _.
    apply throws_only_bind; [apply IHl|]. intros; apply throws_only_ok.
  - apply throws_only_bind; [|intros; apply throws_only_ok].
    generalize (@nil (string * GoonValue)) as obj.
    induction props as [|[k v] props IHl]; intros obj;
      [apply throws_only_ok|].
    destruct (negb (isSafeKey k)); [apply IHl|].
    apply throws_only_bind; [apply IH|]. intros r _. apply IHl.
Qed.

Lemma typed_options (options : EncodeOptions) :
  indent_is_string options = true ->
  exists opts, typed (resolve_options options) = Some opts.
Proof.
  unfold indent_is_string, typed.
  destruct (Encode.indent (resolve_options options)); [|discriminate].
  intros _. eexists. reflexivity.
Qed.

Lemma untyped_options (options : EncodeOptions) :
  indent_is_string options = false ->
  typed (resolve_options options) = None.
Proof.
  unfold indent_is_string, typed.
  now destruct (Encode.indent (resolve_options options)).
Qed.

Ltac untype H :=
  unfold typed in H;
  match type of H with
  | match ?i with _ => _ end = _ => destruct i eqn:?
  end;
  [injection H as <- | discriminate H].

Lemma typed_dictionary (spreadOpts : SpreadOptions) (opts : InternalOptions) :
  typed spreadOpts = Some opts ->
  Encode.dictionary opts = Encode.dictionary spreadOpts.
Proof. intros H. untype H. reflexivity. Qed.

Lemma typed_dictionary_for (spreadOpts : SpreadOptions)
    (opts : InternalOptions) (value : GoonValue) :
  typed spreadOpts = Some opts ->
  dictionary_for opts value = dictionary_for spreadOpts value.
Proof. intros H. untype H. reflexivity. Qed.

Lemma typed_plain_tables (spreadOpts : SpreadOptions)
    (opts : InternalOptions) :
  typed spreadOpts = Some opts ->
  plain_tables opts = plain_tables spreadOpts.
Proof. intros H. untype H. reflexivity. Qed.

(** X9: [encode] throws two errors only.  Whatever the value, the mode,
    the options and the answers of the replacer, a call that does not
    return throws [GoonEncodeError]: with the message that [indent] must
    be a string, when it is not one, and else with the message that
    names the limit 100 of the recursion. *)
Theorem encode_throws_only_two_errors (value : GoonValue)
    (options : EncodeOptions) (e : error) :
  encode value options = Throw e ->
  (indent_is_string options = false
   /\ e = GoonEncodeError "indent option must be a string")
  \/ (indent_is_string options = true
      /\ e = GoonEncodeError "Maximum recursion depth (100) exceeded").
Proof.
  change (GoonEncodeError "Maximum recursion depth (100) exceeded")
    with depth_error.
  unfold encode.
  destruct (indent_is_string options) eqn:Hindent.
  - destruct (typed_options options Hindent) as [opts ->].
    intros H. right. split; [reflexivity|]. revert e H.
    apply throws_only_bind.
    + destruct (replacer options); [|apply throws_only_ok].
      apply applyReplacer_at_throws.
    + intros [v|] _; [|apply throws_only_ok]. cbv zeta.
      apply throws_only_bind; [|intros; apply throws_only_ok].
      apply encoders_throw_depth_error.
  - rewrite (untyped_options options Hindent).
    intros H. injection H as <-. left. split; reflexivity.
Qed.

Lemma encode_throws_only_two_errors_witness :
  exists e,
    encode (nested_object 100) default_options = Throw e
    /\ indent_is_string default_options = true
    /\ e = GoonEncodeError "Maximum recursion depth (100) exceeded".
Proof.
  eexists. split; [vm_compute; reflexivity|]. split; [reflexivity|].
  destruct (encode_throws_only_two_errors (nested_object 100)
              default_options depth_error) as [[H _]|[_ H]];
    [vm_compute; reflexivity | discriminate H | exact H].
Defined.

(** ** When [encode] returns *)

Lemma returns_ok {A} (a : A) : returns (Ok a).
Proof. now exists a. Qed.

Lemma returns_bind {A B} (r : result A) (k : A -> result B) :
  returns r -> (forall a, returns (k a)) -> returns (bind r k).
Proof. intros [a ->] Hk. cbn [bind]. apply Hk. Qed.

Lemma returns_for_each {A} (body : A -> result (list string)) (l : list A) :
  Forall (fun x => returns (body x)) l -> returns (for_each body l).
Proof.
  induction 1 as [|x l Hx _ IH]; cbn [for_each]; [apply returns_ok|].
  apply returns_bind; [exact Hx|]. intros pushed.
  apply returns_bind; [exact IH|]. intros more. apply returns_ok.
Qed.

Lemma returns_for_each_where {A} (keep : A -> bool)
    (body : A -> result (list string)) (l : list A) :
  Forall (fun x => returns (body x)) l -> returns (for_each_where keep body l).
Proof.
  induction 1 as [|x l Hx _ IH]; cbn [for_each_where]; [apply returns_ok|].
  destruct (keep x); [|exact IH].
  apply returns_bind; [exact Hx|]. intros pushed.
  apply returns_bind; [exact IH|]. intros more. apply returns_ok.
Qed.

Lemma height_item (items : list GoonValue) (item : GoonValue) :
  In item items -> height item < height (VArr items).
Proof.
  cbn [height]. induction items as [|x items IH]; intros H; [contradiction|].
  cbn [fold_right]. destruct H as [->|H]; [lia|].
  specialize (IH H). lia.
Qed.

Lemma height_prop (proto : prototype) (props : list (string * GoonValue))
    (kv : string * GoonValue) :
  In kv props -> height (snd kv) < height (VObj proto props).
Proof.
  cbn [height]. induction props as [|x props IH]; intros H; [contradiction|].
  cbn [fold_right]. destruct H as [->|H]; [lia|].
  specialize (IH H). lia.
Qed.

(** How deep a value may be for each of the three encoders to return,
    given the recursion depth it is called at. *)
Lemma encoders_return opts dict (v : GoonValue) :
  forall depth parentKey rd,
    (isPrimitive v = true -> (rd <= 99)%Z ->
     returns (encodeValue opts dict v depth parentKey rd))
    /\ (isPrimitive v = false -> (rd + 2 * Z.of_nat (height v) <= 100)%Z ->
        returns (encodeValue opts dict v depth parentKey rd))
    /\ ((rd + 2 * Z.of_nat (height v) <= 101)%Z ->
        returns (encodeArray_of opts dict v depth parentKey rd))
    /\ ((rd + 2 * Z.of_nat (height v) <= 101)%Z ->
        returns (encodeObject_of opts dict v depth parentKey rd)).
Proof.
  induction v as [| b | n | s | items IH | proto props IH]
    using GoonValue_ind'; intros depth parentKey rd.
  1-4: (split; [|split; [discriminate | split; intros; apply returns_ok]];
        intros _ Hrd; rewrite encodeValue_unfold;
        destruct (Z.geb_spec rd MAX_RECURSION_DEPTH) as [Hge|_];
        [unfold MAX_RECURSION_DEPTH in Hge; lia|];
        cbv zeta; destruct parentKey; apply returns_ok).
  - assert (Harr : forall depth parentKey rd,
               (rd + 2 * Z.of_nat (height (VArr items)) <= 101)%Z ->
               returns (encodeArray_of opts dict (VArr items) depth
                                       parentKey rd)).
    { clear depth parentKey rd. intros depth parentKey rd Hrd.
      rewrite encodeArray_of_unfold. unfold encodeArray_body.
      destruct (length items =? 0); [apply returns_ok|].
      destruct (_ && _); [apply returns_ok|].
      destruct (_ && _); [apply returns_ok|].
      apply returns_bind; [|intros; apply returns_ok].
      apply returns_for_each. apply Forall_forall. intros item Hin.
      rewrite Forall_forall in IH.
      assert (Hh := height_item items item Hin).
      destruct (IH item Hin (depth + 2) None (rd + 1)%Z)
        as (_ & Hv & _ & Ho).
      destruct (isPrimitive item) eqn:Hp; [apply returns_ok|].
      destruct (isArray item).
      { apply returns_bind; [apply Hv; [reflexivity | lia]
                            | intros; apply returns_ok]. }
      destruct (isPlainObject item); [|apply returns_ok].
      apply returns_bind; [apply Ho; lia | intros; apply returns_ok]. }
    split; [discriminate|]. split; [|split; [apply Harr|]].
    + intros _ Hrd. rewrite encodeValue_unfold.
      destruct (Z.geb_spec rd MAX_RECURSION_DEPTH) as [Hge|_].
      { unfold MAX_RECURSION_DEPTH in Hge. cbn [height] in Hrd. lia. }
      apply Harr. lia.
    + intros _. apply returns_ok.
  - assert (Hobj : forall depth parentKey rd,
               (rd + 2 * Z.of_nat (height (VObj proto props)) <= 101)%Z ->
               returns (encodeObject_of opts dict (VObj proto props) depth
                                        parentKey rd)).
    { clear depth parentKey rd. intros depth parentKey rd Hrd.
      rewrite encodeObject_of_unfold. unfold encodeObject_body.
      destruct (Z.geb_spec rd MAX_RECURSION_DEPTH) as [Hge|_].
      { unfold MAX_RECURSION_DEPTH in Hge. cbn [height] in Hrd. lia. }
      destruct (length _ =? 0); [apply returns_ok|].
      apply returns_bind; [|intros; apply returns_ok].
      apply returns_for_each_where. apply Forall_forall.
      intros [key value] Hin. rewrite Forall_forall in IH.
      assert (Hh := height_prop proto props (key, value) Hin).
      cbn [snd] in Hh. cbv beta iota.
      set (childIndent := match parentKey with
                          | Some _ => depth + 1
                          | None => depth
                          end).
      destruct (IH (key, value) Hin childIndent (Some key) (rd + 1)%Z)
        as (_ & _ & Ha & Ho). cbn [snd] in Ha, Ho.
      destruct (isPrimitive value); [apply returns_ok|].
      destruct (isArray value); [apply Ha; lia|].
      destruct (isPlainObject value); [apply Ho; lia | apply returns_ok]. }
    split; [discriminate|]. split; [|split; [|apply Hobj]].
    + intros _ Hrd. rewrite encodeValue_unfold.
      destruct (Z.geb_spec rd MAX_RECURSION_DEPTH) as [Hge|_].
      { unfold MAX_RECURSION_DEPTH in Hge. cbn [height] in Hrd. lia. }
      apply Hobj. lia.
    + intros _. apply returns_ok.
Qed.

(** X10: without a replacer, [encode] returns a text for every value in
    which at most 50 arrays and objects are nested in one another,
    whatever the mode and the options, when [indent] is a string. *)
Theorem encode_returns_on_shallow_values (value : GoonValue)
    (mode : option EncodeMode) (fields : PartialOptions) :
  indent_is_string {| mode := mode; replacer := None; fields := fields |}
  = true ->
  height value <= 50 ->
  exists text,
    encode value {| mode := mode; replacer := None; fields := fields |}
    = Ok text.
Proof.
  intros Hindent Hh. unfold encode.
  destruct (typed_options _ Hindent) as [opts ->].
  cbn [replacer bind]. cbv zeta.
  set (dict := dictionary_for _ _).
  destruct (encoders_return opts dict value 0 None 0%Z) as (Hp & Hc & _).
  assert (Hv : returns (encodeValue opts dict value 0 None 0)).
  { destruct (isPrimitive value); [apply Hp; [reflexivity | lia]|].
    apply Hc; [reflexivity | lia]. }
  destruct Hv as [lines ->]. cbn [bind]. eexists. reflexivity.
Qed.

Lemma encode_returns_on_shallow_values_witness :
  indent_is_string (preset llm) = true
  /\ height simple_object <= 50
  /\ exists text, encode simple_object (preset llm) = Ok text.
Proof.
  split; [reflexivity|]. split; [cbn; lia|].
  apply (encode_returns_on_shallow_values simple_object (Some llm) no_options);
    [reflexivity | cbn; lia].
Defined.

(** ** [encodeLines] *)

(** X11: [encodeLines] yields the lines of the text of [encode], when
    [indent] is a string: if the generator runs to its end without
    throwing, [encode] returns the lines it yielded, joined by line
    feeds (the empty text when it yielded nothing); if it throws,
    [encode] throws the same error. *)
Theorem encodeLines_agrees_with_encode (value : GoonValue)
    (options : EncodeOptions) :
  indent_is_string options = true ->
  encode value options
  = match thrown (encodeLines value options) with
    | None => Ok (join LF_STR (yielded (encodeLines value options)))
    | Some e => Throw e
    end.
Proof.
  intros Hindent. unfold encode, encodeLines. cbv zeta.
  destruct (typed_options options Hindent) as [opts Htyped].
  rewrite Htyped.
  destruct (match replacer options with
            | Some r => applyReplacer value r "" 0
            | None => Ok (Some value)
            end) as [[v|]|e]; cbn [bind thrown yielded]; try reflexivity.
  assert (Hdict : dictionary_for (resolve_options options) v
                  = dictionary_for opts v).
  { unfold typed in Htyped.
    destruct (Encode.indent (resolve_options options)); [|discriminate].
    injection Htyped as <-. reflexivity. }
  rewrite Hdict.
  destruct (encodeValue _ _ v 0 None 0) as [lines|e];
    cbn [bind thrown yielded]; reflexivity.
Qed.

Lemma encodeLines_agrees_with_encode_witness :
  indent_is_string (preset balanced) = true
  /\ yielded (encodeLines orders (preset balanced))
     = ["orders[2]{date,c}:"; "  2024-01,Acme"; "  ^,^"]
  /\ encode orders (preset balanced)
     = Ok (join LF_STR ["orders[2]{date,c}:"; "  2024-01,Acme"; "  ^,^"]).
Proof.
  split; [reflexivity|]. split; [vm_compute; reflexivity|].
  rewrite (encodeLines_agrees_with_encode orders (preset balanced));
    [vm_compute; reflexivity | reflexivity].
Defined.

(** ** The replacer *)

Lemma keys_safe_set_prop (obj : list (string * GoonValue)) (k : string)
    (v : GoonValue) :
  forallb (fun kv => isSafeKey (fst kv) && keys_safe (snd kv)) obj = true ->
  isSafeKey k = true -> keys_safe v = true ->
  forallb (fun kv => isSafeKey (fst kv) && keys_safe (snd kv))
          (set_prop obj k v) = true.
Proof.
  intros Hobj Hk Hv. induction obj as [|[k' v'] obj IH]; cbn [set_prop].
  - cbn. now rewrite Hk, Hv.
  - cbn [forallb fst snd] in Hobj.
    apply andb_true_iff in Hobj as [Hkv Hrest].
    apply andb_true_iff in Hkv as [Hk' Hv'].
    destruct (String.eqb k' k); cbn [forallb fst snd].
    + now rewrite Hk', Hv, Hrest.
    + now rewrite Hk', Hv', IH.
Qed.

Lemma applyReplacer_at_keys_safe
    (replacer : string -> GoonValue -> option GoonValue) (remaining : nat) :
  forall value key r,
    applyReplacer_at remaining value replacer key = Ok (Some r) ->
    keys_safe r = true.
Proof.
  induction remaining as [|remaining IH]; intros value key r;
    cbn [applyReplacer_at]; [discriminate|].
  destruct (replacer key value) as [[|b|n|s|items|proto props]|];
    try (intros H; inversion H; reflexivity); try discriminate.
  - match goal with
    | |- bind (?go items 0) _ = _ -> _ =>
        assert (Hgo : forall l i replaced,
                   go l i = Ok replaced -> forallb keys_safe replaced = true)
    end.
    { induction l as [|item l IHl]; intros i replaced.
      - intros H. inversion H. reflexivity.
      - destruct (applyReplacer_at remaining item replacer (nat_to_string i))
          as [r0|e] eqn:Hitem; cbn [bind]; [|discriminate].
        match goal with
        | |- bind ?rest _ = _ -> _ => destruct rest as [rest'|e] eqn:Hrest
        end; cbn [bind]; [|discriminate].
        intros H. inversion H; subst. specialize (IHl _ _ Hrest).
        destruct r0 as [v|]; [|exact IHl].
        cbn [forallb]. now rewrite (IH _ _ _ Hitem), IHl. }
    match goal with
    | |- bind ?g _ = _ -> _ => destruct g as [replaced|e] eqn:Hg
    end; cbn [bind]; [|discriminate].
    intros H. inversion H; subst. cbn [keys_safe]. eapply Hgo. exact Hg.
  - match goal with
    | |- bind (?go props []) _ = _ -> _ =>
        assert (Hgo : forall l obj obj',
                   forallb (fun kv => isSafeKey (fst kv)
                                      && keys_safe (snd kv)) obj = true ->
                   go l obj = Ok obj' ->
                   forallb (fun kv => isSafeKey (fst kv)
                                      && keys_safe (snd kv)) obj' = true)
    end.
    { induction l as [|[k v] l IHl]; intros obj obj' Hobj.
      - intros H. inversion H; subst. exact Hobj.
      - destruct (isSafeKey k) eqn:Hk; cbn [negb]; [|now apply IHl].
        destruct (applyReplacer_at remaining v replacer k)
          as [r0|e] eqn:Hitem; cbn [bind]; [|discriminate].
        apply IHl. destruct r0 as [v'|]; [|exact Hobj].
        apply keys_safe_set_prop; [exact Hobj | exact Hk|].
        eapply IH. exact Hitem. }
    match goal with
    | |- bind ?g _ = _ -> _ => destruct g as [obj|e] eqn:Hg
    end; cbn [bind]; [|discriminate].
    intros H. inversion H; subst. cbn [keys_safe].
    eapply Hgo; [|exact Hg]. reflexivity.
Qed.

(** X12: whatever the replacer answers, no object of the value that
    [applyReplacer] hands to the encoder has a dangerous key, at any
    depth. *)
Theorem replaced_value_has_no_dangerous_key (value : GoonValue)
    (replacer : string -> GoonValue -> option GoonValue) (key : string)
    (depth : Z) (r : GoonValue) :
  applyReplacer value replacer key depth = Ok (Some r) ->
  keys_safe r = true.
Proof. apply applyReplacer_at_keys_safe. Qed.

Lemma replaced_value_has_no_dangerous_key_witness :
  applyReplacer
    (object [("a", object [("__proto__", VNull); ("b", VBool true)])])
    keep_all "" 0
  = Ok (Some (object [("a", object [("b", VBool true)])]))
  /\ keys_safe (object [("a", object [("b", VBool true)])]) = true.
Proof.
  split; [reflexivity|].
  apply (replaced_value_has_no_dangerous_key
           (object [("a", object [("__proto__", VNull); ("b", VBool true)])])
           keep_all "" 0).
  reflexivity.
Defined.

Lemma distinct_NoDup (l : list string) : distinct l = true -> NoDup l.
Proof.
  induction l as [|k l IH]; intros H; [constructor|].
  cbn [distinct] in H. apply andb_true_iff in H as [Hk Hl].
  constructor; [|now apply IH].
  intros Hin. apply negb_true_iff in Hk.
  assert (Hex : existsb (String.eqb k) l = true).
  { apply existsb_exists. exists k. split; [exact Hin | apply String.eqb_refl]. }
  congruence.
Qed.

Lemma well_keyed_items (items : list GoonValue) :
  well_keyed (VArr items) = true -> Forall (fun x => well_keyed x = true) items.
Proof.
  cbn [well_keyed]. intros H. apply Forall_forall.
  now apply forallb_forall.
Qed.

Lemma well_keyed_props (proto : prototype)
    (props : list (string * GoonValue)) :
  well_keyed (VObj proto props) = true ->
  NoDup (map fst props)
  /\ Forall (fun kv => isSafeKey (fst kv) = true
                       /\ well_keyed (snd kv) = true)
            props.
Proof.
  cbn [well_keyed]. intros H. apply andb_true_iff in H as [Hnd H].
  split; [now apply distinct_NoDup|].
  apply Forall_forall. intros kv Hkv. rewrite forallb_forall in H.
  apply andb_true_iff. now apply H.
Qed.

Lemma set_prop_fresh (obj : list (string * GoonValue)) (k : string)
    (v : GoonValue) :
  ~ In k (map fst obj) -> set_prop obj k v = (obj ++ [(k, v)])%list.
Proof.
  induction obj as [|[k' v'] obj IH]; intros H; [reflexivity|].
  cbn [set_prop map fst app] in *.
  destruct (String.eqb_spec k' k) as [->|_]; [exfalso; apply H; now left|].
  rewrite IH; [reflexivity|]. intros Hin. apply H. now right.
Qed.

Lemma keep_all_copies (remaining : nat) :
  forall value key,
    height value < remaining -> well_keyed value = true ->
    applyReplacer_at remaining value keep_all key = Ok (Some (plain value)).
Proof.
  induction remaining as [|remaining IH]; intros value key Hh Hw; [lia|].
  cbn [applyReplacer_at]. unfold keep_all at 1.
  destruct value as [|b|n|s|items|proto props]; try reflexivity.
  - match goal with
    | |- bind (?go items 0) _ = _ =>
        assert (Hgo : forall l i,
                   Forall (fun x => height x < remaining /\ well_keyed x = true) l ->
                   go l i = Ok (map plain l))
    end.
    { induction l as [|item l IHl]; intros i Hl; [reflexivity|].
      inversion Hl as [|? ? [Hx Hwx] Hl']; subst.
      rewrite (IH item _ Hx Hwx). cbn [bind].
      rewrite (IHl _ Hl'). reflexivity. }
    rewrite Hgo; [reflexivity|].
    apply Forall_forall. intros x Hx. split.
    + assert (H := height_item items x Hx). lia.
    + apply well_keyed_items in Hw. rewrite Forall_forall in Hw. now apply Hw.
  - match goal with
    | |- bind (?go props []) _ = _ =>
        assert (Hgo : forall l obj,
                   NoDup (map fst obj ++ map fst l) ->
                   Forall (fun kv => isSafeKey (fst kv) = true
                                     /\ height (snd kv) < remaining
                                     /\ well_keyed (snd kv) = true) l ->
                   go l obj
                   = Ok (obj ++ map (fun kv => (fst kv, plain (snd kv))) l)%list)
    end.
    { induction l as [|[k v] l IHl]; intros obj Hnd Hl.
      - now rewrite app_nil_r.
      - inversion Hl as [|? ? (Hk & Hx & Hwx) Hl']; subst.
        cbn [fst snd] in Hk, Hx, Hwx. rewrite Hk. cbn [negb].
        rewrite (IH v k Hx Hwx). cbn [bind].
        cbn [map fst] in Hnd.
        rewrite set_prop_fresh
          by (intros Hin; apply NoDup_remove_2 in Hnd; apply Hnd;
              apply in_or_app; now left).
        rewrite IHl; [|rewrite map_app, <- app_assoc; exact Hnd | exact Hl'].
        cbn [map fst snd]. now rewrite <- app_assoc. }
    destruct (well_keyed_props proto props Hw) as [Hnd Hall].
    rewrite Hgo; [reflexivity | exact Hnd|].
    apply Forall_forall. intros kv Hkv. rewrite Forall_forall in Hall.
    destruct (Hall kv Hkv) as [Hk Hwk].
    assert (H := height_prop proto props kv Hkv).
    repeat split; try assumption. lia.
Qed.

(** X13: the replacer that keeps every value gives back a copy of the
    value, property by property and item by item, when fewer than 100
    arrays and objects are nested in one another and the keys of every
    object are safe and differ from one another. *)
Theorem keep_all_replacer_copies_the_value (value : GoonValue)
    (key : string) :
  height value < 100 -> well_keyed value = true ->
  applyReplacer value keep_all key 0 = Ok (Some (plain value)).
Proof. intros Hh Hw. apply keep_all_copies; [exact Hh | exact Hw]. Qed.

Lemma keep_all_replacer_copies_the_value_witness :
  height orders < 100 /\ well_keyed orders = true
  /\ applyReplacer orders keep_all "" 0 = Ok (Some orders).
Proof.
  split; [cbn; lia|]. split; [reflexivity|].
  apply (keep_all_replacer_copies_the_value orders "");
    [cbn; lia | reflexivity].
Defined.

(** ** Sorting the rows *)

Lemma ltb_trans (a b c : string) :
  String.ltb a b = true -> String.ltb b c = true -> String.ltb a c = true.
Proof.
  unfold String.ltb. intros Hab Hbc.
  destruct (String.compare a b) eqn:Eab; try discriminate.
  destruct (String.compare b c) eqn:Ebc; try discriminate.
  apply OrderedTypeEx.String_as_OT.cmp_lt in Eab, Ebc.
  assert (Eac := OrderedTypeEx.String_as_OT.lt_trans _ _ _ Eab Ebc).
  apply OrderedTypeEx.String_as_OT.cmp_lt in Eac.
  unfold OrderedTypeEx.String_as_OT.cmp in Eac. now rewrite Eac.
Qed.

Lemma ltb_asym (a b : string) :
  String.ltb a b = true -> String.ltb b a = false.
Proof.
  unfold String.ltb. rewrite (String.compare_antisym a b).
  destruct (String.compare b a); cbn; congruence.
Qed.

Lemma ltb_tricho (a b : string) :
  String.ltb a b = false -> String.ltb b a = false -> a = b.
Proof.
  unfold String.ltb. rewrite (String.compare_antisym a b).
  destruct (String.compare b a) eqn:E; cbn; try discriminate.
  intros _ _. symmetry. now apply String.compare_eq_iff.
Qed.

Lemma compare_rows_total (sortFields : list string) (a b : GoonValue) :
  compare_rows sortFields a b = Gt -> compare_rows sortFields b a = Lt.
Proof.
  induction sortFields as [|f rest IH]; cbn [compare_rows]; [discriminate|].
  destruct (String.ltb _ _) eqn:Hab; [discriminate|].
  destruct (String.ltb (to_sort_string (field_value b f)) _) eqn:Hba;
    [reflexivity | exact IH].
Qed.

Lemma compare_rows_trans (sortFields : list string) (a b c : GoonValue) :
  compare_rows sortFields a b <> Gt -> compare_rows sortFields b c <> Gt ->
  compare_rows sortFields a c <> Gt.
Proof.
  induction sortFields as [|f rest IH]; cbn [compare_rows]; [discriminate|].
  set (x := to_sort_string (field_value a f)).
  set (y := to_sort_string (field_value b f)).
  set (z := to_sort_string (field_value c f)).
  destruct (String.ltb x y) eqn:Hxy.
  - intros _. destruct (String.ltb y z) eqn:Hyz.
    + intros _. now rewrite (ltb_trans x y z Hxy Hyz).
    + destruct (String.ltb z y) eqn:Hzy; [congruence|]. intros _.
      rewrite <- (ltb_tricho y z Hyz Hzy), Hxy. discriminate.
  - destruct (String.ltb y x) eqn:Hyx; [congruence|].
    assert (E : x = y) by now apply ltb_tricho.
    rewrite E. intros Hab.
    destruct (String.ltb y z); [discriminate|].
    destruct (String.ltb z y); [congruence|]. now apply IH.
Qed.

Lemma StronglySorted_app_apart {A} (R : A -> A -> Prop) (l1 l2 : list A) :
  StronglySorted R (l1 ++ l2) ->
  forall a b, In a l1 -> In b l2 -> R a b.
Proof.
  induction l1 as [|x l1 IH]; intros Hs a b Ha Hb; [contradiction|].
  cbn [app] in Hs. apply StronglySorted_inv in Hs as [Hs Hx].
  destruct Ha as [->|Ha]; [|now apply IH].
  rewrite Forall_forall in Hx. apply Hx, in_or_app. now right.
Qed.

Lemma StronglySorted_app_left {A} (R : A -> A -> Prop) (l1 l2 : list A) :
  StronglySorted R (l1 ++ l2) -> StronglySorted R l1.
Proof.
  induction l1 as [|x l1 IH]; intros Hs; [constructor|].
  cbn [app] in Hs. apply StronglySorted_inv in Hs as [Hs Hx].
  constructor; [now apply IH|].
  rewrite Forall_forall in *. intros y Hy. apply Hx, in_or_app. now left.
Qed.

Lemma StronglySorted_map_in {A B} (R : A -> A -> Prop) (R' : B -> B -> Prop)
    (g : A -> B) (l : list A) :
  (forall a b, In a l -> In b l -> R a b -> R' (g a) (g b)) ->
  StronglySorted R l -> StronglySorted R' (map g l).
Proof.
  intros H Hs. induction Hs as [|x l Hs IH Hx]; [constructor|].
  cbn [map]. constructor.
  - apply IH. intros a b Ha Hb. apply H; now right.
  - rewrite Forall_forall in *. intros y Hy.
    apply in_map_iff in Hy as (a & <- & Ha).
    apply H; [now left | now right | now apply Hx].
Qed.

Lemma sort_fields_facts (arr : list GoonValue) (fields : list string) :
  let sortFields := sort_fields arr fields in
  length sortFields = Nat.min 3 (length fields)
  /\ incl sortFields fields
  /\ StronglySorted (fun f g => maxRun arr g <= maxRun arr f) sortFields
  /\ (forall f g,
        In f sortFields -> In g fields -> ~ In g sortFields ->
        maxRun arr g <= maxRun arr f).
Proof.
  cbv zeta. unfold sort_fields.
  set (leb := fun a b : string * nat => snd b <=? snd a).
  set (pairs := map (fun field => (field, maxRun arr field)) fields).
  set (sorted := sort_by leb pairs).
  assert (Hpair : forall p, In p sorted -> snd p = maxRun arr (fst p)
                                           /\ In (fst p) fields).
  { intros p Hp. apply sort_by_in in Hp. unfold pairs in Hp.
    apply in_map_iff in Hp as (f & <- & Hf). now split. }
  assert (Hsorted : StronglySorted (fun a b => leb a b = true) sorted).
  { apply sort_by_sorted.
    - intros a b H. unfold leb in *.
      apply Nat.leb_gt in H. apply Nat.leb_le. lia.
    - intros a b c Hab Hbc. unfold leb in *.
      apply Nat.leb_le in Hab, Hbc. apply Nat.leb_le. lia. }
  assert (Hsplit : (firstn 3 sorted ++ skipn 3 sorted)%list = sorted)
    by apply firstn_skipn.
  assert (Hfirst : forall p, In p (firstn 3 sorted) -> In p sorted).
  { intros p Hp. rewrite <- Hsplit. apply in_or_app. now left. }
  split; [|split; [|split]].
  - rewrite length_map, length_firstn. unfold sorted, pairs.
    now rewrite sort_by_length, length_map.
  - intros f Hf. apply in_map_iff in Hf as (p & <- & Hp).
    now apply Hpair, Hfirst.
  - apply (StronglySorted_map_in (fun a b => leb a b = true)).
    + intros a b Ha Hb Hab. unfold leb in Hab. apply Nat.leb_le in Hab.
      destruct (Hpair a (Hfirst a Ha)) as [Ea _].
      destruct (Hpair b (Hfirst b Hb)) as [Eb _]. now rewrite <- Ea, <- Eb.
    + apply (StronglySorted_app_left _ _ (skipn 3 sorted)).
      now rewrite Hsplit.
  - intros f g Hf Hg Hout.
    apply in_map_iff in Hf as (p & <- & Hp).
    assert (Hq : In (g, maxRun arr g) sorted).
    { apply sort_by_in. unfold pairs. apply in_map_iff. now exists g. }
    rewrite <- Hsplit in Hq. apply in_app_or in Hq as [Hq|Hq].
    { exfalso. apply Hout. apply in_map_iff. now exists (g, maxRun arr g). }
    rewrite <- Hsplit in Hsorted.
    assert (H := StronglySorted_app_apart _ _ _ Hsorted p _ Hp Hq).
    unfold leb in H. cbn [snd] in H. apply Nat.leb_le in H.
    destruct (Hpair p (Hfirst p Hp)) as [Ep _]. now rewrite <- Ep.
Qed.


(** ** The frame of the context *)

Lemma same_frame_refl (ctx : ParseContext) : same_frame ctx ctx.
Proof. unfold same_frame. repeat split; lia. Qed.

Lemma same_frame_trans (a b c : ParseContext) :
  same_frame a b -> same_frame b c -> same_frame a c.
Proof.
  unfold same_frame. intros (H1 & H2 & H3 & H4 & H5) (G1 & G2 & G3 & G4 & G5).
  repeat split; try congruence; lia.
Qed.

Lemma same_frame_advance (ctx : ParseContext) : same_frame ctx (advance ctx).
Proof. unfold same_frame. cbn. repeat split; lia. Qed.

Lemma same_frame_step (a b : ParseContext) :
  same_frame (advance a) b -> same_frame a b.
Proof. apply same_frame_trans, same_frame_advance. Qed.

Lemma tabular_rows_frame (baseIndent : Z) (d : Delimiter)
    (fields : list string) :
  forall remaining ctx rows above,
    same_frame ctx
      (snd (tabular_rows remaining ctx baseIndent d fields rows above)).
Proof.
  induction remaining as [|line remaining IH]; intros ctx rows above;
    cbn [tabular_rows]; [apply same_frame_refl|].
  repeat match goal with
         | |- context [if ?c then _ else _] => destruct c
         end; try apply same_frame_refl;
    apply same_frame_step, IH.
Qed.

Lemma parseTabularArray_frame (ctx : ParseContext) (baseIndent : Z)
    (fieldsStr : string) (v : GoonValue) (ctx' : ParseContext) :
  parseTabularArray ctx baseIndent fieldsStr = Returns (v, ctx') ->
  same_frame (advance ctx) ctx'.
Proof.
  unfold parseTabularArray. cbv zeta.
  destruct (_ >? _)%Z; [discriminate|].
  destruct (tabular_rows _ _ _ _ _ _ _) as [rows ctx''] eqn:Hrows.
  intros H. inversion H; subst.
  pose proof (tabular_rows_frame baseIndent (detectDelimiter fieldsStr)
                (filter isSafeKey
                   (split (delimiter_char (detectDelimiter fieldsStr))
                          fieldsStr))
                (skipn (index (advance (deeper ctx)))
                       (lines (advance (deeper ctx))))
                (advance (deeper ctx)) [] []) as Hf.
  rewrite Hrows in Hf. cbn [snd] in Hf.
  destruct Hf as (H1 & H2 & H3 & H4 & H5). cbn in H1, H2, H3, H4, H5.
  unfold same_frame. cbn. repeat split; try assumption; lia.
Qed.

Lemma parseTabularArray_throws (ctx : ParseContext) (baseIndent : Z)
    (fieldsStr : string) (e : error) :
  parseTabularArray ctx baseIndent fieldsStr = Throws e -> is_depth_error e.
Proof.
  unfold parseTabularArray. cbv zeta.
  destruct (_ >? _)%Z.
  - intros H. inversion H. eexists. reflexivity.
  - destruct (tabular_rows _ _ _ _ _ _ _). discriminate.
Qed.

Section Turns.
Variables parseObject_ parseListArray_ parseNestedValue_ : parser GoonValue.
Hypothesis parseObject_frame : keeps_frame parseObject_.
Hypothesis parseListArray_frame : keeps_frame parseListArray_.
Hypothesis parseNestedValue_frame : keeps_frame parseNestedValue_.
Hypothesis parseObject_throws : throws_depth_error parseObject_.
Hypothesis parseListArray_throws : throws_depth_error parseListArray_.
Hypothesis parseNestedValue_throws : throws_depth_error parseNestedValue_.

Lemma parseObject_turn_frame continue_ ctx baseIndent obj obj' ctx' :
  (forall c o o' c', continue_ c o = Returns (o', c') -> same_frame c c') ->
  parseObject_turn parseObject_ parseListArray_ continue_ ctx baseIndent obj
  = Returns (obj', ctx') ->
  same_frame ctx ctx'.
Proof.
  intros Hcont. unfold parseObject_turn. cbv zeta.
  split_matches; intros H; try discriminate H;
    try (inversion H; subst; apply same_frame_refl);
    apply Hcont in H;
    try (apply same_frame_step; exact H);
    (eapply same_frame_trans; [|exact H]);
    match goal with
    | E : parseTabularArray _ _ _ = Returns _ |- _ =>
        apply same_frame_step; exact (parseTabularArray_frame _ _ _ _ _ E)
    | E : parseObject_ _ _ = Returns _ |- _ =>
        apply same_frame_step; exact (parseObject_frame _ _ _ _ E)
    | E : parseListArray_ _ _ = Returns _ |- _ =>
        exact (parseListArray_frame _ _ _ _ E)
    end.
Qed.

Lemma parseObject_turn_throws continue_ ctx baseIndent obj e :
  (forall c o e, continue_ c o = Throws e -> is_depth_error e) ->
  parseObject_turn parseObject_ parseListArray_ continue_ ctx baseIndent obj
  = Throws e ->
  is_depth_error e.
Proof.
  intros Hcont. unfold parseObject_turn. cbv zeta.
  split_matches; intros H; try discriminate H;
    try (eapply Hcont; exact H);
    inversion H; subst;
    match goal with
    | E : parseTabularArray _ _ _ = Throws _ |- _ =>
        exact (parseTabularArray_throws _ _ _ _ E)
    | E : parseObject_ _ _ = Throws _ |- _ =>
        exact (parseObject_throws _ _ _ E)
    | E : parseListArray_ _ _ = Throws _ |- _ =>
        exact (parseListArray_throws _ _ _ E)
    end.
Qed.

Lemma parseListArray_turn_frame continue_ ctx baseIndent items items' ctx' :
  (forall c o o' c', continue_ c o = Returns (o', c') -> same_frame c c') ->
  parseListArray_turn parseNestedValue_ continue_ ctx baseIndent items
  = Returns (items', ctx') ->
  same_frame ctx ctx'.
Proof.
  intros Hcont. unfold parseListArray_turn. cbv zeta.
  split_matches; intros H; try discriminate H;
    try (inversion H; subst; apply same_frame_refl);
    apply Hcont in H;
    try (apply same_frame_step; exact H);
    (eapply same_frame_trans; [|exact H]);
    match goal with
    | E : parseNestedValue_ _ _ = Returns _ |- _ =>
        apply same_frame_step; exact (parseNestedValue_frame _ _ _ _ E)
    end.
Qed.

Lemma parseListArray_turn_throws continue_ ctx baseIndent items e :
  (forall c o e, continue_ c o = Throws e -> is_depth_error e) ->
  parseListArray_turn parseNestedValue_ continue_ ctx baseIndent items
  = Throws e ->
  is_depth_error e.
Proof.
  intros Hcont. unfold parseListArray_turn. cbv zeta.
  split_matches; intros H; try discriminate H;
    try (eapply Hcont; exact H);
    inversion H; subst;
    match goal with
    | E : parseNestedValue_ _ _ = Throws _ |- _ =>
        exact (parseNestedValue_throws _ _ _ E)
    end.
Qed.

Lemma parseNestedValue_body_frame :
  keeps_frame (parseNestedValue_body parseObject_).
Proof.
  intros ctx minIndent v ctx'. unfold parseNestedValue_body. cbv zeta.
  split_matches; intros H; try discriminate H;
    try (inversion H; subst;
         first [apply same_frame_refl | apply same_frame_advance]);
    try exact (parseObject_frame _ _ _ _ H);
    apply same_frame_step; exact (parseTabularArray_frame _ _ _ _ _ H).
Qed.

Lemma parseNestedValue_body_throws :
  throws_depth_error (parseNestedValue_body parseObject_).
Proof.
  intros ctx minIndent e. unfold parseNestedValue_body. cbv zeta.
  split_matches; intros H; try discriminate H;
    try exact (parseObject_throws _ _ _ H);
    exact (parseTabularArray_throws _ _ _ _ H).
Qed.
End Turns.

Lemma parseObject_body_frame loop :
  (forall c b o o' c', loop c b o = Returns (o', c') -> same_frame c c') ->
  keeps_frame (parseObject_body loop).
Proof.
  intros Hloop ctx baseIndent v ctx'. unfold parseObject_body. cbv zeta.
  destruct (_ >? _)%Z; [discriminate|].
  destruct (loop (deeper ctx) baseIndent []) as [[obj c]| |] eqn:E;
    try discriminate.
  intros H. inversion H; subst.
  destruct (Hloop _ _ _ _ _ E) as (H1 & H2 & H3 & H4 & H5).
  cbn in H1, H2, H3, H4, H5.
  unfold same_frame. cbn. repeat split; try assumption; lia.
Qed.

Lemma parseObject_body_throws loop :
  (forall c b o e, loop c b o = Throws e -> is_depth_error e) ->
  throws_depth_error (parseObject_body loop).
Proof.
  intros Hloop ctx baseIndent e. unfold parseObject_body. cbv zeta.
  destruct (_ >? _)%Z.
  { intros H. inversion H. eexists. reflexivity. }
  destruct (loop (deeper ctx) baseIndent []) as [[obj c]| |] eqn:E;
    try discriminate.
  intros H. inversion H; subst. eapply Hloop. exact E.
Qed.

Lemma parseListArray_body_frame loop :
  (forall c b o o' c', loop c b o = Returns (o', c') -> same_frame c c') ->
  keeps_frame (parseListArray_body loop).
Proof.
  intros Hloop ctx baseIndent v ctx'. unfold parseListArray_body. cbv zeta.
  destruct (_ >? _)%Z; [discriminate|].
  destruct (loop (advance (deeper ctx)) baseIndent []) as [[obj c]| |] eqn:E;
    try discriminate.
  intros H. inversion H; subst.
  destruct (Hloop _ _ _ _ _ E) as (H1 & H2 & H3 & H4 & H5).
  cbn in H1, H2, H3, H4, H5.
  unfold same_frame. cbn. repeat split; try assumption; lia.
Qed.

Lemma parseListArray_body_throws loop :
  (forall c b o e, loop c b o = Throws e -> is_depth_error e) ->
  throws_depth_error (parseListArray_body loop).
Proof.
  intros Hloop ctx baseIndent e. unfold parseListArray_body. cbv zeta.
  destruct (_ >? _)%Z.
  { intros H. inversion H. eexists. reflexivity. }
  destruct (loop (advance (deeper ctx)) baseIndent []) as [[obj c]| |] eqn:E;
    try discriminate.
  intros H. inversion H; subst. eapply Hloop. exact E.
Qed.

(** Whatever the fuel, the parsers keep the frame of the context, and
    throw nothing but the error of the recursion limit. *)
Lemma parsers_behave (fuel : nat) :
  (keeps_frame (parseObject fuel) /\ throws_depth_error (parseObject fuel))
  /\ ((forall c b o o' c',
         parseObject_loop fuel c b o = Returns (o', c') -> same_frame c c')
      /\ (forall c b o e,
            parseObject_loop fuel c b o = Throws e -> is_depth_error e))
  /\ (keeps_frame (parseListArray fuel)
      /\ throws_depth_error (parseListArray fuel))
  /\ ((forall c b o o' c',
         parseListArray_loop fuel c b o = Returns (o', c') ->
         same_frame c c')
      /\ (forall c b o e,
            parseListArray_loop fuel c b o = Throws e -> is_depth_error e))
  /\ (keeps_frame (parseNestedValue fuel)
      /\ throws_depth_error (parseNestedValue fuel)).
Proof.
  induction fuel as [|fuel ((HOf & HOt) & (HLf & HLt) & (HAf & HAt)
                            & (HALf & HALt) & (HNf & HNt))].
  { repeat split; unfold keeps_frame, throws_depth_error; intros;
      discriminate. }
  split; [|split; [|split; [|split]]].
  - change (parseObject (S fuel))
      with (parseObject_body (parseObject_loop fuel)).
    split; [now apply parseObject_body_frame
           | now apply parseObject_body_throws].
  - split.
    + intros c b.
      change (parseObject_loop (S fuel) c b)
        with (parseObject_turn (parseObject fuel) (parseListArray fuel)
                (fun ctx obj => parseObject_loop fuel ctx b obj) c b).
      intros o o' c'. apply parseObject_turn_frame; try assumption.
      intros x y z w. apply HLf.
    + intros c b.
      change (parseObject_loop (S fuel) c b)
        with (parseObject_turn (parseObject fuel) (parseListArray fuel)
                (fun ctx obj => parseObject_loop fuel ctx b obj) c b).
      intros o e. apply parseObject_turn_throws; try assumption.
      intros x y z. apply HLt.
  - change (parseListArray (S fuel))
      with (parseListArray_body (parseListArray_loop fuel)).
    split; [now apply parseListArray_body_frame
           | now apply parseListArray_body_throws].
  - split.
    + intros c b.
      change (parseListArray_loop (S fuel) c b)
        with (parseListArray_turn (parseNestedValue fuel)
                (fun ctx items => parseListArray_loop fuel ctx b items) c b).
      intros o o' c'. apply parseListArray_turn_frame; try assumption.
      intros x y z w. apply HALf.
    + intros c b.
      change (parseListArray_loop (S fuel) c b)
        with (parseListArray_turn (parseNestedValue fuel)
                (fun ctx items => parseListArray_loop fuel ctx b items) c b).
      intros o e. apply parseListArray_turn_throws; try assumption.
      intros x y z. apply HALt.
  - change (parseNestedValue (S fuel))
      with (parseNestedValue_body (parseObject fuel)).
    split; [now apply parseNestedValue_body_frame
           | now apply parseNestedValue_body_throws].
Qed.

(** X15: the parsers of the decoder leave the context as they found it
    but for the cursor, which does not move back: when one of them
    returns, the lines, the dictionary, the indentation unit and the
    depth are what they were when it was called.  A call of
    [parseTabularArray] moves the cursor past the header at least. *)
Theorem parsers_keep_the_frame (fuel : nat) :
  keeps_frame (parseObject fuel)
  /\ keeps_frame (parseListArray fuel)
  /\ keeps_frame (parseNestedValue fuel)
  /\ (forall fieldsStr ctx baseIndent v ctx',
        parseTabularArray ctx baseIndent fieldsStr = Returns (v, ctx') ->
        same_frame ctx ctx' /\ index ctx < index ctx')
  /\ (forall ctx v ctx',
        parseRoot fuel ctx = Returns (v, ctx') -> same_frame ctx ctx').
Proof.
  destruct (parsers_behave fuel)
    as ((HO & _) & _ & (HA & _) & _ & (HN & _)).
  split; [exact HO|]. split; [exact HA|]. split; [exact HN|]. split.
  - intros fieldsStr ctx baseIndent v ctx' H.
    apply parseTabularArray_frame in H. split.
    + now apply same_frame_step.
    + destruct H as (_ & _ & _ & _ & H). cbn in H. lia.
  - intros ctx v ctx'. unfold parseRoot. cbv zeta.
    split_matches; intros H; try discriminate H;
      try (inversion H; subst;
           first [apply same_frame_refl | apply same_frame_advance]);
      try exact (HO _ _ _ _ H); try exact (HA _ _ _ _ H);
      apply same_frame_step; exact (parseTabularArray_frame _ _ _ _ _ H).
Qed.

(** ** What [decode] throws *)

Lemma applyReviver_throws (reviver : string -> GoonValue -> GoonValue)
    (value : GoonValue) :
  forall key depth e,
    applyReviver value reviver key depth = Throw e ->
    e = reviver_depth_error.
Proof.
  induction value as [| b | n | s | items IH | proto props IH]
    using GoonValue_ind'; intros key depth e; cbn [applyReviver];
    destruct (depth >? MAX_RECURSION_DEPTH)%Z;
    try (intros H; inversion H; reflexivity); try discriminate.
  - match goal with
    | |- bind (?go items 0) _ = _ -> _ =>
        assert (Hgo : forall i e, go items i = Throw e ->
                                  e = reviver_depth_error)
    end.
    { induction IH as [|item l Hitem _ IHl]; intros i e0; [discriminate|].
      destruct (applyReviver item reviver (nat_to_string i) (depth + 1))
        as [r|e1] eqn:E1; cbn [bind].
      - match goal with
        | |- bind ?rest _ = _ -> _ => destruct rest as [rest'|e2] eqn:E2
        end; cbn [bind]; [discriminate|].
        intros H. inversion H; subst. eapply IHl. exact E2.
      - intros H. inversion H; subst. eapply Hitem. exact E1. }
    match goal with
    | |- bind ?g _ = _ -> _ => destruct g as [arr|e1] eqn:Hg
    end; cbn [bind]; [discriminate|].
    intros H. inversion H; subst. eapply Hgo. exact Hg.
  - match goal with
    | |- bind (?go props []) _ = _ -> _ =>
        assert (Hgo : forall obj e, go props obj = Throw e ->
                                    e = reviver_depth_error)
    end.
    { induction IH as [|[k v] l Hkv _ IHl]; intros obj e0; [discriminate|].
      cbn [snd] in Hkv.
      destruct (isSafeKey k); [|apply IHl].
      destruct (applyReviver v reviver k (depth + 1)) as [r|e1] eqn:E1;
        cbn [bind]; [apply IHl|].
      intros H. inversion H; subst. eapply Hkv. exact E1. }
    match goal with
    | |- bind ?g _ = _ -> _ => destruct g as [obj|e1] eqn:Hg
    end; cbn [bind]; [discriminate|].
    intros H. inversion H; subst. eapply Hgo. exact Hg.
Qed.

Lemma parseRoot_throws (fuel : nat) (ctx : ParseContext) (e : error) :
  parseRoot fuel ctx = Throws e -> is_depth_error e.
Proof.
  destruct (parsers_behave fuel)
    as ((_ & HO) & _ & (_ & HA) & _ & _).
  unfold parseRoot. cbv zeta.
  split_matches; intros H; try discriminate H;
    try exact (HO _ _ _ H); try exact (HA _ _ _ H);
    exact (parseTabularArray_throws _ _ _ _ H).
Qed.

(** X16: [decode] rejects no text for its form.  Whatever the input
    and the options, it returns a value, or the input is larger than the
    size limit and it throws the error of the size check, or it throws
    the decode error of the recursion limit, from a parser with the
    number of a line or from the reviver. *)
Theorem decode_throws_for_size_or_depth_only (input : string)
    (options : DecodeOptions) :
  (exists v, decode input options = Returns v)
  \/ ((MAX_INPUT_SIZE < utf8_length input)%Z
      /\ exists message, decode input options = Throws (Error message))
  \/ (exists line,
        decode input options
        = Throws (GoonDecodeError "Maximum recursion depth (100) exceeded"
                                  (Some line)))
  \/ (reviver options <> None
      /\ decode input options
         = Throws (GoonDecodeError
                     "Maximum recursion depth (100) exceeded in reviver"
                     None)).
Proof.
  destruct (Z.ltb_spec MAX_INPUT_SIZE (utf8_length input)) as [Hbig|Hsmall].
  { right. left. split; [exact Hbig|]. eexists.
    now apply decode_rejects_large. }
  assert (Hfuel := decode_has_enough_fuel input options).
  revert Hfuel. unfold decode.
  rewrite (decode_accepts_small input options Hsmall). cbv zeta.
  destruct (length (input_lines input) =? 0); [left; now eexists|].
  destruct (match input_lines input with
            | [] => _
            | first :: _ => _
            end) as [dictionary startIndex].
  destruct (length (input_lines input) <=? startIndex); [left; now eexists|].
  destruct (parseRoot _ _) as [[v c]|e|] eqn:Hroot.
  - destruct (reviver options) as [r|] eqn:Hr; [|left; now eexists].
    destruct (applyReviver v r "" 0) as [v'|e] eqn:Hrev;
      [left; now eexists|].
    intros _. right. right. right. split; [discriminate|].
    now rewrite (applyReviver_throws r v "" 0%Z e Hrev).
  - intros _. right. right. left.
    destruct (parseRoot_throws _ _ _ Hroot) as [line ->]. now exists line.
  - intros H. now contradiction H.
Qed.

(** ** When [decode] returns *)

Lemma indented_at_most_frame (limit : nat) (ctx ctx' : ParseContext) :
  same_frame ctx ctx' -> indented_at_most limit ctx ->
  indented_at_most limit ctx'.
Proof.
  intros (H1 & _ & H3 & _) H. unfold indented_at_most in *.
  now rewrite H1, H3.
Qed.

Lemma line_level (limit : nat) (ctx : ParseContext) (line : string) :
  indented_at_most limit ctx -> line_at ctx = Some line ->
  getIndentLevel line (indent ctx) <= limit.
Proof.
  unfold indented_at_most, line_at. intros H Hline.
  rewrite Forall_forall in H. apply H. eapply nth_error_In. exact Hline.
Qed.

Lemma parseTabularArray_returns (ctx : ParseContext) (baseIndent : Z)
    (fieldsStr : string) (e : error) :
  (depth ctx < MAX_RECURSION_DEPTH)%Z ->
  parseTabularArray ctx baseIndent fieldsStr <> Throws e.
Proof.
  intros Hd. unfold parseTabularArray. cbv zeta.
  destruct (Z.gtb_spec (depth (deeper ctx)) MAX_RECURSION_DEPTH) as [H|_].
  { cbn in H. lia. }
  destruct (tabular_rows _ _ _ _ _ _ _). discriminate.
Qed.

Section TurnsWithoutThrow.
Variables parseObject_ parseListArray_ : parser GoonValue.
Variable continue_ :
  ParseContext -> list (string * GoonValue)
  -> outcome (list (string * GoonValue) * ParseContext).
Variable baseIndent : Z.
Hypothesis parseObject_frame : keeps_frame parseObject_.
Hypothesis parseObject_returns :
  forall c b e,
    indented_at_most 98 c -> (depth c <= b <= 98)%Z ->
    parseObject_ c b <> Throws e.
Hypothesis continue_returns :
  forall c o e,
    indented_at_most 98 c -> (depth c <= baseIndent + 1)%Z ->
    continue_ c o <> Throws e.

Lemma parseObject_turn_returns ctx obj e :
  indented_at_most 98 ctx -> (depth ctx <= baseIndent + 1)%Z ->
  (baseIndent <= 98)%Z ->
  parseObject_turn parseObject_ parseListArray_ continue_ ctx baseIndent obj
  <> Throws e.
Proof.
  intros Hlines Hdepth Hbase. unfold parseObject_turn. cbv zeta.
  destruct (line_at ctx) as [line|] eqn:Hline; [|discriminate].
  assert (Hlevel := line_level 98 ctx line Hlines Hline).
  assert (Hnext : forall c, same_frame ctx c ->
                            forall o, continue_ c o <> Throws e).
  { intros c Hc o. apply continue_returns.
    - now apply (indented_at_most_frame 98 ctx).
    - destruct Hc as (_ & _ & _ & Hd & _). lia. }
  destruct (Z.ltb_spec (Z.of_nat (getIndentLevel line (indent ctx)))
                       baseIndent) as [_|Hge]; [discriminate|].
  destruct (Z.gtb_spec (Z.of_nat (getIndentLevel line (indent ctx)))
                       baseIndent) as [_|Hle];
    [apply Hnext, same_frame_advance|].
  split_matches;
    try (exfalso; eapply dead_list_branch; eassumption);
    try discriminate;
    try (apply Hnext, same_frame_advance);
    match goal with
    | E : parseTabularArray _ _ _ = Throws _ |- _ =>
        exfalso; revert E; apply parseTabularArray_returns;
        unfold MAX_RECURSION_DEPTH; lia
    | E : parseTabularArray _ _ _ = Returns _ |- _ =>
        apply Hnext, same_frame_step;
        exact (parseTabularArray_frame _ _ _ _ _ E)
    | E : parseObject_ _ _ = Returns _ |- _ =>
        apply Hnext, same_frame_step; exact (parseObject_frame _ _ _ _ E)
    | E : parseObject_ _ _ = Throws _ |- _ =>
        exfalso; revert E; apply parseObject_returns;
        [apply (indented_at_most_frame 98 ctx);
         [apply same_frame_advance | exact Hlines]|]
    end.
  (* the indentation of the nested object is that of a line *)
  match goal with
  | E : (if isSafeKey ?k then _ else None) = Some _ |- _ =>
      destruct (isSafeKey k); [|discriminate E];
      unfold deeper_indent in E;
      destruct (line_at (advance ctx)) as [next|] eqn:Hnextline;
        [|discriminate E];
      assert (Hl := line_level 98 (advance ctx) next
                      (indented_at_most_frame 98 ctx _
                         (same_frame_advance ctx) Hlines) Hnextline);
      cbn [indent advance] in E, Hl;
      destruct (Z.gtb_spec (Z.of_nat (getIndentLevel next (indent ctx)))
                           (Z.of_nat (getIndentLevel line (indent ctx))));
        [|discriminate E];
      inversion E; subst; cbn [depth advance]; lia
  end.
Qed.
End TurnsWithoutThrow.

Lemma parseObject_returns_when_shallow (fuel : nat) :
  (forall ctx b e,
      indented_at_most 98 ctx -> (depth ctx <= b <= 98)%Z ->
      parseObject fuel ctx b <> Throws e)
  /\ (forall ctx b obj e,
        indented_at_most 98 ctx -> (depth ctx <= b + 1)%Z -> (b <= 98)%Z ->
        parseObject_loop fuel ctx b obj <> Throws e).
Proof.
  induction fuel as [|fuel (HO & HL)]; [split; intros; discriminate|].
  split.
  - intros ctx b e Hlines Hd.
    change (parseObject (S fuel) ctx b)
      with (parseObject_body (parseObject_loop fuel) ctx b).
    unfold parseObject_body. cbv zeta.
    destruct (Z.gtb_spec (depth (deeper ctx)) MAX_RECURSION_DEPTH) as [H|_].
    { cbn in H. unfold MAX_RECURSION_DEPTH in H. lia. }
    destruct (parseObject_loop fuel (deeper ctx) b [])
      as [[obj c]|e'|] eqn:Hloop; try discriminate.
    exfalso. revert Hloop. apply HL; [exact Hlines | cbn; lia | lia].
  - intros ctx b obj e Hlines Hd Hb.
    change (parseObject_loop (S fuel) ctx b obj)
      with (parseObject_turn (parseObject fuel) (parseListArray fuel)
              (fun ctx obj => parseObject_loop fuel ctx b obj) ctx b obj).
    apply parseObject_turn_returns; try assumption.
    + apply (parsers_behave fuel).
    + intros c o e' Hc Hdc. apply HL; assumption.
Qed.

(** X17: [decode] returns a value, without a reviver, for every text
    within the size limit in which no line is indented by more than 98
    indentation units: no text is refused for what its lines say. *)
Theorem decode_returns_on_shallow_text (input : string) :
  (utf8_length input <=? MAX_INPUT_SIZE)%Z = true ->
  forallb (fun line =>
             getIndentLevel line (detectIndent (input_lines input)) <=? 98)
          (input_lines input) = true ->
  exists v, decode input no_reviver = Returns v.
Proof.
  intros Hsize Hlevels. apply Z.leb_le in Hsize.
  assert (Hfuel := decode_has_enough_fuel input no_reviver).
  revert Hfuel. unfold decode.
  rewrite (decode_accepts_small input no_reviver Hsize). cbv zeta.
  destruct (length (input_lines input) =? 0); [now eexists|].
  destruct (match input_lines input with
            | [] => _
            | first :: _ => _
            end) as [dictionary startIndex].
  destruct (length (input_lines input) <=? startIndex); [now eexists|].
  set (ctx := {| lines := input_lines input; index := startIndex;
                 dictionary := dictionary;
                 indent := detectIndent (input_lines input);
                 depth := 0 |}).
  assert (Hctx : indented_at_most 98 ctx).
  { unfold indented_at_most. cbn [lines indent ctx].
    apply Forall_forall. intros line Hline.
    rewrite forallb_forall in Hlevels. now apply Nat.leb_le, Hlevels. }
  destruct (parseRoot _ ctx) as [[v c]|e|] eqn:Hroot.
  - cbn [reviver no_reviver]. now eexists.
  - exfalso. revert Hroot. unfold parseRoot. cbv zeta.
    destruct (line_at ctx); [|discriminate].
    destruct (String.eqb (trim s) "{}"); [discriminate|].
    destruct (String.eqb (trim s) "[]"); [discriminate|].
    destruct (standaloneTabularMatch (trim s)).
    { apply parseTabularArray_returns. reflexivity. }
    destruct (standaloneSimpleArrMatch (trim s)); [discriminate|].
    destruct (_ || _); [|discriminate].
    apply parseObject_returns_when_shallow; [exact Hctx | cbn; lia].
  - intros H. now contradiction H.
Qed.

Lemma decode_returns_on_shallow_text_witness :
  (utf8_length "a: 1" <=? MAX_INPUT_SIZE)%Z = true
  /\ forallb (fun line =>
                getIndentLevel line (detectIndent (input_lines "a: 1"))
                <=? 98)
             (input_lines "a: 1") = true
  /\ exists v, decode "a: 1" no_reviver = Returns v.
Proof.
  split; [reflexivity|]. split; [reflexivity|].
  apply (decode_returns_on_shallow_text "a: 1"); reflexivity.
Defined.

(** ** Lines *)

Lemma drop_while_stops (p : ascii -> bool) (s : string) (c : ascii)
    (r : string) :
  drop_while p s = String c r -> p c = false.
Proof.
  induction s as [|x s IH]; [discriminate|].
  cbn [drop_while]. destruct (p x) eqn:Hx; [exact IH|].
  intros H. inversion H; subst. exact Hx.
Qed.

(** A string that [trim] leaves as it is has no white space at its
    ends. *)
Lemma trim_fixed_last (s : string) (c : ascii) (r : string) :
  trim s = s -> rev s = String c r -> is_space c = false.
Proof.
  intros Ht Hr. rewrite <- Ht in Hr. unfold trim, trim_end in Hr.
  rewrite rev_involutive in Hr. eapply drop_while_stops. exact Hr.
Qed.

Lemma rev_head_last (s : string) (c : ascii) :
  rev (s ++ String c "") = String c (rev s).
Proof. now rewrite rev_append. Qed.

Lemma trim_end_keeps_head (c : ascii) (r : string) :
  is_space c = false -> exists r', trim_end (String c r) = String c r'.
Proof.
  intros Hc. unfold trim_end.
  change (String c r) with (String c "" ++ r). rewrite rev_append.
  change (rev (String c "")) with (String c "").
  induction (rev r) as [|x t IH].
  - cbn. rewrite Hc. exists "". reflexivity.
  - cbn [append drop_while]. destruct (is_space x).
    + exact IH.
    + change (String x (t ++ String c "")) with ((String x t) ++ String c "").
      rewrite rev_head_last. eexists. reflexivity.
Qed.

Lemma trim_fixed_first (s : string) (c : ascii) (r : string) :
  trim s = s -> s = String c r -> is_space c = false.
Proof.
  intros Ht ->. unfold trim, trim_start in Ht.
  destruct (is_space c) eqn:Hc; [|reflexivity]. exfalso.
  cbn [drop_while] in Ht. rewrite Hc in Ht.
  destruct (drop_while is_space r) as [|x t] eqn:Hd.
  - discriminate Ht.
  - assert (Hx := drop_while_stops _ _ _ _ Hd).
    destruct (trim_end_keeps_head x t Hx) as [r' E]. rewrite E in Ht.
    inversion Ht; subst. congruence.
Qed.

Lemma trim_between (a b : string) :
  (forall c r, a = String c r -> is_space c = false) ->
  is_empty a = false ->
  (forall c r, rev b = String c r -> is_space c = false) ->
  is_empty b = false ->
  trim (a ++ b) = a ++ b.
Proof.
  intros Ha Hane Hb Hbne. apply trim_clean.
  - destruct a as [|x a']; [discriminate|].
    intros c r E. inversion E; subst. now apply (Ha c a').
  - intros c r E. rewrite rev_append in E.
    destruct (rev b) as [|y t] eqn:Hrev.
    + rewrite <- is_empty_rev, Hrev in Hbne. discriminate.
    + inversion E; subst. now apply (Hb c t).
Qed.

Lemma filter_keeps_all {A} (p : A -> bool) (l : list A) :
  Forall (fun x => p x = true) l -> filter p l = l.
Proof.
  induction 1 as [|x l Hx _ IH]; [reflexivity|].
  cbn [filter]. now rewrite Hx, IH.
Qed.

Lemma split_lines (lines : list string) :
  lines <> [] ->
  Forall (fun line => any_char (fun c => Ascii.eqb c LF) line = false
                      /\ is_empty (trim line) = false) lines ->
  input_lines (join LF_STR lines) = lines.
Proof.
  intros Hne H. unfold input_lines, LF_STR.
  rewrite split_join; [|exact Hne|].
  - apply filter_keeps_all. eapply Forall_impl; [|exact H].
    intros line [_ Hl]. cbv beta. destruct (trim line); [discriminate|].
    reflexivity.
  - eapply Forall_impl; [|exact H]. now intros line [Hl _].
Qed.

Lemma any_char_weaken (p q : ascii -> bool) (s : string) :
  (forall c, q c = true -> p c = true) ->
  any_char p s = false -> any_char q s = false.
Proof.
  intros Hqp. induction s as [|c s IH]; [reflexivity|].
  cbn. intros H. apply orb_false_iff in H as [Hc Hs].
  rewrite (IH Hs), orb_false_r.
  destruct (q c) eqn:Hq; [|reflexivity]. now rewrite (Hqp c Hq) in Hc.
Qed.

Lemma escape_char_no_terminator (c : ascii) :
  any_char is_line_terminator (escape_char c) = false.
Proof.
  unfold escape_char.
  destruct (Ascii.eqb_spec c BACKSLASH); [reflexivity|].
  destruct (Ascii.eqb_spec c QUOTE); [reflexivity|].
  destruct (Ascii.eqb c LF) eqn:Hl; [reflexivity|].
  destruct (Ascii.eqb c CR) eqn:Hc; [reflexivity|].
  destruct (Ascii.eqb_spec c TAB); [reflexivity|].
  cbn. unfold is_line_terminator. now rewrite Hl, Hc.
Qed.

Lemma escape_no_terminator (s : string) :
  any_char is_line_terminator (escape s) = false.
Proof.
  induction s as [|c s IH]; [reflexivity|].
  cbn [escape]. now rewrite any_char_append, escape_char_no_terminator, IH.
Qed.

Lemma quoted_no_terminator (s : string) :
  any_char is_line_terminator (quoted s) = false.
Proof.
  unfold quoted. cbn [any_char]. rewrite any_char_append, escape_no_terminator.
  reflexivity.
Qed.

Lemma number_char_no_terminator (c : ascii) :
  number_char c = true -> is_line_terminator c = false.
Proof.
  intros H. destruct (number_char_cases c H) as [Hc|[->| ->]];
    [digit_case c Hc| |]; reflexivity.
Qed.

(** What [encodePrimitive] writes for a value that fits on a line. *)
Lemma fits_line_text (dict : Dictionary) (entries : list string)
    (v : GoonValue) :
  fits_line v = true ->
  let text := encodePrimitive v dict false in
  any_char is_line_terminator text = false
  /\ trim text = text /\ is_empty text = false
  /\ parsePrimitive text entries = v.
Proof.
  destruct v as [|[|]|n|s| |]; try discriminate; intros H; cbv zeta.
  1-3: (cbn [encodePrimitive]; repeat split; reflexivity).
  - cbn [fits_line reads_back] in H.
    assert (Hp := plainly_written_reads_back n entries H).
    destruct n as [| |m e]; try discriminate.
    cbn [encodePrimitive isFinite negb].
    assert (Hchars := number_to_string_chars m e).
    split; [apply (any_char_none number_char);
            [apply number_char_no_terminator | exact Hchars]|].
    split; [apply trim_no_space, (any_char_none number_char);
            [apply number_char_not_space | exact Hchars]|].
    split; [apply number_to_string_not_empty | exact Hp].
  - cbn [fits_line] in H. cbn [encodePrimitive].
    destruct (String.eqb_spec s "") as [->|Hne].
    { repeat split; reflexivity. }
    assert (Hne' : is_empty s = false) by now destruct s.
    destruct (needsQuoting s) eqn:Hq.
    + rewrite quoteString_quoted by exact Hq.
      split; [apply quoted_no_terminator|]. split; [apply trim_quoted|].
      split; [reflexivity | apply parsePrimitive_quoted].
    + cbn [orb] in H. apply andb_true_iff in H as [Hlq Htrim].
      apply negb_true_iff in Hlq. apply String.eqb_eq in Htrim.
      rewrite quoteString_plain by exact Hq.
      destruct (needsQuoting_false s Hq) as [->|Hf]; [contradiction|].
      destruct Hf as (_ & _ & _ & Hsep & _).
      split.
      { eapply any_char_weaken; [|exact Hsep].
        intros c Hc. unfold is_line_terminator in Hc.
        apply orb_true_iff in Hc as [Hc|Hc]; rewrite Hc;
          now rewrite ?orb_true_r. }
      split; [exact Htrim|]. split; [exact Hne'|].
      now apply parsePrimitive_unquoted.
Qed.

(** ** Lines that start with a key *)

Ltac key_char_cases c H :=
  destruct c as [[|] [|] [|] [|] [|] [|] [|] [|]]; try discriminate H.

Lemma key_line_shape (c : ascii) (r : string) :
  is_key_char c = true ->
  String.eqb (String c r) "{}" = false
  /\ String.eqb (String c r) "[]" = false
  /\ standaloneTabularMatch (String c r) = None
  /\ standaloneSimpleArrMatch (String c r) = None
  /\ startsWith (String c r) "$:" = false
  /\ is_space c = false
  /\ is_key_char c = true.
Proof.
  intros H. key_char_cases c H; repeat split; reflexivity.
Qed.

Lemma key_char_facts (c : ascii) :
  is_key_char c = true ->
  is_space c = false /\ Ascii.eqb c LF = false /\ Ascii.eqb c ":" = false.
Proof. intros H. key_char_cases c H; repeat split; reflexivity. Qed.

Lemma match_key_line (key rest : string) :
  is_empty key = false -> all_chars is_key_char key = true ->
  (forall c r, rest = String c r -> is_key_char c = false) ->
  match_key (key ++ rest) = Some (key, rest).
Proof.
  intros Hne Hkey Hrest. unfold match_key.
  rewrite span_all by assumption. now rewrite Hne.
Qed.

Lemma keyValueMatch_line (key text : string) :
  is_empty key = false -> all_chars is_key_char key = true ->
  any_char is_line_terminator text = false ->
  (forall c r, text = String c r -> is_space c = false) ->
  is_empty text = false ->
  keyValueMatch (key ++ ": " ++ text) = Some (key, text).
Proof.
  intros Hne Hkey Hterm Hhead Htne. unfold keyValueMatch.
  rewrite match_key_line; [|assumption|assumption|].
  - cbn [append]. unfold match_value. cbn [drop_while].
    change (is_space " ") with true. cbv iota.
    rewrite (drop_while_head _ text Hhead), Htne. cbn [negb].
    unfold match_rest. now rewrite Htne, Hterm.
  - intros c r E. inversion E. reflexivity.
Qed.

Lemma getIndentLevel_zero (line ind : string) :
  startsWith line ind = false -> getIndentLevel line ind = 0.
Proof.
  intros H. unfold getIndentLevel.
  destruct (String.length ind =? 0); [reflexivity|].
  destruct (String.length line); [reflexivity|].
  cbn [indent_level]. now rewrite H.
Qed.

Lemma detectIndent_flush (lines : list string) :
  Forall (fun line => forall c r, line = String c r -> is_space c = false)
         lines ->
  detectIndent lines = "  ".
Proof.
  induction 1 as [|line lines Hl _ IH]; [reflexivity|].
  cbn [detectIndent]. destruct line as [|c r]; [exact IH|].
  cbn [span]. now rewrite (Hl c r eq_refl).
Qed.

Lemma skipn_head {A} (l : list A) (i : nat) (x : A) (rest : list A) :
  skipn i l = x :: rest -> nth_error l i = Some x /\ skipn (S i) l = rest.
Proof.
  revert i. induction l as [|y l IH]; intros i H.
  - destruct i; discriminate.
  - destruct i as [|i]; [inversion H; subst; split; reflexivity|].
    cbn [skipn] in H. apply IH in H as [H1 H2]. split; assumption.
Qed.

Lemma fold_set_prop_fresh (props obj : list (string * GoonValue)) :
  NoDup (map fst obj ++ map fst props) ->
  fold_left (fun o kv => set_prop o (fst kv) (snd kv)) props obj
  = (obj ++ props)%list.
Proof.
  revert obj. induction props as [|[k v] props IH]; intros obj Hnd.
  - now rewrite app_nil_r.
  - cbn [fold_left fst snd map] in *.
    rewrite set_prop_fresh
      by (intros Hin; apply NoDup_remove_2 in Hnd; apply Hnd;
          apply in_or_app; now left).
    rewrite IH; [now rewrite <- app_assoc|].
    rewrite map_app, <- app_assoc. exact Hnd.
Qed.

(** The line of a property starts with its key and reads as the
    property. *)
Lemma property_line_facts (dict : Dictionary) (entries : list string)
    (kv : string * GoonValue) :
  record_key (fst kv) = true -> fits_line (snd kv) = true ->
  let line := property_line dict kv in
  (exists c r, line = String c r /\ is_key_char c = true)
  /\ any_char (fun c => Ascii.eqb c LF) line = false
  /\ trim line = line
  /\ keyValueMatch line
     = Some (fst kv, encodePrimitive (snd kv) dict false)
  /\ parsePrimitive (trim (encodePrimitive (snd kv) dict false)) entries
     = snd kv.
Proof.
  destruct kv as [k v]. cbn [fst snd]. intros Hk Hv. cbv zeta.
  unfold record_key in Hk.
  apply andb_true_iff in Hk as [Hk Hsafe].
  apply andb_true_iff in Hk as [Hk _].
  apply andb_true_iff in Hk as [Hne Hchars]. apply negb_true_iff in Hne.
  destruct (fits_line_text dict entries v Hv) as (Hterm & Htrim & Htne & Hp).
  unfold property_line. cbn [fst snd].
  set (text := encodePrimitive v dict false) in *.
  assert (Hhead : forall c r, text = String c r -> is_space c = false).
  { intros c r E. exact (trim_fixed_first text c r Htrim E). }
  assert (Hlast : forall c r, rev text = String c r -> is_space c = false).
  { intros c r E. exact (trim_fixed_last text c r Htrim E). }
  assert (Hfirst : exists c r, k = String c r /\ is_key_char c = true).
  { destruct k as [|c k']; [discriminate|]. exists c, k'.
    split; [reflexivity|]. cbn [all_chars] in Hchars.
    now apply andb_true_iff in Hchars as [Hc _]. }
  split.
  { destruct Hfirst as (c & k' & -> & Hc).
    exists c, (k' ++ ": " ++ text). split; [reflexivity | exact Hc]. }
  split.
  { rewrite !any_char_append.
    rewrite (any_char_none is_key_char _ k
               (fun x Hx => proj1 (proj2 (key_char_facts x Hx))) Hchars).
    cbn [any_char orb].
    change (Ascii.eqb ":" LF) with false. change (Ascii.eqb " " LF) with false.
    cbn [orb].
    eapply any_char_weaken; [|exact Hterm].
    intros x Hx. unfold is_line_terminator. now rewrite Hx. }
  split.
  { rewrite <- append_assoc. apply trim_between.
    - destruct Hfirst as (c & k' & -> & Hc). cbn [append].
      intros x r E. injection E as <- _. apply (key_char_facts c Hc).
    - destruct Hfirst as (c & k' & -> & Hc). reflexivity.
    - exact Hlast.
    - exact Htne. }
  split; [now apply keyValueMatch_line|].
  rewrite Htrim. exact Hp.
Qed.

(** ** Flat records *)

Lemma encodePrimitive_no_lookup (v : GoonValue) (dict : Dictionary)
    (useDictionary : bool) :
  lookup dict = [] ->
  encodePrimitive v dict useDictionary = encodePrimitive v dict false.
Proof.
  intros H. destruct v; try reflexivity. cbn [encodePrimitive].
  rewrite H. now destruct useDictionary.
Qed.

(** The loop of [parseObject] over the lines of the properties of a
    flat record. *)
Lemma parseObject_loop_flat (dict : Dictionary) (all entries : list string)
    (d : Z) :
  forall props i obj fuel,
    skipn i all = map (property_line dict) props ->
    forallb (fun kv => record_key (fst kv) && fits_line (snd kv)) props
    = true ->
    length props < fuel ->
    parseObject_loop fuel
      {| lines := all; index := i; dictionary := entries; indent := "  ";
         depth := d |} 0 obj
    = Returns (fold_left (fun o kv => set_prop o (fst kv) (snd kv)) props obj,
               {| lines := all; index := i + length props;
                  dictionary := entries; indent := "  "; depth := d |}).
Proof.
  induction props as [|kv props IH]; intros i obj fuel Hskip Hok Hfuel.
  - destruct fuel as [|fuel]; [cbn in Hfuel; lia|].
    cbn [parseObject_loop]. unfold parseObject_turn, line_at.
    cbn [lines index map] in *.
    assert (Hnone : nth_error all i = None).
    { apply nth_error_None. rewrite <- (firstn_skipn i all) at 1.
      rewrite Hskip, app_nil_r, length_firstn. lia. }
    rewrite Hnone. cbn [length]. now rewrite Nat.add_0_r.
  - destruct fuel as [|fuel]; [cbn in Hfuel; lia|].
    cbn [map] in Hskip. apply skipn_head in Hskip as [Hline Hrest].
    cbn [forallb] in Hok. apply andb_true_iff in Hok as [Hkv Hok].
    apply andb_true_iff in Hkv as [Hk Hv].
    destruct (property_line_facts dict entries kv Hk Hv)
      as ((c & r & Hshape & Hc) & _ & Htrim & Hmatch & Hparse).
    cbn [parseObject_loop]. unfold parseObject_turn, line_at.
    cbn [lines index dictionary indent]. rewrite Hline. cbv zeta.
    rewrite getIndentLevel_zero
      by (rewrite Hshape; cbn [startsWith];
          destruct (key_char_facts c Hc) as (Hs & _);
          destruct (Ascii.eqb_spec c " ") as [->|_]; [discriminate Hs|];
          reflexivity).
    cbn [Z.of_nat Z.ltb Z.gtb Z.compare].
    rewrite Htrim, Hmatch.
    unfold set_safe.
    assert (Hsafe : isSafeKey (fst kv) = true).
    { unfold record_key in Hk. now apply andb_true_iff in Hk as [_ Hk]. }
    rewrite Hsafe, Hparse.
    unfold advance. cbn [lines index dictionary indent depth].
    rewrite (IH (S i) _ fuel Hrest Hok) by (cbn in Hfuel; lia).
    cbn [fold_left length]. do 2 f_equal. f_equal. lia.
Qed.

Lemma fits_line_primitive (v : GoonValue) :
  fits_line v = true -> isPrimitive v = true.
Proof. destruct v; try reflexivity; discriminate. Qed.

Lemma flat_record_lines (opts : InternalOptions) (dict : Dictionary)
    (useDictionary : bool) (encodeArray_ encodeObject_ : encoder)
    (recursionDepth : Z) (props : list (string * GoonValue)) :
  lookup dict = [] ->
  forallb (fun kv => record_key (fst kv) && fits_line (snd kv)) props = true ->
  for_each_where (fun kv : string * GoonValue => isSafeKey (fst kv))
    (fun kv =>
       let '(key, value) := kv in
       if isPrimitive value then
         Ok [repeat_string (Encode.indent opts) 0 ++ key ++ ": "
             ++ encodePrimitive value dict useDictionary]
       else if isArray value then
         encodeArray_ value 0 (Some key) (recursionDepth + 1)%Z
       else if isPlainObject value then
         encodeObject_ value 0 (Some key) (recursionDepth + 1)%Z
       else Ok [])
    props
  = Ok (map (property_line dict) props).
Proof.
  intros Hdict. induction props as [|[k v] props IH]; intros H; [reflexivity|].
  cbn [forallb fst snd] in H. apply andb_true_iff in H as [Hkv Hrest].
  apply andb_true_iff in Hkv as [Hk Hv].
  assert (Hsafe : isSafeKey k = true).
  { unfold record_key in Hk. now apply andb_true_iff in Hk as [_ Hk]. }
  cbn [for_each_where fst]. rewrite Hsafe, (fits_line_primitive v Hv).
  cbn [bind]. rewrite (IH Hrest). cbn [bind app map].
  unfold property_line at 1. cbn [fst snd repeat_string append].
  now rewrite (encodePrimitive_no_lookup v dict useDictionary Hdict).
Qed.

Lemma safe_props_filter (props : list (string * GoonValue)) :
  forallb (fun kv => record_key (fst kv) && fits_line (snd kv)) props = true ->
  filter (fun kv : string * GoonValue => isSafeKey (fst kv)) props = props.
Proof.
  intros H. apply filter_keeps_all. apply Forall_forall. intros kv Hkv.
  rewrite forallb_forall in H. specialize (H kv Hkv).
  apply andb_true_iff in H as [Hk _]. unfold record_key in Hk.
  now apply andb_true_iff in Hk as [_ Hk].
Qed.

Lemma encode_flat_record (props : list (string * GoonValue))
    (mode : option EncodeMode) (fields : PartialOptions) :
  indent_is_string {| mode := mode; replacer := None; fields := fields |}
  = true ->
  Encode.dictionary
    (resolve_options {| mode := mode; replacer := None; fields := fields |})
  = false ->
  forallb (fun kv => record_key (fst kv) && fits_line (snd kv)) props = true ->
  props <> [] ->
  encode (object props)
         {| mode := mode; replacer := None; fields := fields |}
  = Ok (join LF_STR (map (property_line no_dictionary) props)).
Proof.
  intros Hindent Hdict Hok Hne. unfold encode.
  destruct (typed_options _ Hindent) as [opts Htyped]. rewrite Htyped.
  rewrite <- (typed_dictionary _ opts Htyped) in Hdict.
  cbn [replacer bind]. cbv zeta.
  unfold dictionary_for. rewrite Hdict. fold no_dictionary.
  cbn [entries no_dictionary length Nat.ltb Nat.leb app].
  unfold object. rewrite encodeValue_unfold.
  change (0 >=? MAX_RECURSION_DEPTH)%Z with false. cbv iota.
  rewrite encodeObject_of_unfold. unfold encodeObject_body.
  change (0 + 1 >=? MAX_RECURSION_DEPTH)%Z with false. cbv iota zeta.
  rewrite (safe_props_filter props Hok).
  destruct props as [|kv props']; [contradiction|].
  cbn [length Nat.eqb].
  rewrite (flat_record_lines _ no_dictionary _ _ _ _ (kv :: props')
             eq_refl Hok).
  reflexivity.
Qed.

Lemma decode_flat_record (props : list (string * GoonValue)) :
  flat_record props = true -> props <> [] ->
  (utf8_length (join LF_STR (map (property_line no_dictionary) props))
   <= MAX_INPUT_SIZE)%Z ->
  decode (join LF_STR (map (property_line no_dictionary) props)) no_reviver
  = Returns (VObj NullPrototype props).
Proof.
  intros Hflat Hne Hsize. unfold flat_record in Hflat.
  apply andb_true_iff in Hflat as [Hdistinct Hok].
  set (lines := map (property_line no_dictionary) props) in *.
  assert (Hfacts : Forall (fun line =>
             (exists c r, line = String c r /\ is_key_char c = true)
             /\ any_char (fun c => Ascii.eqb c LF) line = false
             /\ trim line = line) lines).
  { unfold lines. apply Forall_forall. intros line Hline.
    apply in_map_iff in Hline as (kv & <- & Hkv).
    rewrite forallb_forall in Hok. specialize (Hok kv Hkv).
    apply andb_true_iff in Hok as [Hk Hv].
    destruct (property_line_facts no_dictionary [] kv Hk Hv)
      as (H1 & H2 & H3 & _). repeat split; assumption. }
  assert (Hlines : input_lines (join LF_STR lines) = lines).
  { apply split_lines.
    - unfold lines. destruct props; [contradiction | discriminate].
    - eapply Forall_impl; [|exact Hfacts].
      intros line ((c & r & -> & _) & Hlf & Htrim). split; [exact Hlf|].
      now rewrite Htrim. }
  assert (Hindent : detectIndent lines = "  ").
  { apply detectIndent_flush. eapply Forall_impl; [|exact Hfacts].
    intros line ((c & r & -> & Hc) & _) c' r' E. injection E as <- _.
    apply (key_char_facts c Hc). }
  unfold decode.
  rewrite (decode_accepts_small _ no_reviver Hsize). cbv zeta.
  rewrite Hlines, Hindent.
  assert (Hsome : exists kv props', props = kv :: props').
  { destruct props as [|kv props']; [contradiction|]. now exists kv, props'. }
  destruct Hsome as (kv & props' & Eprops).
  assert (Hfirst : exists first rest, lines = first :: rest
                     /\ first = property_line no_dictionary kv).
  { unfold lines. rewrite Eprops. cbn [map]. eexists. eexists.
    split; reflexivity. }
  destruct Hfirst as (first & rest & Elines & Efirst).
  pose proof Hfacts as Hf0. rewrite Elines in Hf0. apply Forall_inv in Hf0.
  destruct Hf0 as ((c & r & Eshape & Hc) & _ & Htrim).
  subst first. rewrite Eshape in Elines, Htrim.
  destruct (key_line_shape c r Hc) as (S1 & S2 & S3 & S4 & S5 & _).
  assert (Hstart : starts_like_key (String c r) = true).
  { rewrite <- Eshape.
    rewrite forallb_forall in Hok. assert (Hkv := Hok kv).
    rewrite Eprops in Hkv. specialize (Hkv (or_introl eq_refl)).
    apply andb_true_iff in Hkv as [Hk Hv].
    destruct (property_line_facts no_dictionary [] kv Hk Hv)
      as (_ & _ & _ & Hmatch & _).
    unfold keyValueMatch in Hmatch. unfold starts_like_key.
    destruct (match_key (property_line no_dictionary kv))
      as [[key [|x rest']]|]; try discriminate Hmatch.
    destruct (Ascii.eqb_spec x ":") as [->|Hx]; [reflexivity|].
    exfalso. revert Hmatch. clear -Hx.
    destruct x as [[|] [|] [|] [|] [|] [|] [|] [|]];
      try discriminate; now contradiction Hx. }
  assert (Hroot : forall fuel ctx,
             line_at ctx = Some (String c r) ->
             parseRoot fuel ctx = parseObject fuel ctx 0).
  { intros fuel ctx Hline. unfold parseRoot. rewrite Hline. cbv zeta.
    now rewrite Htrim, S1, S2, S3, S4, Hstart. }
  assert (Hmap : lines = map (property_line no_dictionary) props)
    by reflexivity.
  assert (Hlen : length lines = length props)
    by (unfold lines; apply length_map).
  clearbody lines. subst lines.
  unfold fuel_for. rewrite Hlen.
  replace (2 * length props + 2) with (S (S (2 * length props))) by lia.
  rewrite S5. cbn [length Nat.eqb Nat.leb].
  rewrite Hroot by reflexivity.
  cbn [parseObject]. unfold parseObject_body. cbv zeta.
  unfold deeper. cbn [Decode.lines index dictionary indent depth].
  change (0 + 1 >? MAX_RECURSION_DEPTH)%Z with false. cbv iota.
  rewrite (parseObject_loop_flat no_dictionary (String c r :: rest) []
             (0 + 1)%Z props 0 [] (S (2 * length props))).
  - assert (Hpos : (length props =? 0) = false /\ (length props <=? 0) = false)
      by (rewrite Eprops; split; reflexivity).
    destruct Hpos as [-> ->].
    cbn [reviver no_reviver]. f_equal. f_equal.
    apply fold_set_prop_fresh. cbn [map app].
    now apply distinct_NoDup.
  - exact Hmap.
  - exact Hok.
  - lia.
Qed.



(** ** Tables *)

Lemma same_strings_eq (a b : list string) : same_strings a b = true -> a = b.
Proof.
  revert b. induction a as [|x a IH]; intros [|y b] H; try discriminate;
    [reflexivity|].
  cbn [same_strings] in H. apply andb_true_iff in H as [Hx Ha].
  apply String.eqb_eq in Hx. subst y. f_equal. now apply IH.
Qed.

Lemma field_values_of_row (props : list (string * GoonValue))
    (proto : prototype) :
  NoDup (map fst props) ->
  map (field_value (VObj proto props)) (map fst props) = map snd props.
Proof.
  intros Hnd.
  assert (H : forall l,
             (forall kv, In kv l -> In kv props) ->
             map (field_value (VObj proto props)) (map fst l) = map snd l).
  { induction l as [|[k v] l IH]; intros Hin; [reflexivity|].
    cbn [map fst snd]. unfold field_value at 1, get_prop.
    cbn [Object_entries].
    rewrite (assoc_in_nodup props k v Hnd) by (apply Hin; now left).
    f_equal. apply IH. intros kv Hkv. apply Hin. now right. }
  apply H. auto.
Qed.

Lemma build_row_fresh (fields : list string) :
  forall values obj,
    length values = length fields ->
    NoDup (map fst obj ++ fields) ->
    build_row fields values obj = (obj ++ combine fields values)%list.
Proof.
  induction fields as [|f fields IH]; intros values obj Hlen Hnd.
  - cbn. now rewrite app_nil_r.
  - destruct values as [|v values]; [discriminate|].
    cbn [build_row combine].
    rewrite set_prop_fresh
      by (intros Hin; apply NoDup_remove_2 in Hnd; apply Hnd;
          apply in_or_app; now left).
    rewrite IH.
    + now rewrite <- app_assoc.
    + cbn in Hlen. lia.
    + rewrite map_app, <- app_assoc. exact Hnd.
Qed.

Lemma combine_fst_snd {A B} (l : list (A * B)) :
  combine (map fst l) (map snd l) = l.
Proof. induction l as [|[a b] l IH]; [reflexivity|]. cbn. now rewrite IH. Qed.

Lemma resolve_row_plain (fields : list string) (cells above : list GoonValue) :
  length cells = length fields ->
  forallb (fun v => negb (is_marker v)) cells = true ->
  resolve_row fields cells above = cells.
Proof.
  unfold resolve_row, map_i. intros Hlen Hm.
  assert (H : forall i (rest : list GoonValue) (fs : list string),
             length rest = length fs ->
             skipn i cells = rest ->
             map_from
               (fun (_ : string) i =>
                  match nth_error cells i, nth_error above i with
                  | Some cell, Some above0 =>
                      if is_marker cell then above0 else cell
                  | Some cell, None => cell
                  | None, _ => VNull
                  end) i fs
             = rest).
  { intros i rest fs. revert i rest.
    induction fs as [|f fs IH]; intros i rest Hl Hs.
    - destruct rest; [reflexivity | discriminate].
    - destruct rest as [|v rest]; [discriminate|].
      apply skipn_head in Hs as [Hv Hs']. cbn [map_from]. rewrite Hv.
      assert (Hnm : is_marker v = false).
      { rewrite forallb_forall in Hm. apply negb_true_iff, Hm.
        eapply nth_error_In. exact Hv. }
      rewrite Hnm. f_equal; [now destruct (nth_error above i)|].
      apply IH; [cbn in Hl; lia | exact Hs']. }
  now apply H.
Qed.

Lemma plain_tables_facts (opts : InternalOptions) :
  plain_tables opts = true ->
  Encode.dictionary opts = false /\ columnRefs opts = false
  /\ schemaDefaults opts = false /\ rowNumbers opts = false
  /\ minimalIndent opts = true /\ arrayLengths opts = true
  /\ tabularArrays opts = true /\ delimiter opts = Comma
  /\ footerSummaries opts = false.
Proof.
  unfold plain_tables. intros H.
  repeat (apply andb_true_iff in H as [H ?]).
  repeat match goal with
         | H : negb _ = true |- _ => apply negb_true_iff in H
         end.
  destruct (delimiter opts); try discriminate. repeat split; assumption.
Qed.

Lemma table_field_safe (fields : list string) :
  forallb table_field fields = true -> filter isSafeKey fields = fields.
Proof.
  intros H. apply filter_keeps_all. apply Forall_forall. intros f Hf.
  rewrite forallb_forall in H. specialize (H f Hf). unfold table_field in H.
  now apply andb_true_iff in H as [_ H].
Qed.

Lemma encode_rows_plain (opts : InternalOptions) (dict : Dictionary)
    (useDictionary : bool) (fields : list string) (depth : nat) :
  lookup dict = [] -> schemaDefaults opts = false ->
  rowNumbers opts = false -> minimalIndent opts = true ->
  delimiter opts = Comma ->
  forall rows rowIdx prevRow,
    encode_rows opts dict false useDictionary [] fields depth rowIdx prevRow
                rows
    = map (fun row =>
             join ","
               (map (fun f => encodePrimitive (field_value row f) dict false)
                    fields))
          rows.
Proof.
  intros Hdict Hdefaults Hnumbers Hminimal Hdelimiter.
  induction rows as [|row rows IH]; intros rowIdx prevRow; [reflexivity|].
  cbn [encode_rows map]. rewrite IH. f_equal.
  unfold row_line. rewrite Hminimal, Hnumbers, Hdelimiter.
  cbn [append delimiter_string delimiter_char]. f_equal.
  unfold row_cells, map_i.
  rewrite (map_from_ext_in _
             (fun f (_ : nat) =>
                encodePrimitive (field_value row f) dict false)).
  - apply map_from_const.
  - intros f i _. unfold encode_cell. rewrite Hdefaults. cbn [andb].
    apply encodePrimitive_no_lookup. exact Hdict.
Qed.

Lemma encodeTabularArray_plain (opts : InternalOptions) (first : GoonValue)
    (rest : list GoonValue) (fields : list string) :
  plain_tables opts = true ->
  Object_keys first = fields -> fields <> [] ->
  forallb table_field fields = true ->
  encodeTabularArray (first :: rest) 0 opts no_dictionary None
  = table_header (length (first :: rest)) fields
    :: map (row_text fields) (first :: rest).
Proof.
  intros Hopts Hkeys Hne Hfields.
  destruct (plain_tables_facts opts Hopts)
    as (_ & Hrefs & Hdefaults & Hnumbers & Hminimal & Hlengths & _ & Hdelim
        & Hfooter).
  unfold encodeTabularArray. rewrite Hkeys, (table_field_safe fields Hfields).
  destruct fields as [|f fields'] eqn:E; [contradiction|]. rewrite <- E.
  assert (Hlen : (length fields =? 0) = false) by now rewrite E.
  rewrite Hlen. cbv zeta.
  unfold use_column_refs. rewrite Hrefs. cbn [andb].
  rewrite andb_false_r. cbn [andb].
  unfold compute_fieldDefaults. rewrite Hdefaults.
  rewrite Hlengths, Hdelim.
  rewrite (encode_rows_plain opts no_dictionary _ fields 0 eq_refl Hdefaults
             Hnumbers Hminimal Hdelim).
  rewrite footer_off, app_nil_r by exact Hfooter.
  f_equal. cbn [repeat_string with_key append].
  unfold table_header. cbn [delimiter_string delimiter_char append assoc].
  rewrite map_id. now rewrite !append_assoc.
Qed.

Lemma encode_table (rows : list GoonValue) (fields : list string)
    (mode : option EncodeMode) (options : PartialOptions) :
  indent_is_string {| mode := mode; replacer := None; fields := options |}
  = true ->
  plain_tables
    (resolve_options {| mode := mode; replacer := None; fields := options |})
  = true ->
  isTabularArray rows = true ->
  fields <> [] -> forallb table_field fields = true ->
  forallb (table_row fields) rows = true ->
  encode (VArr rows) {| mode := mode; replacer := None; fields := options |}
  = Ok (join LF_STR (table_header (length rows) fields
                     :: map (row_text fields) rows)).
Proof.
  intros Hindent Hopts Htab Hne Hfields Hrows. unfold encode.
  destruct (typed_options _ Hindent) as [opts Htyped]. rewrite Htyped.
  rewrite <- (typed_plain_tables _ opts Htyped) in Hopts.
  destruct (plain_tables_facts _ Hopts)
    as (Hdict & _ & _ & _ & _ & _ & Htabular & _).
  cbn [replacer bind]. cbv zeta.
  unfold dictionary_for. rewrite Hdict. fold no_dictionary.
  cbn [entries no_dictionary length Nat.ltb Nat.leb app].
  rewrite encodeValue_unfold.
  change (0 >=? MAX_RECURSION_DEPTH)%Z with false. cbv iota.
  rewrite encodeArray_of_unfold. unfold encodeArray_body.
  destruct rows as [|first rest]; [discriminate|].
  cbn [length Nat.eqb]. rewrite Htabular, Htab. cbn [andb bind].
  rewrite (encodeTabularArray_plain _ first rest fields Hopts); try assumption.
  - reflexivity.
  - cbn [forallb] in Hrows. apply andb_true_iff in Hrows as [Hfirst _].
    unfold table_row in Hfirst. apply andb_true_iff in Hfirst as [Hfirst _].
    apply andb_true_iff in Hfirst as [Hfirst _].
    now apply same_strings_eq.
Qed.

Lemma fits_cell_fits_line (d : Delimiter) (v : GoonValue) :
  fits_cell d v = true -> fits_line v = true.
Proof.
  destruct v as [| | |s| |]; try (intros H; exact H).
  cbn [fits_cell fits_line]. intros H.
  destruct (needsQuoting s); [reflexivity|]. cbn [orb] in *.
  unfold bare_text in H. apply andb_true_iff in H as [Hbare Htrim].
  apply negb_true_iff in Hbare.
  now rewrite (bare_not_quoted d s Hbare), Htrim.
Qed.

Lemma fits_line_head (dict : Dictionary) (v : GoonValue) :
  fits_line v = true ->
  startsWith (encodePrimitive v dict false) "$" = false.
Proof.
  destruct v as [|[|]|n|s| |]; try discriminate; try reflexivity; intros H.
  - cbn [fits_line reads_back] in H.
    destruct n as [| |m e]; try discriminate.
    cbn [encodePrimitive isFinite negb].
    assert (Hchars := number_to_string_chars m e).
    assert (Hne := number_to_string_not_empty m e).
    destruct (number_to_string (Finite m e)) as [|c r]; [discriminate|].
    cbn [all_chars] in Hchars. apply andb_true_iff in Hchars as [Hc _].
    cbn [startsWith].
    destruct (Ascii.eqb_spec c "$") as [->|_]; [discriminate Hc | reflexivity].
  - cbn [fits_line] in H. cbn [encodePrimitive].
    destruct (String.eqb_spec s ""); [reflexivity|].
    destruct (needsQuoting s) eqn:Hq.
    + rewrite quoteString_quoted by exact Hq. reflexivity.
    + rewrite quoteString_plain by exact Hq.
      destruct (needsQuoting_false s Hq) as [->|Hf]; [reflexivity|].
      now destruct Hf as (_ & Hd & _).
Qed.

(** The ends and the characters of cells joined by a comma. *)
Lemma join_not_empty (sep text : string) (texts : list string) :
  is_empty text = false -> is_empty (join sep (text :: texts)) = false.
Proof.
  intros H. unfold join. cbn [String.concat].
  destruct texts; [exact H|]. now destruct text.
Qed.

Lemma join_cons (sep text text' : string) (texts : list string) :
  join sep (text :: text' :: texts)
  = text ++ sep ++ join sep (text' :: texts).
Proof. reflexivity. Qed.

Lemma join_last (texts : list string) :
  texts <> [] ->
  Forall (fun t => is_empty t = false
                   /\ forall c r, rev t = String c r -> is_space c = false)
         texts ->
  forall c r, rev (join "," texts) = String c r -> is_space c = false.
Proof.
  intros Hne H. induction H as [|t texts [Ht Hlast] Hrest IH];
    [contradiction|].
  destruct texts as [|t' texts'].
  - exact Hlast.
  - rewrite join_cons, !rev_append.
    inversion Hrest as [|? ? [Ht' _] _]; subst.
    assert (Hj := join_not_empty "," t' texts' Ht').
    rewrite <- is_empty_rev in Hj.
    destruct (rev (join "," (t' :: texts'))) as [|x y] eqn:E; [discriminate|].
    intros c r Hc. cbn [append] in Hc. injection Hc as <- _.
    apply (IH ltac:(discriminate) x y eq_refl).
Qed.

Lemma join_no_char (p : ascii -> bool) (texts : list string) :
  p ","%char = false ->
  Forall (fun t => any_char p t = false) texts ->
  any_char p (join "," texts) = false.
Proof.
  intros Hsep. induction 1 as [|t texts Ht Hrest IH]; [reflexivity|].
  destruct texts as [|t' texts']; [exact Ht|].
  rewrite join_cons, !any_char_append, Ht, IH. cbn. now rewrite Hsep.
Qed.

Lemma of_nat_not_below (n : nat) : (Z.of_nat n <? -1)%Z = false.
Proof. apply Z.ltb_ge. lia. Qed.

(** What is known of the line of a row of a table. *)
Lemma table_row_facts (fields : list string) (row : GoonValue)
    (entries : list string) :
  distinct fields = true -> fields <> [] ->
  table_row fields row = true ->
  let line := row_text fields row in
  any_char (fun c => Ascii.eqb c LF) line = false
  /\ trim line = line /\ is_empty line = false
  /\ (forall c r, line = String c r -> is_space c = false)
  /\ starts_like_key line = false /\ startsWith line "$:" = false
  /\ VObj NullPrototype
       (build_row fields
          (resolve_row fields (parseRow line entries Comma) []) [])
     = without_prototype row
  /\ forall above,
       resolve_row fields (parseRow line entries Comma) above
       = resolve_row fields (parseRow line entries Comma) [].
Proof.
  intros Hdistinct Hne Hrow. cbv zeta. unfold table_row in Hrow.
  apply andb_true_iff in Hrow as [Hrow Hstart].
  apply andb_true_iff in Hrow as [Hkeys Hvalues].
  apply negb_true_iff in Hstart. apply same_strings_eq in Hkeys.
  assert (Hnd : NoDup fields) by now apply distinct_NoDup.
  destruct row as [| | | | |proto props];
    try (cbn in Hkeys; subst fields; contradiction).
  unfold Object_keys, Object_values in *. cbn [Object_entries] in *.
  set (values := map snd props) in *.
  set (texts := map (fun v => encodePrimitive v no_dictionary false) values).
  assert (Etext : row_text fields (VObj proto props) = join "," texts).
  { unfold row_text, texts. rewrite <- Hkeys.
    rewrite <- (map_map (field_value (VObj proto props))
                  (fun v => encodePrimitive v no_dictionary false)).
    rewrite field_values_of_row by (rewrite Hkeys; exact Hnd). reflexivity. }
  assert (Hcells : forallb (fits_cell Comma) values = true
                   /\ forallb (fun v => negb (is_marker v)) values = true).
  { split; apply forallb_forall; intros v Hv;
      rewrite forallb_forall in Hvalues; specialize (Hvalues v Hv);
      now apply andb_true_iff in Hvalues as [H1 H2]. }
  destruct Hcells as [Hfits Hmarkers].
  assert (Hfacts : Forall (fun t =>
             any_char is_line_terminator t = false /\ trim t = t
             /\ is_empty t = false /\ startsWith t "$" = false) texts).
  { unfold texts. apply Forall_forall. intros t Ht.
    apply in_map_iff in Ht as (v & <- & Hv).
    rewrite forallb_forall in Hfits.
    assert (Hline := fits_cell_fits_line Comma v (Hfits v Hv)).
    destruct (fits_line_text no_dictionary entries v Hline)
      as (H1 & H2 & H3 & _).
    repeat split; try assumption. now apply fits_line_head. }
  assert (Hsome : exists t ts, texts = t :: ts).
  { unfold texts, values. destruct props as [|kv props'].
    - cbn in Hkeys. subst fields. contradiction.
    - cbn [map]. eexists. eexists. reflexivity. }
  destruct Hsome as (t & ts & Ets).
  assert (Ht : any_char is_line_terminator t = false /\ trim t = t
               /\ is_empty t = false /\ startsWith t "$" = false).
  { rewrite Ets in Hfacts. now apply Forall_inv in Hfacts. }
  destruct Ht as (_ & Httrim & Htne & Htd).
  assert (Hhead : forall c r, join "," texts = String c r ->
                              is_space c = false /\ Ascii.eqb c "$" = false).
  { rewrite Ets. unfold join. cbn [String.concat]. intros c r E.
    destruct t as [|x t']; [discriminate|].
    assert (x = c) by (destruct ts; cbn [append] in E; congruence).
    subst x. split; [exact (trim_fixed_first _ c t' Httrim eq_refl)|].
    cbn [startsWith] in Htd. now apply andb_false_iff in Htd as [H|H]. }
  assert (Hparse : parseRow (join "," texts) entries Comma = values).
  { exact (parseRow_from_cells Comma entries texts values []
             (fits_cell_texts Comma no_dictionary entries values Hfits)). }
  assert (Hresolve : forall above,
             resolve_row fields (parseRow (join "," texts) entries Comma) above
             = values).
  { intros above. rewrite Hparse. apply resolve_row_plain; [|exact Hmarkers].
    unfold values. now rewrite <- Hkeys, !length_map. }
  rewrite Etext in *.
  split.
  { apply join_no_char; [reflexivity|].
    eapply Forall_impl; [|exact Hfacts]. intros x (Hx & _).
    eapply any_char_weaken; [|exact Hx].
    intros c Hc. unfold is_line_terminator. now rewrite Hc. }
  assert (Hnonempty : is_empty (join "," texts) = false).
  { rewrite Ets. now apply join_not_empty. }
  split.
  { apply trim_clean.
    - intros c r E. now apply (Hhead c r).
    - apply join_last; [rewrite Ets; discriminate|].
      eapply Forall_impl; [|exact Hfacts]. intros x (_ & Hx & Hxne & _).
      split; [exact Hxne|]. intros c r E.
      exact (trim_fixed_last x c r Hx E). }
  split; [exact Hnonempty|].
  split; [intros c r E; now apply (Hhead c r)|].
  split; [exact Hstart|].
  split.
  { destruct (join "," texts) as [|c r] eqn:E; [reflexivity|].
    destruct (Hhead c r eq_refl) as [_ Hd]. cbn [startsWith]. now rewrite Hd. }
  split.
  - rewrite Hresolve. cbn [without_prototype]. f_equal.
    rewrite build_row_fresh.
    + cbn [app]. rewrite <- Hkeys. apply combine_fst_snd.
    + unfold values. now rewrite <- Hkeys, !length_map.
    + exact Hnd.
  - intros above. now rewrite !Hresolve.
Qed.

Lemma tabular_rows_table (fields : list string) (rows : list GoonValue) :
  distinct fields = true -> fields <> [] ->
  forallb (table_row fields) rows = true ->
  forall ctx acc above,
    fst (tabular_rows (map (row_text fields) rows) ctx (-1) Comma fields
                      acc above)
    = (acc ++ map without_prototype rows)%list.
Proof.
  intros Hdistinct Hne. induction rows as [|row rows IH]; intros Hrows ctx acc above.
  - cbn. now rewrite app_nil_r.
  - cbn [forallb] in Hrows. apply andb_true_iff in Hrows as [Hrow Hrest].
    destruct (table_row_facts fields row (dictionary ctx) Hdistinct Hne Hrow)
      as (_ & Htrim & Hfull & _ & Hstart & Hdollar & Hobj & Habove).
    cbn [map tabular_rows]. cbv zeta.
    rewrite of_nat_not_below, Htrim, Hfull, Hstart, Hdollar. cbn [orb].
    rewrite IH by exact Hrest.
    rewrite (Habove above), Hobj, <- app_assoc. reflexivity.
Qed.

Lemma all_chars_none (p : ascii -> bool) (s : string) :
  any_char p s = false -> all_chars (fun c => negb (p c)) s = true.
Proof.
  induction s as [|c s IH]; [reflexivity|].
  cbn. intros H. apply orb_false_iff in H as [Hc Hs].
  now rewrite Hc, IH.
Qed.

Lemma any_char_all (p q : ascii -> bool) (s : string) :
  (forall c, p c = true -> q c = false) ->
  all_chars p s = true -> any_char q s = false.
Proof.
  intros Hpq. induction s as [|c s IH]; [reflexivity|].
  cbn. intros H. apply andb_true_iff in H as [Hc Hs].
  now rewrite (Hpq c Hc), IH.
Qed.

Lemma last_of_append (a b : string) (c : ascii) (r : string) :
  is_empty b = false -> rev (a ++ b) = String c r ->
  exists r', rev b = String c r'.
Proof.
  intros Hb E. rewrite rev_append in E.
  rewrite <- is_empty_rev in Hb.
  destruct (rev b) as [|y t]; [discriminate|].
  cbn [append] in E. injection E as <- _. now exists t.
Qed.

(** What is known of the header of a table. *)
Lemma table_header_facts (n : nat) (fields : list string) :
  fields <> [] -> forallb table_field fields = true ->
  let header := table_header n fields in
  any_char (fun c => Ascii.eqb c LF) header = false
  /\ trim header = header /\ is_empty header = false
  /\ (forall c r, header = String c r -> is_space c = false)
  /\ startsWith header "$:" = false
  /\ String.eqb header "{}" = false /\ String.eqb header "[]" = false
  /\ standaloneTabularMatch header = Some (join "," fields)
  /\ detectDelimiter (join "," fields) = Comma
  /\ filter isSafeKey (split "," (join "," fields)) = fields.
Proof.
  intros Hne Hfields. cbv zeta.
  assert (Hall : Forall (fun f =>
             is_empty f = false /\ any_char is_separator f = false
             /\ any_char (fun c => Ascii.eqb c "}") f = false
             /\ any_char (fun c => Ascii.eqb c LF) f = false
             /\ isSafeKey f = true) fields).
  { apply Forall_forall. intros f Hf. rewrite forallb_forall in Hfields.
    specialize (Hfields f Hf). unfold table_field in Hfields.
    apply andb_true_iff in Hfields as [H Hsafe].
    apply andb_true_iff in H as [H _].
    apply andb_true_iff in H as [H1 H2].
    apply negb_true_iff in H1, H2.
    repeat split; try assumption;
      (eapply any_char_weaken; [|exact H2]); intros c Hc; cbv beta;
      rewrite Hc; now rewrite ?orb_true_r. }
  set (body := join "," fields).
  set (digits := nat_to_string n).
  assert (Hdigits : all_chars is_digit digits = true)
    by apply all_chars_decimal.
  assert (Hsome : exists c r, digits = String c r /\ is_digit c = true).
  { assert (Hd := decimal_not_empty (N.of_nat n)). fold (nat_to_string n) in Hd.
    fold digits in Hd. destruct digits as [|c r]; [discriminate|].
    cbn [all_chars] in Hdigits. apply andb_true_iff in Hdigits as [Hc _].
    now exists c, r. }
  assert (Hbody_brace : any_char (fun c => Ascii.eqb c "}") body = false).
  { apply join_no_char; [reflexivity|].
    eapply Forall_impl; [|exact Hall]. now intros f (_ & _ & H & _). }
  assert (Hbody_lf : any_char (fun c => Ascii.eqb c LF) body = false).
  { apply join_no_char; [reflexivity|].
    eapply Forall_impl; [|exact Hall]. now intros f (_ & _ & _ & H & _). }
  assert (Hbody_full : is_empty body = false).
  { unfold body. destruct fields as [|f fields']; [contradiction|].
    apply join_not_empty. apply Forall_inv in Hall. now destruct Hall. }
  assert (Eheader : table_header n fields
                    = String "[" (digits ++ String "]" (String "{" (body ++ "}:"))))
    by reflexivity.
  rewrite Eheader.
  split.
  { cbn [any_char]. rewrite any_char_append. cbn [any_char].
    rewrite any_char_append, Hbody_lf.
    rewrite (any_char_all is_digit _ digits); [reflexivity | | exact Hdigits].
    intros c Hc. destruct (Ascii.eqb_spec c LF) as [->|]; [discriminate Hc|].
    reflexivity. }
  split.
  { apply trim_clean.
    - intros c r E. injection E as <- _. reflexivity.
    - intros c r E.
      change (String "[" (digits ++ String "]" (String "{" (body ++ "}:"))))
        with (String "[" digits ++ "]{" ++ body ++ "}:") in E.
      apply last_of_append in E as [r1 E]; [|reflexivity].
      apply last_of_append in E as [r2 E]; [|now destruct body].
      apply last_of_append in E as [r3 E]; [|reflexivity].
      injection E as <- _. reflexivity. }
  split; [reflexivity|].
  split; [intros c r E; injection E as <- _; reflexivity|].
  split; [reflexivity|].
  split; [reflexivity|].
  split.
  { destruct Hsome as (c & r & -> & Hc). cbn [append String.eqb].
    cbn [Ascii.eqb]. destruct r; cbn.
    - destruct (Ascii.eqb_spec c "]") as [->|]; [discriminate Hc|reflexivity].
    - destruct (Ascii.eqb_spec c "]") as [->|]; [discriminate Hc|reflexivity]. }
  split.
  { unfold standaloneTabularMatch, skip_count.
    rewrite (span_all is_digit digits (String "]" (String "{" (body ++ "}:"))))
      by (exact Hdigits || (intros c r E; injection E as <- _; reflexivity)).
    cbn [snd]. unfold match_fields.
    rewrite (span_all (fun c => negb (Ascii.eqb c "}")) body "}:")
      by (now apply all_chars_none
          || (intros c r E; injection E as <- _; reflexivity)).
    now rewrite Hbody_full. }
  assert (Hsep : Forall (fun f => any_char is_separator f = false) fields).
  { eapply Forall_impl; [|exact Hall]. now intros f (_ & H & _). }
  subst body.
  split.
  { unfold detectDelimiter.
    change (join "," fields) with (join (delimiter_string Comma) fields).
    rewrite (count_delimiters_join Comma fields Hsep 0 0 0).
    cbn [bump_count]. rewrite Nat.ltb_irrefl. cbn [andb].
    destruct (_ <? 0) eqn:E; [|reflexivity]. apply Nat.ltb_lt in E. lia. }
  change (join "," fields) with (join (String "," "") fields).
  rewrite split_join; [|exact Hne|].
  - apply filter_keeps_all. eapply Forall_impl; [|exact Hall].
    now intros f (_ & _ & _ & _ & H).
  - eapply Forall_impl; [|exact Hsep]. intros f Hf.
    exact (separator_covers Comma f Hf).
Qed.

Lemma decode_table (rows : list GoonValue) (fields : list string) :
  rows <> [] -> distinct fields = true -> fields <> [] ->
  forallb table_field fields = true ->
  forallb (table_row fields) rows = true ->
  (utf8_length
     (join LF_STR (table_header (length rows) fields
                   :: map (row_text fields) rows))
   <= MAX_INPUT_SIZE)%Z ->
  decode (join LF_STR (table_header (length rows) fields
                       :: map (row_text fields) rows)) no_reviver
  = Returns (VArr (map without_prototype rows)).
Proof.
  intros Hrows Hdistinct Hne Hfields Hok Hsize.
  destruct (table_header_facts (length rows) fields Hne Hfields)
    as (H1 & H2 & H3 & H4 & H5 & H6 & H7 & H8 & H9 & H10).
  set (header := table_header (length rows) fields) in *.
  set (body := map (row_text fields) rows) in *.
  assert (Hfacts : Forall (fun line =>
             any_char (fun c => Ascii.eqb c LF) line = false
             /\ trim line = line /\ is_empty line = false
             /\ forall c r, line = String c r -> is_space c = false)
            (header :: body)).
  { constructor; [repeat split; assumption|].
    unfold body. apply Forall_forall. intros line Hline.
    apply in_map_iff in Hline as (row & <- & Hrow).
    rewrite forallb_forall in Hok.
    destruct (table_row_facts fields row [] Hdistinct Hne (Hok row Hrow))
      as (F1 & F2 & F3 & F4 & _). repeat split; assumption. }
  assert (Hlines : input_lines (join LF_STR (header :: body)) = header :: body).
  { apply split_lines; [discriminate|].
    eapply Forall_impl; [|exact Hfacts].
    intros line (F1 & F2 & F3 & _). split; [exact F1 | now rewrite F2]. }
  assert (Hindent : detectIndent (header :: body) = "  ").
  { apply detectIndent_flush. eapply Forall_impl; [|exact Hfacts].
    now intros line (_ & _ & _ & F4). }
  unfold decode.
  rewrite (decode_accepts_small _ no_reviver Hsize). cbv zeta.
  rewrite Hlines, Hindent, H5. cbn [length Nat.eqb Nat.leb].
  unfold parseRoot, line_at.
  cbn [Decode.lines index nth_error]. cbv zeta.
  rewrite H2, H6, H7, H8.
  unfold parseTabularArray. cbv zeta.
  unfold deeper, advance. cbn [Decode.lines index dictionary indent depth].
  change (0 + 1 >? MAX_RECURSION_DEPTH)%Z with false. cbv iota.
  rewrite H9. cbn [delimiter_char]. rewrite H10. cbn [skipn].
  match goal with
  | |- context [tabular_rows body ?ctx (-1)%Z Comma fields [] []] =>
      assert (Hloop := tabular_rows_table fields rows Hdistinct Hne Hok
                         ctx [] []);
      fold body in Hloop;
      destruct (tabular_rows body ctx (-1)%Z Comma fields [] [])
        as [result ctx']
  end.
  cbn [fst app] in Hloop. subst result. reflexivity.
Qed.

Lemma tabular_not_empty (rows : list GoonValue) (fields : list string) :
  isTabularArray rows = true ->
  forallb (table_row fields) rows = true ->
  rows <> [] /\ fields <> [].
Proof.
  intros Htab Hrows. destruct rows as [|row rows]; [discriminate|].
  split; [discriminate|]. intros ->.
  cbn [forallb] in Hrows. apply andb_true_iff in Hrows as [Hrow _].
  unfold table_row in Hrow. apply andb_true_iff in Hrow as [Hrow _].
  apply andb_true_iff in Hrow as [Hkeys _].
  apply same_strings_eq in Hkeys.
  unfold isTabularArray in Htab. rewrite Hkeys in Htab.
  destruct (negb (forallb isPlainObject (row :: rows))); discriminate.
Qed.

(** X19: a table of records goes through [encode] and [decode].  With
    an [indent] that is a string and the options of the default mode for
    tables (no footer among them), for a tabular array
    whose rows list the same fields in the same order, the fields being
    safe, different from one another, not made of digits only and
    without a delimiter, a quote, a closing brace or a line feed in
    them, and the values being primitives that read back from a cell
    (none of them the string of the column reference), [encode] returns
    a header and one line for each row, and [decode] of that text, when
    it is within the size limit, returns the rows as objects without a
    prototype. *)
Theorem table_round_trip (rows : list GoonValue) (fields : list string)
    (mode : option EncodeMode) (options : PartialOptions) :
  indent_is_string {| mode := mode; replacer := None; fields := options |}
  = true ->
  plain_tables
    (resolve_options {| mode := mode; replacer := None; fields := options |})
  = true ->
  isTabularArray rows = true ->
  distinct fields = true ->
  forallb table_field fields = true ->
  forallb (table_row fields) rows = true ->
  exists text,
    encode (VArr rows)
           {| mode := mode; replacer := None; fields := options |}
    = Ok text
    /\ text = join LF_STR (table_header (length rows) fields
                           :: map (row_text fields) rows)
    /\ ((utf8_length text <=? MAX_INPUT_SIZE)%Z = true ->
        decode text no_reviver = Returns (VArr (map without_prototype rows))).
Proof.
  intros Hindent Hopts Htab Hdistinct Hfields Hrows.
  destruct (tabular_not_empty rows fields Htab Hrows) as [Hsome Hne].
  eexists. split;
    [exact (encode_table rows fields mode options Hindent Hopts Htab Hne
              Hfields Hrows)|].
  split; [reflexivity|].
  intros Hsize. apply Z.leb_le in Hsize. now apply decode_table.
Qed.

Lemma table_round_trip_witness :
  indent_is_string default_options = true
  /\ plain_tables (resolve_options default_options) = true
  /\ isTabularArray
       [object [("id", integer 1); ("name", VStr "Ada Lovelace");
                ("score", VNum (Finite 955 1)); ("active", VBool true)];
        object [("id", integer 2); ("name", VStr "a|b");
                ("score", VNull); ("active", VBool false)]] = true
  /\ exists text,
       encode (VArr
                 [object [("id", integer 1); ("name", VStr "Ada Lovelace");
                          ("score", VNum (Finite 955 1));
                          ("active", VBool true)];
                  object [("id", integer 2); ("name", VStr "a|b");
                          ("score", VNull); ("active", VBool false)]])
              default_options
       = Ok text
       /\ text = join LF_STR
                   (table_header 2 ["id"; "name"; "score"; "active"]
                    :: map (row_text ["id"; "name"; "score"; "active"])
                         [object [("id", integer 1);
                                  ("name", VStr "Ada Lovelace");
                                  ("score", VNum (Finite 955 1));
                                  ("active", VBool true)];
                          object [("id", integer 2); ("name", VStr "a|b");
                                  ("score", VNull); ("active", VBool false)]])
       /\ ((utf8_length text <=? MAX_INPUT_SIZE)%Z = true ->
           decode text no_reviver
           = Returns
               (VArr
                  (map without_prototype
                     [object [("id", integer 1);
                              ("name", VStr "Ada Lovelace");
                              ("score", VNum (Finite 955 1));
                              ("active", VBool true)];
                      object [("id", integer 2); ("name", VStr "a|b");
                              ("score", VNull); ("active", VBool false)]]))).
Proof.
  split; [reflexivity|]. split; [reflexivity|]. split; [reflexivity|].
  apply (table_round_trip
           [object [("id", integer 1); ("name", VStr "Ada Lovelace");
                    ("score", VNum (Finite 955 1)); ("active", VBool true)];
            object [("id", integer 2); ("name", VStr "a|b");
                    ("score", VNull); ("active", VBool false)]]
           ["id"; "name"; "score"; "active"] None no_options);
    reflexivity.
Defined.

(** ** Lines given one by one *)

Lemma blank_all_space (s : string) :
  trim s = "" -> all_chars is_space s = true.
Proof.
  unfold trim, trim_start. intros H.
  induction s as [|c s IH]; [reflexivity|].
  cbn [drop_while all_chars] in *. destruct (is_space c) eqn:Hc.
  - cbn [andb]. now apply IH.
  - destruct (trim_end_keeps_head c s Hc) as [r' E]. congruence.
Qed.

Lemma all_space_blank (s : string) :
  all_chars is_space s = true -> trim s = "".
Proof.
  intros H. unfold trim, trim_start.
  assert (E : drop_while is_space s = "").
  { induction s as [|c s IH]; [reflexivity|].
    cbn in *. apply andb_true_iff in H as [Hc Hs]. rewrite Hc. now apply IH. }
  now rewrite E.
Qed.

Lemma split_go_blank (d : ascii) (s : string) :
  forall cur,
    all_chars is_space s = true -> all_chars is_space cur = true ->
    Forall (fun piece => trim piece = "") (split_go d s cur).
Proof.
  induction s as [|c s IH]; intros cur Hs Hcur.
  - cbn. constructor; [|constructor].
    apply all_space_blank. now rewrite all_chars_rev.
  - cbn [all_chars] in Hs. apply andb_true_iff in Hs as [Hc Hs].
    cbn [split_go]. destruct (Ascii.eqb c d).
    + constructor.
      * apply all_space_blank. now rewrite all_chars_rev.
      * now apply IH.
    + apply IH; [exact Hs|]. cbn. now rewrite Hc, Hcur.
Qed.

Lemma input_lines_blank (line : string) :
  trim line = "" -> input_lines line = [].
Proof.
  intros H. unfold input_lines, split.
  assert (Hall := split_go_blank LF line "" (blank_all_space line H) eq_refl).
  induction Hall as [|piece pieces Hp _ IH]; [reflexivity|].
  cbn [filter]. now rewrite Hp.
Qed.

Lemma split_go_append (d : ascii) (a b : string) :
  forall cur,
    split_go d (a ++ String d b) cur
    = (split_go d a cur ++ split d b)%list.
Proof.
  induction a as [|c a IH]; intros cur.
  - cbn [append split_go app]. now rewrite Ascii.eqb_refl.
  - cbn [append split_go]. destruct (Ascii.eqb c d).
    + now rewrite IH.
    + apply IH.
Qed.

Lemma split_join_lines (d : ascii) (lines : list string) :
  lines <> [] ->
  split d (join (String d "") lines) = flat_map (split d) lines.
Proof.
  induction lines as [|line lines IH]; [contradiction|]. intros _.
  destruct lines as [|line' lines'].
  - cbn. now rewrite app_nil_r.
  - rewrite join_cons. cbn [flat_map]. unfold split at 1.
    cbn [append]. rewrite split_go_append. f_equal.
    apply IH. discriminate.
Qed.

Lemma filter_flat_map {A B} (p : B -> bool) (f : A -> list B) (l : list A) :
  filter p (flat_map f l) = flat_map (fun x => filter p (f x)) l.
Proof.
  induction l as [|x l IH]; [reflexivity|].
  cbn [flat_map]. now rewrite filter_app, IH.
Qed.

(** The lines [decode] reads in lines joined by line feeds are the
    lines it reads in each of them. *)
Lemma input_lines_join (lines : list string) :
  input_lines (join LF_STR lines) = flat_map input_lines lines.
Proof.
  destruct lines as [|line lines]; [reflexivity|].
  unfold input_lines at 1, LF_STR.
  rewrite split_join_lines by discriminate.
  apply filter_flat_map.
Qed.

Lemma input_lines_without_blanks (lines : list string) :
  input_lines
    (join LF_STR
       (filter (fun line => negb (String.eqb (trim line) "")) lines))
  = input_lines (join LF_STR lines).
Proof.
  rewrite !input_lines_join.
  induction lines as [|line lines IH]; [reflexivity|].
  cbn [filter flat_map].
  destruct (String.eqb_spec (trim line) "") as [Hblank|_]; cbn [negb].
  - now rewrite (input_lines_blank line Hblank).
  - cbn [flat_map]. now rewrite IH.
Qed.

Lemma utf8_length_append (a b : string) :
  utf8_length (a ++ b) = (utf8_length a + utf8_length b)%Z.
Proof.
  induction a as [|c a IH]; [reflexivity|].
  cbn [append utf8_length]. rewrite IH. lia.
Qed.

Lemma utf8_length_nonneg (s : string) : (0 <= utf8_length s)%Z.
Proof.
  induction s as [|c s IH]; [reflexivity|].
  cbn [utf8_length]. destruct (code c <? 128); lia.
Qed.

Lemma utf8_length_join_cons (sep line : string) (lines : list string) :
  (utf8_length line <= utf8_length (join sep (line :: lines))
   /\ utf8_length (join sep lines) <= utf8_length (join sep (line :: lines))
   /\ (lines <> [] ->
       utf8_length (join sep (line :: lines))
       = utf8_length line + utf8_length sep + utf8_length (join sep lines)))%Z.
Proof.
  destruct lines as [|line' lines'].
  - assert (H := utf8_length_nonneg line).
    change (join sep [line]) with line.
    change (utf8_length (join sep [])) with 0%Z.
    split; [lia|]. split; [lia|]. intros H'. contradiction.
  - rewrite join_cons, !utf8_length_append.
    assert (H1 := utf8_length_nonneg line).
    assert (H2 := utf8_length_nonneg sep).
    assert (H3 := utf8_length_nonneg (join sep (line' :: lines'))).
    repeat split; lia.
Qed.

Lemma utf8_length_filter (sep : string) (p : string -> bool)
    (lines : list string) :
  (utf8_length (join sep (filter p lines)) <= utf8_length (join sep lines))%Z.
Proof.
  induction lines as [|line lines IH]; [reflexivity|].
  destruct (utf8_length_join_cons sep line lines) as (H1 & H2 & H3).
  cbn [filter]. destruct (p line); [|lia].
  destruct (utf8_length_join_cons sep line (filter p lines))
    as (G1 & G2 & G3).
  destruct (filter p lines) as [|kept rest] eqn:E.
  - change (join sep [line]) with line. lia.
  - destruct lines as [|line' lines']; [discriminate E|].
    rewrite G3 by discriminate. rewrite H3 by discriminate. lia.
Qed.

(** [decode] looks at its input through its size and its lines. *)
Lemma decode_by_lines (a b : string) (options : DecodeOptions) :
  validateInputSize a = validateInputSize b ->
  input_lines a = input_lines b ->
  Decode.decode a options = Decode.decode b options.
Proof. intros Hsize Hlines. unfold Decode.decode. now rewrite Hsize, Hlines. Qed.

Lemma no_line_left (lines : list string) :
  filter (fun line => negb (String.eqb (trim line) "")) lines = [] ->
  forallb (fun line => String.eqb (trim line) "") lines = true.
Proof.
  induction lines as [|line lines IH]; [reflexivity|].
  cbn [filter forallb]. destruct (String.eqb (trim line) ""); cbn [negb].
  - exact IH.
  - discriminate.
Qed.

Lemma some_line_left (lines : list string) (kept : string)
    (rest : list string) :
  filter (fun line => negb (String.eqb (trim line) "")) lines = kept :: rest ->
  forallb (fun line => String.eqb (trim line) "") lines = false.
Proof.
  induction lines as [|line lines IH]; [discriminate|].
  cbn [filter forallb]. destruct (String.eqb (trim line) ""); cbn [negb].
  - exact IH.
  - reflexivity.
Qed.

(** X20: [decodeFromLines] agrees with [decode] on the lines joined by
    line feeds.  When the joined text is within the size limit,
    [decodeFromLines] yields nothing if every line is blank, and
    otherwise does what [decode] does on the joined text: it throws the
    same error, or yields the items of the array [decode] returns, or
    the one value that is not an array. *)
Theorem decodeFromLines_agrees_with_decode (lines : list string)
    (options : DecodeOptions) :
  (utf8_length (join LF_STR lines) <= MAX_INPUT_SIZE)%Z ->
  decodeFromLines lines options
  = if forallb (fun line => String.eqb (trim line) "") lines
    then Returns []
    else
      match Decode.decode (join LF_STR lines) options with
      | Returns result => Returns (yield_result result)
      | Throws e => Throws e
      | OutOfFuel => OutOfFuel
      end.
Proof.
  intros Hsize. unfold decodeFromLines. cbv zeta.
  destruct (filter (fun line => negb (String.eqb (trim line) "")) lines)
    as [|kept rest] eqn:E.
  - now rewrite (no_line_left lines E).
  - rewrite (some_line_left lines kept rest E). cbn [length Nat.eqb].
    rewrite <- E.
    rewrite (decode_by_lines
               (join LF_STR
                  (filter (fun line => negb (String.eqb (trim line) "")) lines))
               (join LF_STR lines) options); [reflexivity | |].
    + rewrite !(decode_accepts_small _ options); [reflexivity | exact Hsize|].
      assert (H := utf8_length_filter LF_STR
                     (fun line => negb (String.eqb (trim line) "")) lines).
      lia.
    + apply input_lines_without_blanks.
Qed.

Lemma decodeFromLines_agrees_with_decode_witness :
  (utf8_length (join LF_STR ["{id,name}:"; "  "; "1,Ada"; ""; "2,Bob"])
   <= MAX_INPUT_SIZE)%Z
  /\ decodeFromLines ["{id,name}:"; "  "; "1,Ada"; ""; "2,Bob"] no_reviver
     = match Decode.decode
               (join LF_STR ["{id,name}:"; "  "; "1,Ada"; ""; "2,Bob"])
               no_reviver with
       | Returns result => Returns (yield_result result)
       | Throws e => Throws e
       | OutOfFuel => OutOfFuel
       end.
Proof.
  split; [vm_compute; discriminate|].
  apply (decodeFromLines_agrees_with_decode
           ["{id,name}:"; "  "; "1,Ada"; ""; "2,Bob"] no_reviver).
  vm_compute. discriminate.
Defined.

(** ** The mode the command line detects *)

Lemma trim_keeps_head (c : ascii) (r : string) :
  is_space c = false -> exists r', trim (String c r) = String c r'.
Proof.
  intros Hc. unfold trim, trim_start. cbn [drop_while]. rewrite Hc.
  now apply trim_end_keeps_head.
Qed.

(** The first line of an array at the root starts with a bracket or a
    brace. *)
Lemma encodeArray_first_line (opts : InternalOptions) (dict : Dictionary)
    (items : list GoonValue) (lines : list string) :
  encodeValue opts dict (VArr items) 0 None 0 = Ok lines ->
  exists c r rest,
    lines = String c r :: rest /\ (c = "["%char \/ c = "{"%char).
Proof.
  rewrite encodeValue_unfold.
  change (0 >=? MAX_RECURSION_DEPTH)%Z with false. cbv iota.
  rewrite encodeArray_of_unfold. unfold encodeArray_body. cbv zeta.
  cbn [repeat_string with_key append].
  destruct (length items =? 0).
  { intros E. injection E as <-. exists "["%char. eexists. eexists.
    split; [reflexivity | now left]. }
  destruct (tabularArrays opts && isTabularArray items).
  { intros E. injection E as <-. unfold encodeTabularArray. cbv zeta.
    cbn [repeat_string with_key append].
    destruct (length _ =? 0).
    - exists "["%char. eexists. eexists. split; [reflexivity | now left].
    - destruct (arrayLengths opts).
      + exists "["%char. eexists. eexists. split; [reflexivity | now left].
      + exists "{"%char. eexists. eexists. split; [reflexivity | now right]. }
  destruct (forallb isPrimitive items && (length items <=? 10)).
  { intros E. injection E as <-. exists "["%char. eexists. eexists.
    split; [reflexivity | now left]. }
  match goal with
  | |- bind ?r _ = _ -> _ => destruct r as [pushed|e]
  end; [|discriminate].
  cbn [bind]. intros E. injection E as <-.
  destruct (arrayLengths opts); exists "["%char; eexists; eexists;
    (split; [reflexivity | now left]).
Qed.

(** X21: without a path that tells, [detectMode] takes an encoded array
    for JSON.  When [encode], without a replacer, returns a text for an
    array and the text has no dictionary line, [detectMode] of that text
    with no path answers the mode that encodes: the text starts with a
    bracket or a brace. *)
Theorem detectMode_takes_encoded_array_for_json (items : list GoonValue)
    (mode : option EncodeMode) (options : PartialOptions) (text : string) :
  entries
    (dictionary_for
       (resolve_options
          {| mode := mode; replacer := None; fields := options |})
       (VArr items))
  = [] ->
  Encode.encode (VArr items)
                {| mode := mode; replacer := None; fields := options |}
  = Ok text ->
  Cli.detectMode text None = Cli.ModeEncode.
Proof.
  intros Hdict. unfold Encode.encode.
  destruct (typed (resolve_options _)) as [opts|] eqn:Htyped; [|discriminate].
  rewrite <- (typed_dictionary_for _ opts (VArr items) Htyped) in Hdict.
  cbn [replacer bind]. cbv zeta.
  rewrite Hdict. cbn [length Nat.ltb Nat.leb app].
  destruct (encodeValue _ _ (VArr items) 0 None 0) as [lines|e] eqn:E;
    [|discriminate].
  cbn [bind]. intros Htext. injection Htext as <-.
  destruct (encodeArray_first_line _ _ items lines E)
    as (c & r & rest & -> & Hc).
  assert (Hshape : exists r', join LF_STR (String c r :: rest) = String c r').
  { destruct rest as [|line rest'].
    - now exists r.
    - rewrite join_cons. cbn [append]. eexists. reflexivity. }
  destruct Hshape as [r' ->].
  assert (Hspace : is_space c = false) by (destruct Hc; subst c; reflexivity).
  destruct (trim_keeps_head c r' Hspace) as [r'' Htrim].
  unfold Cli.detectMode. cbv zeta. rewrite Htrim.
  destruct Hc; subst c; reflexivity.
Qed.

Lemma detectMode_takes_encoded_array_for_json_witness :
  entries
    (dictionary_for (resolve_options default_options)
       (VArr [object [("id", integer 1); ("name", VStr "Ada")];
              object [("id", integer 2); ("name", VStr "Bob")]]))
  = []
  /\ Encode.encode
       (VArr [object [("id", integer 1); ("name", VStr "Ada")];
              object [("id", integer 2); ("name", VStr "Bob")]])
       default_options
     = Ok (join LF_STR ["[2]{id,name}:"; "1,Ada"; "2,Bob"])
  /\ Cli.detectMode (join LF_STR ["[2]{id,name}:"; "1,Ada"; "2,Bob"]) None
     = Cli.ModeEncode.
Proof.
  split; [reflexivity|]. split; [reflexivity|].
  apply (detectMode_takes_encoded_array_for_json
           [object [("id", integer 1); ("name", VStr "Ada")];
            object [("id", integer 2); ("name", VStr "Bob")]]
           None no_options);
    reflexivity.
Defined.

(** ** The arguments of the command line *)

Lemma parseArgs_from_reads (args : list string) :
  existsb (fun arg => Cli.is_one_of arg ["-o"; "--output"]) args = false ->
  forall opts,
    Cli.inputs (Cli.parseArgs_from args opts)
    = (Cli.inputs opts
       ++ filter (fun arg => negb (startsWith arg "-")) args)%list
    /\ Cli.dictionary (Cli.parseArgs_from args opts)
       = Cli.dictionary opts
         && negb (existsb (fun arg => String.eqb arg "--no-dict") args)
    /\ Cli.columnRefs (Cli.parseArgs_from args opts)
       = Cli.columnRefs opts
         && negb (existsb (fun arg => String.eqb arg "--no-refs") args).
Proof.
  induction args as [|arg args IH]; intros Hout opts.
  - cbn. now rewrite app_nil_r, !andb_true_r.
  - cbn [existsb] in Hout. apply orb_false_iff in Hout as [Harg Hrest].
    specialize (IH Hrest).
    cbn [Cli.parseArgs_from filter existsb]. rewrite Harg.
    unfold Cli.is_one_of in *. cbn [existsb] in *.
    repeat match goal with
           | |- context [String.eqb arg ?name] =>
               destruct (String.eqb_spec arg name) as [->|?]
           end;
      try discriminate Harg;
      first
        [ destruct (startsWith arg "-"); cbn [orb negb andb];
          rewrite !(proj1 (IH _)), !(proj1 (proj2 (IH _))),
            !(proj2 (proj2 (IH _)));
          cbn [Cli.inputs Cli.dictionary Cli.columnRefs];
          rewrite <- ?app_assoc; now repeat split
        | cbn [orb negb andb startsWith Ascii.eqb Bool.eqb];
          rewrite !(proj1 (IH _)), !(proj1 (proj2 (IH _))),
            !(proj2 (proj2 (IH _)));
          cbn [Cli.inputs Cli.dictionary Cli.columnRefs];
          rewrite ?andb_false_r; now repeat split ].
Qed.

(** X22: what [parseArgs] reads when no output is named.  For arguments
    without [-o] and [--output], the inputs are the arguments that do
    not start with a hyphen, in their order, and the dictionary and the
    column references are on unless [--no-dict], respectively
    [--no-refs], is among the arguments. *)
Theorem parseArgs_reads_inputs_and_switches (args : list string) :
  existsb (fun arg => Cli.is_one_of arg ["-o"; "--output"]) args = false ->
  Cli.inputs (Cli.parseArgs args)
  = filter (fun arg => negb (startsWith arg "-")) args
  /\ Cli.dictionary (Cli.parseArgs args)
     = negb (existsb (fun arg => String.eqb arg "--no-dict") args)
  /\ Cli.columnRefs (Cli.parseArgs args)
     = negb (existsb (fun arg => String.eqb arg "--no-refs") args).
Proof.
  intros Hout. unfold Cli.parseArgs.
  destruct (parseArgs_from_reads args Hout
              {| Cli.inputs := []; Cli.output := None; Cli.encode := false;
                 Cli.decode := false; Cli.dictionary := true;
                 Cli.columnRefs := true; Cli.stats := false;
                 Cli.compare := false; Cli.validate := false;
                 Cli.batch := false; Cli.help := false |})
    as (H1 & H2 & H3).
  rewrite H1, H2, H3. repeat split.
Qed.

Lemma parseArgs_reads_inputs_and_switches_witness :
  existsb (fun arg => Cli.is_one_of arg ["-o"; "--output"])
          ["a.json"; "--no-dict"; "--unknown"; "b.goon"; "-e"] = false
  /\ Cli.inputs (Cli.parseArgs
                   ["a.json"; "--no-dict"; "--unknown"; "b.goon"; "-e"])
     = ["a.json"; "b.goon"]
  /\ Cli.dictionary (Cli.parseArgs
                       ["a.json"; "--no-dict"; "--unknown"; "b.goon"; "-e"])
     = false
  /\ Cli.columnRefs (Cli.parseArgs
                       ["a.json"; "--no-dict"; "--unknown"; "b.goon"; "-e"])
     = true.
Proof.
  split; [reflexivity|].
  apply (parseArgs_reads_inputs_and_switches
           ["a.json"; "--no-dict"; "--unknown"; "b.goon"; "-e"]).
  reflexivity.
Defined.

(** ** The reviver *)

Lemma keep_value_rebuilds (value : GoonValue) :
  forall key depth,
    (depth + Z.of_nat (height value) <= MAX_RECURSION_DEPTH)%Z ->
    well_keyed value = true ->
    applyReviver value keep_value key depth = Ok (rebuilt value).
Proof.
  induction value as [| b | n | s | items IH | proto props IH]
    using GoonValue_ind'; intros key depth Hh Hw; cbn [applyReviver];
    (destruct (Z.gtb_spec depth MAX_RECURSION_DEPTH) as [Hd|Hd];
     [exfalso; lia|]);
    try reflexivity.
  - match goal with
    | |- bind (?go items 0) _ = _ =>
        assert (Hgo : forall l i,
                   Forall (fun x =>
                             forall key depth,
                               (depth + Z.of_nat (height x)
                                <= MAX_RECURSION_DEPTH)%Z ->
                               well_keyed x = true ->
                               applyReviver x keep_value key depth
                               = Ok (rebuilt x)) l ->
                   Forall (fun x => height x < height (VArr items)
                                    /\ well_keyed x = true) l ->
                   go l i = Ok (map rebuilt l))
    end.
    { induction l as [|item l IHl]; intros i Hl Hl2; [reflexivity|].
      inversion Hl as [|? ? Hx Hl']; subst.
      inversion Hl2 as [|? ? [Hhx Hwx] Hl2']; subst.
      rewrite (Hx _ (depth + 1)%Z) by (exact Hwx || lia). cbn [bind].
      rewrite (IHl _ Hl' Hl2'). reflexivity. }
    rewrite Hgo; [reflexivity | exact IH|].
    apply Forall_forall. intros x Hx. split.
    + apply (height_item items x Hx).
    + apply well_keyed_items in Hw. rewrite Forall_forall in Hw. now apply Hw.
  - match goal with
    | |- bind (?go props []) _ = _ =>
        assert (Hgo : forall l obj,
                   Forall (fun kv =>
                             forall key depth,
                               (depth + Z.of_nat (height (snd kv))
                                <= MAX_RECURSION_DEPTH)%Z ->
                               well_keyed (snd kv) = true ->
                               applyReviver (snd kv) keep_value key depth
                               = Ok (rebuilt (snd kv))) l ->
                   NoDup (map fst obj ++ map fst l) ->
                   Forall (fun kv => isSafeKey (fst kv) = true
                                     /\ height (snd kv)
                                        < height (VObj proto props)
                                     /\ well_keyed (snd kv) = true) l ->
                   go l obj
                   = Ok (obj
                         ++ map (fun kv => (fst kv, rebuilt (snd kv))) l)%list)
    end.
    { induction l as [|[k v] l IHl]; intros obj Hl Hnd Hl2.
      - now rewrite app_nil_r.
      - inversion Hl as [|? ? Hx Hl']; subst.
        inversion Hl2 as [|? ? (Hk & Hhx & Hwx) Hl2']; subst.
        cbn [fst snd] in Hk, Hhx, Hwx, Hx. rewrite Hk.
        rewrite (Hx k (depth + 1)%Z) by (exact Hwx || lia). cbn [bind].
        cbn [map fst] in Hnd.
        rewrite set_prop_fresh
          by (intros Hin; apply NoDup_remove_2 in Hnd; apply Hnd;
              apply in_or_app; now left).
        rewrite IHl;
          [|exact Hl' | rewrite map_app, <- app_assoc; exact Hnd | exact Hl2'].
        cbn [map fst snd]. now rewrite <- app_assoc. }
    destruct (well_keyed_props proto props Hw) as [Hnd Hall].
    rewrite Hgo; [reflexivity | exact IH | exact Hnd|].
    apply Forall_forall. intros kv Hkv. rewrite Forall_forall in Hall.
    destruct (Hall kv Hkv) as [Hk Hwk].
    repeat split; try assumption. apply (height_prop proto props kv Hkv).
Qed.

(** X23: the reviver that keeps every value gives back the value, its
    objects rebuilt without a prototype, property by property and item
    by item, when at most 100 arrays and objects are nested in one
    another and the keys of every object are safe and differ from one
    another. *)
Theorem keep_value_reviver_rebuilds_the_value (value : GoonValue)
    (key : string) :
  height value <= 100 -> well_keyed value = true ->
  applyReviver value keep_value key 0 = Ok (rebuilt value).
Proof.
  intros Hh Hw. apply keep_value_rebuilds; [|exact Hw].
  change MAX_RECURSION_DEPTH with 100%Z. lia.
Qed.

Lemma keep_value_reviver_rebuilds_the_value_witness :
  height orders <= 100 /\ well_keyed orders = true
  /\ applyReviver orders keep_value "" 0 = Ok (rebuilt orders).
Proof.
  split; [cbn; lia|]. split; [reflexivity|].
  apply (keep_value_reviver_rebuilds_the_value orders "");
    [cbn; lia | reflexivity].
Defined.

(** ** The recursion counter of the encoder *)

Lemma fold_max_lt {A} (f : A -> nat) (l : list A) (b : nat) :
  fold_right (fun x n => Nat.max (f x) n) 0 l < b
  <-> 0 < b /\ Forall (fun x => f x < b) l.
Proof.
  induction l as [|x l IH]; cbn [fold_right].
  - split; [intros H; split; [exact H | constructor] | now intros [H _]].
  - rewrite Nat.max_lub_lt_iff, IH. split.
    + intros (Hx & Hb & Hl). split; [exact Hb | now constructor].
    + intros (Hb & Hl). inversion Hl; subst. auto.
Qed.

Lemma returns_bind_iff {A B} (r : result A) (k : A -> result B) :
  (forall a, returns (k a)) -> (returns (bind r k) <-> returns r).
Proof.
  intros Hk. destruct r as [a|e]; cbn [bind].
  - split; [intros _; apply returns_ok | intros _; apply Hk].
  - split; intros [x H]; discriminate H.
Qed.

Lemma returns_throw {A} (e : error) : ~ returns (@Throw A e).
Proof. intros [a H]. discriminate H. Qed.

Lemma returns_for_each_iff {A} (body : A -> result (list string))
    (l : list A) :
  returns (for_each body l) <-> Forall (fun x => returns (body x)) l.
Proof.
  split; [|apply returns_for_each].
  induction l as [|x l IH]; cbn [for_each]; [constructor|].
  destruct (body x) as [pushed|e] eqn:Hx; cbn [bind].
  - intros H. constructor; [rewrite Hx; apply returns_ok|]. apply IH.
    destruct (for_each body l); [apply returns_ok|].
    now apply returns_throw in H.
  - intros H. now apply returns_throw in H.
Qed.

Lemma returns_for_each_where_iff {A} (keep : A -> bool)
    (body : A -> result (list string)) (l : list A) :
  returns (for_each_where keep body l)
  <-> Forall (fun x => keep x = true -> returns (body x)) l.
Proof.
  induction l as [|x l IH]; cbn [for_each_where].
  - split; [constructor | intros _; apply returns_ok].
  - destruct (keep x) eqn:Hk.
    + destruct (body x) as [pushed|e] eqn:Hx; cbn [bind].
      * rewrite returns_bind_iff by (intros; apply returns_ok).
        rewrite IH. split.
        -- intros H. constructor; [|exact H]. intros _. rewrite Hx.
           apply returns_ok.
        -- intros H. now inversion H.
      * split; [intros H; now apply returns_throw in H|].
        intros H. inversion H as [|? ? Hhead _]; subst.
        rewrite Hx in Hhead. now apply Hhead.
    + rewrite IH. split.
      * intros H. constructor; [intros Hk'; congruence | exact H].
      * intros H. now inversion H.
Qed.

Lemma deepest_array (tabular : bool) (arr : list GoonValue) :
  deepest tabular (VArr arr)
  = if (length arr =? 0) || (tabular && isTabularArray arr)
       || (forallb isPrimitive arr && (length arr <=? 10))
    then 0
    else
      fold_right
        (fun item n =>
           Nat.max (if isPrimitive item then 0 else deepest tabular item + 2)
                   n)
        0 arr.
Proof. reflexivity. Qed.

Lemma deepest_object (tabular : bool) (proto : prototype)
    (props : list (string * GoonValue)) :
  deepest tabular (VObj proto props)
  = fold_right
      (fun kv n =>
         Nat.max
           (if isSafeKey (fst kv) then
              if isPrimitive (snd kv) then 0
              else if isArray (snd kv) then deepest tabular (snd kv)
              else S (deepest tabular (snd kv))
            else 0)
           n)
      0 props.
Proof. reflexivity. Qed.

(** Each of the three encoders returns exactly when the counter stays
    below the limit at every check it comes to. *)
Lemma encoders_return_iff opts dict (v : GoonValue) :
  forall depth parentKey rd,
    (returns (encodeValue opts dict v depth parentKey rd)
     <-> (rd + Z.of_nat (checked_depth (tabularArrays opts) v)
          < MAX_RECURSION_DEPTH)%Z)
    /\ (isArray v = true -> (rd <= MAX_RECURSION_DEPTH)%Z ->
        (returns (encodeArray_of opts dict v depth parentKey rd)
         <-> (rd + Z.of_nat (deepest (tabularArrays opts) v)
              < MAX_RECURSION_DEPTH + 1)%Z))
    /\ (isPlainObject v = true ->
        (returns (encodeObject_of opts dict v depth parentKey rd)
         <-> (rd + Z.of_nat (deepest (tabularArrays opts) v)
              < MAX_RECURSION_DEPTH)%Z)).
Proof.
  induction v as [| b | n | s | items IH | proto props IH]
    using GoonValue_ind'; intros depth parentKey rd.
  1-4: (split; [|split; discriminate];
        rewrite encodeValue_unfold; unfold checked_depth;
        cbn [isPlainObject deepest];
        destruct (Z.geb_spec rd MAX_RECURSION_DEPTH) as [Hge|Hlt];
        [split; [intros H; now apply returns_throw in H | lia]
        | cbv zeta; split; [lia | intros _; destruct parentKey;
                                  apply returns_ok]]).
  - assert (Harr : forall depth parentKey rd,
               (rd <= MAX_RECURSION_DEPTH)%Z ->
               (returns (encodeArray_of opts dict (VArr items) depth
                                        parentKey rd)
                <-> (rd + Z.of_nat (deepest (tabularArrays opts) (VArr items))
                     < MAX_RECURSION_DEPTH + 1)%Z)).
    { clear depth parentKey rd. intros depth parentKey rd Hrd.
      rewrite encodeArray_of_unfold, deepest_array. unfold encodeArray_body.
      destruct (length items =? 0); cbn [orb];
        [split; [lia | intros _; apply returns_ok]|].
      destruct (_ && _); cbn [orb];
        [split; [lia | intros _; apply returns_ok]|].
      destruct (_ && _);
        [split; [lia | intros _; apply returns_ok]|].
      rewrite returns_bind_iff by (intros; apply returns_ok).
      rewrite returns_for_each_iff.
      set (f := fun item : GoonValue =>
                  if isPrimitive item then 0
                  else deepest (tabularArrays opts) item + 2).
      assert (Hbound :
                (rd + Z.of_nat (fold_right (fun x n => Nat.max (f x) n) 0%nat
                                           items)
                 < MAX_RECURSION_DEPTH + 1)%Z
                <-> fold_right (fun x n => Nat.max (f x) n) 0 items
                    < Z.to_nat (MAX_RECURSION_DEPTH + 1 - rd)) by lia.
      change (fold_right _ 0 items)
        with (fold_right (fun x n => Nat.max (f x) n) 0 items).
      rewrite Hbound, fold_max_lt.
      split.
      - intros H. split; [lia|].
        rewrite Forall_forall in H, IH |- *. intros item Hin.
        specialize (H item Hin). unfold f.
        destruct (IH item Hin (depth + 2) None (rd + 1)%Z)
          as (Hv & _ & Ho).
        destruct (isPrimitive item) eqn:Hp; [lia|].
        destruct item; try discriminate Hp.
        + cbn [isArray] in H.
          rewrite returns_bind_iff in H by (intros; apply returns_ok).
          apply Hv in H. unfold checked_depth in H.
          cbn [isPlainObject] in H. lia.
        + cbn [isArray isPlainObject] in H.
          rewrite returns_bind_iff in H by (intros; apply returns_ok).
          apply Ho in H; [|reflexivity]. lia.
      - intros [_ H].
        rewrite Forall_forall in H, IH |- *. intros item Hin.
        specialize (H item Hin). unfold f in H.
        destruct (IH item Hin (depth + 2) None (rd + 1)%Z)
          as (Hv & _ & Ho).
        destruct (isPrimitive item) eqn:Hp; [apply returns_ok|].
        destruct item; try discriminate Hp.
        + cbn [isArray].
          rewrite returns_bind_iff by (intros; apply returns_ok).
          apply Hv. unfold checked_depth. cbn [isPlainObject]. lia.
        + cbn [isArray isPlainObject].
          rewrite returns_bind_iff by (intros; apply returns_ok).
          apply Ho; [reflexivity | lia]. }
    split; [|split; [intros _; apply Harr | discriminate]].
    rewrite encodeValue_unfold. unfold checked_depth. cbn [isPlainObject].
    destruct (Z.geb_spec rd MAX_RECURSION_DEPTH) as [Hge|Hlt].
    { split; [intros H; now apply returns_throw in H | lia]. }
    rewrite Harr by lia. lia.
  - assert (Hobj : forall depth parentKey rd,
               (returns (encodeObject_of opts dict (VObj proto props) depth
                                         parentKey rd)
                <-> (rd + Z.of_nat (deepest (tabularArrays opts)
                                            (VObj proto props))
                     < MAX_RECURSION_DEPTH)%Z)).
    { clear depth parentKey rd. intros depth parentKey rd.
      rewrite encodeObject_of_unfold, deepest_object.
      unfold encodeObject_body.
      set (f := fun kv : string * GoonValue =>
                  if isSafeKey (fst kv) then
                    if isPrimitive (snd kv) then 0
                    else if isArray (snd kv)
                         then deepest (tabularArrays opts) (snd kv)
                         else S (deepest (tabularArrays opts) (snd kv))
                  else 0).
      assert (Hbound :
                (rd + Z.of_nat (fold_right (fun x n => Nat.max (f x) n) 0%nat
                                           props)
                 < MAX_RECURSION_DEPTH)%Z
                <-> fold_right (fun x n => Nat.max (f x) n) 0 props
                    < Z.to_nat (MAX_RECURSION_DEPTH - rd)) by lia.
      change (fold_right _ 0 props)
        with (fold_right (fun x n => Nat.max (f x) n) 0 props).
      rewrite Hbound, fold_max_lt.
      destruct (Z.geb_spec rd MAX_RECURSION_DEPTH) as [Hge|Hlt].
      { split; [intros H; now apply returns_throw in H | lia]. }
      assert (Hprops :
                returns
                  (for_each_where
                     (fun kv : string * GoonValue => isSafeKey (fst kv))
                     (fun kv =>
                        let '(key, value) := kv in
                        if isPrimitive value then
                          Ok [repeat_string (Encode.indent opts)
                                (match parentKey with
                                 | Some _ => depth + 1
                                 | None => depth
                                 end)
                              ++ key ++ ": "
                              ++ encodePrimitive value dict
                                   (use_dictionary opts
                                      (match parentKey with
                                       | Some _ => depth + 1
                                       | None => depth
                                       end))]
                        else if isArray value then
                          encodeArray_of opts dict value
                            (match parentKey with
                             | Some _ => depth + 1
                             | None => depth
                             end) (Some key) (rd + 1)%Z
                        else if isPlainObject value then
                          encodeObject_of opts dict value
                            (match parentKey with
                             | Some _ => depth + 1
                             | None => depth
                             end) (Some key) (rd + 1)%Z
                        else Ok [])
                     props)
                <-> Forall (fun x => f x < Z.to_nat (MAX_RECURSION_DEPTH - rd))
                           props).
      { rewrite returns_for_each_where_iff.
        rewrite !Forall_forall. rewrite Forall_forall in IH.
        split; intros H [key value] Hin; specialize (H _ Hin);
          destruct (IH _ Hin
                      (match parentKey with
                       | Some _ => depth + 1
                       | None => depth
                       end) (Some key) (rd + 1)%Z) as (_ & Ha & Ho);
          unfold f in *; cbn [fst snd] in *.
        - destruct (isSafeKey key); [specialize (H eq_refl)|lia].
          destruct (isPrimitive value) eqn:Hp; [lia|].
          destruct value; try discriminate Hp; cbn [isArray isPlainObject] in *.
          + apply Ha in H; [lia | reflexivity | lia].
          + apply Ho in H; [lia | reflexivity].
        - intros Hsafe. rewrite Hsafe in H.
          destruct (isPrimitive value) eqn:Hp; [apply returns_ok|].
          destruct value; try discriminate Hp; cbn [isArray isPlainObject] in *.
          + apply Ha; [reflexivity | lia | lia].
          + apply Ho; [reflexivity | lia]. }
      destruct (length _ =? 0) eqn:Hempty.
      - split; [|intros _; apply returns_ok]. intros _. split; [lia|].
        apply Nat.eqb_eq in Hempty. apply length_zero_iff_nil in Hempty.
        apply Forall_forall. intros kv Hin. unfold f.
        destruct (isSafeKey (fst kv)) eqn:Hsafe; [|lia].
        assert (Hf : In kv (filter (fun kv : string * GoonValue =>
                                      isSafeKey (fst kv)) props))
          by (apply filter_In; now split).
        rewrite Hempty in Hf. contradiction.
      - rewrite returns_bind_iff by (intros; apply returns_ok).
        rewrite Hprops. split; [intros H; split; [lia | exact H]|].
        now intros [_ H]. }
    split; [|split; [discriminate | intros _; apply Hobj]].
    rewrite encodeValue_unfold. unfold checked_depth. cbn [isPlainObject].
    destruct (Z.geb_spec rd MAX_RECURSION_DEPTH) as [Hge|Hlt].
    { split; [intros H; now apply returns_throw in H | lia]. }
    rewrite Hobj. lia.
Qed.

(** ** Nested texts *)

Lemma nested_document_wrapped (n : nat) :
  nested_document n = wrapped_document n ["value: 1"].
Proof. reflexivity. Qed.

Lemma drop_while_spaces (a s : string) :
  all_chars is_space a = true ->
  drop_while is_space (a ++ s) = drop_while is_space s.
Proof.
  induction a as [|c a IH]; [reflexivity|]. cbn [all_chars append drop_while].
  intros H. apply andb_true_iff in H as [Hc Ha]. rewrite Hc. now apply IH.
Qed.

Lemma trim_indented (a s : string) :
  all_chars is_space a = true -> trim (a ++ s) = trim s.
Proof.
  intros H. unfold trim, trim_start. now rewrite drop_while_spaces.
Qed.

Lemma spaces_repeat (n : nat) :
  all_chars is_space (repeat_string "  " n) = true.
Proof.
  induction n as [|n IH]; [reflexivity|].
  cbn [repeat_string]. now rewrite all_chars_append, IH.
Qed.

Lemma level_of_indented (rest : string) (n : nat) :
  startsWith rest "  " = false ->
  getIndentLevel (repeat_string "  " n ++ rest) "  " = n.
Proof.
  intros Hrest. unfold getIndentLevel. cbn [String.length Nat.eqb].
  apply indent_level_repeat; [reflexivity | exact Hrest|].
  rewrite length_append, length_repeat_string. cbn [String.length]. lia.
Qed.

(** A turn of the loop of [parseObject] at a line [nested:] that a
    deeper line follows. *)
Lemma parseObject_turn_nested
    (parseObject_ parseListArray_ : parser GoonValue)
    (continue_ : ParseContext -> list (string * GoonValue)
                 -> outcome (list (string * GoonValue) * ParseContext))
    (ctx : ParseContext) (obj : list (string * GoonValue))
    (line next : string) :
  line_at ctx = Some line -> trim line = "nested:" ->
  line_at (advance ctx) = Some next ->
  getIndentLevel line (Decode.indent ctx)
  < getIndentLevel next (Decode.indent ctx) ->
  parseObject_turn parseObject_ parseListArray_ continue_ ctx
    (Z.of_nat (getIndentLevel line (Decode.indent ctx))) obj
  = match parseObject_ (advance ctx)
            (Z.of_nat (getIndentLevel next (Decode.indent ctx))) with
    | Returns (v, ctx') => continue_ ctx' (set_prop obj "nested" v)
    | Throws e => Throws e
    | OutOfFuel => OutOfFuel
    end.
Proof.
  intros Hline Htrim Hnext Hlevel. unfold parseObject_turn.
  rewrite Hline. cbv zeta. rewrite Htrim, Z.ltb_irrefl.
  destruct (Z.gtb_spec (Z.of_nat (getIndentLevel line (Decode.indent ctx)))
                       (Z.of_nat (getIndentLevel line (Decode.indent ctx))))
    as [H|_]; [lia|].
  change (keyValueMatch "nested:") with (@None (string * string)).
  change (emptyObjMatch "nested:") with (@None string).
  change (emptyArrMatch "nested:") with (@None string).
  change (tabularMatch "nested:") with (@None (string * string)).
  change (simpleArrMatch "nested:") with (@None (string * string)).
  change (nestedKeyMatch "nested:") with (Some "nested").
  cbv iota beta. change (isSafeKey "nested") with true. cbv iota.
  unfold deeper_indent. rewrite Hnext. cbn [Decode.indent advance].
  destruct (Z.gtb_spec (Z.of_nat (getIndentLevel next (Decode.indent ctx)))
                       (Z.of_nat (getIndentLevel line (Decode.indent ctx))))
    as [_|H]; [reflexivity | lia].
Qed.

Section Wrapped.
Variables (n : nat) (first : string) (rest : list string).
Hypothesis first_flush : startsWith first "  " = false.

Lemma wrapper_at (i : nat) :
  i < n ->
  nth_error (wrapped_lines n first rest) i = Some (repeat_string "  " i ++ "nested:").
Proof.
  intros Hi. unfold wrapped_lines.
  rewrite nth_error_app1 by (rewrite length_map, length_seq; exact Hi).
  rewrite nth_error_map, nth_error_seq.
  destruct (Nat.ltb_spec i n); [reflexivity | lia].
Qed.

Lemma first_at :
  nth_error (wrapped_lines n first rest) n = Some (repeat_string "  " n ++ first).
Proof.
  unfold wrapped_lines.
  rewrite nth_error_app2 by (rewrite length_map, length_seq; lia).
  rewrite length_map, length_seq, Nat.sub_diag. reflexivity.
Qed.

(** Every line down to the first of the inner ones is indented by its
    number. *)
Lemma level_at (i : nat) :
  i <= n ->
  exists line,
    nth_error (wrapped_lines n first rest) i = Some line
    /\ getIndentLevel line "  " = i.
Proof.
  intros Hi. destruct (Nat.eq_dec i n) as [->|Hne].
  - eexists. split; [apply first_at|]. now apply level_of_indented.
  - eexists. split; [apply wrapper_at; lia|]. now apply level_of_indented.
Qed.

Variable inner_result : outcome GoonValue.
Variable inner_fuel : nat.
Hypothesis inner_fuel_positive : 1 <= inner_fuel.
Hypothesis inner_parse :
  n < 100 ->
  forall fuel,
    inner_fuel <= fuel ->
    parseObject fuel (ctx_at n first rest n) (Z.of_nat n)
    = match inner_result with
      | Returns v => Returns (v, ctx_end n first rest n)
      | Throws e => Throws e
      | OutOfFuel => OutOfFuel
      end.

Lemma parseObject_too_deep (fuel i : nat) (baseIndent : Z) :
  1 <= fuel -> i = 100 ->
  parseObject fuel (ctx_at n first rest i) baseIndent
  = Throws (GoonDecodeError "Maximum recursion depth (100) exceeded"
                            (Some 101)).
Proof.
  intros Hfuel ->. destruct fuel as [|fuel]; [lia|]. reflexivity.
Qed.

Lemma parseObject_wrapped (k : nat) :
  forall i fuel,
    i + k = n -> i <= 100 -> inner_fuel + 2 * k <= fuel ->
    parseObject fuel (ctx_at n first rest i) (Z.of_nat i)
    = if 100 <=? n then
        Throws (GoonDecodeError "Maximum recursion depth (100) exceeded"
                                (Some 101))
      else
        match inner_result with
        | Returns v => Returns (wrapped_value k v, ctx_end n first rest i)
        | Throws e => Throws e
        | OutOfFuel => OutOfFuel
        end.
Proof.
  induction k as [|k IH]; intros i fuel Hik Hi Hfuel.
  - assert (i = n) by lia. subst i.
    destruct (Nat.leb_spec 100 n) as [Hn|Hn].
    + apply parseObject_too_deep; lia.
    + apply inner_parse; [exact Hn | lia].
  - destruct (Nat.eq_dec i 100) as [Heq|Hne].
    { destruct (Nat.leb_spec 100 n) as [_|Hn]; [|lia].
      apply parseObject_too_deep; lia. }
    destruct fuel as [|[|fuel]]; [lia | lia|].
    change (parseObject (S (S fuel)) (ctx_at n first rest i) (Z.of_nat i))
      with (parseObject_body
              (fun ctx baseIndent obj =>
                 parseObject_turn (parseObject fuel) (parseListArray fuel)
                   (fun ctx obj => parseObject_loop fuel ctx baseIndent obj)
                   ctx baseIndent obj)
              (ctx_at n first rest i) (Z.of_nat i)).
    unfold parseObject_body. cbv zeta.
    destruct (Z.gtb_spec (depth (deeper (ctx_at n first rest i))) MAX_RECURSION_DEPTH)
      as [H|_].
    { cbn in H. unfold MAX_RECURSION_DEPTH in H. lia. }
    destruct (level_at i ltac:(lia)) as (line & Hline & Hlevel).
    destruct (level_at (S i) ltac:(lia)) as (next & Hnext & Hnextlevel).
    assert (Htrim : trim line = "nested:").
    { rewrite wrapper_at in Hline by lia. injection Hline as <-.
      rewrite trim_indented by apply spaces_repeat. reflexivity. }
    rewrite <- Hlevel at 2.
    change "  " with (Decode.indent (deeper (ctx_at n first rest i))) at 1.
    rewrite (parseObject_turn_nested _ _ _ (deeper (ctx_at n first rest i)) [] line next
               Hline Htrim Hnext)
      by (cbn [Decode.indent deeper ctx_at]; lia).
    cbn [Decode.indent deeper ctx_at]. rewrite Hnextlevel.
    replace (advance (deeper (ctx_at n first rest i))) with (ctx_at n first rest (S i))
      by (unfold advance, deeper, ctx_at; cbn; f_equal; lia).
    rewrite (IH (S i) fuel) by lia.
    destruct (100 <=? n); [reflexivity|].
    destruct inner_result as [v|e|]; try reflexivity.
    destruct fuel as [|fuel]; [lia|].
    cbn [parseObject_loop]. unfold parseObject_turn, line_at.
    cbn [lines index ctx_end].
    rewrite (proj2 (nth_error_None (wrapped_lines n first rest) (length (wrapped_lines n first rest))))
      by lia.
    replace (shallower (ctx_end n first rest (S i))) with (ctx_end n first rest i)
      by (unfold shallower, ctx_end;
          cbn [lines index dictionary Decode.indent depth]; f_equal; lia).
    reflexivity.
Qed.
End Wrapped.

Lemma no_char_repeat (p : ascii -> bool) (n : nat) :
  p " "%char = false -> any_char p (repeat_string "  " n) = false.
Proof.
  intros Hp. induction n as [|n IH]; [reflexivity|].
  cbn [repeat_string]. rewrite any_char_append, IH. cbn. now rewrite Hp.
Qed.

Lemma wrapped_lines_read (n : nat) (inner : list string) :
  inner <> [] ->
  Forall (fun line => any_char (fun c => Ascii.eqb c LF) line = false
                      /\ is_empty (trim line) = false) inner ->
  input_lines
    (text_of
       (List.app
          (map (fun i => repeat_string "  " i ++ "nested:") (seq 0 n))
          (map (fun line => repeat_string "  " n ++ line) inner)))
  = List.app
      (map (fun i => repeat_string "  " i ++ "nested:") (seq 0 n))
      (map (fun line => repeat_string "  " n ++ line) inner).
Proof.
  intros Hne Hinner. apply split_lines.
  - destruct inner; [contradiction|]. intros H.
    apply app_eq_nil in H as [_ H]. discriminate H.
  - apply Forall_app. split; apply Forall_forall; intros line Hin;
      apply in_map_iff in Hin as (x & <- & Hx).
    + rewrite any_char_append, no_char_repeat by reflexivity.
      rewrite trim_indented by apply spaces_repeat. split; reflexivity.
    + rewrite Forall_forall in Hinner. destruct (Hinner x Hx) as [H1 H2].
      rewrite any_char_append, no_char_repeat by reflexivity.
      rewrite trim_indented by apply spaces_repeat. now split.
Qed.

Lemma detectIndent_wrapped (n : nat) (c : ascii) (r : string)
    (rest : list string) :
  is_space c = false ->
  detectIndent (wrapped_lines (S n) (String c r) rest) = "  ".
Proof.
  intros Hc. unfold wrapped_lines. destruct n as [|n].
  - cbn. now rewrite Hc.
  - reflexivity.
Qed.

(** What [decode] makes of the lines [first :: rest] inside [n + 1]
    nested objects, from what [parseObject] makes of those lines. *)
Lemma decode_wrapped (n : nat) (c : ascii) (r : string) (rest : list string)
    (inner_result : outcome GoonValue) (inner_fuel : nat)
    (options : DecodeOptions) :
  (utf8_length (wrapped_document (S n) (String c r :: rest))
   <= MAX_INPUT_SIZE)%Z ->
  is_space c = false ->
  Forall (fun line => any_char (fun c => Ascii.eqb c LF) line = false
                      /\ is_empty (trim line) = false) (String c r :: rest) ->
  1 <= inner_fuel <= 2 * length (String c r :: rest) + 2 ->
  (S n < 100 ->
   forall fuel,
     inner_fuel <= fuel ->
     parseObject fuel (ctx_at (S n) (String c r) rest (S n))
                 (Z.of_nat (S n))
     = match inner_result with
       | Returns v => Returns (v, ctx_end (S n) (String c r) rest (S n))
       | Throws e => Throws e
       | OutOfFuel => OutOfFuel
       end) ->
  decode (wrapped_document (S n) (String c r :: rest)) options
  = if 100 <=? S n then
      Throws (GoonDecodeError "Maximum recursion depth (100) exceeded"
                              (Some 101))
    else
      match inner_result with
      | Returns v =>
          match reviver options with
          | Some f =>
              match applyReviver (wrapped_value (S n) v) f "" 0 with
              | Ok v' => Returns v'
              | Throw e => Throws e
              end
          | None => Returns (wrapped_value (S n) v)
          end
      | Throws e => Throws e
      | OutOfFuel => OutOfFuel
      end.
Proof.
  intros Hsize Hc Hinner Hfuel Hparse.
  assert (Hflush : startsWith (String c r) "  " = false).
  { cbn [startsWith]. destruct (Ascii.eqb_spec c " ") as [->|_];
      [discriminate Hc | reflexivity]. }
  unfold decode. rewrite (decode_accepts_small _ options Hsize).
  unfold wrapped_document.
  rewrite wrapped_lines_read by (exact Hinner || discriminate).
  fold (wrapped_lines (S n) (String c r) rest).
  cbv zeta. rewrite (detectIndent_wrapped n c r rest Hc).
  assert (HL : wrapped_lines (S n) (String c r) rest
               = "nested:" :: tl (wrapped_lines (S n) (String c r) rest))
    by reflexivity.
  set (L := wrapped_lines (S n) (String c r) rest) in *.
  set (L' := tl L) in *. clearbody L'.
  rewrite HL.
  cbn [length Nat.eqb startsWith Ascii.eqb Bool.eqb andb].
  cbv iota beta.
  change (S (length L') <=? 0) with false.
  cbv iota. unfold parseRoot, line_at. cbn [lines index nth_error].
  rewrite <- HL. subst L.
  cbv zeta. change (trim "nested:") with "nested:".
  change (String.eqb "nested:" "{}") with false.
  change (String.eqb "nested:" "[]") with false.
  change (standaloneTabularMatch "nested:") with (@None string).
  change (standaloneSimpleArrMatch "nested:") with (@None string).
  change (starts_like_key "nested:") with true.
  cbn [orb]. cbv iota.
  change (parseObject _ _ 0%Z)
    with (parseObject (fuel_for (wrapped_lines (S n) (String c r) rest))
                      (ctx_at (S n) (String c r) rest 0) (Z.of_nat 0)).
  rewrite (parseObject_wrapped (S n) (String c r) rest Hflush inner_result
             inner_fuel ltac:(lia) Hparse (S n) 0
             (fuel_for (wrapped_lines (S n) (String c r) rest)));
    [| lia | lia |].
  - destruct (100 <=? S n); [reflexivity|].
    destruct inner_result as [v|e|]; reflexivity.
  - unfold fuel_for, wrapped_lines.
    rewrite length_app, !length_map, length_seq. lia.
Qed.

Lemma past_the_lines (n : nat) (first : string) (rest : list string)
    (ctx : ParseContext) :
  lines ctx = wrapped_lines n first rest ->
  index ctx = n + S (length rest) ->
  line_at ctx = None.
Proof.
  intros Hl Hi. unfold line_at. rewrite Hl, Hi. apply nth_error_None.
  unfold wrapped_lines. rewrite length_app, !length_map, length_seq.
  cbn [length]. lia.
Qed.

(** The innermost object [value: 1]. *)
Lemma parseObject_value_line (n fuel : nat) :
  n < 100 -> 3 <= fuel ->
  parseObject fuel (ctx_at n "value: 1" [] n) (Z.of_nat n)
  = Returns (VObj NullPrototype [("value", integer 1)],
             ctx_end n "value: 1" [] n).
Proof.
  intros Hn Hfuel. destruct fuel as [|[|[|fuel]]]; try lia.
  change (parseObject (S (S (S fuel))) (ctx_at n "value: 1" [] n)
                      (Z.of_nat n))
    with (parseObject_body
            (fun ctx baseIndent obj =>
               parseObject_turn (parseObject (S fuel))
                 (parseListArray (S fuel))
                 (fun ctx obj =>
                    parseObject_turn (parseObject fuel) (parseListArray fuel)
                      (fun ctx obj =>
                         parseObject_loop fuel ctx baseIndent obj)
                      ctx baseIndent obj)
                 ctx baseIndent obj)
            (ctx_at n "value: 1" [] n) (Z.of_nat n)).
  unfold parseObject_body. cbv zeta.
  destruct (Z.gtb_spec (depth (deeper (ctx_at n "value: 1" [] n)))
                       MAX_RECURSION_DEPTH) as [H|_].
  { cbn in H. unfold MAX_RECURSION_DEPTH in H. lia. }
  unfold parseObject_turn at 1. unfold line_at at 1.
  cbn [lines index deeper ctx_at]. rewrite first_at. cbv zeta.
  cbn [Decode.indent]. rewrite level_of_indented by reflexivity.
  rewrite trim_indented by apply spaces_repeat.
  change (trim "value: 1") with "value: 1".
  rewrite Z.ltb_irrefl.
  destruct (Z.gtb_spec (Z.of_nat n) (Z.of_nat n)) as [H|_]; [lia|].
  change (keyValueMatch "value: 1") with (Some ("value", "1")).
  cbv iota beta.
  unfold parseObject_turn.
  rewrite (past_the_lines n "value: 1" []) by (cbn; (reflexivity || lia)).
  unfold shallower, ctx_end.
  cbn [lines index dictionary Decode.indent depth advance deeper ctx_at].
  change (set_safe [] "value" (parsePrimitive (trim "1") []))
    with [("value", integer 1)].
  do 3 f_equal; try lia.
  unfold wrapped_lines. rewrite length_app, !length_map, length_seq.
  cbn [length]. lia.
Qed.

(** The innermost object [t{a}:] with one row: the table is one call
    deeper than the object. *)
Lemma parseObject_table_lines (n fuel : nat) :
  n < 100 -> 3 <= fuel ->
  parseObject fuel (ctx_at n "t{a}:" ["1"] n) (Z.of_nat n)
  = if n <? 99 then
      Returns (VObj NullPrototype
                 [("t", VArr [VObj NullPrototype [("a", integer 1)]])],
               ctx_end n "t{a}:" ["1"] n)
    else
      Throws (GoonDecodeError "Maximum recursion depth (100) exceeded"
                              (Some 100)).
Proof.
  intros Hn Hfuel. destruct fuel as [|[|[|fuel]]]; try lia.
  change (parseObject (S (S (S fuel))) (ctx_at n "t{a}:" ["1"] n)
                      (Z.of_nat n))
    with (parseObject_body
            (fun ctx baseIndent obj =>
               parseObject_turn (parseObject (S fuel))
                 (parseListArray (S fuel))
                 (fun ctx obj =>
                    parseObject_turn (parseObject fuel) (parseListArray fuel)
                      (fun ctx obj =>
                         parseObject_loop fuel ctx baseIndent obj)
                      ctx baseIndent obj)
                 ctx baseIndent obj)
            (ctx_at n "t{a}:" ["1"] n) (Z.of_nat n)).
  unfold parseObject_body. cbv zeta.
  destruct (Z.gtb_spec (depth (deeper (ctx_at n "t{a}:" ["1"] n)))
                       MAX_RECURSION_DEPTH) as [H|_].
  { cbn in H. unfold MAX_RECURSION_DEPTH in H. lia. }
  unfold parseObject_turn at 1. unfold line_at at 1.
  cbn [lines index deeper ctx_at]. rewrite first_at. cbv zeta.
  cbn [Decode.indent]. rewrite level_of_indented by reflexivity.
  rewrite trim_indented by apply spaces_repeat.
  change (trim "t{a}:") with "t{a}:".
  rewrite Z.ltb_irrefl.
  destruct (Z.gtb_spec (Z.of_nat n) (Z.of_nat n)) as [H|_]; [lia|].
  change (keyValueMatch "t{a}:") with (@None (string * string)).
  change (emptyObjMatch "t{a}:") with (@None string).
  change (emptyArrMatch "t{a}:") with (@None string).
  change (tabularMatch "t{a}:") with (Some ("t", "a")).
  cbv iota beta. change (isSafeKey "t") with true. cbv iota.
  unfold parseTabularArray. cbv zeta.
  cbn [lines index dictionary Decode.indent depth advance deeper ctx_at].
  destruct (Z.gtb_spec (Z.of_nat n + 1 + 1) MAX_RECURSION_DEPTH) as [Hd|Hd];
    unfold MAX_RECURSION_DEPTH in Hd.
  { destruct (Nat.ltb_spec n 99) as [H|_]; [lia|].
    assert (n = 99) by lia. subst n. reflexivity. }
  destruct (Nat.ltb_spec n 99) as [_|H]; [|lia].
  replace (skipn (S n) (wrapped_lines n "t{a}:" ["1"]))
    with [repeat_string "  " n ++ "1"].
  2:{ unfold wrapped_lines.
      rewrite skipn_app, length_map, length_seq.
      rewrite skipn_all2 by (rewrite length_map, length_seq; lia).
      replace (S n - n) with 1 by lia. reflexivity. }
  cbn [tabular_rows Decode.indent].
  rewrite level_of_indented by reflexivity.
  rewrite trim_indented by apply spaces_repeat.
  change (trim "1") with "1". rewrite Z.ltb_irrefl.
  cbn [is_empty]. change (starts_like_key "1") with false.
  change (startsWith "1" "$:") with false. cbn [orb].
  change (detectDelimiter "a") with Comma.
  change (filter isSafeKey (split (delimiter_char Comma) "a")) with ["a"].
  change (parseRow "1" [] Comma) with [integer 1].
  change (resolve_row ["a"] [integer 1] []) with [integer 1].
  cbn [build_row set_prop app].
  unfold parseObject_turn.
  rewrite (past_the_lines n "t{a}:" ["1"]) by (cbn; (reflexivity || lia)).
  unfold shallower, ctx_end.
  cbn [lines index dictionary Decode.indent depth advance deeper ctx_at
       set_prop].
  do 3 f_equal; try lia.
  unfold wrapped_lines. rewrite length_app, !length_map, length_seq.
  cbn [length]. lia.
Qed.

Lemma small_below (f : nat -> string) (bound n : nat) :
  forallb (fun i => (utf8_length (f i) <=? MAX_INPUT_SIZE)%Z) (seq 0 bound)
  = true ->
  n < bound -> (utf8_length (f n) <= MAX_INPUT_SIZE)%Z.
Proof.
  intros H Hn. rewrite forallb_forall in H. apply Z.leb_le, H, in_seq. lia.
Qed.

Lemma nested_documents_small (n : nat) :
  n < 100 -> (utf8_length (nested_document n) <= MAX_INPUT_SIZE)%Z.
Proof. apply (small_below nested_document 100). vm_compute. reflexivity. Qed.

Lemma nested_table_documents_small (n : nat) :
  n < 100 -> (utf8_length (nested_table_document n) <= MAX_INPUT_SIZE)%Z.
Proof.
  apply (small_below nested_table_document 100). vm_compute. reflexivity.
Qed.

(** The text of [n] objects around the object [value: 1]: [n + 1] calls
    of [parseObject] are nested, and the call number 101 is refused, at
    line 101. *)
Lemma decode_nested_document (n : nat) (options : DecodeOptions) :
  (utf8_length (nested_document n) <= MAX_INPUT_SIZE)%Z ->
  decode (nested_document n) options
  = if 100 <=? n then
      Throws (GoonDecodeError "Maximum recursion depth (100) exceeded"
                              (Some 101))
    else
      match reviver options with
      | Some f =>
          match applyReviver
                  (wrapped_value n
                     (VObj NullPrototype [("value", integer 1)])) f "" 0 with
          | Ok v' => Returns v'
          | Throw e => Throws e
          end
      | None =>
          Returns (wrapped_value n
                     (VObj NullPrototype [("value", integer 1)]))
      end.
Proof.
  intros Hsize. destruct n as [|n]; [reflexivity|].
  rewrite nested_document_wrapped in *.
  apply (decode_wrapped n "v" "alue: 1" []
           (Returns (VObj NullPrototype [("value", integer 1)])) 3);
    [exact Hsize | reflexivity | | cbn [length]; lia |].
  - constructor; [split; reflexivity | constructor].
  - intros Hn fuel Hfuel. now apply parseObject_value_line.
Qed.

(** The text of [n] objects around an object with a table: [n + 1]
    calls of [parseObject] and one of [parseTabularArray] are nested. *)
Lemma decode_nested_table_document (n : nat) (options : DecodeOptions) :
  (utf8_length (nested_table_document n) <= MAX_INPUT_SIZE)%Z ->
  decode (nested_table_document n) options
  = if 99 <=? n then
      Throws (GoonDecodeError "Maximum recursion depth (100) exceeded"
                              (Some (Nat.min (n + 1) 101)))
    else
      match reviver options with
      | Some f =>
          match applyReviver
                  (wrapped_value n
                     (VObj NullPrototype
                        [("t", VArr [VObj NullPrototype
                                       [("a", integer 1)]])])) f "" 0 with
          | Ok v' => Returns v'
          | Throw e => Throws e
          end
      | None =>
          Returns (wrapped_value n
                     (VObj NullPrototype
                        [("t", VArr [VObj NullPrototype
                                       [("a", integer 1)]])]))
      end.
Proof.
  intros Hsize. destruct n as [|n]; [reflexivity|].
  unfold nested_table_document in *.
  rewrite (decode_wrapped n "t" "{a}:" ["1"]
             (if S n <? 99 then
                Returns (VObj NullPrototype
                           [("t", VArr [VObj NullPrototype
                                          [("a", integer 1)]])])
              else
                Throws (GoonDecodeError
                          "Maximum recursion depth (100) exceeded"
                          (Some 100))) 3 options Hsize eq_refl).
  - destruct (Nat.leb_spec 100 (S n)) as [H100|H100].
    + destruct (Nat.leb_spec 99 (S n)) as [_|H]; [|lia].
      rewrite Nat.min_r by lia. reflexivity.
    + destruct (Nat.ltb_spec (S n) 99) as [H99|H99].
      * destruct (Nat.leb_spec 99 (S n)) as [H|_]; [lia | reflexivity].
      * destruct (Nat.leb_spec 99 (S n)) as [_|H]; [|lia].
        rewrite Nat.min_l by lia. do 3 f_equal. lia.
  - repeat constructor.
  - cbn [length]. lia.
  - intros Hn fuel Hfuel.
    rewrite (parseObject_table_lines (S n) fuel Hn Hfuel).
    destruct (S n <? 99); reflexivity.
Qed.

(** ** C2 *)

Lemma typed_tabularArrays (spreadOpts : SpreadOptions)
    (opts : InternalOptions) :
  typed spreadOpts = Some opts ->
  tabularArrays opts = tabularArrays spreadOpts.
Proof. intros H. untype H. reflexivity. Qed.

Lemma deepest_nested_object (tabular : bool) (n : nat) :
  deepest tabular (nested_object n) = n.
Proof.
  induction n as [|n IH]; [reflexivity|].
  cbn [nested_object]. unfold object. rewrite deepest_object.
  cbn [fold_right fst snd]. change (isSafeKey "nested") with true.
  destruct (nested_object_is_object n) as (Hp & Ha & _).
  rewrite Hp, Ha, IH. cbv iota. lia.
Qed.

Lemma checked_depth_nested_object (tabular : bool) (n : nat) :
  checked_depth tabular (nested_object n) = S n.
Proof.
  unfold checked_depth.
  destruct (nested_object_is_object n) as (_ & _ & Ho).
  now rewrite Ho, deepest_nested_object.
Qed.

(** Without a replacer [encode] throws the error of the recursion limit
    when the counter reaches the limit at a check, and returns when it
    does not. *)
Lemma encode_depth_limit (value : GoonValue) (mode : option EncodeMode)
    (fields : PartialOptions) :
  let options := {| mode := mode; replacer := None; fields := fields |} in
  let reached :=
    checked_depth (tabularArrays (resolve_options options)) value in
  indent_is_string options = true ->
  (100 <= reached -> encode value options = Throw depth_error)
  /\ (reached < 100 -> exists text, encode value options = Ok text).
Proof.
  intros options reached Hindent. unfold encode.
  destruct (typed_options _ Hindent) as [opts Hopts]. rewrite Hopts.
  cbn [replacer options bind]. cbv zeta.
  set (dict := dictionary_for opts value).
  destruct (encoders_return_iff opts dict value 0 None 0%Z) as (Hv & _).
  rewrite (typed_tabularArrays _ _ Hopts) in Hv. fold options reached in Hv.
  unfold MAX_RECURSION_DEPTH in Hv.
  destruct (encoders_throw_depth_error opts dict value 0 None 0%Z)
    as (Honly & _).
  split; intros Hreached.
  - destruct (encodeValue opts dict value 0 None 0) as [lines|e] eqn:E.
    + exfalso. assert (H : returns (Ok lines : result (list string)))
        by apply returns_ok.
      apply Hv in H. lia.
    + cbn [bind]. now rewrite (Honly e eq_refl).
  - destruct (proj2 Hv ltac:(lia)) as [lines ->]. cbn [bind].
    eexists. reflexivity.
Qed.

(** C2 as it is stated fails on arrays: the encoder counts a level at
    [encodeValue] and at [encodeObject] only, and the decoder at
    [parseObject] and at [parseTabularArray] only.  A table of two rows
    inside 99 nested objects is nested 101 deep; it is encoded in every
    preset, and the text of the balanced preset is decoded to the same
    data. *)
Lemma C2_counterexample :
  height deep_table = 101
  /\ (exists text, encode deep_table (preset llm) = Ok text)
  /\ (exists text, encode deep_table (preset compact) = Ok text)
  /\ (exists text v,
        encode deep_table (preset balanced) = Ok text
        /\ decode text no_reviver = Returns v
        /\ equal_data v deep_table
        /\ height v = 101).
Proof.
  split; [vm_compute; reflexivity|].
  split; [eexists; vm_compute; reflexivity|].
  split; [eexists; vm_compute; reflexivity|].
  eexists. eexists.
  split; [vm_compute; reflexivity|].
  split; [vm_compute; reflexivity|].
  split; vm_compute; reflexivity.
Qed.

(** C2 (amended): the limits are enforced, the recursion limit on the
    counters of the two codecs.  Encoder, with a string [indent] and no
    replacer: [encode] throws the encode error that names the limit 100
    when the recursion counter reaches 100 at a check of [encodeValue]
    or [encodeObject], and returns a text when it does not; an object
    inside [n] objects brings the counter to [n + 1], so from 99 objects
    around it on it is refused.  Decoder, on texts within the size
    limit: the text of an object inside [n] objects throws the decode
    error that names the limit 100, at line 101, when [n >= 100] and is
    decoded when [n < 100]; the text of a table inside [n + 1] objects
    throws it when [n >= 99], from [parseTabularArray] when [n = 99],
    and is decoded when [n < 99].  A repeat count of 999,999,999 gives
    an array of exactly 10,000 elements and no cell is repeated more
    than 10,000 times.  Every input above the size limit is refused by
    the size check, the first thing [decode] does, as is a document of
    11 MiB. *)
Theorem C2_limits_are_enforced :
  (forall value mode fields,
      let options :=
        {| mode := mode; replacer := None; fields := fields |} in
      let reached :=
        checked_depth (tabularArrays (resolve_options options)) value in
      indent_is_string options = true ->
      (100 <= reached ->
       encode value options
       = Throw (GoonEncodeError "Maximum recursion depth (100) exceeded"))
      /\ (reached < 100 -> exists text, encode value options = Ok text))
  /\ (forall tabular n, checked_depth tabular (nested_object n) = n + 1)
  /\ (forall n options,
        (utf8_length (nested_document n) <= MAX_INPUT_SIZE)%Z ->
        100 <= n ->
        decode (nested_document n) options
        = Throws (GoonDecodeError "Maximum recursion depth (100) exceeded"
                                  (Some 101)))
  /\ (forall n,
        n < 100 ->
        decode (nested_document n) no_reviver
        = Returns (wrapped_value n
                     (VObj NullPrototype [("value", integer 1)])))
  /\ (forall n options,
        (utf8_length (nested_table_document n) <= MAX_INPUT_SIZE)%Z ->
        99 <= n ->
        decode (nested_table_document n) options
        = Throws (GoonDecodeError "Maximum recursion depth (100) exceeded"
                                  (Some (Nat.min (n + 1) 101))))
  /\ (forall n,
        n < 99 ->
        decode (nested_table_document n) no_reviver
        = Returns (wrapped_value n
                     (VObj NullPrototype
                        [("t", VArr [VObj NullPrototype
                                       [("a", integer 1)]])])))
  /\ decode "items[]:1*999999999" no_reviver
     = Returns (VObj NullPrototype
                  [("items",
                    VArr (List.repeat (integer 1)
                                      (Z.to_nat MAX_REPEAT_COUNT)))])
  /\ length (List.repeat (integer 1) (Z.to_nat MAX_REPEAT_COUNT))
     = Z.to_nat 10000
  /\ (forall cell dictionary,
        (repeat (parseCell cell dictionary) <= 10000)%Z)
  /\ (forall input options,
        (MAX_INPUT_SIZE < utf8_length input)%Z ->
        exists message, decode input options = Throws (Error message))
  /\ (forall options,
        decode (document_of (11 * 1024 * 1024) "a") options
        = Throws (Error "Input size 11534336 bytes exceeds maximum allowed size of 10485760 bytes")).
Proof.
  split; [|split; [|split; [|split; [|split; [|split; [|split; [|split;
    [|split; [|split]]]]]]]]].
  - intros value mode fields. exact (encode_depth_limit value mode fields).
  - intros tabular n. rewrite checked_depth_nested_object. lia.
  - intros n options Hsize Hn. rewrite decode_nested_document by exact Hsize.
    destruct (Nat.leb_spec 100 n); [reflexivity | lia].
  - intros n Hn.
    rewrite decode_nested_document by now apply nested_documents_small.
    destruct (Nat.leb_spec 100 n); [lia | reflexivity].
  - intros n options Hsize Hn.
    rewrite decode_nested_table_document by exact Hsize.
    destruct (Nat.leb_spec 99 n); [reflexivity | lia].
  - intros n Hn.
    rewrite decode_nested_table_document
      by (apply nested_table_documents_small; lia).
    destruct (Nat.leb_spec 99 n); [lia | reflexivity].
  - vm_compute. reflexivity.
  - apply repeat_length.
  - intros cell dictionary. apply parseCell_repeat_bounds.
  - intros input options Hbig. eexists.
    now apply decode_rejects_large.
  - intros options. rewrite decode_rejects_large.
    + rewrite utf8_length_document. vm_compute. reflexivity.
    + rewrite utf8_length_document. vm_compute. reflexivity.
Qed.

Lemma C2_witness :
  indent_is_string (preset balanced) = true
  /\ 100 <= checked_depth
              (tabularArrays (resolve_options (preset balanced)))
              (nested_object 100)
  /\ encode (nested_object 100) (preset balanced)
     = Throw (GoonEncodeError "Maximum recursion depth (100) exceeded")
  /\ checked_depth (tabularArrays (resolve_options (preset balanced)))
                   deep_table < 100
  /\ (exists text, encode deep_table (preset balanced) = Ok text)
  /\ (utf8_length (nested_document 100) <= MAX_INPUT_SIZE)%Z
  /\ decode (nested_document 100) no_reviver
     = Throws (GoonDecodeError "Maximum recursion depth (100) exceeded"
                               (Some 101))
  /\ (utf8_length (nested_table_document 99) <= MAX_INPUT_SIZE)%Z
  /\ decode (nested_table_document 99) no_reviver
     = Throws (GoonDecodeError "Maximum recursion depth (100) exceeded"
                               (Some 100))
  /\ (exists v, decode (nested_table_document 98) no_reviver = Returns v
                /\ height v = 101).
Proof.
  destruct C2_limits_are_enforced
    as (Hencode & _ & Hobjects & _ & Htables & Htable & _).
  assert (Hindent : indent_is_string (preset balanced) = true)
    by reflexivity.
  assert (Hdeep : 100 <= checked_depth
                           (tabularArrays (resolve_options (preset balanced)))
                           (nested_object 100))
    by (apply Nat.leb_le; vm_compute; reflexivity).
  assert (Hshallow : checked_depth
                       (tabularArrays (resolve_options (preset balanced)))
                       deep_table < 100)
    by (apply Nat.ltb_lt; vm_compute; reflexivity).
  assert (Hsize : (utf8_length (nested_document 100) <= MAX_INPUT_SIZE)%Z)
    by (apply Z.leb_le; vm_compute; reflexivity).
  assert (Hsize' : (utf8_length (nested_table_document 99)
                    <= MAX_INPUT_SIZE)%Z)
    by (apply Z.leb_le; vm_compute; reflexivity).
  split; [exact Hindent|]. split; [exact Hdeep|].
  split; [exact (proj1 (Hencode (nested_object 100) (Some balanced)
                          no_options Hindent) Hdeep)|].
  split; [exact Hshallow|].
  split; [exact (proj2 (Hencode deep_table (Some balanced) no_options
                          Hindent) Hshallow)|].
  split; [exact Hsize|].
  split; [exact (Hobjects 100 no_reviver Hsize (le_n 100))|].
  split; [exact Hsize'|].
  split; [exact (Htables 99 no_reviver Hsize' (le_n 99))|].
  eexists. split; [apply (Htable 98); lia | vm_compute; reflexivity].
Defined.

(** ** Tables of rows equal to one another *)

Lemma referred_map (values : list GoonValue) (f : GoonValue -> string) :
  referred values (map f values)
  = map (fun v => if markable v then "^" else f v) values.
Proof.
  unfold referred. induction values as [|v values IH]; [reflexivity|].
  cbn [map combine fst snd]. now rewrite IH.
Qed.

Lemma reference_cells (d : Delimiter) (entries : list string)
    (values : list GoonValue) :
  forallb (fits_cell d) values = true ->
  Forall2 (fun text v =>
             cell_text d text /\ trim text = text /\ is_empty text = false
             /\ parseCell text entries = {| value := v; repeat := 1 |})
          (referred values
             (map (fun v => encodePrimitive v no_dictionary false) values))
          (map reference_value values).
Proof.
  intros Hfits. rewrite referred_map.
  assert (H := fits_cell_texts d no_dictionary entries values Hfits).
  induction values as [|v values IH]; [constructor|].
  cbn [map] in *. inversion H as [|? ? ? ? Hv Hrest]; subst.
  cbn [forallb] in Hfits. apply andb_true_iff in Hfits as [_ Hfits].
  constructor; [|now apply IH].
  unfold reference_value. destruct (markable v); [|exact Hv].
  split; [right; now destruct d|]. repeat split.
Qed.

(** What is known of a line of cells. *)
Lemma cells_line_facts (texts : list string) :
  texts <> [] ->
  Forall (fun t => any_char is_line_terminator t = false /\ trim t = t
                   /\ is_empty t = false /\ startsWith t "$" = false)
         texts ->
  let line := join "," texts in
  any_char (fun c => Ascii.eqb c LF) line = false
  /\ trim line = line /\ is_empty line = false
  /\ startsWith line "$:" = false.
Proof.
  intros Hne Hfacts. cbv zeta.
  destruct texts as [|t ts] eqn:Ets; [contradiction|]. rewrite <- Ets in *.
  assert (Ht : any_char is_line_terminator t = false /\ trim t = t
               /\ is_empty t = false /\ startsWith t "$" = false).
  { rewrite Ets in Hfacts. now apply Forall_inv in Hfacts. }
  destruct Ht as (_ & Httrim & Htne & Htd).
  assert (Hhead : forall c r, join "," texts = String c r ->
                              is_space c = false /\ Ascii.eqb c "$" = false).
  { rewrite Ets. unfold join. cbn [String.concat]. intros c r E.
    destruct t as [|x t']; [discriminate|].
    assert (x = c) by (destruct ts; cbn [append] in E; congruence).
    subst x. split; [exact (trim_fixed_first _ c t' Httrim eq_refl)|].
    cbn [startsWith] in Htd. now apply andb_false_iff in Htd as [H|H]. }
  split.
  { apply join_no_char; [reflexivity|].
    eapply Forall_impl; [|exact Hfacts]. intros x (Hx & _).
    eapply any_char_weaken; [|exact Hx].
    intros c Hc. unfold is_line_terminator. now rewrite Hc. }
  split.
  { apply trim_clean.
    - intros c r E. now apply (Hhead c r).
    - apply join_last; [rewrite Ets; discriminate|].
      eapply Forall_impl; [|exact Hfacts]. intros x (_ & Hx & Hxne & _).
      split; [exact Hxne|]. intros c r E.
      exact (trim_fixed_last x c r Hx E). }
  split; [rewrite Ets; now apply join_not_empty|].
  destruct (join "," texts) as [|c r] eqn:E; [reflexivity|].
  destruct (Hhead c r eq_refl) as [_ Hd]. cbn [startsWith]. now rewrite Hd.
Qed.

(** The values of a row of a table, in the order of the header. *)
Lemma table_row_values (fields : list string) (row : GoonValue) :
  distinct fields = true -> fields <> [] ->
  table_row fields row = true ->
  let values := row_values fields row in
  length values = length fields
  /\ forallb (fits_cell Comma) values = true
  /\ forallb (fun v => negb (is_marker v)) values = true
  /\ row_text fields row
     = join "," (map (fun v => encodePrimitive v no_dictionary false) values)
  /\ VObj NullPrototype (build_row fields values []) = without_prototype row.
Proof.
  intros Hdistinct Hne Hrow. cbv zeta. unfold table_row in Hrow.
  apply andb_true_iff in Hrow as [Hrow _].
  apply andb_true_iff in Hrow as [Hkeys Hvalues].
  apply same_strings_eq in Hkeys.
  assert (Hnd : NoDup fields) by now apply distinct_NoDup.
  destruct row as [| | | | |proto props];
    try (cbn in Hkeys; subst fields; contradiction).
  unfold Object_keys, Object_values in *. cbn [Object_entries] in *.
  assert (Evalues : row_values fields (VObj proto props) = map snd props).
  { unfold row_values. rewrite <- Hkeys.
    apply field_values_of_row. now rewrite Hkeys. }
  rewrite Evalues.
  split; [now rewrite <- Hkeys, !length_map|].
  split.
  { apply forallb_forall. intros v Hv. rewrite forallb_forall in Hvalues.
    specialize (Hvalues v Hv). now apply andb_true_iff in Hvalues as [H _]. }
  split.
  { apply forallb_forall. intros v Hv. rewrite forallb_forall in Hvalues.
    specialize (Hvalues v Hv). now apply andb_true_iff in Hvalues as [_ H]. }
  split.
  { unfold row_text. rewrite <- Evalues. unfold row_values.
    now rewrite map_map. }
  cbn [without_prototype]. f_equal. rewrite build_row_fresh.
  - cbn [app]. rewrite <- Hkeys. apply combine_fst_snd.
  - now rewrite <- Hkeys, !length_map.
  - exact Hnd.
Qed.

Lemma reference_text_values (fields : list string) (row : GoonValue) :
  reference_text fields row
  = join ","
      (referred (row_values fields row)
         (map (fun v => encodePrimitive v no_dictionary false)
              (row_values fields row))).
Proof. unfold reference_text, row_values. now rewrite map_map. Qed.

(** A row of references and of cells that cannot be referred to takes
    the values of the row above it. *)
Lemma resolve_row_references (fields : list string)
    (values : list GoonValue) :
  length values = length fields ->
  forallb (fun v => negb (is_marker v)) values = true ->
  resolve_row fields (map reference_value values) values = values.
Proof.
  unfold resolve_row, map_i. intros Hlen Hm.
  assert (H : forall i (rest : list GoonValue) (fs : list string),
             length rest = length fs ->
             skipn i values = rest ->
             map_from
               (fun (_ : string) i =>
                  match nth_error (map reference_value values) i,
                        nth_error values i with
                  | Some cell, Some above0 =>
                      if is_marker cell then above0 else cell
                  | Some cell, None => cell
                  | None, _ => VNull
                  end) i fs
             = rest).
  { intros i rest fs. revert i rest.
    induction fs as [|f fs IH]; intros i rest Hl Hs.
    - destruct rest; [reflexivity | discriminate].
    - destruct rest as [|v rest]; [discriminate|].
      apply skipn_head in Hs as [Hv Hs']. cbn [map_from].
      rewrite nth_error_map, Hv. cbn [option_map].
      assert (Hnm : is_marker v = false).
      { rewrite forallb_forall in Hm. apply negb_true_iff, Hm.
        eapply nth_error_In. exact Hv. }
      f_equal; [|apply IH; [cbn in Hl; lia | exact Hs']].
      unfold reference_value. destruct (markable v); [reflexivity|].
      now rewrite Hnm. }
  now apply H.
Qed.

Lemma span_before (p : ascii -> bool) (t : string) (c : ascii) (x : string) :
  p c = false ->
  span p (t ++ String c x)
  = (fst (span p t), snd (span p t) ++ String c x).
Proof.
  intros Hc. induction t as [|a t IH]; cbn [append span].
  - now rewrite Hc.
  - destruct (p a); [|reflexivity]. rewrite IH.
    now destruct (span p t).
Qed.

(** Whether a line starts like a key is decided before its first
    comma. *)
Lemma starts_like_key_before_comma (t x y : string) :
  starts_like_key (t ++ String "," x) = starts_like_key (t ++ String "," y).
Proof.
  unfold starts_like_key, match_key.
  rewrite !span_before by reflexivity.
  destruct (span is_key_char t) as [key rest]. cbn [fst snd].
  destruct (is_empty key); [reflexivity|].
  destruct rest; reflexivity.
Qed.

Lemma references_not_key (enc : GoonValue -> string)
    (values : list GoonValue) :
  starts_like_key (join "," (map enc values)) = false ->
  starts_like_key
    (join "," (map (fun v => if markable v then "^" else enc v) values))
  = false.
Proof.
  destruct values as [|v [|v' values]]; [reflexivity | |].
  - cbn [map]. destruct (markable v); [reflexivity | trivial].
  - cbn [map]. rewrite !join_cons.
    destruct (markable v); [reflexivity|].
    intros H. etransitivity; [|exact H].
    exact (starts_like_key_before_comma (enc v) _ _).
Qed.

Lemma reference_text_not_key (fields : list string) (row : GoonValue) :
  starts_like_key (row_text fields row) = false ->
  starts_like_key (reference_text fields row) = false.
Proof.
  rewrite reference_text_values, referred_map. unfold row_text.
  rewrite <- (map_map (field_value row)
                (fun v => encodePrimitive v no_dictionary false)).
  apply references_not_key.
Qed.

(** What is known of the line of a row equal to the row above it. *)
Lemma reference_text_facts (fields : list string) (row : GoonValue)
    (entries : list string) :
  distinct fields = true -> fields <> [] ->
  table_row fields row = true ->
  let line := reference_text fields row in
  any_char (fun c => Ascii.eqb c LF) line = false
  /\ trim line = line /\ is_empty line = false
  /\ starts_like_key line = false /\ startsWith line "$:" = false
  /\ resolve_row fields (parseRow line entries Comma)
                 (row_values fields row)
     = row_values fields row.
Proof.
  intros Hdistinct Hne Hrow. cbv zeta.
  destruct (table_row_values fields row Hdistinct Hne Hrow)
    as (Hlen & Hfits & Hmarkers & _ & _).
  assert (Hstart : starts_like_key (row_text fields row) = false).
  { unfold table_row in Hrow. apply andb_true_iff in Hrow as [_ H].
    now apply negb_true_iff in H. }
  set (values := row_values fields row) in *.
  assert (Hcells := reference_cells Comma entries values Hfits).
  set (texts := referred values
                  (map (fun v => encodePrimitive v no_dictionary false)
                       values)) in *.
  assert (Etext : reference_text fields row = join "," texts)
    by apply reference_text_values.
  assert (Hfacts : Forall (fun t =>
             any_char is_line_terminator t = false /\ trim t = t
             /\ is_empty t = false /\ startsWith t "$" = false) texts).
  { unfold texts. rewrite referred_map. apply Forall_forall. intros t Ht.
    apply in_map_iff in Ht as (v & <- & Hv).
    destruct (markable v); [repeat split|].
    rewrite forallb_forall in Hfits.
    assert (Hline := fits_cell_fits_line Comma v (Hfits v Hv)).
    destruct (fits_line_text no_dictionary entries v Hline)
      as (H1 & H2 & H3 & _).
    repeat split; try assumption. now apply fits_line_head. }
  assert (Hsome : texts <> []).
  { unfold texts. rewrite referred_map. unfold values, row_values.
    destruct fields; [contradiction | discriminate]. }
  destruct (cells_line_facts texts Hsome Hfacts) as (F1 & F2 & F3 & F4).
  rewrite Etext.
  split; [exact F1|]. split; [exact F2|]. split; [exact F3|].
  split; [rewrite <- Etext; now apply reference_text_not_key|].
  split; [exact F4|].
  replace (parseRow (join "," texts) entries Comma)
    with (map reference_value values)
    by (symmetry;
        exact (parseRow_from_cells Comma entries texts _ [] Hcells)).
  now apply resolve_row_references.
Qed.

Lemma spaces_without_feed (pad : string) :
  all_chars (fun c => is_space c && negb (Ascii.eqb c LF)) pad = true ->
  all_chars is_space pad = true
  /\ any_char (fun c => Ascii.eqb c LF) pad = false.
Proof.
  induction pad as [|c pad IH]; [now split|]. cbn [all_chars any_char].
  intros H. apply andb_true_iff in H as [Hc Hpad].
  apply andb_true_iff in Hc as [Hs Hf]. apply negb_true_iff in Hf.
  destruct (IH Hpad) as [H1 H2]. now rewrite Hs, Hf, H1, H2.
Qed.

Lemma further_advance (k : nat) (ctx : ParseContext) :
  further k (advance ctx) = further (S k) ctx.
Proof. unfold further, advance. cbn. f_equal. lia. Qed.

Lemma not_below (n : nat) (baseIndent : Z) :
  (baseIndent <= 0)%Z -> (Z.of_nat n <? baseIndent)%Z = false.
Proof. intros H. apply Z.ltb_ge. lia. Qed.

(** The rows the decoder reads in the lines of a table of [k + 1] rows
    equal to one another, at the root or under a key of the root, and
    the context the loop ends in. *)
Lemma tabular_rows_repeated_at (pad : string) (fields : list string)
    (row : GoonValue) (baseIndent : Z) :
  (baseIndent <= 0)%Z ->
  all_chars is_space pad = true ->
  distinct fields = true -> fields <> [] ->
  table_row fields row = true ->
  forall k ctx,
    tabular_rows
      ((pad ++ row_text fields row)
       :: List.repeat (pad ++ reference_text fields row) k)
      ctx baseIndent Comma fields [] []
    = (List.repeat (without_prototype row) (S k), further (S k) ctx).
Proof.
  intros Hbase Hpad Hdistinct Hne Hrow.
  assert (Hlater : forall k ctx acc,
             tabular_rows
               (List.repeat (pad ++ reference_text fields row) k)
               ctx baseIndent Comma fields acc (row_values fields row)
             = ((acc ++ List.repeat (without_prototype row) k)%list,
                further k ctx)).
  { induction k as [|k IH]; intros ctx acc.
    - cbn [List.repeat tabular_rows]. rewrite app_nil_r. f_equal.
      unfold further. destruct ctx. cbn. f_equal. lia.
    - destruct (reference_text_facts fields row (dictionary ctx) Hdistinct
                  Hne Hrow) as (_ & Htrim & Hfull & Hstart & Hdollar & Hres).
      destruct (table_row_values fields row Hdistinct Hne Hrow)
        as (_ & _ & _ & _ & Hobj).
      cbn [List.repeat tabular_rows]. cbv zeta.
      rewrite (not_below _ _ Hbase), (trim_indented pad _ Hpad), Htrim,
        Hfull, Hstart, Hdollar.
      cbn [orb]. rewrite Hres, Hobj, IH, <- app_assoc, further_advance.
      reflexivity. }
  intros k ctx.
  destruct (table_row_facts fields row (dictionary ctx) Hdistinct Hne Hrow)
    as (_ & Htrim & Hfull & _ & Hstart & Hdollar & _ & _).
  destruct (table_row_values fields row Hdistinct Hne Hrow)
    as (Hlen & Hfits & Hmarkers & Etext & Hobj).
  assert (Hvalues : resolve_row fields
                      (parseRow (row_text fields row) (dictionary ctx) Comma)
                      []
                    = row_values fields row).
  { rewrite Etext.
    replace (parseRow _ (dictionary ctx) Comma)
      with (row_values fields row)
      by (symmetry;
          exact (parseRow_from_cells Comma (dictionary ctx) _ _ []
                   (fits_cell_texts Comma no_dictionary (dictionary ctx) _
                      Hfits))).
    now apply resolve_row_plain. }
  cbn [tabular_rows]. cbv zeta.
  rewrite (not_below _ _ Hbase), (trim_indented pad _ Hpad), Htrim, Hfull,
    Hstart, Hdollar.
  cbn [orb app]. rewrite Hvalues, Hobj, Hlater, further_advance. reflexivity.
Qed.

Lemma decode_repeated_table (pad : string) (fields : list string)
    (row : GoonValue) (n : nat) :
  all_chars (fun c => is_space c && negb (Ascii.eqb c LF)) pad = true ->
  distinct fields = true -> fields <> [] ->
  forallb table_field fields = true ->
  table_row fields row = true ->
  (utf8_length (join LF_STR (repeated_table None pad fields row n))
   <= MAX_INPUT_SIZE)%Z ->
  decode (join LF_STR (repeated_table None pad fields row n)) no_reviver
  = Returns (VArr (List.repeat (without_prototype row) (S (S n)))).
Proof.
  intros Hpad Hdistinct Hne Hfields Hrow Hsize.
  destruct (spaces_without_feed pad Hpad) as [Hspaces Hfeed].
  destruct (table_header_facts (S (S n)) fields Hne Hfields)
    as (H1 & H2 & H3 & H4 & H5 & H6 & H7 & H8 & H9 & H10).
  unfold repeated_table, with_key in *.
  set (header := table_header (S (S n)) fields) in *.
  set (body := (pad ++ row_text fields row)
               :: List.repeat (pad ++ reference_text fields row) (S n)) in *.
  destruct (table_row_facts fields row [] Hdistinct Hne Hrow)
    as (R1 & R2 & R3 & _).
  destruct (reference_text_facts fields row [] Hdistinct Hne Hrow)
    as (F1 & F2 & F3 & _).
  assert (Hbody : Forall (fun line =>
             any_char (fun c => Ascii.eqb c LF) line = false
             /\ is_empty (trim line) = false) body).
  { unfold body. constructor.
    - rewrite any_char_append, Hfeed, R1, (trim_indented pad _ Hspaces), R2.
      now split.
    - apply Forall_forall. intros line Hline.
      apply repeat_spec in Hline. subst line.
      rewrite any_char_append, Hfeed, F1, (trim_indented pad _ Hspaces), F2.
      now split. }
  assert (Hlines : input_lines (join LF_STR (header :: body))
                   = header :: body).
  { apply split_lines; [discriminate|].
    constructor; [split; [exact H1 | now rewrite H2]| exact Hbody]. }
  unfold decode.
  rewrite (decode_accepts_small _ no_reviver Hsize). cbv zeta.
  rewrite Hlines, H5. cbn [length Nat.eqb Nat.leb].
  unfold parseRoot, line_at.
  cbn [Decode.lines index nth_error]. cbv zeta.
  rewrite H2, H6, H7, H8.
  unfold parseTabularArray. cbv zeta.
  unfold deeper, advance. cbn [Decode.lines index dictionary indent depth].
  change (0 + 1 >? MAX_RECURSION_DEPTH)%Z with false. cbv iota.
  rewrite H9. cbn [delimiter_char]. rewrite H10. cbn [skipn].
  match goal with
  | |- context [tabular_rows body ?ctx (-1)%Z Comma fields [] []] =>
      assert (Hloop := tabular_rows_repeated_at pad fields row (-1)
                         ltac:(lia) Hspaces Hdistinct Hne Hrow (S n) ctx);
      fold body in Hloop; rewrite Hloop
  end.
  reflexivity.
Qed.

Lemma reference_tables_facts {Indent} (opts : Options Indent) :
  reference_tables opts = true ->
  use_column_refs opts 0 = true
  /\ schemaDefaults opts = false /\ footerSummaries opts = false
  /\ rowNumbers opts = false /\ arrayLengths opts = true
  /\ tabularArrays opts = true /\ delimiter opts = Comma.
Proof.
  unfold reference_tables. intros H.
  do 6 (apply andb_true_iff in H as [H ?]).
  repeat match goal with
         | H : negb _ = true |- _ => apply negb_true_iff in H
         end.
  destruct (delimiter opts); try discriminate. repeat split; assumption.
Qed.

Lemma typed_reference_tables (spreadOpts : SpreadOptions)
    (opts : InternalOptions) :
  typed spreadOpts = Some opts ->
  reference_tables opts = reference_tables spreadOpts.
Proof. intros H. untype H. reflexivity. Qed.

(** A dictionary without entries is the empty dictionary. *)
Lemma dictionary_without_entries {Indent} (opts : Options Indent)
    (value : GoonValue) :
  entries (dictionary_for opts value) = [] ->
  dictionary_for opts value = no_dictionary.
Proof.
  unfold dictionary_for. destruct (Encode.dictionary opts); [|reflexivity].
  assert (Hal := buildDictionary_aligned value (minDictLength opts)
                   (minDictOccurrences opts) (maxDictEntries opts)).
  destruct (buildDictionary _ _ _ _) as [es lk].
  unfold aligned in Hal. cbn [entries lookup] in *. intros ->.
  now rewrite Hal.
Qed.

Lemma map_constant' {A B} (f : A -> B) (b : B) (l : list A) :
  (forall a, f a = b) -> map f l = List.repeat b (length l).
Proof.
  intros H. induction l as [|a l IH]; [reflexivity|].
  cbn. now rewrite H, IH.
Qed.

Lemma encodeTabularArray_references (opts : InternalOptions)
    (row : GoonValue) (n : nat) (fields : list string)
    (parentKey : option string) :
  reference_tables opts = true ->
  Object_keys row = fields -> fields <> [] ->
  forallb table_field fields = true ->
  encodeTabularArray (List.repeat row (S (S n))) 0 opts no_dictionary
                     parentKey
  = repeated_table parentKey (row_indent opts) fields row n.
Proof.
  intros Hopts Hkeys Hne Hfields.
  destruct (reference_tables_facts opts Hopts)
    as (Hrefs & Hdefaults & Hfooter & Hnumbers & Hlengths & _ & Hdelim).
  unfold encodeTabularArray.
  change (match List.repeat row (S (S n)) with
          | first :: _ => Object_keys first
          | [] => []
          end) with (Object_keys row).
  rewrite Hkeys, (table_field_safe fields Hfields).
  assert (Hlen : (length fields =? 0) = false)
    by (destruct fields; [contradiction | reflexivity]).
  rewrite Hlen, Hrefs. cbv zeta.
  rewrite autoSort_repeat.
  replace (if autoSort opts && true
              && (1 <? length (List.repeat row (S (S n))))
           then List.repeat row (S (S n)) else List.repeat row (S (S n)))
    with (row :: List.repeat row (S n))
    by (destruct (_ && _ && _); reflexivity).
  unfold compute_fieldDefaults. rewrite Hdefaults, Hlengths, Hdelim.
  cbn [encode_rows]. rewrite encode_rows_repeated.
  rewrite footer_off, app_nil_r by exact Hfooter.
  assert (Hcells : row_cells opts no_dictionary true
                     (use_dictionary opts (0 + 1)) [] fields None row
                   = map (fun f => encodePrimitive (field_value row f)
                                                   no_dictionary false)
                         fields).
  { unfold row_cells, map_i.
    rewrite (map_from_ext_in _
               (fun f (_ : nat) =>
                  encodePrimitive (field_value row f) no_dictionary false)).
    - apply map_from_const.
    - intros f i _. unfold encode_cell. rewrite Hdefaults. cbn [andb].
      now apply encodePrimitive_no_lookup. }
  rewrite Hcells. unfold repeated_table. f_equal; [|f_equal].
  - cbn [repeat_string append]. f_equal.
    unfold table_header. cbn [delimiter_string delimiter_char append assoc].
    rewrite repeat_length, map_id. now rewrite !append_assoc.
  - unfold row_line, row_indent. rewrite Hnumbers, Hdelim. reflexivity.
  - rewrite map_constant' with (b := row_indent opts
                                      ++ reference_text fields row).
    + now rewrite length_seq.
    + intros j. unfold row_line, row_indent, reference_text.
      rewrite Hnumbers, Hdelim. reflexivity.
Qed.

Lemma encode_repeated_table (row : GoonValue) (n : nat)
    (fields : list string) (mode : option EncodeMode)
    (options : PartialOptions) :
  let rows := List.repeat row (S (S n)) in
  rows_behind_spaces {| mode := mode; replacer := None; fields := options |}
  = true ->
  reference_tables
    (resolve_options {| mode := mode; replacer := None; fields := options |})
  = true ->
  entries
    (dictionary_for
       (resolve_options
          {| mode := mode; replacer := None; fields := options |})
       (VArr rows))
  = [] ->
  isTabularArray rows = true ->
  fields <> [] -> forallb table_field fields = true ->
  table_row fields row = true ->
  all_chars (fun c => is_space c && negb (Ascii.eqb c LF))
            (root_row_indent
               {| mode := mode; replacer := None; fields := options |})
  = true
  /\ encode (VArr rows)
            {| mode := mode; replacer := None; fields := options |}
     = Ok (join LF_STR
             (repeated_table None
                (root_row_indent
                   {| mode := mode; replacer := None; fields := options |})
                fields row n)).
Proof.
  intros rows Hpad Hopts Hentries Htab Hne Hfields Hrow.
  unfold rows_behind_spaces in Hpad. unfold encode, root_row_indent.
  destruct (typed (resolve_options _)) as [opts|] eqn:Htyped;
    [|discriminate Hpad].
  split; [exact Hpad|].
  rewrite <- (typed_reference_tables _ opts Htyped) in Hopts.
  rewrite <- (typed_dictionary_for _ opts (VArr rows) Htyped) in Hentries.
  destruct (reference_tables_facts _ Hopts)
    as (_ & _ & _ & _ & _ & Htabular & _).
  cbn [replacer bind]. cbv zeta.
  rewrite (dictionary_without_entries opts (VArr rows) Hentries).
  cbn [entries no_dictionary length Nat.ltb Nat.leb app].
  rewrite encodeValue_unfold.
  change (0 >=? MAX_RECURSION_DEPTH)%Z with false. cbv iota.
  rewrite encodeArray_of_unfold. unfold encodeArray_body.
  change (length rows =? 0) with false. cbv iota.
  rewrite Htabular, Htab. cbn [andb bind]. unfold rows.
  rewrite (encodeTabularArray_references opts row n fields None Hopts);
    try assumption; [reflexivity|].
  unfold table_row in Hrow. apply andb_true_iff in Hrow as [Hrow _].
  apply andb_true_iff in Hrow as [Hkeys _].
  now apply same_strings_eq.
Qed.

Lemma encode_keyed_table (key : string) (row : GoonValue) (n : nat)
    (fields : list string) (mode : option EncodeMode)
    (options : PartialOptions) :
  let rows := List.repeat row (S (S n)) in
  rows_behind_spaces {| mode := mode; replacer := None; fields := options |}
  = true ->
  reference_tables
    (resolve_options {| mode := mode; replacer := None; fields := options |})
  = true ->
  entries
    (dictionary_for
       (resolve_options
          {| mode := mode; replacer := None; fields := options |})
       (object [(key, VArr rows)]))
  = [] ->
  isSafeKey key = true ->
  isTabularArray rows = true ->
  fields <> [] -> forallb table_field fields = true ->
  table_row fields row = true ->
  all_chars (fun c => is_space c && negb (Ascii.eqb c LF))
            (root_row_indent
               {| mode := mode; replacer := None; fields := options |})
  = true
  /\ encode (object [(key, VArr rows)])
            {| mode := mode; replacer := None; fields := options |}
     = Ok (join LF_STR
             (repeated_table (Some key)
                (root_row_indent
                   {| mode := mode; replacer := None; fields := options |})
                fields row n)).
Proof.
  intros rows Hpad Hopts Hentries Hsafe Htab Hne Hfields Hrow.
  unfold rows_behind_spaces in Hpad. unfold encode, root_row_indent.
  destruct (typed (resolve_options _)) as [opts|] eqn:Htyped;
    [|discriminate Hpad].
  split; [exact Hpad|].
  rewrite <- (typed_reference_tables _ opts Htyped) in Hopts.
  rewrite <- (typed_dictionary_for _ opts _ Htyped) in Hentries.
  destruct (reference_tables_facts _ Hopts)
    as (_ & _ & _ & _ & _ & Htabular & _).
  cbn [replacer bind]. cbv zeta.
  rewrite (dictionary_without_entries opts _ Hentries).
  cbn [entries no_dictionary length Nat.ltb Nat.leb app].
  unfold object. rewrite encodeValue_unfold.
  change (0 >=? MAX_RECURSION_DEPTH)%Z with false. cbv iota.
  rewrite encodeObject_of_unfold. unfold encodeObject_body.
  change (0 + 1 >=? MAX_RECURSION_DEPTH)%Z with false. cbv iota zeta.
  cbn [filter fst for_each_where]. rewrite Hsafe.
  cbn [length Nat.eqb isPrimitive isArray].
  rewrite encodeArray_of_unfold. unfold encodeArray_body.
  change (length rows =? 0) with false. cbv iota.
  rewrite Htabular, Htab. cbn [andb bind app]. unfold rows.
  rewrite (encodeTabularArray_references opts row n fields (Some key) Hopts);
    try assumption; [now rewrite app_nil_r|].
  unfold table_row in Hrow. apply andb_true_iff in Hrow as [Hrow _].
  apply andb_true_iff in Hrow as [Hkeys _].
  now apply same_strings_eq.
Qed.

(** The indentation unit the decoder detects is made of white space. *)
Lemma detectIndent_spaces (lines : list string) :
  all_chars is_space (detectIndent lines) = true.
Proof.
  induction lines as [|line lines IH]; [reflexivity|].
  cbn [detectIndent].
  destruct (fst (span is_space line)) as [|firstChar leading];
    [exact IH|].
  destruct (Ascii.eqb firstChar TAB); [reflexivity|].
  generalize (Nat.min
                (String.length
                   (fst (span (Ascii.eqb " ") (String firstChar leading))))
                8).
  intros k. induction k as [|k IHk]; [reflexivity|].
  cbn [repeat_string append all_chars]. exact IHk.
Qed.

Lemma level_of_flush_line (c : ascii) (r ind : string) :
  is_space c = false -> all_chars is_space ind = true ->
  getIndentLevel (String c r) ind = 0.
Proof.
  intros Hc Hind. destruct ind as [|x ind].
  - reflexivity.
  - apply getIndentLevel_zero. cbn [startsWith].
    cbn [all_chars] in Hind. apply andb_true_iff in Hind as [Hx _].
    destruct (Ascii.eqb_spec c x) as [->|_]; [congruence | reflexivity].
Qed.

Lemma decode_keyed_table (key pad : string) (fields : list string)
    (row : GoonValue) (n : nat) :
  record_key key = true ->
  all_chars (fun c => is_space c && negb (Ascii.eqb c LF)) pad = true ->
  distinct fields = true -> fields <> [] ->
  forallb table_field fields = true ->
  table_row fields row = true ->
  (utf8_length (join LF_STR (repeated_table (Some key) pad fields row n))
   <= MAX_INPUT_SIZE)%Z ->
  decode (join LF_STR (repeated_table (Some key) pad fields row n))
         no_reviver
  = Returns
      (VObj NullPrototype
         [(key, VArr (List.repeat (without_prototype row) (S (S n))))]).
Proof.
  intros Hkey Hpad Hdistinct Hne Hfields Hrow Hsize.
  destruct (spaces_without_feed pad Hpad) as [Hspaces Hfeed].
  destruct (table_header_facts (S (S n)) fields Hne Hfields)
    as (H1 & H2 & H3 & H4 & H5 & H6 & H7 & H8 & H9 & H10).
  unfold record_key in Hkey.
  apply andb_true_iff in Hkey as [Hkey Hsafe].
  apply andb_true_iff in Hkey as [Hkey _].
  apply andb_true_iff in Hkey as [Hfull Hchars].
  apply negb_true_iff in Hfull.
  unfold repeated_table, with_key in *.
  set (header := table_header (S (S n)) fields) in *.
  set (body := (pad ++ row_text fields row)
               :: List.repeat (pad ++ reference_text fields row) (S n)) in *.
  destruct (table_row_facts fields row [] Hdistinct Hne Hrow)
    as (R1 & R2 & R3 & _).
  destruct (reference_text_facts fields row [] Hdistinct Hne Hrow)
    as (F1 & F2 & F3 & _).
  destruct key as [|k key'] eqn:Ekey; [discriminate Hfull|].
  rewrite <- Ekey in *.
  assert (Hk : is_key_char k = true).
  { rewrite Ekey in Hchars. cbn [all_chars] in Hchars.
    now apply andb_true_iff in Hchars as [Hk _]. }
  destruct (key_char_facts k Hk) as (Hkspace & _ & _).
  assert (Hshape : key ++ header = String k (key' ++ header))
    by now rewrite Ekey.
  assert (Hrest : forall c r, header = String c r -> is_key_char c = false).
  { unfold header, table_header. cbn [append]. intros c r E.
    now inversion E. }
  assert (Hmatch : match_key (key ++ header) = Some (key, header))
    by now apply match_key_line.
  assert (Hheader : any_char (fun c => Ascii.eqb c LF) (key ++ header) = false
                    /\ trim (key ++ header) = key ++ header).
  { split.
    - rewrite any_char_append, H1, orb_false_r.
      apply (any_char_all is_key_char); [|exact Hchars].
      intros c Hc. apply (key_char_facts c Hc).
    - apply trim_between; [| exact Hfull | | exact H3].
      + intros c r E. rewrite Ekey in E. inversion E; now subst.
      + intros c r E. exact (trim_fixed_last header c r H2 E). }
  destruct Hheader as [K1 K2].
  assert (Hbody : Forall (fun line =>
             any_char (fun c => Ascii.eqb c LF) line = false
             /\ is_empty (trim line) = false) body).
  { unfold body. constructor.
    - rewrite any_char_append, Hfeed, R1, (trim_indented pad _ Hspaces), R2.
      now split.
    - apply Forall_forall. intros line Hline.
      apply repeat_spec in Hline. subst line.
      rewrite any_char_append, Hfeed, F1, (trim_indented pad _ Hspaces), F2.
      now split. }
  assert (Hlines : input_lines (join LF_STR ((key ++ header) :: body))
                   = (key ++ header) :: body).
  { apply split_lines; [discriminate|].
    constructor; [|exact Hbody]. split; [exact K1|].
    rewrite K2, Hshape. reflexivity. }
  unfold decode.
  rewrite (decode_accepts_small _ no_reviver Hsize). cbv zeta.
  rewrite Hlines.
  set (ind := detectIndent ((key ++ header) :: body)).
  assert (Hind : all_chars is_space ind = true) by apply detectIndent_spaces.
  clearbody ind.
  destruct (key_line_shape k (key' ++ header) Hk)
    as (S1 & S2 & S3 & S4 & S5 & _).
  rewrite <- Hshape in S1, S2, S3, S4, S5.
  rewrite S5. cbn [length Nat.eqb Nat.leb].
  assert (Hstart : starts_like_key (key ++ header) = true).
  { unfold starts_like_key. rewrite Hmatch. reflexivity. }
  unfold parseRoot, line_at. cbn [Decode.lines index nth_error]. cbv zeta.
  rewrite K2, S1, S2, S3, S4, Hstart. cbn [orb].
  assert (Hfuel : exists fuel,
             fuel_for ((key ++ header) :: body) = S (S (S fuel))).
  { unfold fuel_for, body. cbn [length]. eexists.
    rewrite Nat.add_comm. cbn [Nat.add Nat.mul]. rewrite Nat.add_succ_r.
    reflexivity. }
  destruct Hfuel as [fuel ->].
  cbn [parseObject parseObject_loop]. unfold parseObject_body. cbv zeta.
  unfold deeper at 1. cbn [depth].
  change (0 + 1 >? MAX_RECURSION_DEPTH)%Z with false. cbv iota.
  unfold parseObject_turn at 1. unfold line_at at 1.
  cbn [Decode.lines index deeper nth_error]. cbv zeta.
  cbn [Decode.indent]. rewrite K2, Hshape.
  rewrite (level_of_flush_line k _ ind Hkspace Hind). rewrite <- Hshape.
  change (Z.of_nat 0) with 0%Z. cbn [Z.ltb Z.gtb Z.compare].
  unfold keyValueMatch, emptyObjMatch, emptyArrMatch, tabularMatch.
  rewrite Hmatch.
  assert (Hcolon : match header with
                   | String ":" r => false
                   | _ => true
                   end = true) by reflexivity.
  unfold header at 1, table_header at 1. cbn [append]. fold header.
  rewrite H6, H7.
  change (match_fields (skip_count header))
    with (standaloneTabularMatch header).
  rewrite H8, Hsafe.
  unfold parseTabularArray. cbv zeta.
  unfold deeper, advance. cbn [Decode.lines index dictionary indent depth].
  change (0 + 1 + 1 >? MAX_RECURSION_DEPTH)%Z with false. cbv iota.
  rewrite H9. cbn [delimiter_char]. rewrite H10. cbn [skipn].
  rewrite (tabular_rows_repeated_at pad fields row 0 ltac:(lia) Hspaces
             Hdistinct Hne Hrow (S n)).
  unfold parseObject_turn, line_at, shallower, further.
  cbn [Decode.lines index dictionary indent depth].
  rewrite (proj2 (nth_error_None _ _))
    by (unfold body; cbn [length]; rewrite repeat_length; lia).
  cbn [set_prop]. reflexivity.
Qed.

Lemma referred_cell (values : list GoonValue) (cells : list string)
    (i : nat) (v : GoonValue) (cell : string) :
  nth_error values i = Some v -> nth_error cells i = Some cell ->
  nth_error (referred values cells) i
  = Some (if markable v then "^" else cell).
Proof.
  unfold referred. revert cells i.
  induction values as [|x values IH]; intros [|c cells] [|i] Hv Hc;
    try discriminate.
  - cbn in *. now inversion Hv; inversion Hc; subst.
  - cbn [combine map nth_error] in *. now apply IH.
Qed.



